(* ===== verification/_CoqProject ===== *)
-Q . S2P
Prelude.v
DList.v
Bits.v
Config.v
ConfigTheorems.v
Cache.v
CacheSpec.v
CacheLife.v
CacheLRU.v
CacheTheorems.v
CacheSim.v
CacheSimTheorems.v
Bpred.v
BpredTheorems.v
InstQueue.v
InstQueueRep.v
InstQueueInit.v
InstQueueTheorems.v
DarmTbl.v
Darm.v
DarmTheorems.v
ThumbTbl.v
Thumb.v
Thumb2Decoder.v
Thumb2.v
ThumbTheorems.v
Inst.v
InstTheorems.v
Double.v
DoubleRange.v
DoublePos.v
Rob.v
TraceAnalyzer.v
PipelineInv.v
PipelineTrace.v
PipelineStats.v
PipelineCommit.v
PipelineExec.v
PipelineRing.v
PipelineIssue.v
PipelineExpand.v
PipelineDeps.v
PipelineDispatch.v
PipelineCycle.v
PipelineRun.v
BufferManager.v
BufferText.v
Record.v
DarmStrTbl.v
DarmStr.v
DarmStrTheorems.v
Neon.v
GuestArith.v
Cpsr.v
NeonLanes.v
NeonSat.v
NeonShift.v
NeonSwar.v
NeonPoly.v
NeonZip.v
NeonTheorems.v
GuestTheorems.v
GuestSimd.v
CpsrTheorems.v
PipelineTheorems.v
BufferTheorems.v
Perfmodel.v
PerfmodelInv.v
Sampling.v
SamplingInv.v
SamplingTheorems.v
Memmap.v
Ring.v
Channel.v
HsimComm.v
HsimStub.v
HsimTheorems.v
