(* ===== verification/Prelude.v ===== *)
(** * A verification of tqsim, the timed QEMU simulator

    tqsim is QEMU with a timing simulator built in.  The translated guest code calls a helper for
    every instruction, branch and data access.  The helpers drive a cache hierarchy and a branch
    predictor for the whole run, and record samples of the instruction stream.  A sample is
    analyzed in a second thread by a cycle-accurate out-of-order pipeline; its result calibrates
    a performance model, which turns the counts of instructions, misses and mispredictions into
    cycles.  In the build with HSIM the core is one part of a larger system: accesses to shared
    memory and the elapsed cycles are sent to another process.  The code of the simulator is
    src/src/hsim-stub (called hsim-stub below, with its directory trace_analyzer) and the end of
    src/src/target-arm/op_helper.c; the rest of src/src is QEMU.  Of QEMU the integer helpers of
    the guest CPU in src/src/target-arm are modelled too: they compute what the instructions that
    the simulator counts do.

    ** Conventions

    A C function is a Gallina function of the same name on explicit state.  The static variables
    of a file are a record, an object on the heap is an entry of a [gmap] from [ptr], an array is
    a list.  [None] is undefined behaviour (a null, dangling or out-of-range access, overflow of
    an [int], division by zero), a call that never returns, or, in a loop with fuel, the fuel
    running out; a theorem that a call gives [Some] therefore says that it is safe and ends.
    Integers are [Z] with the wrap-around of their width written out; [double] is IEEE 754
    binary64 (Double.v).  What C leaves undefined without failing is a parameter: uninitialised
    memory ([junk]), a shift by the width of its operand ([shl_32], and the mask of the branch
    history), [__builtin_ctz (0)] ([ctz_0]).  Random numbers are arguments.  In the helpers of
    the guest CPU, whose code relies on it, signed overflow and the left shift of a negative number
    keep the low bits of the exact result.  For the shift GCC promises that; for the overflow C
    leaves the result undefined, and it is an assumption of the model.

    ** The parts and their files

    - Prelude.v (this file): machine integers, arrays, loops, record update, generic lemmas.
      DList.v: doubly linked lists in a heap, an interface ([DNode]) with three instances: cache
      sets, instruction queues, the memory map.  Bits.v: equality of words built from masks and
      shifts, decided bit by bit.  Double.v, DoubleRange.v, DoublePos.v: [double]
      and bounds of its operations.
    - Config.v, ConfigTheorems.v: config.c.  The XML document is the tree libxml2 returns.
    - Cache.v: cache.c, blocks in linked lists.  CacheSpec.v has the abstract cache it refines,
      CacheLife.v creation and closing, CacheLRU.v the LRU stack, CacheTheorems.v the properties.
      CacheSim.v, CacheSimTheorems.v: cachesim.c, three caches in one heap.
    - Bpred.v, BpredTheorems.v: sat_counter.c, bpred_bimod.c, bpredsim.c, bpred_2bit_local.c.
    - InstQueue.v: inst_queue.c.  InstQueueRep.v states what a queue promises as a class
      ([QueueLaws]) and proves that the linked lists are an instance; InstQueueInit.v the initial
      state, InstQueueTheorems.v the refinement.  The pipeline is proved against the class.
    - DarmTbl.v, Darm.v, DarmTheorems.v: the ARM disassembler (darm/armv7.c, armv7-tbl.c, and
      darm_reglist2 of darm.c).  ThumbTbl.v, Thumb.v, Thumb2Decoder.v, Thumb2.v, ThumbTheorems.v:
      the Thumb and Thumb-2 disassemblers and darm_disasm.  DarmStrTbl.v, DarmStr.v,
      DarmStrTheorems.v: the text of an instruction (darm_str, print_inst).  Inst.v,
      InstTheorems.v: inst.c.
    - Rob.v: rob.c, dep_mat.c, fu.c.  TraceAnalyzer.v: trace_analyzer.c, every stage and the main
      loop.  PipelineInv.v has the invariant and the work that is left; PipelineTrace.v to
      PipelineDispatch.v treat one stage each; PipelineCycle.v, PipelineRun.v a cycle and a whole
      run; PipelineTheorems.v the properties.
    - BufferManager.v, BufferText.v, Record.v, BufferTheorems.v: buffer_manager.c, the recorded
      trace and its log file.
    - Perfmodel.v, PerfmodelInv.v: perfmodel.c.  Sampling.v: the helpers of op_helper.c, the
      thread interface trace_analyzer_thread_if.c and gdb_exit of gdbstub.c.  SamplingInv.v,
      SamplingTheorems.v: the composition of everything above.
    - Memmap.v: hsim_mmap.c.  Ring.v, Channel.v: packet_buffer.c, ringbuffer.h, spm_buffer.c, and
      two processes that share a ring.  HsimComm.v: packets (hsim_packet.h) and their transfer
      through pipes and sockets (hsim_comm.c).  HsimStub.v, HsimTheorems.v: hsim_stub.c,
      hsim_comm.c in shared-memory mode, and the helpers of op_helper.c in the build with HSIM.
    - Neon.v, NeonLanes.v, NeonSat.v, NeonShift.v, NeonSwar.v, NeonPoly.v, NeonZip.v: the vector
      helpers (target-arm/neon_helper.c) and their lemmas by kind of helper; NeonTheorems.v has the
      tables of helpers and exact functions and the properties.  GuestArith.v, GuestTheorems.v,
      GuestSimd.v: the integer helpers of op_helper.c, helper.c and op_addsub.h.  Cpsr.v,
      CpsrTheorems.v: the program status register.  A helper is a function of its operands, with
      the flags it changes as further arguments and results.

    ** What is shown

    - Whole simulations ([simulation_safe]): from the configuration document to the estimate at
      exit there is no undefined behaviour, no overflow, no data race between the two threads,
      every analysis ends and every instruction is counted; [estimates_defined] bounds the
      [double]s of the performance model over any number of samples.
    - The pipeline ([samples_terminate], [cycle_makes_progress], [commit_in_order]): each sample
      is analyzed in a bounded number of cycles, every cycle reduces the work that is left, and
      instructions are committed in order.  [has_dependency_exact] says what an instruction waits
      for; the lemma [in_order_ignores_wrap] shows the case the code forgets.
    - Caches: [cache_access_refines], [lru_exact], [lru_inclusion], [cache_statistics],
      [cache_lifecycle], [cachesim_exact] and others relate the linked lists to stacks of lines.
      Predictors: [bpred_safe], [bpred_learns].
    - Queues and buffers: [queues_refine_lists], [buffer_records], [log_round_trip].
    - Decoding: [darm_disasm_exact] (all words of the three instruction sets), [reglist_exact],
      [branch_roundtrip] and [cbz_offset] (the offsets of branches, and where they are wrong),
      [darm_str_in_bounds], and [decode_exact], which says exactly which words overflow the
      register arrays.
    - The connection to the rest of the system: [memmap_is_a_table], [ring_is_a_queue],
      [channel_in_order] and [channel_delivers] for every interleaving, [packet_round_trip],
      [cycles_reported], [local_round_trip].  Lemmas show the errors that the code makes:
      [register_read_loses_cycles], [shared_signed_load], [send_error_reads_outside],
      [cbWrite_overrun].
    - The guest CPU: each helper is the function on mathematical integers that its instruction
      names, for all operands.  [neon_saturating_exact], [neon_lanes_exact],
      [neon_polynomials_exact], [neon_zip_exact] for vectors; [guest_saturation_exact],
      [guest_shifts_exact], [guest_bytes_exact], [parallel_arithmetic_exact] for registers;
      [cpsr_write_read] for the status register.

    ** Bounds and fuel

    A run of the pipeline gets fuel for its cycles.  [inst_bound] is 17 * (L2 latency + 26) cycles
    per recorded instruction: itself and at most 16 micro-operations, each of which passes
    through every stage in that many cycles; [samples_terminate] shows it is enough.  Walks along
    a list get the number of nodes as fuel, register lists 32 steps for 16 registers.  The loops of
    the guest helpers are bounded by the width of an element: eight rounds for a polynomial product
    of bytes, as many as there are bits for counting leading zeros.
    [workable] collects what a configuration must satisfy: three caches whose
    sets, ways and blocks are not empty and whose index and offset fit an address, a sample not
    longer than its period nor than the trace buffer of a million instructions, latencies below
    2^27, a reorder buffer of at most 60 entries, and at least one integer unit and one multiplier.  A simulation has fewer than 2^30 helper calls and at most 53
    million branches, so that the [int] products in the estimate cannot overflow.

    ** Assumptions about the environment

    The order of helper calls is arbitrary: it is what the translator generates.  Threads: an
    analysis runs between its creation and its join, and the model rejects any access of the main
    thread to the trace buffer or the analyzer in between.  Shared memory: loads and stores of
    the two processes are interleaved in program order (the x86 order of stores; the indices are
    volatile).  The other process answers a request with any packet and may change the shared
    registers with it.  [read] and [write] transfer any number of bytes up to the number asked for.

    ** Not modelled

    QEMU itself: devices, the code generator, system emulation, and the floating-point helpers,
    which call its softfloat library.  The calls of the helpers that the translator emits are
    spread over its instruction decoder (target-arm/translate.c), whose output is code for the
    generator; the theorems hold for every order of calls instead.  The second copy of darm in
    hsim-stub/darm (never called, and identical).  Printing: reports, darm_dump, and statistics.c,
    whose counters nothing updates.  Opening sockets, pipes and shared segments, and set_affinity:
    calls of the operating system.  trace_analyzer/main.c, which does not compile against the
    present interface. *)

From Stdlib Require Import ZArith Lia String.
From stdpp Require Import base tactics option list list_numbers numbers gmap functions.

#[global] Open Scope Z_scope.

(** ** Machine integers

    A C integer of width [w] is a [Z]; [uN z] is the value an assignment of [z] to
    an unsigned [N]-bit variable stores, [sN z] the value stored in a signed one
    (two's complement, as on every host the simulator is built for). *)

Definition wrap (w z : Z) : Z := z mod 2 ^ w.
Definition swrap (w z : Z) : Z := (z + 2 ^ (w - 1)) mod 2 ^ w - 2 ^ (w - 1).

Definition u8 (z : Z) : Z := wrap 8 z.
Definition u16 (z : Z) : Z := wrap 16 z.
Definition u32 (z : Z) : Z := wrap 32 z.
Definition u64 (z : Z) : Z := wrap 64 z.
Definition s8 (z : Z) : Z := swrap 8 z.
Definition s32 (z : Z) : Z := swrap 32 z.

Declare Scope word_scope.
Delimit Scope word_scope with W.
(** C's precedence: shifts bind looser than [+], then [&], [^] and [|]. *)
Notation "a .>> n" := (Z.shiftr a n) (at level 54, left associativity) : word_scope.
Notation "a .<< n" := (Z.shiftl a n) (at level 54, left associativity) : word_scope.
Notation "a .& b" := (Z.land a b) (at level 56, left associativity) : word_scope.
Notation "a .^ b" := (Z.lxor a b) (at level 57, left associativity) : word_scope.
Notation "a .| b" := (Z.lor a b) (at level 58, left associativity) : word_scope.
#[global] Open Scope word_scope.

(** ** Undefined behaviour

    Fallible code lives in the [option] monad: [None] is an access the C standard
    gives no meaning to (a null or dangling pointer, an index outside its array) or,
    in a loop with fuel, the fuel running out. *)

Abbreviation ptr := positive.

Section Arrays.
Context {A : Type}.

Definition arr_get (l : list A) (i : Z) : option A :=
  if i <? 0 then None else l !! Z.to_nat i.

Definition arr_set (l : list A) (i : Z) (x : A) : option (list A) :=
  if (i <? 0) || (Z.of_nat (length l) <=? i) then None
  else Some (<[Z.to_nat i := x]> l).

(** [upd h p f]: the object at [p] is replaced by its image under [f]; the access
    fails when [p] is not allocated. *)
Definition upd (h : gmap ptr A) (p : ptr) (f : A → A) : option (gmap ptr A) :=
  n ← h !! p; Some (<[p := f n]> h).
End Arrays.

(** [for_up n i f s]: [for (; n; n--, i++) s = f i s]. *)
Fixpoint for_up {S : Type} (n : nat) (i : Z) (f : Z → S → option S) (s : S) : option S :=
  match n with
  | O => Some s
  | Datatypes.S n' => s' ← f i s; for_up n' (i + 1) f s'
  end.

(** The body of [for (i = 0; i < n; i++)]. *)
Definition for_lt {S : Type} (n : Z) (f : Z → S → option S) (s : S) : option S :=
  for_up (Z.to_nat n) 0 f s.

(** The body of [for (i = n-1; i >= 0; i--)]. *)
Fixpoint for_down {S : Type} (n : nat) (f : Z → S → option S) (s : S) : option S :=
  match n with
  | O => Some s
  | Datatypes.S n' => s' ← f (Z.of_nat n') s; for_down n' f s'
  end.

(** ** Record update

    [x <| f := v |>] is the structure [x] with its member [f] assigned [v].  A structure
    lists its members once, in an instance of [Settable]; the update of one of them is
    derived from it. *)

Class Settable (R : Type) := eta : R → R.
Class Setter {R T : Type} (proj : R → T) := upd_member : (T → T) → R → R.
Arguments upd_member {R T} proj {_} _ _ /.

Ltac get_setter :=
  match goal with
  | |- @Setter ?R _ ?proj =>
      let i := constr:(_ : Settable R) in
      let e := eval red in i in
      let e := eval hnf in e in
      match eval pattern proj in e with
      | ?g _ => let s := eval cbv beta in (λ f, g (λ r, f (proj r))) in exact s
      end
  end.
#[export] Hint Extern 1 (Setter _) => get_setter : typeclass_instances.

Notation "x <| proj := v |>" := (upd_member proj (λ _, v) x) (at level 1, left associativity).

(** ** Lemmas *)

Lemma upd_Some {A} (h : gmap ptr A) p n f :
  h !! p = Some n → upd h p f = Some (<[p := f n]> h).
Proof. unfold upd. by intros ->. Qed.

Lemma arr_get_lookup {A} (l : list A) (i : nat) : arr_get l (Z.of_nat i) = l !! i.
Proof.
  unfold arr_get. destruct (Z.ltb_spec (Z.of_nat i) 0); [lia|]. by rewrite Nat2Z.id.
Qed.

Lemma arr_get_Some {A} (l : list A) (i : Z) x :
  arr_get l i = Some x ↔ 0 ≤ i ∧ l !! Z.to_nat i = Some x.
Proof.
  unfold arr_get. destruct (Z.ltb_spec i 0); split; try done; [|by intros []].
  intros []. lia.
Qed.

Lemma arr_get_is_Some {A} (l : list A) (i : Z) :
  0 ≤ i < Z.of_nat (length l) → ∃ x, arr_get l i = Some x.
Proof.
  intros. destruct (lookup_lt_is_Some_2 l (Z.to_nat i)) as [x Hx]; [lia|].
  exists x. apply arr_get_Some. split; [lia|done].
Qed.

Lemma arr_set_Some {A} (l : list A) (i : Z) x :
  0 ≤ i < Z.of_nat (length l) → arr_set l i x = Some (<[Z.to_nat i := x]> l).
Proof.
  intros. unfold arr_set. destruct (Z.ltb_spec i 0); [lia|].
  by destruct (Z.leb_spec (Z.of_nat (length l)) i); [lia|].
Qed.

(** The range of a masked word, and of two words put together. *)
Lemma land_range a k : 0 ≤ k → 0 ≤ a .& k ≤ k.
Proof.
  intros Hk. apply Z.ldiff_le; [done|]. apply Z.bits_inj'. intros n Hn.
  rewrite Z.ldiff_spec, Z.land_spec, Z.bits_0. by destruct (Z.testbit a n), (Z.testbit k n).
Qed.

Lemma lor_range a b n : 0 ≤ n → 0 ≤ a < 2 ^ n → 0 ≤ b < 2 ^ n → 0 ≤ a .| b < 2 ^ n.
Proof.
  intros Hn Ha Hb. assert (0 ≤ a .| b) by (apply Z.lor_nonneg; lia). apply Z.bounded_iff_bits_nonneg'; [done..|].
  intros l Hl. rewrite Z.lor_spec. apply orb_false_iff.
  split; [apply (proj1 (Z.bounded_iff_bits_nonneg' n a Hn ltac:(lia))) | apply (proj1 (Z.bounded_iff_bits_nonneg' n b Hn ltac:(lia)))]; done.
Qed.

Lemma insert_middle {A} (l1 : list A) x y l2 :
  <[length l1 := y]> (l1 ++ x :: l2) = l1 ++ y :: l2.
Proof. rewrite insert_app_r_alt by lia. by rewrite Nat.sub_diag. Qed.

Lemma alter_middle {A} (f : A → A) l1 x l2 :
  alter f (length l1) (l1 ++ x :: l2) = l1 ++ f x :: l2.
Proof. rewrite alter_app_r_alt by lia. by rewrite Nat.sub_diag. Qed.

Lemma alter_ge {A} (f : A → A) (l : list A) i : (length l ≤ i)%nat → alter f i l = l.
Proof.
  revert i. induction l as [|x l IH]; intros [|i] Hi; simpl in *; try done; [lia|].
  change (x :: alter f i l = x :: l). f_equal. apply IH. lia.
Qed.

(** A loop whose body never fails and keeps an invariant indexed by the counter. *)
Lemma for_up_ind {S : Type} (P : Z → S → Prop) n i (f : Z → S → option S) s :
  (∀ k s, i ≤ k < i + Z.of_nat n → P k s → ∃ s', f k s = Some s' ∧ P (k + 1) s') → P i s →
  ∃ s', for_up n i f s = Some s' ∧ P (i + Z.of_nat n) s'.
Proof.
  revert i s. induction n as [|n IH]; intros i s Hf HP; [exists s; by rewrite Z.add_0_r|].
  cbn [for_up]. destruct (Hf i s) as (s' & -> & HP'); [lia|done|].
  destruct (IH (i + 1) s') as (s'' & ? & ?); [intros k s'' Hk; apply Hf; lia|done|].
  exists s''. split; [done|]. by replace (i + Z.of_nat (Datatypes.S n)) with (i + 1 + Z.of_nat n) by lia.
Qed.

Lemma for_lt_ind {S : Type} (P : Z → S → Prop) n (f : Z → S → option S) s :
  0 ≤ n → (∀ k s, 0 ≤ k < n → P k s → ∃ s', f k s = Some s' ∧ P (k + 1) s') → P 0 s →
  ∃ s', for_lt n f s = Some s' ∧ P n s'.
Proof.
  intros Hn Hf HP. destruct (for_up_ind P (Z.to_nat n) 0 f s) as (s' & ? & H); [|done|].
  - intros k s' Hk. apply Hf. lia.
  - exists s'. split; [done|]. by rewrite Z2Nat.id, Z.add_0_l in H by done.
Qed.

(** The same with an invariant that does not mention the counter. *)
Lemma for_lt_inv {S : Type} (P : S → Prop) n (f : Z → S → option S) s :
  (∀ k s, 0 ≤ k < n → P s → ∃ s', f k s = Some s' ∧ P s') → P s →
  ∃ s', for_lt n f s = Some s' ∧ P s'.
Proof.
  intros Hf HP. destruct (decide (0 ≤ n)).
  - by apply (for_lt_ind (λ _, P)).
  - unfold for_lt. replace (Z.to_nat n) with 0%nat by lia. by exists s.
Qed.

(** ** Strings *)

Lemma append_length (a b : string) : String.length (a ++ b) = (String.length a + String.length b)%nat.
Proof. induction a; simpl; [done|]. by rewrite IHa. Qed.

Lemma append_assoc (a b c : string) : ((a ++ b) ++ c = a ++ (b ++ c))%string.
Proof. induction a as [|x a IH]; [done|]. exact (f_equal (String x) IH). Qed.

Lemma append_nil_r (a : string) : (a ++ "" = a)%string.
Proof. induction a as [|x a IH]; [done|]. exact (f_equal (String x) IH). Qed.
