(* ===== verification/DList.v ===== *)
(** Doubly linked lists in a heap of nodes.

    The simulator has three hand-written doubly linked lists: the blocks of a cache
    set (cache.c), the instruction queues with their element pool (inst_queue.c) and
    the memory regions (hsim_mmap.c).  This file states once what it means for a heap
    to hold such a list and proves what the pointer updates they are made of do. *)

From Stdlib Require Import ZArith Lia.
From stdpp Require Import base tactics option list gmap.
From S2P Require Import Prelude.

(** What a node type has to provide: its two links and the payload the links leave
    alone. *)
Class DNode (N D : Type) := {
  nprev : N → option ptr;
  nnext : N → option ptr;
  ndata : N → D;
  set_nprev : option ptr → N → N;
  set_nnext : option ptr → N → N;
  nprev_set_nprev v n : nprev (set_nprev v n) = v;
  nnext_set_nprev v n : nnext (set_nprev v n) = nnext n;
  ndata_set_nprev v n : ndata (set_nprev v n) = ndata n;
  nprev_set_nnext v n : nprev (set_nnext v n) = nprev n;
  nnext_set_nnext v n : nnext (set_nnext v n) = v;
  ndata_set_nnext v n : ndata (set_nnext v n) = ndata n;
}.

Create Rewrite HintDb dlist.
#[export] Hint Rewrite @nprev_set_nprev @nnext_set_nprev @ndata_set_nprev
  @nprev_set_nnext @nnext_set_nnext @ndata_set_nnext : dlist.

(** [if (o) o->f]: the update is skipped on a null pointer. *)
Definition upd_opt {A} (h : gmap ptr A) (o : option ptr) (f : A → A) : option (gmap ptr A) :=
  match o with
  | Some p => upd h p f
  | None => Some h
  end.

Lemma NoDup_fst_middle {A B} (xs : list (A * B)) x ys :
  NoDup (xs ++ x :: ys).*1 ↔ NoDup (xs ++ ys).*1 ∧ x.1 ∉ (xs ++ ys).*1.
Proof.
  rewrite <-Permutation_middle, fmap_cons, NoDup_cons. tauto.
Qed.

Section DList.
Context {N D : Type} {dnode : DNode N D}.
Implicit Types (h : gmap ptr N) (xs ys : list (ptr * D)) (pp nn : option ptr).

Definition first_ptr xs nn : option ptr :=
  match xs with
  | [] => nn
  | x :: _ => Some x.1
  end.

Definition last_ptr pp xs : option ptr :=
  match last xs with
  | None => pp
  | Some x => Some x.1
  end.

Definition node_at h (p : ptr) pp nn (d : D) : Prop :=
  ∃ n, h !! p = Some n ∧ nprev n = pp ∧ nnext n = nn ∧ ndata n = d.

(** [dseg h pp xs nn]: from the first pointer of [xs] the [next] links visit exactly
    the nodes of [xs], carrying its payloads, and then reach [nn]; the [prev] links
    go back the same way to [pp]. *)
Fixpoint dseg h pp xs nn : Prop :=
  match xs with
  | [] => True
  | x :: xs' => node_at h x.1 pp (first_ptr xs' nn) x.2 ∧ dseg h (Some x.1) xs' nn
  end.

Lemma last_ptr_nil pp : last_ptr pp [] = pp.
Proof. done. Qed.

Lemma last_ptr_snoc pp xs x : last_ptr pp (xs ++ [x]) = Some x.1.
Proof. unfold last_ptr. by rewrite last_snoc. Qed.

Lemma last_ptr_cons pp x xs : last_ptr pp (x :: xs) = last_ptr (Some x.1) xs.
Proof. unfold last_ptr. rewrite last_cons. by destruct (last xs). Qed.

Lemma first_ptr_app xs ys nn : first_ptr (xs ++ ys) nn = first_ptr xs (first_ptr ys nn).
Proof. by destruct xs. Qed.

Lemma dseg_app h pp xs ys nn :
  dseg h pp (xs ++ ys) nn ↔
  dseg h pp xs (first_ptr ys nn) ∧ dseg h (last_ptr pp xs) ys nn.
Proof.
  revert pp. induction xs as [|x xs IH]; intros pp; simpl; [tauto|].
  rewrite last_ptr_cons, first_ptr_app, IH. tauto.
Qed.

Lemma dseg_frame h h' pp xs nn :
  (∀ p, p ∈ xs.*1 → h' !! p = h !! p) → dseg h pp xs nn → dseg h' pp xs nn.
Proof.
  revert pp. induction xs as [|x xs IH]; intros pp Hf; simpl; [done|].
  intros [(n & Hn & ?) ?]. split.
  - exists n. split; [|done]. rewrite Hf; [done|]. simpl. set_solver.
  - apply IH; [|done]. intros p Hp. apply Hf. simpl. set_solver.
Qed.

Lemma dseg_insert_notin h pp xs nn p n :
  p ∉ xs.*1 → dseg h pp xs nn → dseg (<[p := n]> h) pp xs nn.
Proof.
  intros Hp. apply dseg_frame. intros q Hq.
  rewrite lookup_insert_ne; [done|]. by intros ->.
Qed.

Lemma dseg_delete_notin h pp xs nn p :
  p ∉ xs.*1 → dseg h pp xs nn → dseg (delete p h) pp xs nn.
Proof.
  intros Hp. apply dseg_frame. intros q Hq.
  rewrite lookup_delete_ne; [done|]. by intros ->.
Qed.

Lemma dseg_elem h pp xs nn x :
  dseg h pp xs nn → x ∈ xs → ∃ n, h !! x.1 = Some n ∧ ndata n = x.2.
Proof.
  revert pp. induction xs as [|y xs IH]; intros pp; simpl; [set_solver|].
  intros [(n & ? & ? & ? & ?) ?] [->|?]%elem_of_cons; eauto.
Qed.

Lemma dseg_mid h pp xs x ys nn :
  dseg h pp (xs ++ x :: ys) nn →
  node_at h x.1 (last_ptr pp xs) (first_ptr ys nn) x.2.
Proof. rewrite dseg_app. simpl. tauto. Qed.

(** Redirecting the last [next] link. *)
Lemma dseg_set_last h pp xs x nn nn' n :
  dseg h pp (xs ++ [x]) nn → x.1 ∉ xs.*1 → h !! x.1 = Some n →
  dseg (<[x.1 := set_nnext nn' n]> h) pp (xs ++ [x]) nn'.
Proof.
  rewrite !dseg_app. simpl. intros [H1 [(m & Hm & ? & ? & ?) _]] Hx Hn.
  assert (m = n) as -> by congruence. split; [by apply dseg_insert_notin|]. split; [|done].
  exists (set_nnext nn' n). rewrite lookup_insert_eq. by autorewrite with dlist.
Qed.

(** Redirecting the first [prev] link. *)
Lemma dseg_set_first h pp pp' x xs nn n :
  dseg h pp (x :: xs) nn → x.1 ∉ xs.*1 → h !! x.1 = Some n →
  dseg (<[x.1 := set_nprev pp' n]> h) pp' (x :: xs) nn.
Proof.
  simpl. intros [(m & Hm & ? & ? & ?) Ht] Hx Hn.
  assert (m = n) as -> by congruence. split.
  - exists (set_nprev pp' n). rewrite lookup_insert_eq. by autorewrite with dlist.
  - by apply dseg_insert_notin.
Qed.

(** [if (prev) prev->next = v]. *)
Lemma link_next h xs nn v :
  NoDup xs.*1 → dseg h None xs nn →
  ∃ h', upd_opt h (last_ptr None xs) (set_nnext v) = Some h' ∧
    dseg h' None xs v ∧ dom h' = dom h ∧
    (∀ q, last_ptr None xs ≠ Some q → h' !! q = h !! q).
Proof.
  destruct xs as [|x xs _] using rev_ind; intros Hnd Hs.
  { exists h. done. }
  rewrite last_ptr_snoc. rewrite fmap_app in Hnd.
  apply NoDup_app in Hnd as (_ & Hnd & _).
  destruct (dseg_mid _ _ _ _ _ _ Hs) as (n & Hn & _).
  simpl. unfold upd. rewrite Hn. simpl. eexists. split; [done|]. split; [|split].
  - eapply dseg_set_last; [done| |done]. intros Hin. apply (Hnd _ Hin). simpl. set_solver.
  - apply elem_of_dom_2 in Hn. rewrite dom_insert_L. set_solver.
  - intros q Hq. rewrite lookup_insert_ne; [done|]. congruence.
Qed.

(** [if (next) next->prev = v]. *)
Lemma link_prev h pp xs nn v :
  NoDup xs.*1 → dseg h pp xs nn →
  ∃ h', upd_opt h (first_ptr xs None) (set_nprev v) = Some h' ∧
    dseg h' v xs nn ∧ dom h' = dom h ∧
    (∀ q, first_ptr xs None ≠ Some q → h' !! q = h !! q).
Proof.
  destruct xs as [|x xs]; intros Hnd Hs.
  { exists h. done. }
  simpl in Hnd. apply NoDup_cons in Hnd as [Hx _].
  pose proof Hs as [(n & Hn & _) _].
  simpl. unfold upd. rewrite Hn. simpl. eexists. split; [done|]. split; [|split].
  - by eapply dseg_set_first.
  - apply elem_of_dom_2 in Hn. rewrite dom_insert_L. set_solver.
  - intros q Hq. rewrite lookup_insert_ne; [done|]. congruence.
Qed.

Lemma last_ptr_elem pp xs q : last_ptr pp xs = Some q → pp = Some q ∨ q ∈ xs.*1.
Proof.
  destruct xs as [|x xs _] using rev_ind; [by left|].
  rewrite last_ptr_snoc, fmap_app. simpl. set_solver.
Qed.

Lemma first_ptr_elem xs nn q : first_ptr xs nn = Some q → nn = Some q ∨ q ∈ xs.*1.
Proof. destruct xs; simpl; set_solver. Qed.

(** Taking a node out of a list: [if (prev) prev->next = next; if (next) next->prev =
    prev].  The node itself keeps its links. *)
Lemma unlink_pn h xs x ys :
  NoDup (xs ++ x :: ys).*1 → dseg h None (xs ++ x :: ys) None →
  ∃ h1 h2,
    upd_opt h (last_ptr None xs) (set_nnext (first_ptr ys None)) = Some h1 ∧
    upd_opt h1 (first_ptr ys None) (set_nprev (last_ptr None xs)) = Some h2 ∧
    h1 !! x.1 = h !! x.1 ∧ h2 !! x.1 = h !! x.1 ∧
    dseg h2 None (xs ++ ys) None ∧ dom h2 = dom h ∧
    (∀ q, q ∉ (xs ++ ys).*1 → h2 !! q = h !! q).
Proof.
  rewrite fmap_app. simpl. intros (Hnx & Hd & [Hxy Hny]%NoDup_cons)%NoDup_app.
  rewrite dseg_app. simpl. intros (Hs1 & _ & Hs2).
  destruct (link_next h xs _ (first_ptr ys None) Hnx Hs1) as (h1 & Hu1 & Hs1' & Hd1 & Hf1).
  assert (Hs2' : dseg h1 (Some x.1) ys None).
  { eapply dseg_frame; [|done]. intros p Hp. apply Hf1. intros Hl.
    apply last_ptr_elem in Hl as [|Hl]; [done|]. apply (Hd _ Hl). set_solver. }
  destruct (link_prev h1 _ ys _ (last_ptr None xs) Hny Hs2') as (h2 & Hu2 & Hs2'' & Hd2 & Hf2).
  assert (Hx1 : last_ptr None xs ≠ Some x.1).
  { intros Hl. apply last_ptr_elem in Hl as [|Hl]; [done|]. apply (Hd _ Hl). set_solver. }
  assert (Hx2 : first_ptr ys None ≠ Some x.1).
  { intros Hl. apply first_ptr_elem in Hl as [|Hl]; done. }
  exists h1, h2. split; [done|]. split; [done|]. split; [by apply Hf1|].
  split; [rewrite Hf2 by done; by apply Hf1|]. split; [|split].
  - rewrite dseg_app. split; [|done]. eapply dseg_frame; [|done].
    intros p Hp. apply Hf2. intros Hl. apply first_ptr_elem in Hl as [|Hl]; [done|].
    apply (Hd _ Hp). set_solver.
  - congruence.
  - intros q Hq. rewrite fmap_app in Hq. rewrite Hf2, Hf1; [done|..]; intros Hl.
    + apply last_ptr_elem in Hl as [|Hl]; set_solver.
    + apply first_ptr_elem in Hl as [|Hl]; set_solver.
Qed.

(** The two writes of [unlink_pn] go to different nodes, so their order is free. *)
Lemma upd_opt_comm h o1 f1 h1 o2 f2 h2 :
  (∀ p, o1 = Some p → o2 ≠ Some p) →
  upd_opt h o1 f1 = Some h1 → upd_opt h1 o2 f2 = Some h2 →
  ∃ h1', upd_opt h o2 f2 = Some h1' ∧ upd_opt h1' o1 f1 = Some h2.
Proof.
  destruct o1 as [p1|], o2 as [p2|]; simpl; intros Hne H1 H2; simplify_eq; eauto.
  assert (p1 ≠ p2) by (intros ->; by apply (Hne p2)).
  unfold upd in *. destruct (h !! p1) as [n1|] eqn:E1; simplify_eq/=.
  rewrite lookup_insert_ne in H2 by done.
  destruct (h !! p2) as [n2|] eqn:E2; simplify_eq/=. eexists. split; [done|].
  rewrite lookup_insert_ne by done. rewrite E1. simpl. by rewrite insert_insert_ne.
Qed.

Lemma unlink_np h xs x ys :
  NoDup (xs ++ x :: ys).*1 → dseg h None (xs ++ x :: ys) None →
  ∃ h1 h2,
    upd_opt h (first_ptr ys None) (set_nprev (last_ptr None xs)) = Some h1 ∧
    upd_opt h1 (last_ptr None xs) (set_nnext (first_ptr ys None)) = Some h2 ∧
    h1 !! x.1 = h !! x.1 ∧ h2 !! x.1 = h !! x.1 ∧
    dseg h2 None (xs ++ ys) None ∧ dom h2 = dom h ∧
    (∀ q, q ∉ (xs ++ ys).*1 → h2 !! q = h !! q).
Proof.
  intros Hnd Hs. pose proof (unlink_pn _ _ _ _ Hnd Hs) as (h1 & h2 & Hu1 & Hu2 & _ & Hx & Hrest).
  rewrite fmap_app in Hnd. simpl in Hnd.
  apply NoDup_app in Hnd as (_ & Hd & [Hxy _]%NoDup_cons).
  edestruct (upd_opt_comm h) as (h1' & Hu1' & Hu2'); [|done|done|].
  { intros p Hl Hf. apply last_ptr_elem in Hl as [|Hl]; [done|].
    apply first_ptr_elem in Hf as [|Hf]; [done|]. apply (Hd _ Hl). set_solver. }
  exists h1', h2. split; [done|]. split; [done|]. split; [|by split].
  destruct (first_ptr ys None) as [q|] eqn:Hf; simpl in Hu1'; [|congruence].
  unfold upd in Hu1'. destruct (h !! q) as [n|]; simplify_eq/=.
  rewrite lookup_insert_ne; [done|]. intros ->.
  apply first_ptr_elem in Hf as [|Hf]; done.
Qed.

(** Linking a prepared node in at the front. *)
Lemma push_front_seg h xs p n d :
  NoDup xs.*1 → p ∉ xs.*1 → dseg h None xs None →
  h !! p = Some n → nprev n = None → nnext n = first_ptr xs None → ndata n = d →
  ∃ h', upd_opt h (first_ptr xs None) (set_nprev (Some p)) = Some h' ∧
    dseg h' None ((p, d) :: xs) None ∧ dom h' = dom h ∧
    (∀ q, q ∉ xs.*1 → h' !! q = h !! q).
Proof.
  intros Hnd Hp Hs Hn Hpr Hnx Hd.
  destruct (link_prev h _ xs _ (Some p) Hnd Hs) as (h' & Hu & Hs' & Hdom & Hf).
  assert (Hfr : ∀ q, q ∉ xs.*1 → h' !! q = h !! q).
  { intros q Hq. apply Hf. intros Hl. apply first_ptr_elem in Hl as [|Hl]; done. }
  exists h'. split; [done|]. split; [|done]. simpl. split; [|done].
  exists n. by rewrite Hfr.
Qed.

(** Linking a prepared node in at the back. *)
Lemma push_back_seg h xs p n d :
  NoDup xs.*1 → p ∉ xs.*1 → dseg h None xs None →
  h !! p = Some n → nprev n = last_ptr None xs → nnext n = None → ndata n = d →
  ∃ h', upd_opt h (last_ptr None xs) (set_nnext (Some p)) = Some h' ∧
    dseg h' None (xs ++ [(p, d)]) None ∧ dom h' = dom h ∧
    (∀ q, q ∉ xs.*1 → h' !! q = h !! q).
Proof.
  intros Hnd Hp Hs Hn Hpr Hnx Hd.
  destruct (link_next h xs _ (Some p) Hnd Hs) as (h' & Hu & Hs' & Hdom & Hf).
  assert (Hfr : ∀ q, q ∉ xs.*1 → h' !! q = h !! q).
  { intros q Hq. apply Hf. intros Hl. apply last_ptr_elem in Hl as [|Hl]; done. }
  exists h'. split; [done|]. split; [|done]. rewrite dseg_app. split; [done|].
  simpl. split; [|done]. exists n. by rewrite Hfr.
Qed.

(** Changing a payload in place. *)
Lemma dseg_set_data h pp xs x ys nn n d :
  NoDup (xs ++ x :: ys).*1 → dseg h pp (xs ++ x :: ys) nn →
  nprev n = last_ptr pp xs → nnext n = first_ptr ys nn → ndata n = d →
  dseg (<[x.1 := n]> h) pp (xs ++ (x.1, d) :: ys) nn.
Proof.
  rewrite fmap_app. simpl. intros (_ & Hd & [Hxy _]%NoDup_cons)%NoDup_app.
  rewrite !dseg_app. simpl. intros (Hs1 & _ & Hs2) Hp Hn Hdt. split; [|split].
  - apply dseg_insert_notin; [|done]. intros Hin. apply (Hd _ Hin). set_solver.
  - exists n. by rewrite lookup_insert_eq.
  - by apply dseg_insert_notin.
Qed.
End DList.
