(* ===== verification/Bits.v ===== *)
(** Equality of words built from masks and shifts, decided bit by bit: a word is reified into a
    [bexp], of which the bits and the width are computed. *)

From Stdlib Require Import ZArith Lia.
From stdpp Require Import base tactics numbers list list_numbers.
From S2P Require Import Prelude.

Inductive bexp :=
  | BVar (x : Z)
  | BConst (c : Z)
  | BLor (a b : bexp)
  | BLand (a b : bexp)
  | BLxor (a b : bexp)
  | BLnot (a : bexp)
  | BShl (a : bexp) (k : Z)
  | BShr (a : bexp) (k : Z)
  | BMod (a : bexp) (k : Z).

Fixpoint denote (e : bexp) : Z :=
  match e with
  | BVar x => x
  | BConst c => c
  | BLor a b => denote a .| denote b
  | BLand a b => denote a .& denote b
  | BLxor a b => denote a .^ denote b
  | BLnot a => Z.lnot (denote a)
  | BShl a k => denote a .<< k
  | BShr a k => denote a .>> k
  | BMod a k => denote a `mod` 2 ^ k
  end.

(** The bits of the unknown words are kept as they are. *)
Definition var_bit (x n : Z) : bool := Z.testbit x n.

(** A bit, as a formula over these bits that is simplified while it is built. *)
Inductive form :=
  | FB (b : bool)
  | FV (x n : Z)
  | FAnd (f g : form)
  | FOr (f g : form)
  | FXor (f g : form).

Fixpoint truth (f : form) : bool :=
  match f with
  | FB b => b
  | FV x n => var_bit x n
  | FAnd f g => truth f && truth g
  | FOr f g => truth f || truth g
  | FXor f g => xorb (truth f) (truth g)
  end.

Definition f_and (f g : form) : form :=
  match f, g with
  | FB true, h | h, FB true => h
  | FB false, _ | _, FB false => FB false
  | _, _ => FAnd f g
  end.

Definition f_or (f g : form) : form :=
  match f, g with
  | FB false, h | h, FB false => h
  | FB true, _ | _, FB true => FB true
  | _, _ => FOr f g
  end.

Definition f_xor (f g : form) : form :=
  match f, g with
  | FB false, h | h, FB false => h
  | _, _ => FXor f g
  end.

Lemma truth_and f g : truth (f_and f g) = truth f && truth g.
Proof. destruct f as [[]| | | |], g as [[]| | | |]; simpl; by rewrite ?andb_true_r, ?andb_false_r. Qed.

Lemma truth_or f g : truth (f_or f g) = truth f || truth g.
Proof. destruct f as [[]| | | |], g as [[]| | | |]; simpl; by rewrite ?orb_true_r, ?orb_false_r. Qed.

Lemma truth_xor f g : truth (f_xor f g) = xorb (truth f) (truth g).
Proof. destruct f as [[]| | | |], g as [[]| | | |]; simpl; by rewrite ?xorb_false_r, ?xorb_false_l. Qed.

#[local] Arguments f_and : simpl never.
#[local] Arguments f_or : simpl never.
#[local] Arguments f_xor : simpl never.

Fixpoint form_at (e : bexp) (n : Z) : form :=
  match e with
  | BVar x => FV x n
  | BConst c => FB (Z.testbit c n)
  | BLor a b => f_or (form_at a n) (form_at b n)
  | BLand a b => f_and (form_at a n) (form_at b n)
  | BLxor a b => f_xor (form_at a n) (form_at b n)
  | BLnot a => f_xor (FB true) (form_at a n)
  | BShl a k => if n <? k then FB false else form_at a (n - k)
  | BShr a k => form_at a (n + k)
  | BMod a k => if n <? k then form_at a n else FB false
  end.

Abbreviation bit_at e n := (truth (form_at e n)).

(** Shifts are by constants that are not negative. *)
Fixpoint shifts_ok (e : bexp) : bool :=
  match e with
  | BVar _ | BConst _ => true
  | BLor a b | BLand a b | BLxor a b => shifts_ok a && shifts_ok b
  | BLnot a => shifts_ok a
  | BShl a k | BShr a k | BMod a k => (0 <=? k) && shifts_ok a
  end.

Lemma bit_at_ok e n : shifts_ok e = true → 0 ≤ n → Z.testbit (denote e) n = bit_at e n.
Proof.
  revert n. induction e as [x|c|a IHa b IHb|a IHa b IHb|a IHa b IHb|a IHa|a IHa k|a IHa k|a IHa k]; intros n He Hn; simpl in *; try done;
    try (apply andb_true_iff in He as [Ha Hb]).
  - by rewrite Z.lor_spec, truth_or, IHa, IHb.
  - by rewrite Z.land_spec, truth_and, IHa, IHb.
  - by rewrite Z.lxor_spec, truth_xor, IHa, IHb.
  - by rewrite Z.lnot_spec, truth_xor, IHa.
  - rewrite Z.shiftl_spec by done. destruct (Z.ltb_spec n k); [apply Z.testbit_neg_r; lia|]. apply IHa; [done|lia].
  - rewrite Z.shiftr_spec by done. apply IHa; [done|lia].
  - rewrite Z.testbit_mod_pow2 by lia. destruct (n <? k); [|done]. by apply IHa.
Qed.

(** A number of bits above which a word is zero. *)
Fixpoint width (e : bexp) : option Z :=
  match e with
  | BVar _ | BLnot _ => None
  | BConst c => if 0 <=? c then Some (Z.log2 c + 1) else None
  | BLor a b | BLxor a b => m ← width a; n ← width b; Some (m `max` n)
  | BLand a b =>
      match width a, width b with
      | Some m, Some n => Some (m `min` n)
      | Some m, None | None, Some m => Some m
      | None, None => None
      end
  | BShl a k => m ← width a; Some (m + k)
  | BShr a k => m ← width a; Some (0 `max` (m - k))
  | BMod a k => Some match width a with Some m => m `min` k | None => k end
  end.

Lemma width_ok e m n : shifts_ok e = true → width e = Some m → 0 ≤ m ∧ (m ≤ n → bit_at e n = false).
Proof.
  revert m n. induction e as [x|c|a IHa b IHb|a IHa b IHb|a IHa b IHb|a IHa|a IHa k|a IHa k|a IHa k]; intros m n He Hm; simpl in *; try done;
    try (apply andb_true_iff in He as [Ha Hb]).
  - destruct (Z.leb_spec 0 c); simplify_eq. pose proof (Z.log2_nonneg c). split; [lia|]. intros Hn.
    apply Z.bits_above_log2; lia.
  - destruct (width a) as [p|], (width b) as [q|]; simplify_eq/=. destruct (IHa p n), (IHb q n); try done.
    split; [lia|]. intros. by rewrite ?truth_or, ?truth_xor, H0, H2 by lia.
  - destruct (width a) as [p|], (width b) as [q|]; simplify_eq/=.
    + destruct (IHa p n), (IHb q n); try done. split; [lia|]. intros. destruct (Z.le_ge_cases p q).
      * by rewrite truth_and, H0 by lia.
      * rewrite truth_and, H2 by lia. apply andb_false_r.
    + destruct (IHa m n); try done. split; [done|]. intros. by rewrite truth_and, H0.
    + destruct (IHb m n); try done. split; [done|]. intros. rewrite truth_and, H0 by done. apply andb_false_r.
  - destruct (width a) as [p|], (width b) as [q|]; simplify_eq/=. destruct (IHa p n), (IHb q n); try done.
    split; [lia|]. intros. by rewrite ?truth_or, ?truth_xor, H0, H2 by lia.
  - destruct (width a) as [p|]; simplify_eq/=. destruct (IHa p (n - k)); try done. split; [lia|]. intros.
    destruct (n <? k); [done|]. apply H0. lia.
  - destruct (width a) as [p|]; simplify_eq/=. destruct (IHa p (n + k)); try done. split; [lia|]. intros. apply H0. lia.
  - injection Hm as <-. destruct (width a) as [p|]; [|split; [lia|]; intros; by rewrite (proj2 (Z.ltb_ge n k))].
    destruct (IHa p n); try done. split; [lia|]. intros. destruct (Z.ltb_spec n k); [|done]. apply H0. lia.
Qed.

Definition narrow (N : Z) (e : bexp) : bool :=
  shifts_ok e && match width e with Some m => m <=? N | None => false end.

Lemma bits_eq N a b :
  narrow N a && narrow N b = true → Forall (λ n, bit_at a n = bit_at b n) (seqZ 0 N) → denote a = denote b.
Proof.
  unfold narrow. rewrite !andb_true_iff. intros [[Ha Wa] [Hb Wb]] H. apply Z.bits_inj'. intros n Hn.
  rewrite !bit_at_ok by done. destruct (width a) as [p|] eqn:Ea, (width b) as [q|] eqn:Eb; try done.
  destruct (Z.lt_ge_cases n N) as [Hl|Hl].
  - rewrite Forall_forall in H. apply H. apply elem_of_seqZ. lia.
  - destruct (width_ok a p n), (width_ok b q n); try done. rewrite H1, H3 by lia. done.
Qed.

(** A word has the bound its width gives. *)
Lemma bits_range N e : 0 ≤ N → narrow N e = true → 0 ≤ denote e < 2 ^ N.
Proof.
  unfold narrow. rewrite andb_true_iff. intros HN [He We]. destruct (width e) as [m|] eqn:Em; [|done]. apply Z.leb_le in We.
  assert (E : denote e = denote e `mod` 2 ^ N); [|rewrite E; apply Z.mod_pos_bound; lia].
  apply Z.bits_inj'. intros n Hn. rewrite Z.testbit_mod_pow2, bit_at_ok by done.
  destruct (width_ok e m n), (Z.ltb_spec n N); try done. apply H0. lia.
Qed.

Ltac reify t :=
  lazymatch t with
  | Z.lor ?a ?b => let x := reify a in let y := reify b in constr:(BLor x y)
  | Z.land ?a ?b => let x := reify a in let y := reify b in constr:(BLand x y)
  | Z.lxor ?a ?b => let x := reify a in let y := reify b in constr:(BLxor x y)
  | Z.lnot ?a => let x := reify a in constr:(BLnot x)
  | Z.shiftl ?a ?k => let x := reify a in constr:(BShl x k)
  | Z.shiftr ?a ?k => let x := reify a in constr:(BShr x k)
  | u32 ?a => let x := reify a in constr:(BMod x 32)
  | u16 ?a => let x := reify a in constr:(BMod x 16)
  | u8 ?a => let x := reify a in constr:(BMod x 8)
  | Z.modulo ?a (Z.pow 2 ?k) => let x := reify a in constr:(BMod x k)
  | Z0 => constr:(BConst t)
  | Zpos _ => constr:(BConst t)
  | Zneg _ => constr:(BConst t)
  | _ => constr:(BVar t)
  end.

Ltac each_bit :=
  match goal with |- Forall _ ?l => let l' := eval vm_compute in l in change l with l' end;
  repeat (apply Forall_cons; split;
    [cbv -[var_bit]; repeat match goal with |- context [var_bit ?x ?n] => destruct (var_bit x n) end; reflexivity|]);
  apply Forall_nil; exact I.

(** [a = b], for words of at most [N] bits. *)
Ltac bits_upto N :=
  match goal with
  | |- ?a = ?b =>
      let x := reify a in let y := reify b in
      apply (bits_eq N x y); [reflexivity|each_bit]
  end.
Ltac bits := bits_upto 32.

(** [0 ≤ a < 2 ^ N]. *)
Ltac bit_range :=
  match goal with
  | |- 0 ≤ ?a < 2 ^ ?N => let x := reify a in apply (bits_range N x); [lia|reflexivity]
  end.

(** Words without a common bit. *)
Lemma lor_add a b : a .& b = 0 → a .| b = a + b.
Proof. intros H. pose proof (Z.add_lor_land a b). lia. Qed.
