(* ===== verification/Config.v ===== *)
(** The simulated architecture's configuration: the structures of hsim-stub/config.h and
    the reading of the XML document in hsim-stub/config.c.  The document itself is what
    libxml2 returns, so it is data of the model. *)

From Stdlib Require Import ZArith Lia String Ascii.
From Stdlib Require Import Floats.SpecFloat.
From stdpp Require Import base tactics option list.
From S2P Require Import Prelude.

(** ** Structures (config.h) *)

(** A C [double]. *)
Abbreviation double := spec_float.

Record sample_config := {
  sample_length : Z;
  default_period : Z;
  initial_effective_dispatch_width : double;
}.

Record core_config := {
  frontend_width : Z;
  backend_width : Z;
  rob_size : Z;
  iq_size : Z;
}.

Record numfu_config := {
  numfu_intalu : Z;
  numfu_intmultdiv : Z;
  numfu_mem_rwport : Z;
}.

Record latency_config := {
  lat_intalu : Z;
  lat_branch : Z;
  lat_intmult : Z;
  lat_intdiv : Z;
  lat_mem : Z;
  lat_coproc : Z;
}.

Record etc_config := { syscall_penalty : Z }.

Record cache_config := {
  perfect : Z;
  num_set : Z;
  size_blk : Z;
  cc_assoc : Z;
  replacement_policy : list ascii;  (* char[8] *)
  cc_latency : Z;
}.

Record memory_config := { mem_latency : Z }.

Record bpred_config := {
  bimod_table_size : Z;
  mispredict_penalty : Z;
}.

Record perfmodel_config := {
  sample : sample_config;
  core : core_config;
  numfu : numfu_config;
  latency : latency_config;
  etc : etc_config;
  dl1 : cache_config;
  il1 : cache_config;
  ul2 : cache_config;
  mem : memory_config;
  bpred : bpred_config;
  existDL1 : bool;
  existIL1 : bool;
  existUL2 : bool;
}.

Definition set_sample v c := {| sample := v; core := core c; numfu := numfu c; latency := latency c;
  etc := etc c; dl1 := dl1 c; il1 := il1 c; ul2 := ul2 c; mem := mem c; bpred := bpred c;
  existDL1 := existDL1 c; existIL1 := existIL1 c; existUL2 := existUL2 c |}.
Definition set_core v c := {| sample := sample c; core := v; numfu := numfu c; latency := latency c;
  etc := etc c; dl1 := dl1 c; il1 := il1 c; ul2 := ul2 c; mem := mem c; bpred := bpred c;
  existDL1 := existDL1 c; existIL1 := existIL1 c; existUL2 := existUL2 c |}.
Definition set_numfu v c := {| sample := sample c; core := core c; numfu := v; latency := latency c;
  etc := etc c; dl1 := dl1 c; il1 := il1 c; ul2 := ul2 c; mem := mem c; bpred := bpred c;
  existDL1 := existDL1 c; existIL1 := existIL1 c; existUL2 := existUL2 c |}.
Definition set_latency v c := {| sample := sample c; core := core c; numfu := numfu c; latency := v;
  etc := etc c; dl1 := dl1 c; il1 := il1 c; ul2 := ul2 c; mem := mem c; bpred := bpred c;
  existDL1 := existDL1 c; existIL1 := existIL1 c; existUL2 := existUL2 c |}.
Definition set_etc v c := {| sample := sample c; core := core c; numfu := numfu c;
  latency := latency c; etc := v; dl1 := dl1 c; il1 := il1 c; ul2 := ul2 c; mem := mem c;
  bpred := bpred c; existDL1 := existDL1 c; existIL1 := existIL1 c; existUL2 := existUL2 c |}.
Definition set_dl1 v c := {| sample := sample c; core := core c; numfu := numfu c;
  latency := latency c; etc := etc c; dl1 := v; il1 := il1 c; ul2 := ul2 c; mem := mem c;
  bpred := bpred c; existDL1 := true; existIL1 := existIL1 c; existUL2 := existUL2 c |}.
Definition set_il1 v c := {| sample := sample c; core := core c; numfu := numfu c;
  latency := latency c; etc := etc c; dl1 := dl1 c; il1 := v; ul2 := ul2 c; mem := mem c;
  bpred := bpred c; existDL1 := existDL1 c; existIL1 := true; existUL2 := existUL2 c |}.
Definition set_ul2 v c := {| sample := sample c; core := core c; numfu := numfu c;
  latency := latency c; etc := etc c; dl1 := dl1 c; il1 := il1 c; ul2 := v; mem := mem c;
  bpred := bpred c; existDL1 := existDL1 c; existIL1 := existIL1 c; existUL2 := true |}.
Definition set_mem v c := {| sample := sample c; core := core c; numfu := numfu c;
  latency := latency c; etc := etc c; dl1 := dl1 c; il1 := il1 c; ul2 := ul2 c; mem := v;
  bpred := bpred c; existDL1 := existDL1 c; existIL1 := existIL1 c; existUL2 := existUL2 c |}.
Definition set_bpred v c := {| sample := sample c; core := core c; numfu := numfu c;
  latency := latency c; etc := etc c; dl1 := dl1 c; il1 := il1 c; ul2 := ul2 c; mem := mem c;
  bpred := v; existDL1 := existDL1 c; existIL1 := existIL1 c; existUL2 := existUL2 c |}.

(** The global [perfmodel] before [load_configfile]: static storage, all zero. *)
Definition cache_config0 : cache_config :=
  {| perfect := 0; num_set := 0; size_blk := 0; cc_assoc := 0;
     replacement_policy := replicate 8 zero; cc_latency := 0 |}.
Definition perfmodel0 : perfmodel_config :=
  {| sample := {| sample_length := 0; default_period := 0;
                  initial_effective_dispatch_width := S754_zero false |};
     core := {| frontend_width := 0; backend_width := 0; rob_size := 0; iq_size := 0 |};
     numfu := {| numfu_intalu := 0; numfu_intmultdiv := 0; numfu_mem_rwport := 0 |};
     latency := {| lat_intalu := 0; lat_branch := 0; lat_intmult := 0; lat_intdiv := 0;
                   lat_mem := 0; lat_coproc := 0 |};
     etc := {| syscall_penalty := 0 |};
     dl1 := cache_config0; il1 := cache_config0; ul2 := cache_config0;
     mem := {| mem_latency := 0 |};
     bpred := {| bimod_table_size := 0; mispredict_penalty := 0 |};
     existDL1 := false; existIL1 := false; existUL2 := false |}.

(** [init]: the caches are absent until the document names them. *)
Definition init (c : perfmodel_config) : perfmodel_config :=
  {| sample := sample c; core := core c; numfu := numfu c; latency := latency c;
     etc := etc c; dl1 := dl1 c; il1 := il1 c; ul2 := ul2 c; mem := mem c; bpred := bpred c;
     existDL1 := false; existIL1 := false; existUL2 := false |}.

(** ** Numbers in strings *)

Definition is_space (c : ascii) : bool :=
  let n := N_of_ascii c in (n =? 32)%N || ((9 <=? n) && (n <=? 13))%N.

Definition digit (c : ascii) : option Z :=
  let n := Z.of_N (N_of_ascii c) in
  if (48 <=? n) && (n <=? 57) then Some (n - 48) else None.

Fixpoint skip_space (s : string) : string :=
  match s with
  | String c s' => if is_space c then skip_space s' else s
  | EmptyString => EmptyString
  end.

Definition sign (s : string) : bool * string :=
  match s with
  | String "-" s => (true, s)
  | String "+" s => (false, s)
  | _ => (false, s)
  end.

(** The digits at the front of [s], read after the value [acc]; how many there were. *)
Fixpoint digits (acc n : Z) (s : string) : Z * Z * string :=
  match s with
  | String c s' =>
      match digit c with
      | Some d => digits (10 * acc + d) (n + 1) s'
      | None => (acc, n, s)
      end
  | EmptyString => (acc, n, EmptyString)
  end.

(** [atoi]: the 64-bit result of [strtol], saturated, truncated to an [int]. *)
Definition atoi (s : string) : Z :=
  let '(neg, s) := sign (skip_space s) in
  let '(v, _, _) := digits 0 0 s in
  s32 (if neg then Z.max (- 2 ^ 63) (- v) else Z.min (2 ^ 63 - 1) v).

(** The binary64 number nearest to [m * 10^e]. *)
Definition decimal (neg : bool) (m e : Z) : double :=
  if m =? 0 then S754_zero neg
  else if 0 <=? e then
    match binary_normalize 53 1024 (m * 10 ^ e) 0 false with
    | S754_finite _ p x => S754_finite neg p x
    | S754_infinity _ => S754_infinity neg
    | d => d
    end
  else
    let '(mz, ez, lz) := SFdiv_core_binary 53 1024 m 0 (10 ^ (- e)) 0 in
    binary_round_aux 53 1024 neg mz ez lz.

(** The exponent part of a decimal number, if there is one. *)
Definition exponent (s : string) : Z :=
  match s with
  | String "e" s | String "E" s =>
      let '(neg, s) := sign s in
      let '(v, _, _) := digits 0 0 s in
      if neg then - v else v
  | _ => 0
  end.

(** [atof] on decimal notation. *)
Definition atof (s : string) : double :=
  let '(neg, s) := sign (skip_space s) in
  let '(v, _, s) := digits 0 0 s in
  match s with
  | String "." s => let '(v, n, s) := digits v 0 s in decimal neg v (exponent s - n)
  | _ => decimal neg v (exponent s)
  end.

(** [strncpy (dst, s, n)]: [n] characters, padded with zeros. *)
Fixpoint strncpy (n : nat) (s : string) : list ascii :=
  match n, s with
  | O, _ => []
  | S n, String c s => c :: strncpy n s
  | S n, EmptyString => "000"%char :: strncpy n EmptyString
  end.

(** ** The document (config.c) *)

(** A node of the tree: whether it is an element, its name, its attributes as
    [xmlGetProp] answers them ([None] is a null pointer), its children in order. *)
Inductive xmlNode :=
  XmlNode (is_element : bool) (name : string) (xmlGetProp : string → option string)
    (children : list xmlNode).

Section Read.
Variable p : string → option string.

Definition int_prop (k : string) : option Z := s ← p k; Some (atoi s).

Definition read_cache : option cache_config :=
  perfect ← int_prop "perfect";
  num_set ← int_prop "num_set";
  size_blk ← int_prop "size_blk";
  assoc ← int_prop "assoc";
  latency ← int_prop "latency";
  pol ← p "replacement_policy"%string;
  Some {| perfect := perfect; num_set := num_set; size_blk := size_blk; cc_assoc := assoc;
          replacement_policy := strncpy 8 pol; cc_latency := latency |}.

(** The body of the loop for an element called [name]. *)
Definition read_element (name : string) (c : perfmodel_config) : option perfmodel_config :=
  c ← (if (name =? "sample")%string then
         len ← int_prop "length";
         per ← int_prop "default_period";
         w ← p "initial_effective_dispatch_width"%string;
         Some (set_sample {| sample_length := len; default_period := per;
                             initial_effective_dispatch_width := atof w |} c)
       else Some c);
  c ← (if (name =? "core")%string then
         f ← int_prop "frontend_width";
         b ← int_prop "backend_width";
         r ← int_prop "rob_size";
         i ← int_prop "iq_size";
         Some (set_core {| frontend_width := f; backend_width := b; rob_size := r;
                           iq_size := i |} c)
       else Some c);
  c ← (if (name =? "numfu")%string then
         a ← int_prop "intalu";
         m ← int_prop "intmultdiv";
         r ← int_prop "mem_rwport";
         Some (set_numfu {| numfu_intalu := a; numfu_intmultdiv := m; numfu_mem_rwport := r |} c)
       else Some c);
  c ← (if (name =? "latency")%string then
         a ← int_prop "intalu";
         b ← int_prop "branch";
         m ← int_prop "intmult";
         d ← int_prop "intdiv";
         e ← int_prop "mem";
         o ← int_prop "coproc";
         Some (set_latency {| lat_intalu := a; lat_branch := b; lat_intmult := m;
                              lat_intdiv := d; lat_mem := e; lat_coproc := o |} c)
       else Some c);
  c ← (if (name =? "etc")%string then
         s ← int_prop "syscall_penalty";
         Some (set_etc {| syscall_penalty := s |} c)
       else Some c);
  c ← (if (name =? "dl1_cache")%string then v ← read_cache; Some (set_dl1 v c) else Some c);
  c ← (if (name =? "il1_cache")%string then v ← read_cache; Some (set_il1 v c) else Some c);
  c ← (if (name =? "ul2_cache")%string then v ← read_cache; Some (set_ul2 v c) else Some c);
  c ← (if (name =? "memory")%string then
         l ← int_prop "latency";
         Some (set_mem {| mem_latency := l |} c)
       else Some c);
  if (name =? "bpred")%string then
    b ← int_prop "bimod_table_size";
    m ← int_prop "mispredict_penalty";
    Some (set_bpred {| bimod_table_size := b; mispredict_penalty := m |} c)
  else Some c.
End Read.

(** [print_element_names] walks a list of siblings, each one before its children. *)
Fixpoint print_element_names (a_node : list xmlNode) (c : perfmodel_config)
  : option perfmodel_config :=
  let fix visit (n : xmlNode) (c : perfmodel_config) : option perfmodel_config :=
    match n with
    | XmlNode is_element name props children =>
        c ← (if is_element then read_element props name c else Some c);
        (fix walk (ns : list xmlNode) (c : perfmodel_config) :=
           match ns with
           | [] => Some c
           | n :: ns => c ← visit n c; walk ns c
           end) children c
    end in
  match a_node with
  | [] => Some c
  | n :: ns => c ← visit n c; print_element_names ns c
  end.

(** [load_configfile]: -1 when libxml2 returns no document; the root element and its
    (absent) siblings otherwise. *)
Definition load_configfile (doc : option xmlNode) (c : perfmodel_config)
  : option (Z * perfmodel_config) :=
  let c := init c in
  match doc with
  | None => Some (-1, c)
  | Some root => c ← print_element_names [root] c; Some (0, c)
  end.
