(* ===== verification/ConfigTheorems.v ===== *)
(** Reading the configuration: the recursive walk of the document is a fold over its
    elements, and the order of the elements does not matter. *)

From Stdlib Require Import ZArith Lia String Ascii.
From Stdlib Require Import Floats.SpecFloat.
From stdpp Require Import base tactics option list sets strings.
From S2P Require Import Prelude Config.

Definition attrs : Type := string → option string.

(** The elements of a document in document order. *)
Fixpoint node_elements (n : xmlNode) : list (string * attrs) :=
  match n with
  | XmlNode e name p children =>
      (if e then [(name, p)] else []) ++ concat (node_elements <$> children)
  end.

Definition elements (ns : list xmlNode) : list (string * attrs) := concat (node_elements <$> ns).

Fixpoint read_all (es : list (string * attrs)) (c : perfmodel_config) : option perfmodel_config :=
  match es with
  | [] => Some c
  | (name, p) :: es => c ← read_element p name c; read_all es c
  end.

Lemma read_all_app es es' c : read_all (es ++ es') c = c ← read_all es c; read_all es' c.
Proof.
  revert c. induction es as [|[n p] es IH]; intros c; [done|]. simpl.
  destruct (read_element p n c); [|done]. apply IH.
Qed.

Definition visit : xmlNode → perfmodel_config → option perfmodel_config :=
  λ n, print_element_names [n].

Lemma print_element_names_cons n ns c :
  print_element_names (n :: ns) c = c ← visit n c; print_element_names ns c.
Proof.
  unfold visit. destruct n. simpl.
  match goal with |- context [?f children _] => set (w := f) end.
  destruct (if is_element then _ else _) as [c1|]; [|done]. simpl. by destruct (w children c1).
Qed.

Lemma visit_node e name p ns c :
  visit (XmlNode e name p ns) c =
    c ← (if e then read_element p name c else Some c); print_element_names ns c.
Proof.
  unfold visit. simpl. destruct (if e then _ else _) as [c1|]; [|done]. simpl.
  revert c1. induction ns as [|n ns IH]; intros c1; [done|].
  rewrite print_element_names_cons. unfold visit.
  destruct n as [e' name' p' ns']. simpl.
  destruct (if e' then _ else _) as [c2|]; [|done]. simpl.
  match goal with |- context [?f ns' c2] => destruct (f ns' c2) as [c3|] end; [|done]. simpl.
  apply IH.
Qed.

(** The nodes of a tree, by induction over the tree. *)
Lemma xmlNode_nested (Q : xmlNode → Prop) :
  (∀ e name p ns, Forall Q ns → Q (XmlNode e name p ns)) → ∀ n, Q n.
Proof.
  intros H. fix IH 1. intros [e name p ns]. apply H. induction ns as [|n ns IHns]; constructor.
  - apply IH.
  - apply IHns.
Qed.

Lemma read_forest ns c :
  Forall (λ n, ∀ c, visit n c = read_all (node_elements n) c) ns →
  print_element_names ns c = read_all (elements ns) c.
Proof.
  intros H. revert c. induction H as [|n ns Hn _ IH]; intros c; [done|].
  rewrite print_element_names_cons, Hn. unfold elements. csimpl. rewrite read_all_app.
  destruct (read_all (node_elements n) c); [apply IH|done].
Qed.

Lemma read_document ns c : print_element_names ns c = read_all (elements ns) c.
Proof.
  apply read_forest, Forall_true. intros n. induction n as [e name p ns' IH] using xmlNode_nested.
  intros c'. rewrite visit_node. simpl. rewrite read_all_app.
  destruct e; simpl.
  - destruct (read_element p name c'); [|done]. simpl. by apply read_forest.
  - by apply read_forest.
Qed.

(** What an element writes, whatever the configuration read so far. *)
Definition section_of (p : attrs) (name : string) : option (perfmodel_config → perfmodel_config) :=
  if (name =? "sample")%string then
    len ← int_prop p "length"; per ← int_prop p "default_period";
    w ← p "initial_effective_dispatch_width"%string;
    Some (set_sample {| sample_length := len; default_period := per;
                        initial_effective_dispatch_width := atof w |})
  else if (name =? "core")%string then
    f ← int_prop p "frontend_width"; b ← int_prop p "backend_width";
    r ← int_prop p "rob_size"; i ← int_prop p "iq_size";
    Some (set_core {| frontend_width := f; backend_width := b; rob_size := r; iq_size := i |})
  else if (name =? "numfu")%string then
    a ← int_prop p "intalu"; m ← int_prop p "intmultdiv"; r ← int_prop p "mem_rwport";
    Some (set_numfu {| numfu_intalu := a; numfu_intmultdiv := m; numfu_mem_rwport := r |})
  else if (name =? "latency")%string then
    a ← int_prop p "intalu"; b ← int_prop p "branch"; m ← int_prop p "intmult";
    d ← int_prop p "intdiv"; e ← int_prop p "mem"; o ← int_prop p "coproc";
    Some (set_latency {| lat_intalu := a; lat_branch := b; lat_intmult := m; lat_intdiv := d;
                         lat_mem := e; lat_coproc := o |})
  else if (name =? "etc")%string then
    s ← int_prop p "syscall_penalty"; Some (set_etc {| syscall_penalty := s |})
  else if (name =? "dl1_cache")%string then v ← read_cache p; Some (set_dl1 v)
  else if (name =? "il1_cache")%string then v ← read_cache p; Some (set_il1 v)
  else if (name =? "ul2_cache")%string then v ← read_cache p; Some (set_ul2 v)
  else if (name =? "memory")%string then
    l ← int_prop p "latency"; Some (set_mem {| mem_latency := l |})
  else if (name =? "bpred")%string then
    b ← int_prop p "bimod_table_size"; m ← int_prop p "mispredict_penalty";
    Some (set_bpred {| bimod_table_size := b; mispredict_penalty := m |})
  else Some id.

(** Splits on the section a name stands for. *)
Ltac by_section name :=
  repeat match goal with
  | |- context [(name =? ?s)%string] => destruct (String.eqb_spec name s); [subst name; simpl|]
  end.
Ltac by_props :=
  repeat match goal with
  | |- context [int_prop ?p ?k] => destruct (int_prop p k); simpl; [|done]
  | |- context [read_cache ?p] => destruct (read_cache p); simpl; [|done]
  | |- context [?q "initial_effective_dispatch_width"%string] =>
      destruct (q "initial_effective_dispatch_width"%string); simpl; [|done]
  end.

Lemma read_element_section p name c :
  read_element p name c = u ← section_of p name; Some (u c).
Proof. unfold read_element, section_of. by_section name; by_props; done. Qed.

Lemma section_comm p name p' name' u u' c :
  name ≠ name' → section_of p name = Some u → section_of p' name' = Some u' →
  u (u' c) = u' (u c).
Proof.
  intros Hne Hu Hu'.
  assert (H : ∀ p name u, section_of p name = Some u → u = id ∨ 
     (name = "sample"%string ∧ ∃ v, u = set_sample v) ∨ (name = "core"%string ∧ ∃ v, u = set_core v)
   ∨ (name = "numfu"%string ∧ ∃ v, u = set_numfu v) ∨ (name = "latency"%string ∧ ∃ v, u = set_latency v)
   ∨ (name = "etc"%string ∧ ∃ v, u = set_etc v) ∨ (name = "dl1_cache"%string ∧ ∃ v, u = set_dl1 v)
   ∨ (name = "il1_cache"%string ∧ ∃ v, u = set_il1 v) ∨ (name = "ul2_cache"%string ∧ ∃ v, u = set_ul2 v)
   ∨ (name = "memory"%string ∧ ∃ v, u = set_mem v) ∨ (name = "bpred"%string ∧ ∃ v, u = set_bpred v)).
  { clear. intros p name u. unfold section_of. by_section name; by_props; intros [= <-]; naive_solver. }
  apply H in Hu, Hu'. destruct_or?; destruct_and?;
    repeat match goal with H : ∃ _, _ |- _ => destruct H end; subst; done.
Qed.

Lemma read_swap n p n' p' es c :
  n ≠ n' → read_all ((n, p) :: (n', p') :: es) c = read_all ((n', p') :: (n, p) :: es) c.
Proof.
  intros Hne. simpl. rewrite !read_element_section.
  destruct (section_of p n) as [u|] eqn:Hu, (section_of p' n') as [u'|] eqn:Hu'; simpl;
    rewrite ?read_element_section, ?Hu, ?Hu'; try done.
  simpl. by rewrite (section_comm _ _ _ _ _ _ c Hne Hu Hu').
Qed.

Lemma read_perm es es' c : es ≡ₚ es' → NoDup es.*1 → read_all es c = read_all es' c.
Proof.
  intros Hp. revert c. induction Hp as [|[n p] es es' _ IH|[n p] [n' p'] es|es1 es2 es3 H1 IH1 _ IH2];
    intros c Hnd; csimpl in *.
  - done.
  - apply NoDup_cons in Hnd as [_ Hnd]. destruct (read_element p n c); [by apply IH|done].
  - apply (read_swap n' p' n p es c). apply NoDup_cons in Hnd as [Hn _]. set_solver.
  - rewrite IH1 by done. apply IH2. by rewrite <-H1.
Qed.

(** The configuration does not depend on the order or the nesting of the sections: two
    documents with the same elements, each section at most once, load the same. *)
Theorem config_order root root' c :
  node_elements root ≡ₚ node_elements root' → NoDup (node_elements root).*1 →
  load_configfile (Some root) c = load_configfile (Some root') c.
Proof.
  intros Hp Hnd. unfold load_configfile. rewrite !read_document. unfold elements. simpl.
  rewrite !app_nil_r. by rewrite (read_perm _ _ _ Hp Hnd).
Qed.

Definition w_attrs (l : list (string * string)) : attrs :=
  λ k, snd <$> head (filter (λ x, x.1 = k) l).
Definition w_core : xmlNode := XmlNode true "core" (w_attrs [("frontend_width", "3"); ("backend_width", "4");
  ("rob_size", "40"); ("iq_size", "32")]%string) [].
Definition w_mem : xmlNode := XmlNode true "memory" (w_attrs [("latency", "106")]%string) [].
Definition w_root (ns : list xmlNode) : xmlNode := XmlNode true "config" (w_attrs []) ns.

Lemma config_order_witness :
  load_configfile (Some (w_root [w_core; w_mem])) perfmodel0 =
    load_configfile (Some (w_root [w_mem; w_core])) perfmodel0 ∧
  (rob_size ∘ core ∘ snd <$> load_configfile (Some (w_root [w_core; w_mem])) perfmodel0) = Some 40.
Proof.
  split; [|done]. apply config_order; simpl.
  - by apply Permutation_skip, Permutation_swap.
  - repeat constructor; set_solver.
Defined.
