(* ===== verification/Cache.v ===== *)
(** The set-associative cache of hsim-stub/cache.c: blocks in doubly linked lists, one
    list per set, most recently moved block first. *)

From Stdlib Require Import ZArith Lia String.
From stdpp Require Import base tactics option list gmap.
From S2P Require Import Prelude DList.

(** ** Data (cache.h) *)

Inductive Cache_policy := LRU | Random | FIFO.
Inductive CacheAccessType := Read | Write.

#[export] Instance Cache_policy_eq_dec : EqDecision Cache_policy.
Proof. solve_decision. Defined.
#[export] Instance CacheAccessType_eq_dec : EqDecision CacheAccessType.
Proof. solve_decision. Defined.

Record Cache_config := {
  name : string;
  nset : Z;
  bsize : Z;
  assoc : Z;
  policy : Cache_policy;
  hit_lat : Z;
  miss_lat : Z;
}.

Record Cache_blk_t := {
  valid : bool;
  dirty : bool;
  tag : Z;
  data : option ptr;
  prev_blk : option ptr;
  next_blk : option ptr;
}.

Record Cache_set_t := {
  first_blk : option ptr;
  last_blk : option ptr;
}.

Record Cache_t := {
  cache_set : list Cache_set_t;
  config : Cache_config;
  num_access : Z;
  num_miss : Z;
  num_read_miss : Z;
  num_miss_star : Z;
  len_tag_bit : Z;
  len_idx_bit : Z;
  len_offset_bit : Z;
  last_miss_inst_id : Z;
  last_miss_addr : Z;
  offset_mask : Z;
  addr_mask : Z;
}.

(** The part of the C heap the caches use: the blocks, the live data buffers, and the
    next pointer [malloc] returns. *)
Record Heap := {
  blks : gmap ptr Cache_blk_t;
  bufs : gset ptr;
  brk : ptr;
}.

Definition set_valid v b :=
  {| valid := v; dirty := dirty b; tag := tag b; data := data b;
     prev_blk := prev_blk b; next_blk := next_blk b |}.
Definition set_dirty v b :=
  {| valid := valid b; dirty := v; tag := tag b; data := data b;
     prev_blk := prev_blk b; next_blk := next_blk b |}.
Definition set_tag v b :=
  {| valid := valid b; dirty := dirty b; tag := v; data := data b;
     prev_blk := prev_blk b; next_blk := next_blk b |}.
Definition set_prev v b :=
  {| valid := valid b; dirty := dirty b; tag := tag b; data := data b;
     prev_blk := v; next_blk := next_blk b |}.
Definition set_next v b :=
  {| valid := valid b; dirty := dirty b; tag := tag b; data := data b;
     prev_blk := prev_blk b; next_blk := v |}.

Definition set_first v s := {| first_blk := v; last_blk := last_blk s |}.
Definition set_last v s := {| first_blk := first_blk s; last_blk := v |}.

Definition with_blks (b : gmap ptr Cache_blk_t) (h : Heap) : Heap :=
  {| blks := b; bufs := bufs h; brk := brk h |}.

(** What a block carries besides its links. *)
Record line := Line { lvalid : bool; ldirty : bool; ltag : Z; ldata : option ptr }.

#[export] Program Instance blk_dnode : DNode Cache_blk_t line := {
  nprev := prev_blk;
  nnext := next_blk;
  ndata b := Line (valid b) (dirty b) (tag b) (data b);
  set_nprev := set_prev;
  set_nnext := set_next;
}.
Solve All Obligations with done.

(** ** Allocation *)

Definition malloc_buf (h : Heap) : Heap * ptr :=
  ({| blks := blks h; bufs := {[brk h]} ∪ bufs h; brk := Pos.succ (brk h) |}, brk h).

Definition malloc_blk (b : Cache_blk_t) (h : Heap) : Heap * ptr :=
  ({| blks := <[brk h := b]> (blks h); bufs := bufs h; brk := Pos.succ (brk h) |}, brk h).

Definition free_buf (h : Heap) (p : ptr) : option Heap :=
  if decide (p ∈ bufs h)
  then Some {| blks := blks h; bufs := bufs h ∖ {[p]}; brk := brk h |}
  else None.

Definition free_blk (h : Heap) (p : ptr) : option Heap :=
  _ ← blks h !! p; Some (with_blks (delete p (blks h)) h).

(** ** Operations (cache.c) *)

Definition cacheblock_initialize (h : Heap) (block : ptr) : option Heap :=
  let '(h, buf) := malloc_buf h in
  b ← upd (blks h) block (λ _,
    {| valid := false; dirty := false; tag := 0; data := Some buf;
       prev_blk := None; next_blk := None |});
  Some (with_blks b h).

Section CacheInit.
(** The contents of fresh memory. *)
Variable junk_blk : Cache_blk_t.

Definition cacheset_initialize (h : Heap) (set : Cache_set_t) (assoc : Z)
  : option (Heap * Cache_set_t) :=
  for_lt assoc (λ i '(h, set),
    let '(h, blk) := malloc_blk junk_blk h in
    h ← cacheblock_initialize h blk;
    if i =? 0 then Some (h, {| first_blk := Some blk; last_blk := Some blk |})
    else
      b ← upd (blks h) blk (set_prev (last_blk set));
      b ← upd b blk (set_next None);
      l ← last_blk set;
      b ← upd b l (set_next (Some blk));
      Some (with_blks b h, set_last (Some blk) set))
    (h, set).

Variable junk_set : Cache_set_t.

(** [(int)log2((double)z)]: exact on positive 32-bit integers. *)
Definition log2i (z : Z) : option Z := if z <=? 0 then None else Some (Z.log2 z).

(** [junk] is the malloc'ed, uninitialised [Cache_t]. *)
Definition cache_initialize (h : Heap) (junk : Cache_t) (name : string)
  (nset bsize assoc : Z) (policy : Cache_policy) (hit_lat miss_lat : Z)
  : option (Heap * Cache_t) :=
  len_offset_bit ← log2i bsize;
  len_idx_bit ← log2i nset;
  '(h, sets) ← for_lt nset (λ _ '(h, sets),
    '(h, set) ← cacheset_initialize h junk_set assoc;
    Some (h, sets ++ [set])) (h, []);
  Some (h,
    {| cache_set := sets;
       config := {| name := name; nset := nset; bsize := bsize; assoc := assoc;
                    policy := policy; hit_lat := hit_lat; miss_lat := miss_lat |};
       num_access := 0; num_miss := 0; num_read_miss := 0; num_miss_star := 0;
       len_tag_bit := u32 (32 - len_offset_bit - len_idx_bit);
       len_idx_bit := len_idx_bit;
       len_offset_bit := len_offset_bit;
       last_miss_inst_id := u64 (-1);
       last_miss_addr := last_miss_addr junk;
       offset_mask := u32 ((1 .<< len_offset_bit) - 1);
       addr_mask := u32 (Z.lnot ((1 .<< len_offset_bit) - 1)) |}).
End CacheInit.

Definition cacheset_moveBlkAtFirst (h : gmap ptr Cache_blk_t) (set : Cache_set_t) (blk : ptr)
  : option (gmap ptr Cache_blk_t * Cache_set_t) :=
  if decide (first_blk set = Some blk) then Some (h, set)
  else
    (* remove *)
    b ← h !! blk;
    '(h, set) ← match prev_blk b with
      | Some p => h ← upd h p (set_next (next_blk b)); Some (h, set)
      | None => Some (h, set_first (next_blk b) set)
      end;
    b ← h !! blk;
    '(h, set) ← match next_blk b with
      | Some n => h ← upd h n (set_prev (prev_blk b)); Some (h, set)
      | None => Some (h, set_last (prev_blk b) set)
      end;
    (* add *)
    h ← upd h blk (set_prev None);
    h ← upd h blk (set_next (first_blk set));
    f ← first_blk set;
    h ← upd h f (set_prev (Some blk));
    Some (h, set_first (Some blk) set).

(** The [while (target_blk != NULL)] search of [cache_access]: the block holding [t], or
    null at the end of the list. *)
Fixpoint find_blk (fuel : nat) (h : gmap ptr Cache_blk_t) (target_blk : option ptr) (t : Z)
  : option (option ptr) :=
  match target_blk with
  | None => Some None
  | Some p =>
      match fuel with
      | O => None
      | S fuel =>
          b ← h !! p;
          if valid b && (tag b =? t) then Some (Some p)
          else find_blk fuel h (next_blk b) t
      end
  end.

(** [for (i=0 ; i<victimIdx ; i++) target_blk = target_blk->next_blk]. *)
Fixpoint nth_blk (n : nat) (h : gmap ptr Cache_blk_t) (target_blk : option ptr) : option (option ptr) :=
  match n with
  | O => Some target_blk
  | S n => p ← target_blk; b ← h !! p; nth_blk n h (next_blk b)
  end.

(** Unsigned shifts by 32 or more are undefined. *)
Definition shr32 (a n : Z) : option Z := if n <? 32 then Some (a .>> n) else None.

Definition cache_idx (c : Cache_t) (addr : Z) : Z :=
  (addr .>> len_offset_bit c) .& ((1 .<< len_idx_bit c) - 1).

Definition set_cache_set sets c :=
  {| cache_set := sets; config := config c; num_access := num_access c;
     num_miss := num_miss c; num_read_miss := num_read_miss c;
     num_miss_star := num_miss_star c; len_tag_bit := len_tag_bit c;
     len_idx_bit := len_idx_bit c; len_offset_bit := len_offset_bit c;
     last_miss_inst_id := last_miss_inst_id c; last_miss_addr := last_miss_addr c;
     offset_mask := offset_mask c; addr_mask := addr_mask c |}.
Definition set_num_access v c :=
  {| cache_set := cache_set c; config := config c; num_access := v;
     num_miss := num_miss c; num_read_miss := num_read_miss c;
     num_miss_star := num_miss_star c; len_tag_bit := len_tag_bit c;
     len_idx_bit := len_idx_bit c; len_offset_bit := len_offset_bit c;
     last_miss_inst_id := last_miss_inst_id c; last_miss_addr := last_miss_addr c;
     offset_mask := offset_mask c; addr_mask := addr_mask c |}.
(** The four miss statistics together. *)
Definition set_misses miss read_miss star last_id c :=
  {| cache_set := cache_set c; config := config c; num_access := num_access c;
     num_miss := miss; num_read_miss := read_miss;
     num_miss_star := star; len_tag_bit := len_tag_bit c;
     len_idx_bit := len_idx_bit c; len_offset_bit := len_offset_bit c;
     last_miss_inst_id := last_id; last_miss_addr := last_miss_addr c;
     offset_mask := offset_mask c; addr_mask := addr_mask c |}.

(** The statistics update of a miss. *)
Definition count_miss (rob_size inst_id : Z) (type : CacheAccessType) (c : Cache_t) : Cache_t :=
  match type with
  | Read =>
      let star :=
        if (last_miss_inst_id c =? u64 (-1)) ||
           (u64 rob_size <? u64 (inst_id - last_miss_inst_id c))
        then u64 (num_miss_star c + 1) else num_miss_star c in
      set_misses (u64 (num_miss c + 1)) (u64 (num_read_miss c + 1)) star inst_id c
  | Write =>
      set_misses (u64 (num_miss c + 1)) (num_read_miss c) (num_miss_star c)
        (last_miss_inst_id c) c
  end.

Section CacheAccess.
(** [perfmodel.core.rob_size] of the configuration. *)
Variable rob_size : Z.

(** [rnd] is the value [rand()] returns in this call. *)
Definition cache_access (inst_id : Z) (h : Heap) (cache : Cache_t) (type : CacheAccessType)
  (addr rnd : Z) : option (bool * Heap * Cache_t) :=
  let idx := cache_idx cache addr in
  t ← shr32 addr (len_offset_bit cache + len_idx_bit cache);
  let cache := set_num_access (u64 (num_access cache + 1)) cache in
  set ← arr_get (cache_set cache) idx;
  found ← find_blk (size (blks h)) (blks h) (first_blk set) t;
  match found with
  | Some target_blk =>
      if decide (policy (config cache) = LRU) then
        '(b, set) ← cacheset_moveBlkAtFirst (blks h) set target_blk;
        sets ← arr_set (cache_set cache) idx set;
        Some (true, with_blks b h, set_cache_set sets cache)
      else Some (true, h, cache)
  | None =>
      victim ← match policy (config cache) with
        | LRU | FIFO => Some (last_blk set)
        | Random =>
            if assoc (config cache) =? 0 then None
            else nth_blk (Z.to_nat (Z.rem rnd (assoc (config cache)))) (blks h) (first_blk set)
        end;
      target_blk ← victim;
      b ← upd (blks h) target_blk (set_valid true);
      b ← upd b target_blk (set_tag t);
      let cache := count_miss rob_size inst_id type cache in
      '(b, set) ← cacheset_moveBlkAtFirst b set target_blk;
      sets ← arr_set (cache_set cache) idx set;
      Some (false, with_blks b h, set_cache_set sets cache)
  end.
End CacheAccess.

(** [while (blk != NULL)] of [cache_invalidate] for one set. *)
Fixpoint invalidate_blks (fuel : nat) (h : gmap ptr Cache_blk_t) (blk : option ptr)
  : option (gmap ptr Cache_blk_t) :=
  match blk with
  | None => Some h
  | Some p =>
      match fuel with
      | O => None
      | S fuel =>
          b ← h !! p;
          h ← upd h p (set_valid false);
          h ← upd h p (set_dirty false);
          invalidate_blks fuel h (next_blk b)
      end
  end.

Definition cache_invalidate (h : Heap) (cache : Cache_t) : option Heap :=
  b ← for_lt (nset (config cache)) (λ i b,
    set ← arr_get (cache_set cache) i;
    invalidate_blks (size b) b (first_blk set)) (blks h);
  Some (with_blks b h).

(** [while (blk != NULL)] of [cache_close] for one set. *)
Fixpoint close_blks (fuel : nat) (h : Heap) (blk : option ptr) : option Heap :=
  match blk with
  | None => Some h
  | Some p =>
      match fuel with
      | O => None
      | S fuel =>
          b ← blks h !! p;
          h ← match data b with
              | Some d => free_buf h d
              | None => Some h
              end;
          h ← free_blk h p;
          close_blks fuel h (next_blk b)
      end
  end.

Definition cache_close (h : Heap) (cache : Cache_t) : option Heap :=
  for_lt (nset (config cache)) (λ i h,
    set ← arr_get (cache_set cache) i;
    close_blks (size (blks h)) h (first_blk set)) h.
