(* ===== verification/CacheSpec.v ===== *)
(** What the cache of Cache.v promises: each set refines a list of lines kept in
    replacement order. *)

From Stdlib Require Import ZArith Lia String.
From stdpp Require Import base tactics option list gmap.
From S2P Require Import Prelude DList Cache.

(** ** The abstract cache set *)

Definition move_front {A} (i : nat) (l : list A) : list A :=
  match l !! i with
  | Some x => x :: delete i l
  | None => l
  end.

Definition holds (t : Z) (l : line) : Prop := lvalid l = true ∧ ltag l = t.
#[export] Instance holds_dec t l : Decision (holds t l).
Proof. unfold holds. apply _. Defined.

Definition fill (t : Z) (l : line) : line := Line true (ldirty l) t (ldata l).

Definition victim_idx (pol : Cache_policy) (rnd : Z) (n : nat) : nat :=
  match pol with
  | LRU | FIFO => pred n
  | Random => Z.to_nat (Z.rem rnd (Z.of_nat n))
  end.

(** One access for tag [t] to a set holding [ls]: whether it hits, and the new lines. *)
Definition set_access (pol : Cache_policy) (rnd t : Z) (ls : list line) : bool * list line :=
  match list_find (holds t) ls with
  | Some (i, _) => (true, if decide (pol = LRU) then move_front i ls else ls)
  | None =>
      let v := victim_idx pol rnd (length ls) in
      (false, move_front v (alter (fill t) v ls))
  end.

(** ** Representation *)

Definition set_rep (b : gmap ptr Cache_blk_t) (s : Cache_set_t) (xs : list (ptr * line)) : Prop :=
  first_blk s = first_ptr xs None ∧ last_blk s = last_ptr None xs ∧ dseg b None xs None.

(** The blocks of the whole cache: one list per set, no block in two places. *)
Record cache_rep (b : gmap ptr Cache_blk_t) (c : Cache_t) (xss : list (list (ptr * line))) : Prop := {
  rep_sets : Forall2 (set_rep b) (cache_set c) xss;
  rep_nodup : NoDup (concat xss).*1;
  rep_assoc : Forall (λ xs, Z.of_nat (length xs) = assoc (config c)) xss;
  rep_nset : Z.of_nat (length xss) = nset (config c);
  rep_pos : 0 < assoc (config c);
  rep_off : 0 ≤ len_offset_bit c;
  rep_idx : 0 ≤ len_idx_bit c ∧ 2 ^ len_idx_bit c ≤ nset (config c);
  rep_width : len_offset_bit c + len_idx_bit c < 32;
}.

(** ** Moving a block to the front *)

Lemma move_front_perm {A} i (l : list A) : move_front i l ≡ₚ l.
Proof.
  unfold move_front. destruct (l !! i) as [x|] eqn:E; [|done].
  symmetry. by apply delete_Permutation.
Qed.

Lemma move_front_fmap {A B} (f : A → B) i l : f <$> move_front i l = move_front i (f <$> l).
Proof.
  unfold move_front. rewrite list_lookup_fmap. destruct (l !! i); [|done]. simpl.
  by rewrite list_fmap_delete.
Qed.

Lemma move_front_app {A} (l1 l2 : list A) x :
  move_front (length l1) (l1 ++ x :: l2) = x :: l1 ++ l2.
Proof. unfold move_front. by rewrite list_lookup_middle, delete_middle. Qed.

Lemma last_ptr_Some {D} (y : ptr * D) l : ∃ p, last_ptr None (y :: l) = Some p.
Proof. rewrite last_ptr_cons. unfold last_ptr. destruct (last l); eauto. Qed.

Lemma last_ptr_app {D} pp (xs ys : list (ptr * D)) :
  last_ptr pp (xs ++ ys) = last_ptr (last_ptr pp xs) ys.
Proof. unfold last_ptr. rewrite last_app. by destruct (last ys). Qed.

Lemma moveBlkAtFirst_rep b s xs i x :
  set_rep b s xs → NoDup xs.*1 → xs !! i = Some x →
  ∃ b' s', cacheset_moveBlkAtFirst b s x.1 = Some (b', s') ∧
    set_rep b' s' (move_front i xs) ∧ dom b' = dom b ∧
    (∀ q, q ∉ xs.*1 → b' !! q = b !! q).
Proof.
  intros (Hfst & Hlst & Hs) Hnd Hx.
  apply list_elem_of_split_length in Hx as (l1 & l2 & -> & ->).
  rewrite move_front_app. unfold cacheset_moveBlkAtFirst.
  destruct l1 as [|y l1].
  { simpl in *. rewrite decide_True by done. exists b, s. by split_and!. }
  simpl in Hfst. rewrite decide_False; cycle 1.
  { rewrite Hfst. intros [= Heq]. simpl in Hnd. apply NoDup_cons in Hnd as [Hnd _].
    apply Hnd. rewrite Heq, fmap_app. simpl. set_solver. }
  destruct (dseg_mid _ _ _ _ _ _ Hs) as (n & Hn & Hp & Hnx & Hd).
  destruct (unlink_pn _ _ _ _ Hnd Hs) as (h1 & h2 & Hu1 & Hu2 & Hx1 & Hx2 & Hs2 & Hdm & Hfr).
  destruct (last_ptr_Some y l1) as [p Hlp]. rewrite Hlp in *.
  rewrite Hn. simpl in Hp, Hnx, Hu1 |- *. rewrite Hp, Hnx, Hu1. simpl.
  rewrite Hx1, Hn. simpl. rewrite Hnx, Hp.
  set (s2 := match first_ptr l2 None with Some _ => s | None => set_last (Some p) s end).
  assert (Hs2' : last_blk s2 = last_ptr None ((y :: l1) ++ l2)).
  { rewrite last_ptr_app, Hlp. subst s2. destruct l2 as [|z l2]; simpl; [done|].
    rewrite Hlst, !last_ptr_app, !last_ptr_cons. done. }
  assert (Hs2f : first_blk s2 = Some y.1).
  { subst s2. by destruct (first_ptr l2 None). }
  assert (Heq : match first_ptr l2 None with
          | Some n => h ← upd h1 n (set_prev (Some p)); Some (h, s)
          | None => Some (h1, set_last (Some p) s) end = Some (h2, s2)).
  { subst s2. destruct (first_ptr l2 None); simpl in *; [by rewrite Hu2|congruence]. }
  rewrite Heq. simpl. rewrite (upd_Some _ _ n) by congruence. simpl.
  rewrite (upd_Some _ _ _ _ (lookup_insert_eq _ _ _)). simpl. rewrite Hs2f. simpl.
  rewrite insert_insert_eq.
  apply NoDup_fst_middle in Hnd as [Hnd2 Hxn].
  set (n' := set_next (Some y.1) (set_prev None n)).
  destruct (push_front_seg (<[x.1:=n']> h2) ((y :: l1) ++ l2) x.1 n' x.2)
    as (h3 & Hu3 & Hs3 & Hdm3 & Hfr3); try done.
  { by apply dseg_insert_notin. }
  { by rewrite lookup_insert_eq. }
  simpl in Hu3. rewrite Hu3. simpl. exists h3, (set_first (Some x.1) s2). split; [done|].
  destruct x as [xp xd]. split; [split; [done|split; [|done]]|split].
  - simpl. rewrite Hs2', last_ptr_cons. simpl. by rewrite !last_ptr_cons.
  - rewrite Hdm3, dom_insert_L, Hdm. apply elem_of_dom_2 in Hn. set_solver.
  - intros q Hq. rewrite fmap_app in Hq. simpl in *.
    rewrite Hfr3 by (rewrite fmap_app; simpl; set_solver). rewrite lookup_insert_ne by set_solver.
    apply Hfr. rewrite fmap_app. simpl. set_solver.
Qed.

(** ** The search loops *)

Lemma dseg_length (b : gmap ptr Cache_blk_t) pp (xs : list (ptr * line)) nn :
  NoDup xs.*1 → dseg b pp xs nn → (length xs ≤ size b)%nat.
Proof.
  intros Hnd Hs. rewrite <-size_dom, <-(length_fmap fst), <-(size_list_to_set (C := gset ptr)) by done.
  apply subseteq_size. intros p. rewrite elem_of_list_to_set, list_elem_of_fmap.
  intros (x & -> & Hx). destruct (dseg_elem _ _ _ _ _ Hs Hx) as (n & Hn & _).
  by eapply elem_of_dom_2.
Qed.

Lemma find_blk_rep b t fuel pp xs :
  dseg b pp xs None → (length xs ≤ fuel)%nat →
  match list_find (holds t) xs.*2 with
  | Some (i, _) => ∃ x, xs !! i = Some x ∧ find_blk fuel b (first_ptr xs None) t = Some (Some x.1)
  | None => find_blk fuel b (first_ptr xs None) t = Some None
  end.
Proof.
  revert fuel pp. induction xs as [|x xs IH]; intros fuel pp; csimpl.
  { intros _ _. by destruct fuel. }
  intros [(n & Hn & Hp & Hnx & Hd) Hs] Hf. destruct fuel as [|fuel]; [lia|]. csimpl.
  rewrite Hn. csimpl. rewrite <-Hd. csimpl in *.
  destruct (decide (holds t _)) as [[Hv Ht]|Hh]; csimpl in *.
  - exists x. rewrite Hv, Ht, Z.eqb_refl. done.
  - destruct (valid n && (tag n =? t)) eqn:E.
    { destruct Hh. apply andb_true_iff in E as [? ?%Z.eqb_eq]. by split. }
    rewrite Hnx. specialize (IH fuel _ Hs ltac:(lia)).
    destruct (list_find (holds t) xs.*2) as [[i ?]|]; done.
Qed.

Lemma nth_blk_rep (b : gmap ptr Cache_blk_t) k pp (xs : list (ptr * line)) x :
  dseg b pp xs None → xs !! k = Some x → nth_blk k b (first_ptr xs None) = Some (Some x.1).
Proof.
  revert k pp. induction xs as [|y xs IH]; intros [|k] pp; simpl; try done.
  - by intros _ [= ->].
  - intros [(n & Hn & Hp & Hnx & Hd) Hs] Hk. rewrite Hn. simpl in *. rewrite Hnx. eauto.
Qed.

(** ** One access *)

Lemma cache_rep_insert b b' c xss i xs s' xs' :
  cache_rep b c xss → xss !! i = Some xs →
  set_rep b' s' xs' → xs'.*1 ≡ₚ xs.*1 →
  (∀ q, q ∉ xs.*1 → b' !! q = b !! q) →
  cache_rep b' (set_cache_set (<[i := s']> (cache_set c)) c) (<[i := xs']> xss).
Proof.
  intros [Hsets Hnd Has Hns Hpos Hoff Hidx Hw] Hi Hs' Hperm Hfr.
  assert (Hlen : length xs' = length xs).
  { rewrite <-!(length_fmap fst). by rewrite Hperm. }
  apply list_elem_of_split_length in Hi as (L1 & L2 & -> & ->).
  apply Forall2_app_inv_r in Hsets as (S1 & S2 & HS1 & HS2 & Heq).
  apply Forall2_cons_inv_r in HS2 as (s & S2' & Hs & HS2 & ->).
  pose proof (Forall2_length _ _ _ HS1) as Hl.
  rewrite concat_app in Hnd. simpl in Hnd. rewrite !fmap_app in Hnd.
  pose proof Hnd as (_ & Hd1 & (_ & Hd2 & _)%NoDup_app)%NoDup_app.
  assert (Hpres : ∀ ss yss, Forall2 (set_rep b) ss yss →
    (∀ p, p ∈ (concat yss).*1 → p ∉ xs.*1) → Forall2 (set_rep b') ss yss).
  { clear -Hfr. intros ss yss Hss. induction Hss as [|s0 ys ss yss Hs0 Hss IH]; [done|].
    simpl. rewrite fmap_app. intros Hd. constructor.
    - destruct Hs0 as (? & ? & ?). split; [done|]. split; [done|].
      eapply dseg_frame; [|done]. intros p Hp. apply Hfr, Hd. set_solver.
    - apply IH. set_solver. }
  rewrite Heq. constructor; simpl; rewrite ?insert_app_r_alt, ?Hl, ?Nat.sub_diag by lia; simpl.
  - apply Forall2_app; [apply Hpres; [done|]|constructor; [done|apply Hpres; [done|]]].
    + intros p Hp Hx. apply (Hd1 _ Hp). set_solver.
    + intros p Hp Hx. by apply (Hd2 _ Hx).
  - rewrite concat_app. simpl. rewrite !fmap_app. by rewrite Hperm.
  - apply Forall_app in Has as [? Has]. apply Forall_cons in Has as [? ?].
    apply Forall_app. split; [done|]. constructor; [congruence|done].
  - rewrite length_app in *. simpl in *. done.
  - done.
  - done.
  - done.
  - done.
Qed.

Lemma cache_idx_bound b c xss addr :
  cache_rep b c xss → 0 ≤ addr → 0 ≤ cache_idx c addr < Z.of_nat (length xss).
Proof.
  intros [? ? ? Hns ? Hoff [Hi0 Hi] ?] Ha. unfold cache_idx.
  rewrite Z.shiftl_1_l. replace (2 ^ len_idx_bit c - 1) with (Z.ones (len_idx_bit c))
    by (rewrite Z.ones_equiv; lia).
  rewrite Z.land_ones by done.
  pose proof (Z.mod_pos_bound (addr .>> len_offset_bit c) (2 ^ len_idx_bit c) ltac:(lia)). lia.
Qed.

Definition counted (rob_size inst_id : Z) (ty : CacheAccessType) (hit : bool) (c : Cache_t) : Cache_t :=
  let c1 := set_num_access (u64 (num_access c + 1)) c in
  if hit then c1 else count_miss rob_size inst_id ty c1.

Lemma config_counted rob_size inst_id ty hit c :
  config (counted rob_size inst_id ty hit c) = config c ∧
  cache_set (counted rob_size inst_id ty hit c) = cache_set c ∧
  len_idx_bit (counted rob_size inst_id ty hit c) = len_idx_bit c ∧
  len_offset_bit (counted rob_size inst_id ty hit c) = len_offset_bit c.
Proof. by destruct hit, ty. Qed.

Lemma cache_rep_counted b c xss rob_size inst_id ty hit :
  cache_rep b c xss → cache_rep b (counted rob_size inst_id ty hit c) xss.
Proof.
  intros []. destruct (config_counted rob_size inst_id ty hit c) as (E1 & E2 & E3 & E4).
  constructor; rewrite ?E1, ?E2, ?E3, ?E4; done.
Qed.

Lemma victim_rep pol rnd b s xs :
  set_rep b s xs → xs ≠ [] → 0 ≤ rnd →
  ∃ x, xs !! victim_idx pol rnd (length xs) = Some x ∧
    match pol with
    | LRU | FIFO => Some (last_blk s)
    | Random => nth_blk (Z.to_nat (Z.rem rnd (Z.of_nat (length xs)))) b (first_blk s)
    end = Some (Some x.1).
Proof.
  intros (Hf & Hl & Hs) Hne Hrnd. rewrite Hf, Hl.
  assert (0 < Z.of_nat (length xs)) by (destruct xs; simpl in *; [done|lia]).
  destruct pol; simpl.
  2: { pose proof (Z.rem_bound_pos rnd (Z.of_nat (length xs)) ltac:(lia) ltac:(lia)).
    destruct (lookup_lt_is_Some_2 xs (Z.to_nat (Z.rem rnd (Z.of_nat (length xs))))) as [x Hx]; [lia|].
    exists x. split; [done|]. by eapply nth_blk_rep. }
  all: destruct xs as [|x xs _] using rev_ind; [done|];
    exists x; rewrite length_app; simpl;
    replace (pred (length xs + 1)) with (length xs) by lia;
    by rewrite list_lookup_middle, last_ptr_snoc.
Qed.

(** Writing tag [t] into the block at position [v] and moving it to the front. *)
Lemma replace_rep b s xs v x t :
  set_rep b s xs → NoDup xs.*1 → xs !! v = Some x →
  ∃ b1 b2 b' s' xs',
    upd b x.1 (set_valid true) = Some b1 ∧ upd b1 x.1 (set_tag t) = Some b2 ∧
    cacheset_moveBlkAtFirst b2 s x.1 = Some (b', s') ∧
    set_rep b' s' xs' ∧ xs'.*1 ≡ₚ xs.*1 ∧ xs'.*2 = move_front v (alter (fill t) v xs.*2) ∧
    dom b' = dom b ∧ (∀ q, q ∉ xs.*1 → b' !! q = b !! q).
Proof.
  intros (Hfst & Hlst & Hseg) Hnd Hx.
  apply list_elem_of_split_length in Hx as (l1 & l2 & -> & ->).
  destruct (dseg_mid _ _ _ _ _ _ Hseg) as (n & Hn & Hp & Hnx & Hd).
  set (n' := set_tag t (set_valid true n)).
  set (ys := l1 ++ (x.1, fill t x.2) :: l2).
  assert (Hfst' : ys.*1 = (l1 ++ x :: l2).*1) by (subst ys; by rewrite !fmap_app).
  assert (Hsr' : set_rep (<[x.1 := n']> b) s ys).
  { split; [|split].
    - rewrite Hfst. by destruct l1.
    - rewrite Hlst. subst ys. rewrite !last_ptr_app, !last_ptr_cons. done.
    - eapply dseg_set_data; [done..|]. rewrite <-Hd. done. }
  destruct (moveBlkAtFirst_rep (<[x.1 := n']> b) s ys (length l1) (x.1, fill t x.2))
    as (b' & s' & Hm & Hs' & Hdm & Hfr);
    [done|by rewrite Hfst'|subst ys; by rewrite list_lookup_middle|].
  exists (<[x.1 := set_valid true n]> b), (<[x.1 := n']> b), b', s', (move_front (length l1) ys).
  split; [by rewrite (upd_Some _ _ n)|].
  split; [by rewrite (upd_Some _ _ _ _ (lookup_insert_eq _ _ _)), insert_insert_eq|].
  split; [done|]. split; [done|]. split; [by rewrite move_front_perm, Hfst'|].
  split; [|split].
  - rewrite move_front_fmap. f_equal. subst ys. rewrite !fmap_app. csimpl.
    by rewrite <-(length_fmap snd l1), alter_middle.
  - rewrite Hdm, dom_insert_L. apply elem_of_dom_2 in Hn. set_solver.
  - intros q Hq. rewrite Hfr by by rewrite Hfst'. rewrite lookup_insert_ne; [done|].
    intros <-. apply Hq. rewrite fmap_app. csimpl. set_solver.
Qed.

(** The set an access goes to and the tag it looks for. *)
Definition set_of (c : Cache_t) (addr : Z) : nat := Z.to_nat (cache_idx c addr).
Definition tag_of (c : Cache_t) (addr : Z) : Z := addr .>> (len_offset_bit c + len_idx_bit c).

(** The address selects an existing set. *)
Lemma cache_rep_lookup b c xss addr :
  cache_rep b c xss → 0 ≤ addr →
  ∃ s xs, arr_get (cache_set c) (cache_idx c addr) = Some s ∧
    xss !! set_of c addr = Some xs ∧ set_rep b s xs ∧ NoDup xs.*1 ∧
    Z.of_nat (length xs) = assoc (config c) ∧ xs ≠ [] ∧
    shr32 addr (len_offset_bit c + len_idx_bit c) = Some (tag_of c addr) ∧
    (∀ s', arr_set (cache_set c) (cache_idx c addr) s' = Some (<[set_of c addr := s']> (cache_set c))).
Proof.
  intros Hrep Ha. pose proof (cache_idx_bound _ _ _ addr Hrep Ha) as Hidx.
  destruct (lookup_lt_is_Some_2 xss (set_of c addr)) as [xs Hxs]; [unfold set_of; lia|].
  destruct Hrep as [Hsets Hnd Has Hns Hpos Hoff Hib Hw].
  destruct (Forall2_lookup_r _ _ _ _ _ Hsets Hxs) as (s & Hs & Hsr).
  pose proof (Forall_lookup_1 _ _ _ _ Has Hxs) as Hlen. simpl in Hlen.
  exists s, xs. split; [apply arr_get_Some; split; [lia|done]|]. split; [done|]. split; [done|].
  split; [|split; [done|split; [intros ->; simpl in Hlen; lia|split]]].
  - apply list_elem_of_split_length in Hxs as (L1 & L2 & -> & _).
    rewrite concat_app in Hnd. simpl in Hnd. rewrite !fmap_app in Hnd.
    by apply NoDup_app in Hnd as (_ & _ & (? & _ & _)%NoDup_app).
  - unfold shr32. by destruct (Z.ltb_spec (len_offset_bit c + len_idx_bit c) 32); [|lia].
  - intros s'. apply arr_set_Some. by rewrite (Forall2_length _ _ _ Hsets).
Qed.

(** The outcome of an access, given the lines [xs] of its set. *)
Definition access_post (rob_size inst_id : Z) (h : Heap) (c : Cache_t) (ty : CacheAccessType)
  (addr rnd : Z) (xss : list (list (ptr * line))) (xs : list (ptr * line))
  (hit : bool) (h' : Heap) (c' : Cache_t) (xs' : list (ptr * line)) : Prop :=
  (hit, xs'.*2) = set_access (policy (config c)) rnd (tag_of c addr) xs.*2 ∧
  xs'.*1 ≡ₚ xs.*1 ∧
  cache_rep (blks h') c' (<[set_of c addr := xs']> xss) ∧
  (∃ sets, c' = set_cache_set sets (counted rob_size inst_id ty hit c)) ∧
  (∀ q, q ∉ xs.*1 → blks h' !! q = blks h !! q) ∧
  dom (blks h') = dom (blks h) ∧ bufs h' = bufs h ∧ brk h' = brk h.

Lemma access_post_intro rob_size inst_id h c ty addr rnd xss xs hit b' s' xs' :
  cache_rep (blks h) c xss → xss !! set_of c addr = Some xs →
  (hit, xs'.*2) = set_access (policy (config c)) rnd (tag_of c addr) xs.*2 →
  set_rep b' s' xs' → xs'.*1 ≡ₚ xs.*1 → dom b' = dom (blks h) →
  (∀ q, q ∉ xs.*1 → b' !! q = blks h !! q) →
  access_post rob_size inst_id h c ty addr rnd xss xs hit (with_blks b' h)
    (set_cache_set (<[set_of c addr := s']> (cache_set c)) (counted rob_size inst_id ty hit c)) xs'.
Proof.
  intros Hrep Hxs Hacc Hs' Hperm Hdm Hfr.
  assert (Ecs : cache_set (counted rob_size inst_id ty hit c) = cache_set c)
    by apply (config_counted rob_size inst_id ty hit).
  split; [done|]. split; [done|]. split; [|split; [by eexists|done]].
  rewrite <-Ecs. eapply (cache_rep_insert _ _ (counted rob_size inst_id ty hit c));
    [by apply cache_rep_counted|done..].
Qed.

Lemma cache_access_set rob_size inst_id h c ty addr rnd xss :
  cache_rep (blks h) c xss → 0 ≤ addr → 0 ≤ rnd →
  ∃ xs hit h' c' xs',
    xss !! set_of c addr = Some xs ∧
    cache_access rob_size inst_id h c ty addr rnd = Some (hit, h', c') ∧
    access_post rob_size inst_id h c ty addr rnd xss xs hit h' c' xs'.
Proof.
  intros Hrep Ha Hrnd.
  destruct (cache_rep_lookup _ _ _ addr Hrep Ha)
    as (s & xs & Hget & Hxs & Hsr & Hnd & Hlen & Hne & Hshr & Hset).
  exists xs. unfold cache_access. rewrite Hshr. csimpl. rewrite Hget. csimpl.
  pose proof Hsr as (Hfst & Hlst & Hseg).
  pose proof (find_blk_rep (blks h) (tag_of c addr) (size (blks h)) None xs Hseg
    (dseg_length _ _ _ _ Hnd Hseg)) as Hfind. rewrite <-Hfst in Hfind.
  destruct (list_find (holds (tag_of c addr)) xs.*2) as [[i l]|] eqn:Elf.
  - destruct Hfind as (x & Hx & ->). csimpl.
    destruct (decide (policy (config c) = LRU)) as [Hp|Hp].
    + destruct (moveBlkAtFirst_rep (blks h) s xs i x) as (b' & s' & -> & Hs' & Hdm & Hfr); try done.
      csimpl. rewrite Hset. csimpl. eexists true, _, _, (move_front i xs).
      split; [done|]. split; [done|]. apply access_post_intro; try done.
      * unfold set_access. rewrite Elf, decide_True by done. by rewrite move_front_fmap.
      * by rewrite move_front_perm.
    + eexists true, _, _, xs. split; [done|]. split; [done|].
      split; [unfold set_access; by rewrite Elf, decide_False by done|]. split; [done|].
      rewrite list_insert_id by done.
      split; [by apply (cache_rep_counted _ _ _ rob_size inst_id ty true)|].
      split; [|done]. exists (cache_set c). by destruct c.
  - rewrite Hfind. csimpl.
    destruct (victim_rep (policy (config c)) rnd (blks h) s xs) as (x & Hx & Hv); [done|done|done|].
    rewrite Hlen in Hv.
    destruct (replace_rep (blks h) s xs _ x (tag_of c addr) Hsr Hnd Hx)
      as (b1 & b2 & b' & s' & xs' & Hu1 & Hu2 & Hm & Hs' & Hperm & Hls & Hdm & Hfr).
    replace (assoc (config c) =? 0) with false by (destruct Hrep; lia). rewrite Hv. csimpl.
    rewrite Hu1. csimpl. rewrite Hu2. csimpl. rewrite Hm. csimpl.
    replace (cache_set (count_miss _ _ _ _)) with (cache_set c) by by destruct ty.
    rewrite Hset. csimpl. eexists false, _, _, xs'. split; [done|]. split; [done|].
    apply (access_post_intro _ _ _ _ _ _ _ _ _ false); try done.
    unfold set_access. rewrite Elf. by rewrite length_fmap, Hls.
Qed.
