(* ===== verification/CacheLife.v ===== *)
(** Creating, invalidating and closing a cache. *)

From Stdlib Require Import ZArith Lia String.
From stdpp Require Import base tactics option list gmap.
From S2P Require Import Prelude DList Cache CacheSpec.

(** Everything allocated lies below the next pointer [malloc] returns. *)
Definition heap_ok (h : Heap) : Prop :=
  (∀ p, p ∈ dom (blks h) → (p < brk h)%positive) ∧ (∀ p, p ∈ bufs h → (p < brk h)%positive).

(** The data buffers of a list of blocks. *)
Definition bufs_of (xs : list (ptr * line)) : list ptr := omap (λ x, ldata x.2) xs.

(** A list of blocks no access has touched yet. *)
Definition fresh_lines (xs : list (ptr * line)) : Prop :=
  Forall (λ x, ∃ d, x.2 = Line false false 0 (Some d)) xs.

(** [grown h h' xs]: between [h] and [h'] exactly the blocks [xs] and their buffers were
    allocated. *)
Record grown (h h' : Heap) (xs : list (ptr * line)) : Prop := {
  grown_ok : heap_ok h';
  grown_brk : (brk h ≤ brk h')%positive;
  grown_nodup : NoDup xs.*1;
  grown_new : ∀ p, p ∈ xs.*1 → (brk h ≤ p)%positive;
  grown_live : ∀ p, p ∈ xs.*1 → p ∈ dom (blks h');
  grown_frame : ∀ p, p ∉ xs.*1 → blks h' !! p = blks h !! p;
  grown_bnodup : NoDup (bufs_of xs);
  grown_bnew : ∀ p, p ∈ bufs_of xs → (brk h ≤ p)%positive;
  grown_bufs : bufs h' = bufs h ∪ list_to_set (bufs_of xs);
}.

Lemma bufs_of_app xs ys : bufs_of (xs ++ ys) = bufs_of xs ++ bufs_of ys.
Proof. apply omap_app. Qed.

Lemma grown_refl h : heap_ok h → grown h h [].
Proof. intros Hok. split; try done; try constructor; set_solver. Qed.

Lemma grown_trans h1 h2 h3 xs ys :
  heap_ok h1 → grown h1 h2 xs → grown h2 h3 ys → grown h1 h3 (xs ++ ys).
Proof.
  intros Hok1 [Hok2 Hb Hnd Hnew Hlive Hfr Hbnd Hbnew Hbufs]
    [Hok3 Hb' Hnd' Hnew' Hlive' Hfr' Hbnd' Hbnew' Hbufs'].
  assert (Hlt : ∀ p, p ∈ xs.*1 → (p < brk h2)%positive).
  { intros p Hp. by apply (proj1 Hok2), Hlive. }
  assert (Hblt : ∀ p, p ∈ bufs_of xs → (p < brk h2)%positive).
  { intros p Hp. apply (proj2 Hok2). rewrite Hbufs. set_solver. }
  split; rewrite ?bufs_of_app, ?fmap_app.
  - done.
  - lia.
  - apply NoDup_app. split; [done|]. split; [|done]. intros p Hp Hp'.
    specialize (Hlt p Hp). specialize (Hnew' p Hp'). lia.
  - intros p [Hp|Hp]%elem_of_app; [auto|]. specialize (Hnew' p Hp). lia.
  - intros p [Hp|Hp]%elem_of_app; [|auto]. destruct (decide (p ∈ ys.*1)); [auto|].
    apply elem_of_dom. rewrite Hfr' by done. by apply elem_of_dom, Hlive.
  - intros p Hp. apply not_elem_of_app in Hp as [? ?]. by rewrite Hfr', Hfr.
  - apply NoDup_app. split; [done|]. split; [|done]. intros p Hp Hp'.
    specialize (Hblt p Hp). specialize (Hbnew' p Hp'). lia.
  - intros p [Hp|Hp]%elem_of_app; [auto|]. specialize (Hbnew' p Hp). lia.
  - rewrite Hbufs', Hbufs, list_to_set_app_L. set_solver.
Qed.

(** ** Creation *)

Section Init.
Variable junk_blk : Cache_blk_t.
Variable junk_set : Cache_set_t.

Definition new_line (h : Heap) : ptr * line := (brk h, Line false false 0 (Some (Pos.succ (brk h)))).
Definition new_blk (h : Heap) : Cache_blk_t :=
  {| valid := false; dirty := false; tag := 0; data := Some (Pos.succ (brk h));
     prev_blk := None; next_blk := None |}.
Definition new_heap (h : Heap) : Heap :=
  {| blks := <[brk h := new_blk h]> (blks h);
     bufs := {[Pos.succ (brk h)]} ∪ bufs h; brk := Pos.succ (Pos.succ (brk h)) |}.

Lemma cacheblock_initialize_new h :
  cacheblock_initialize (malloc_blk junk_blk h).1 (brk h) = Some (new_heap h).
Proof.
  unfold cacheblock_initialize. simpl.
  rewrite (upd_Some _ _ _ _ (lookup_insert_eq _ _ _)). simpl. by rewrite insert_insert_eq.
Qed.

(** Rewriting the links of old or new blocks keeps [grown]. *)
Lemma grown_with h h' xs b :
  grown h h' xs → dom b = dom (blks h') → (∀ p, p ∉ xs.*1 → b !! p = blks h' !! p) →
  grown h (with_blks b h') xs.
Proof.
  intros [[Hok1 Hok2] Hb Hnd Hnew Hlive Hfr Hbnd Hbnew Hbufs] Hdm Hf.
  split; simpl; try done.
  - split; simpl; [by rewrite Hdm|done].
  - intros p Hp. rewrite Hdm. auto.
  - intros p Hp. rewrite Hf by done. auto.
Qed.

Lemma grown_new_heap h : heap_ok h → grown h (new_heap h) [new_line h].
Proof.
  intros [Hok1 Hok2]. split; simpl.
  - split; simpl.
    + intros p. rewrite dom_insert_L, elem_of_union, elem_of_singleton.
      intros [->|Hp]; [lia|]. specialize (Hok1 _ Hp). lia.
    + intros p. rewrite elem_of_union, elem_of_singleton.
      intros [->|Hp]; [lia|]. specialize (Hok2 _ Hp). lia.
  - lia.
  - apply NoDup_singleton.
  - intros p ->%list_elem_of_singleton. lia.
  - intros p ->%list_elem_of_singleton. rewrite dom_insert_L. set_solver.
  - intros p Hp. rewrite lookup_insert_ne; [done|]. set_solver.
  - apply NoDup_singleton.
  - intros p ->%list_elem_of_singleton. lia.
  - set_solver.
Qed.

Definition set_init_step (i : Z) (hs : Heap * Cache_set_t) : option (Heap * Cache_set_t) :=
  let '(h, set) := hs in
  let '(h, blk) := malloc_blk junk_blk h in
  h ← cacheblock_initialize h blk;
  if i =? 0 then Some (h, {| first_blk := Some blk; last_blk := Some blk |})
  else
    b ← upd (blks h) blk (set_prev (last_blk set));
    b ← upd b blk (set_next None);
    l ← last_blk set;
    b ← upd b l (set_next (Some blk));
    Some (with_blks b h, set_last (Some blk) set).

(** One more block is linked in at the back. *)
Lemma set_init_step_rep h0 h s xs :
  heap_ok h0 → grown h0 h xs → fresh_lines xs → (xs ≠ [] → set_rep (blks h) s xs) →
  ∃ h' s', set_init_step (Z.of_nat (length xs)) (h, s) = Some (h', s') ∧
    grown h0 h' (xs ++ [new_line h]) ∧ set_rep (blks h') s' (xs ++ [new_line h]).
Proof.
  intros Hok0 Hg Hfl Hrep. pose proof (grown_ok _ _ _ Hg) as Hok.
  pose proof (grown_trans _ _ _ _ _ Hok0 Hg (grown_new_heap h Hok)) as Hg'.
  unfold set_init_step.
  change (malloc_blk junk_blk h) with ((malloc_blk junk_blk h).1, brk h). cbv beta iota.
  rewrite cacheblock_initialize_new. csimpl.
  destruct xs as [|x xs].
  { simpl. eexists _, _. split; [done|]. split; [done|]. split; [done|]. split; [done|].
    simpl. split; [|done]. exists (new_blk h). by rewrite lookup_insert_eq. }
  destruct (Z.eqb_spec (Z.of_nat (length (x :: xs))) 0) as [E|_]; [simpl in E; lia|].
  destruct (Hrep ltac:(done)) as (Hf & Hl & Hs). clear Hrep.
  rewrite (upd_Some _ _ _ _ (lookup_insert_eq _ _ _)). csimpl.
  rewrite (upd_Some _ _ _ _ (lookup_insert_eq _ _ _)). csimpl. rewrite !insert_insert_eq.
  destruct (last_ptr_Some x xs) as [l Hlp]. rewrite Hl, Hlp. csimpl.
  assert (Hbrk : brk h ∉ (x :: xs).*1).
  { intros Hin. apply (grown_live _ _ _ Hg) in Hin. apply (proj1 Hok) in Hin. lia. }
  set (n := set_next None (set_prev (Some l) (new_blk h))).
  destruct (push_back_seg (<[brk h := n]> (blks h)) (x :: xs) (brk h) n (new_line h).2)
    as (b & Hu & Hs' & Hdm & Hfr); try done.
  { apply (grown_nodup _ _ _ Hg). }
  { by apply dseg_insert_notin. }
  { by rewrite lookup_insert_eq. }
  rewrite Hlp in Hu. simpl in Hu. rewrite Hu. csimpl.
  eexists _, _. split; [done|]. split.
  - apply grown_with; [done|rewrite Hdm; simpl; by rewrite !dom_insert_L|].
    intros p Hp. rewrite app_comm_cons, fmap_app in Hp. apply not_elem_of_app in Hp as [Hp1 Hp2].
    rewrite Hfr by done. simpl in *. rewrite !lookup_insert_ne; set_solver.
  - split; [done|]. split; [|done]. simpl. by rewrite app_comm_cons, last_ptr_snoc.
Qed.

Lemma set_init_loop k h0 h s xs :
  heap_ok h0 → grown h0 h xs → fresh_lines xs → (xs ≠ [] → set_rep (blks h) s xs) →
  ∃ h' s' ys, for_up k (Z.of_nat (length xs)) set_init_step (h, s) = Some (h', s') ∧
    grown h0 h' (xs ++ ys) ∧ fresh_lines (xs ++ ys) ∧ length ys = k ∧
    (xs ++ ys ≠ [] → set_rep (blks h') s' (xs ++ ys)).
Proof.
  revert h s xs. induction k as [|k IH]; intros h s xs Hok Hg Hfl Hrep.
  { exists h, s, []. rewrite app_nil_r. done. }
  destruct (set_init_step_rep _ _ _ _ Hok Hg Hfl Hrep) as (h1 & s1 & He & Hg1 & Hr1).
  assert (Hfl1 : fresh_lines (xs ++ [new_line h])).
  { apply Forall_app. split; [done|]. constructor; [by eexists|done]. }
  destruct (IH h1 s1 _ Hok Hg1 Hfl1 (λ _, Hr1)) as (h2 & s2 & ys & He2 & Hg2 & Hfl2 & Hlen & Hr2).
  exists h2, s2, (new_line h :: ys). cbn [for_up]. rewrite He. csimpl.
  replace (Z.of_nat (length xs) + 1) with (Z.of_nat (length (xs ++ [new_line h])))
    by (rewrite length_app; simpl; lia).
  rewrite He2. rewrite <-app_assoc in Hg2, Hfl2, Hr2. simpl in *.
  split_and!; try done. lia.
Qed.

Lemma cacheset_initialize_rep h s k :
  heap_ok h → 0 < k →
  ∃ h' s' xs, cacheset_initialize junk_blk h s k = Some (h', s') ∧
    grown h h' xs ∧ fresh_lines xs ∧ Z.of_nat (length xs) = k ∧ set_rep (blks h') s' xs.
Proof.
  intros Hok Hk.
  destruct (set_init_loop (Z.to_nat k) h h s [] Hok (grown_refl _ Hok)) as
    (h' & s' & xs & He & Hg & Hfl & Hlen & Hr); [constructor|done|].
  exists h', s', xs. split; [exact He|]. simpl in *. split_and!; try done; [lia|].
  apply Hr. intros ->. simpl in Hlen. lia.
Qed.

Lemma set_rep_frame b b' ss xss :
  (∀ p, p ∈ (concat xss).*1 → b' !! p = b !! p) →
  Forall2 (set_rep b) ss xss → Forall2 (set_rep b') ss xss.
Proof.
  intros Hf HF. induction HF as [|s0 ys ss yss (? & ? & ?) HF IH]; [done|].
  simpl in Hf. rewrite fmap_app in Hf. constructor.
  - split; [done|]. split; [done|]. eapply dseg_frame; [|done]. intros p Hp. apply Hf. set_solver.
  - apply IH. intros p Hp. apply Hf. set_solver.
Qed.

(** The blocks of a cache just created in heap [h0]. *)
Definition sets_rep (h0 h : Heap) (k : Z) (ss : list Cache_set_t) (xss : list (list (ptr * line))) : Prop :=
  grown h0 h (concat xss) ∧ Forall2 (set_rep (blks h)) ss xss ∧
  Forall (λ xs, Z.of_nat (length xs) = k) xss ∧ fresh_lines (concat xss).

Lemma cache_init_loop n j k h0 h ss xss :
  heap_ok h0 → 0 < k → sets_rep h0 h k ss xss →
  ∃ h' ss' xss', for_up n j (λ _ '(h, sets),
      '(h, set) ← cacheset_initialize junk_blk h junk_set k; Some (h, sets ++ [set])) (h, ss)
      = Some (h', ss') ∧
    sets_rep h0 h' k ss' xss' ∧ length xss' = (length xss + n)%nat.
Proof.
  revert j h ss xss. induction n as [|n IH]; intros j h ss xss Hok Hk Hr.
  { exists h, ss, xss. split_and!; [done..|lia]. }
  pose proof Hr as (Hg & HF & Hlen & Hfl).
  destruct (cacheset_initialize_rep h junk_set k) as (h1 & s1 & xs & He & Hg1 & Hfl1 & Hl1 & Hr1);
    [apply Hg|done|].
  assert (Hr' : sets_rep h0 h1 k (ss ++ [s1]) (xss ++ [xs])).
  { unfold sets_rep. rewrite concat_app. simpl. rewrite app_nil_r. split_and!.
    - by eapply grown_trans.
    - apply Forall2_app; [|by constructor]. eapply set_rep_frame; [|done].
      intros p Hp. apply (grown_frame _ _ _ Hg1). intros Hp'.
      apply (grown_live _ _ _ Hg), (proj1 (grown_ok _ _ _ Hg)) in Hp.
      apply (grown_new _ _ _ Hg1) in Hp'. lia.
    - apply Forall_app. split; [done|]. by constructor.
    - apply Forall_app. done. }
  destruct (IH (j + 1) h1 (ss ++ [s1]) (xss ++ [xs]) Hok Hk Hr') as (h' & ss' & xss' & He' & Hr'' & Hl'').
  exists h', ss', xss'. cbn [for_up]. rewrite He. csimpl. rewrite He'.
  split_and!; [done..|]. rewrite Hl'', length_app. simpl. lia.
Qed.
End Init.

Lemma log2i_Some z : 0 < z → log2i z = Some (Z.log2 z).
Proof. intros. unfold log2i. by destruct (Z.leb_spec z 0); [lia|]. Qed.

Lemma cache_initialize_rep jb js h junk nm n bs k pol hl ml :
  heap_ok h → 0 < n → 0 < bs → 0 < k → Z.log2 bs + Z.log2 n < 32 →
  ∃ h' c xss, cache_initialize jb js h junk nm n bs k pol hl ml = Some (h', c) ∧
    cache_rep (blks h') c xss ∧ grown h h' (concat xss) ∧ fresh_lines (concat xss) ∧
    policy (config c) = pol ∧ assoc (config c) = k ∧ nset (config c) = n ∧
    len_offset_bit c = Z.log2 bs ∧ len_idx_bit c = Z.log2 n ∧
    num_access c = 0 ∧ num_miss c = 0 ∧ num_read_miss c = 0 ∧ num_miss_star c = 0.
Proof.
  intros Hok Hn Hbs Hk Hw. unfold cache_initialize. rewrite !log2i_Some by done. csimpl.
  destruct (cache_init_loop jb js (Z.to_nat n) 0 k h h [] []) as (h' & ss & xss & He & (Hg & HF & Hlen & Hfl) & Hl).
  { done. }
  { done. }
  { split; [by apply grown_refl|]. split; [constructor|]. split; constructor. }
  simpl in Hl. unfold for_lt. rewrite He. csimpl. eexists h', _, xss. split; [done|].
  split; [|split_and!; done].
  pose proof (Z.log2_spec n Hn). pose proof (Z.log2_nonneg n). pose proof (Z.log2_nonneg bs).
  constructor; simpl; try done; try lia. apply (grown_nodup _ _ _ Hg).
Qed.

(** ** Closing *)

(** The blocks [xs] and their buffers are live in [h], each buffer owned once. *)
Record owns (h : Heap) (xs : list (ptr * line)) : Prop := {
  owns_nodup : NoDup xs.*1;
  owns_bnodup : NoDup (bufs_of xs);
  owns_bufs : ∀ p, p ∈ bufs_of xs → p ∈ bufs h;
}.

(** [released h h' xs]: from [h] to [h'] exactly [xs] and their buffers were freed. *)
Definition released (h h' : Heap) (xs : list (ptr * line)) : Prop :=
  (∀ p, blks h' !! p = if decide (p ∈ xs.*1) then None else blks h !! p) ∧
  bufs h' = bufs h ∖ list_to_set (bufs_of xs) ∧ brk h' = brk h.

Lemma released_trans h1 h2 h3 xs ys :
  released h1 h2 xs → released h2 h3 ys → released h1 h3 (xs ++ ys).
Proof.
  intros (Hb & Hu & Hk) (Hb' & Hu' & Hk'). split; [|split].
  - intros p. rewrite Hb', Hb, fmap_app. repeat case_decide; set_solver.
  - rewrite Hu', Hu, bufs_of_app, list_to_set_app_L. set_solver.
  - congruence.
Qed.

Lemma close_blks_rep fuel h pp xs :
  dseg (blks h) pp xs None → owns h xs → (length xs ≤ fuel)%nat →
  ∃ h', close_blks fuel h (first_ptr xs None) = Some h' ∧ released h h' xs.
Proof.
  revert h fuel pp. induction xs as [|x xs IH]; intros h fuel pp Hs [Hnd Hbnd Hbu] Hf.
  { exists h. destruct fuel; (split; [done|]); (split; [done|]); simpl; (split; [set_solver|done]). }
  destruct fuel as [|fuel]; simpl in Hf; [lia|].
  destruct Hs as [(n & Hn & Hp & Hnx & Hd) Hs]. simpl. rewrite Hn. csimpl.
  apply NoDup_cons in Hnd as [Hx Hnd].
  assert (Hdat : data n = ldata x.2) by by rewrite <-Hd.
  assert (∃ h1, match data n with Some d => free_buf h d | None => Some h end = Some h1 ∧
     blks h1 = blks h ∧ brk h1 = brk h ∧ bufs h1 = bufs h ∖ list_to_set (bufs_of [x])) as
    (h1 & He1 & Hb1 & Hk1 & Hu1).
  { rewrite Hdat. unfold bufs_of in *. csimpl in *. destruct (ldata x.2) as [d|].
    - unfold free_buf. rewrite decide_True by (apply Hbu; set_solver).
      eexists. split; [done|]. simpl. split_and!; [done..|set_solver].
    - exists h. split_and!; [done..|set_solver]. }
  rewrite He1. csimpl. unfold free_blk. rewrite Hb1, Hn. csimpl.
  set (h2 := with_blks (delete x.1 (blks h)) h1).
  assert (Hr : released h h2 [x]).
  { split; [|split]; [|done|done]. intros p. simpl. case_decide as Hpx.
    - apply list_elem_of_singleton in Hpx as ->. apply lookup_delete_eq.
    - rewrite lookup_delete_ne; [done|set_solver]. }
  assert (Hbx : bufs_of (x :: xs) = bufs_of [x] ++ bufs_of xs) by apply (bufs_of_app [x] xs).
  rewrite Hbx in Hbnd, Hbu. apply NoDup_app in Hbnd as (_ & Hdis & Hbnd).
  destruct (IH h2 fuel (Some x.1)) as (h' & He' & Hr').
  - simpl. by apply dseg_delete_notin.
  - split; [done|done|]. simpl. intros p Hp'. rewrite Hu1. set_solver.
  - lia.
  - simpl in Hnx. rewrite Hnx. exists h'. split; [exact He'|]. by apply (released_trans h h2 h' [x] xs).
Qed.

(** The loop of [cache_close] over the sets. *)
Lemma close_sets_rep sets j h ss xss :
  Forall2 (set_rep (blks h)) ss xss → owns h (concat xss) →
  (∀ i s, ss !! i = Some s → arr_get sets (j + Z.of_nat i) = Some s) →
  ∃ h', for_up (length xss) j (λ i h,
      set ← arr_get sets i; close_blks (size (blks h)) h (first_blk set)) h = Some h' ∧
    released h h' (concat xss).
Proof.
  intros HF. revert j h HF. induction xss as [|xs xss IH] in ss |- *; intros j h HF Hown Hget.
  { exists h. split; [done|]. split; [done|]. split; [set_solver|done]. }
  apply Forall2_cons_inv_r in HF as (s & ss' & (Hf & Hl & Hs) & HF & ->).
  simpl in Hown. destruct Hown as [Hnd Hbnd Hbu]. rewrite fmap_app in Hnd.
  rewrite bufs_of_app in Hbnd, Hbu.
  apply NoDup_app in Hnd as (Hnd1 & Hdis & Hnd2). apply NoDup_app in Hbnd as (Hb1 & Hbdis & Hb2).
  simpl. pose proof (Hget 0%nat s eq_refl) as Hg0. rewrite Z.add_0_r in Hg0. rewrite Hg0. csimpl.
  rewrite Hf. destruct (close_blks_rep (size (blks h)) h None xs) as (h1 & He & Hr).
  { done. }
  { split; [done|done|]. set_solver. }
  { by eapply dseg_length. }
  rewrite He. csimpl. destruct (IH ss' (j + 1) h1) as (h' & He' & Hr').
  - eapply set_rep_frame; [|done]. intros p Hp. rewrite (proj1 Hr).
    rewrite decide_False; [done|]. intros Hin. by apply (Hdis _ Hin).
  - split; [done|done|]. intros p Hp. rewrite (proj1 (proj2 Hr)). set_solver.
  - intros i s0 Hi. rewrite <-(Hget (S i) s0) by done. f_equal. lia.
  - exists h'. split; [done|]. by eapply released_trans.
Qed.

Lemma cache_close_rep h c xss :
  cache_rep (blks h) c xss → owns h (concat xss) →
  ∃ h', cache_close h c = Some h' ∧ released h h' (concat xss).
Proof.
  intros Hr Hown. unfold cache_close, for_lt. rewrite <-(rep_nset _ _ _ Hr), Nat2Z.id.
  eapply close_sets_rep; [apply Hr|done|]. intros i s Hi. by rewrite Z.add_0_l, arr_get_lookup.
Qed.

(** ** Invalidation *)

Definition invalidated (l : line) : line := Line false false (ltag l) (ldata l).

Lemma invalidate_blks_rep fuel b pp xs :
  NoDup xs.*1 → dseg b pp xs None → (length xs ≤ fuel)%nat →
  ∃ b', invalidate_blks fuel b (first_ptr xs None) = Some b' ∧
    dseg b' pp (prod_map id invalidated <$> xs) None ∧ dom b' = dom b ∧
    (∀ q, q ∉ xs.*1 → b' !! q = b !! q).
Proof.
  revert b fuel pp. induction xs as [|x xs IH]; intros b fuel pp Hnd Hs Hf.
  { exists b. by destruct fuel. }
  destruct fuel as [|fuel]; simpl in Hf; [lia|].
  destruct Hs as [(n & Hn & Hp & Hnx & Hd) Hs]. apply NoDup_cons in Hnd as [Hx Hnd].
  simpl. rewrite Hn. csimpl. rewrite (upd_Some _ _ _ _ Hn). csimpl.
  rewrite (upd_Some _ _ _ _ (lookup_insert_eq _ _ _)). csimpl. rewrite insert_insert_eq.
  set (n' := set_dirty false (set_valid false n)).
  destruct (IH (<[x.1 := n']> b) fuel (Some x.1)) as (b' & He & Hs' & Hdm & Hfr); [done| |lia|].
  { by apply dseg_insert_notin. }
  exists b'. simpl in Hnx. rewrite Hnx. split; [done|]. split; [split; [|done]|split].
  - exists n'. rewrite Hfr, lookup_insert_eq by done. split; [done|]. split; [done|].
    split; [simpl; rewrite Hnx; by destruct xs|]. simpl. by rewrite <-Hd.
  - rewrite Hdm, dom_insert_L. apply elem_of_dom_2 in Hn. set_solver.
  - intros q [? ?]%not_elem_of_cons. rewrite Hfr, lookup_insert_ne by done. done.
Qed.

Definition inval_blocks (xss : list (list (ptr * line))) : list (list (ptr * line)) :=
  (λ xs : list (ptr * line), prod_map id invalidated <$> xs) <$> xss.

Lemma inval_fst (xs : list (ptr * line)) : (prod_map id invalidated <$> xs).*1 = xs.*1.
Proof. rewrite <-list_fmap_compose. by apply list_fmap_ext. Qed.

Lemma inval_blocks_fst xss : (concat (inval_blocks xss)).*1 = (concat xss).*1.
Proof.
  induction xss as [|xs xss IH]; [done|]. simpl. rewrite !fmap_app. by rewrite inval_fst, IH.
Qed.

(** The loop of [cache_invalidate] over the sets. *)
Lemma invalidate_sets_rep sets j b ss xss :
  Forall2 (set_rep b) ss xss → NoDup (concat xss).*1 →
  (∀ i s, ss !! i = Some s → arr_get sets (j + Z.of_nat i) = Some s) →
  ∃ b', for_up (length xss) j (λ i b,
      set ← arr_get sets i; invalidate_blks (size b) b (first_blk set)) b = Some b' ∧
    Forall2 (set_rep b') ss (inval_blocks xss) ∧
    (∀ q, q ∉ (concat xss).*1 → b' !! q = b !! q).
Proof.
  intros HF. revert j b HF. induction xss as [|xs xss IH] in ss |- *; intros j b HF Hnd Hget.
  { exists b. apply Forall2_nil_inv_r in HF as ->. by split_and!. }
  apply Forall2_cons_inv_r in HF as (s & ss' & (Hf & Hl & Hs) & HF & ->).
  simpl in Hnd. rewrite fmap_app in Hnd. apply NoDup_app in Hnd as (Hnd1 & Hdis & Hnd2).
  simpl. pose proof (Hget 0%nat s eq_refl) as Hg0. rewrite Z.add_0_r in Hg0. rewrite Hg0. csimpl.
  rewrite Hf. destruct (invalidate_blks_rep (size b) b None xs) as (b1 & He & Hs1 & Hdm & Hfr);
    [done|done|by eapply dseg_length|].
  rewrite He. csimpl. destruct (IH ss' (j + 1) b1) as (b' & He' & HF' & Hfr').
  - eapply set_rep_frame; [|done]. intros p Hp. apply Hfr. intros Hin. by apply (Hdis _ Hin).
  - done.
  - intros i s0 Hi. rewrite <-(Hget (S i) s0) by done. f_equal. lia.
  - exists b'. split; [done|]. split.
    + constructor; [|done]. split; [rewrite Hf; by destruct xs|]. split.
      * rewrite Hl. unfold last_ptr. rewrite fmap_last. by destruct (last xs).
      * eapply dseg_frame; [|done]. intros p Hp. apply Hfr'. rewrite inval_fst in Hp. auto.
    + intros q. rewrite fmap_app, not_elem_of_app. intros [? ?]. by rewrite Hfr', Hfr.
Qed.

Lemma cache_invalidate_rep h c xss :
  cache_rep (blks h) c xss →
  ∃ h', cache_invalidate h c = Some h' ∧ cache_rep (blks h') c (inval_blocks xss).
Proof.
  intros [Hsets Hnd Has Hns Hpos Hoff Hidx Hw]. unfold cache_invalidate, for_lt.
  rewrite <-Hns, Nat2Z.id.
  destruct (invalidate_sets_rep (cache_set c) 0 (blks h) (cache_set c) xss) as (b' & He & HF & Hfr);
    [done|done| |].
  { intros i s Hi. by rewrite Z.add_0_l, arr_get_lookup. }
  rewrite He. csimpl. eexists. split; [done|]. constructor; simpl; try done.
  - by rewrite inval_blocks_fst.
  - unfold inval_blocks. rewrite Forall_fmap. eapply Forall_impl; [done|].
    intros xs. simpl. by rewrite length_fmap.
  - unfold inval_blocks. by rewrite length_fmap.
Qed.
