(* ===== verification/CacheLRU.v ===== *)
(** Under the LRU policy a set holds exactly its most recently used blocks. *)

From Stdlib Require Import ZArith Lia String.
From stdpp Require Import base tactics option list gmap.
From S2P Require Import Prelude DList Cache CacheSpec.

(** The distinct elements of a history (latest first), latest first. *)
Fixpoint recent (past : list Z) : list Z :=
  match past with
  | [] => []
  | t :: past => t :: filter (.≠ t) (recent past)
  end.

(** ** Facts about [recent] and [take] *)

Lemma recent_elem t past : t ∈ recent past ↔ t ∈ past.
Proof.
  induction past as [|u past IH]; simpl; [done|].
  rewrite !elem_of_cons, list_elem_of_filter, IH. destruct (decide (t = u)); tauto.
Qed.

Lemma recent_NoDup past : NoDup (recent past).
Proof.
  induction past as [|u past IH]; simpl; constructor.
  - rewrite list_elem_of_filter. naive_solver.
  - by apply NoDup_filter.
Qed.

Lemma filter_ne_notin (t : Z) (l : list Z) : t ∉ l → filter (.≠ t) l = l.
Proof.
  induction l as [|u l IH]; [done|]. rewrite not_elem_of_cons, filter_cons. intros [? ?].
  rewrite decide_True by done. f_equal. auto.
Qed.

Lemma take_filter_ne (t : Z) k (l : list Z) : t ∉ take k l → take k (filter (.≠ t) l) = take k l.
Proof.
  revert k. induction l as [|u l IH]; intros k Hk; [done|].
  destruct k as [|k]; [done|]. simpl in Hk. apply not_elem_of_cons in Hk as [? ?].
  rewrite filter_cons, decide_True by done. simpl. f_equal. auto.
Qed.

Lemma take_recent_miss k t past :
  t ∉ take (S k) (recent past) → take (S k) (recent (t :: past)) = t :: take k (recent past).
Proof.
  intros Hk. simpl. f_equal. apply take_filter_ne. intros Hin. apply Hk.
  apply list_elem_of_lookup in Hin as [i Hi]. apply lookup_take_Some in Hi as [Hi ?].
  apply list_elem_of_lookup. exists i. apply lookup_take_Some. split; [done|lia].
Qed.

Lemma take_recent_hit k t past l1 l2 :
  take k (recent past) = l1 ++ t :: l2 → take k (recent (t :: past)) = t :: l1 ++ l2.
Proof.
  intros Hk. pose proof (recent_NoDup past) as Hnd.
  pose proof (f_equal length Hk) as Hlen. rewrite length_take, length_app in Hlen. simpl in Hlen.
  assert (Hr : drop k (recent past) = [] ∨ k = S (length l1 + length l2)).
  { destruct (decide (length (recent past) ≤ k)%nat); [left; by apply drop_ge|right; lia]. }
  assert (Hrec : recent past = l1 ++ t :: l2 ++ drop k (recent past)).
  { rewrite <-(take_drop k (recent past)) at 1. rewrite Hk. by rewrite <-app_assoc. }
  set (r := drop k (recent past)) in *. clearbody r. rewrite Hrec in Hnd.
  rewrite <-Permutation_middle in Hnd. apply NoDup_cons in Hnd as [Hnot _].
  destruct k as [|k]; [simpl in Hlen; lia|]. simpl. f_equal. rewrite Hrec.
  rewrite filter_app, filter_cons, decide_False by naive_solver.
  rewrite <-filter_app, filter_ne_notin by done. rewrite app_assoc.
  destruct Hr as [->|Hr].
  - rewrite app_nil_r. apply take_ge. rewrite length_app. lia.
  - apply take_app_length'. rewrite length_app. lia.
Qed.

(** ** One set *)

(** The lines of a [k]-way LRU set after the accesses [past]: the valid ones come first
    and hold the [k] most recent tags, most recent first. *)
Definition lru_inv (k : nat) (past : list Z) (ls : list line) : Prop :=
  length ls = k ∧
  ∃ vs ns, ls = vs ++ ns ∧ Forall (λ l, lvalid l = true) vs ∧ Forall (λ l, lvalid l = false) ns ∧
    ltag <$> vs = take k (recent past).

Lemma lru_inv_init k ls :
  length ls = k → Forall (λ l, lvalid l = false) ls → lru_inv k [] ls.
Proof. intros ??. split; [done|]. exists [], ls. simpl. by rewrite take_nil. Qed.

Lemma lru_find k past ls t :
  lru_inv k past ls →
  match list_find (holds t) ls with
  | Some (i, l) => holds t l ∧ ls !! i = Some l ∧ t ∈ take k (recent past)
  | None => t ∉ take k (recent past)
  end.
Proof.
  intros (Hlen & vs & ns & -> & Hv & Hi & Ht).
  destruct (list_find (holds t) (vs ++ ns)) as [[i l]|] eqn:E.
  - apply list_find_Some in E as (Hil & [Hl1 Hl2] & _). split; [done|]. split; [done|].
    rewrite <-Ht, <-Hl2. apply list_elem_of_fmap_2.
    apply lookup_app_Some in Hil as [Hil|[_ Hil]]; [by eapply list_elem_of_lookup_2|].
    apply (Forall_lookup_1 _ _ _ _ Hi) in Hil. congruence.
  - apply list_find_None in E. rewrite <-Ht, list_elem_of_fmap. intros (l & -> & Hl).
    rewrite Forall_forall in E. apply (E l).
    + apply elem_of_app. by left.
    + split; [|done]. rewrite Forall_forall in Hv. auto.
Qed.

Lemma lru_step k past ls t rnd hit ls' :
  (0 < k)%nat → lru_inv k past ls → set_access LRU rnd t ls = (hit, ls') →
  hit = bool_decide (t ∈ take k (recent past)) ∧ lru_inv k (t :: past) ls'.
Proof.
  intros Hk Hinv. pose proof (lru_find _ _ _ t Hinv) as Hf. unfold set_access.
  pose proof Hinv as (Hlen & vs & ns & -> & Hv & Hi & Ht).
  destruct (list_find (holds t) (vs ++ ns)) as [[i l]|]; simpl; intros [= <- <-].
  - destruct Hf as ([Hl1 Hl2] & Hil & Hin). split; [by rewrite bool_decide_true|].
    apply lookup_app_Some in Hil as [Hil|[_ Hil]]; cycle 1.
    { apply (Forall_lookup_1 _ _ _ _ Hi) in Hil. congruence. }
    apply list_elem_of_split_length in Hil as (v1 & v2 & -> & ->).
    rewrite <-app_assoc. simpl. rewrite move_front_app. split.
    { rewrite <-Hlen. rewrite !length_app. simpl. rewrite !length_app. simpl. lia. }
    exists (l :: v1 ++ v2), ns. split; [simpl; by rewrite <-app_assoc|].
    apply Forall_app in Hv as [? Hv]. apply Forall_cons in Hv as [? ?].
    split; [by constructor; [|apply Forall_app]|]. split; [done|].
    rewrite fmap_app, fmap_cons in Ht. symmetry in Ht. rewrite Hl2 in Ht.
    rewrite (take_recent_hit _ _ _ _ _ Ht). simpl. by rewrite fmap_app, Hl2.
  - split; [by rewrite bool_decide_false|]. destruct k as [|k]; [lia|].
    assert (Hne : vs ++ ns ≠ []) by by destruct (vs ++ ns).
    destruct (exists_last Hne) as (ls & l & Hls). rewrite Hls in Hlen |- *.
    rewrite length_app in Hlen. simpl in Hlen.
    replace (pred (length (ls ++ [l]))) with (length ls) by (rewrite length_app; simpl; lia).
    rewrite alter_middle, move_front_app, app_nil_r. split; [simpl; lia|].
    destruct ns as [|l0 ns _] using rev_ind.
    + rewrite app_nil_r in Hls. subst vs. apply Forall_app in Hv as [Hv _].
      exists (fill t l :: ls), []. rewrite app_nil_r. split; [done|].
      split; [by constructor|]. split; [done|]. rewrite take_recent_miss by done. csimpl. f_equal.
      rewrite fmap_app in Ht. apply (f_equal (take k)) in Ht.
      rewrite take_app_length' in Ht by (rewrite length_fmap; lia).
      rewrite take_take in Ht. by replace (k `min` S k)%nat with k in Ht by lia.
    + rewrite app_assoc in Hls. apply app_inj_tail in Hls as [<- ->].
      exists (fill t l :: vs), ns. split; [done|]. split; [by constructor|].
      split; [by apply Forall_app in Hi as [? _]|]. rewrite take_recent_miss by done.
      csimpl. f_equal. rewrite Ht. apply (f_equal length) in Ht.
      rewrite length_fmap, length_take in Ht. rewrite length_app in Hlen.
      rewrite !take_ge by lia. done.
Qed.
