(* ===== verification/CacheTheorems.v ===== *)
(** The properties of the cache: refinement, LRU behaviour over whole access
    sequences, statistics, memory safety from creation to closing. *)

From Stdlib Require Import ZArith Lia String.
From stdpp Require Import base tactics option list gmap.
From S2P Require Import Prelude DList Cache CacheSpec CacheLife CacheLRU.

(** ** Sequences of accesses *)

Record req := Req { r_id : Z; r_type : CacheAccessType; r_addr : Z; r_rnd : Z }.

Definition req_ok (r : req) : Prop := 0 ≤ r_addr r ∧ 0 ≤ r_rnd r.

Fixpoint cache_run (rob_size : Z) (h : Heap) (c : Cache_t) (rs : list req)
  : option (list bool * Heap * Cache_t) :=
  match rs with
  | [] => Some ([], h, c)
  | r :: rs =>
      '(hit, h, c) ← cache_access rob_size (r_id r) h c (r_type r) (r_addr r) (r_rnd r);
      '(hits, h, c) ← cache_run rob_size h c rs;
      Some (hit :: hits, h, c)
  end.

(** Two states of one cache: only the set contents and the statistics differ. *)
Definition same_geom (c c' : Cache_t) : Prop :=
  config c' = config c ∧ len_idx_bit c' = len_idx_bit c ∧ len_offset_bit c' = len_offset_bit c.

Lemma same_geom_of c c' addr :
  same_geom c c' → set_of c' addr = set_of c addr ∧ tag_of c' addr = tag_of c addr.
Proof. intros (_ & Hi & Ho). unfold set_of, tag_of, cache_idx. by rewrite Hi, Ho. Qed.

Lemma same_geom_counted rob_size id ty hit sets c :
  same_geom c (set_cache_set sets (counted rob_size id ty hit c)).
Proof. by destruct hit, ty. Qed.

(** ** Refinement of one access *)

Definition lines_of (xss : list (list (ptr * line))) : list (list line) :=
  (λ xs : list (ptr * line), xs.*2) <$> xss.

(** The whole abstract cache: the access is an access to the set the address selects. *)
Definition abs_access (c : Cache_t) (addr rnd : Z) (lss : list (list line)) : bool * list (list line) :=
  match lss !! set_of c addr with
  | Some ls =>
      let '(hit, ls') := set_access (policy (config c)) rnd (tag_of c addr) ls in
      (hit, <[set_of c addr := ls']> lss)
  | None => (false, lss)
  end.

(** C3: in every well-formed cache, for every address, policy and outcome of [rand()],
    [cache_access] touches no invalid pointer, leaves the cache well formed and does
    what the abstract set does: it hits exactly when a valid line of the selected set
    holds the tag, moves the line to the front under LRU, and on a miss overwrites the
    victim of the policy and moves it to the front.  Blocks of other caches are not
    touched. *)
Theorem cache_access_refines rob_size inst_id h c ty addr rnd xss :
  cache_rep (blks h) c xss → 0 ≤ addr → 0 ≤ rnd →
  ∃ hit h' c' xss',
    cache_access rob_size inst_id h c ty addr rnd = Some (hit, h', c') ∧
    cache_rep (blks h') c' xss' ∧
    (hit, lines_of xss') = abs_access c addr rnd (lines_of xss) ∧
    (concat xss').*1 ≡ₚ (concat xss).*1 ∧
    (∀ q, q ∉ (concat xss).*1 → blks h' !! q = blks h !! q).
Proof.
  intros Hrep Ha Hr.
  destruct (cache_access_set rob_size inst_id h c ty addr rnd xss Hrep Ha Hr)
    as (xs & hit & h' & c' & xs' & Hxs & He & Hacc & Hperm & Hrep' & _ & Hfr & _).
  exists hit, h', c', (<[set_of c addr := xs']> xss). split; [done|]. split; [done|].
  apply list_elem_of_split_length in Hxs as (L1 & L2 & -> & Hlen). split; [|split].
  - unfold abs_access, lines_of. rewrite list_lookup_fmap, Hlen, list_lookup_middle by done.
    csimpl. rewrite <-Hacc. f_equal. by rewrite list_fmap_insert.
  - rewrite Hlen, insert_middle, !concat_app. simpl. rewrite !fmap_app. by rewrite Hperm.
  - intros q Hq. apply Hfr. intros Hin. apply Hq. rewrite concat_app, !fmap_app. simpl.
    rewrite fmap_app. set_solver.
Qed.

(** ** Whole sequences *)

Lemma bufs_of_lines xs : bufs_of xs = omap ldata xs.*2.
Proof. unfold bufs_of. induction xs as [|x xs IH]; [done|]. csimpl. by rewrite IH. Qed.

Lemma set_access_bufs pol rnd t ls : omap ldata (set_access pol rnd t ls).2 ≡ₚ omap ldata ls.
Proof.
  unfold set_access. destruct (list_find (holds t) ls) as [[i l]|]; simpl.
  - case_decide; [by rewrite move_front_perm|done].
  - rewrite move_front_perm. set (v := victim_idx pol rnd (length ls)).
    destruct (decide (v < length ls)%nat) as [Hv|Hv].
    + apply lookup_lt_is_Some_2 in Hv as [l Hl].
      apply list_elem_of_split_length in Hl as (l1 & l2 & -> & ->).
      rewrite alter_middle, !omap_app. done.
    + rewrite alter_ge by lia. done.
Qed.

(** What one run leaves behind, for the memory and the geometry of the cache. *)
Lemma cache_run_rep rob_size h c xss rs :
  cache_rep (blks h) c xss → Forall req_ok rs →
  ∃ hits h' c' xss',
    cache_run rob_size h c rs = Some (hits, h', c') ∧
    cache_rep (blks h') c' xss' ∧ same_geom c c' ∧
    (concat xss').*1 ≡ₚ (concat xss).*1 ∧ bufs_of (concat xss') ≡ₚ bufs_of (concat xss) ∧
    (∀ q, q ∉ (concat xss).*1 → blks h' !! q = blks h !! q) ∧
    dom (blks h') = dom (blks h) ∧ bufs h' = bufs h ∧ brk h' = brk h.
Proof.
  revert h c xss. induction rs as [|r rs IH]; intros h c xss Hrep Hok.
  { exists [], h, c, xss. by split_and!. }
  apply Forall_cons in Hok as [[Ha Hr] Hok].
  destruct (cache_access_set rob_size (r_id r) h c (r_type r) _ _ xss Hrep Ha Hr)
    as (xs & hit & h1 & c1 & xs' & Hxs & He & Hacc & Hperm & Hrep1 & [sets Hc1] & Hfr & Hdm & Hbu & Hbk).
  destruct (IH h1 c1 _ Hrep1 Hok) as (hits & h' & c' & xss' & He' & Hrep' & Hg & Hp' & Hb' & Hf' & Hd' & Hbu' & Hbk').
  exists (hit :: hits), h', c', xss'. simpl. rewrite He. csimpl. rewrite He'. csimpl.
  pose proof (same_geom_counted rob_size (r_id r) (r_type r) hit sets c) as Hg1.
  rewrite <-Hc1 in Hg1. apply list_elem_of_split_length in Hxs as (L1 & L2 & -> & Hlen).
  rewrite Hlen, insert_middle, !concat_app in Hp', Hb'. simpl in Hp', Hb'.
  assert (Hbx : bufs_of xs' ≡ₚ bufs_of xs).
  { rewrite !bufs_of_lines. change (xs'.*2) with ((hit, xs'.*2).2). rewrite Hacc. apply set_access_bufs. }
  split; [done|]. split; [done|]. split.
  { destruct Hg as (? & ? & ?), Hg1 as (? & ? & ?). split_and!; congruence. }
  split; [|split; [|split; [|split_and!; congruence]]].
  - rewrite Hp', concat_app, !fmap_app. simpl. rewrite fmap_app. by rewrite Hperm.
  - rewrite Hb', concat_app. simpl. rewrite !bufs_of_app. by rewrite Hbx.
  - intros q Hq. rewrite concat_app in Hq. simpl in Hq. rewrite !fmap_app in Hq.
    rewrite Hf'; [apply Hfr; set_solver|].
    rewrite Hlen, insert_middle, concat_app. simpl. rewrite !fmap_app, Hperm. set_solver.
Qed.

(** ** Creation to closing *)

Lemma grown_released h0 h h' xs :
  heap_ok h0 → grown h0 h xs → released h h' xs → blks h' = blks h0 ∧ bufs h' = bufs h0.
Proof.
  intros Hok Hg (Hrel & Hrb & _). split.
  - apply map_eq. intros p. rewrite Hrel. case_decide as Hin.
    + symmetry. apply not_elem_of_dom. intros Hd. apply (proj1 Hok) in Hd.
      apply (grown_new _ _ _ Hg) in Hin. lia.
    + by apply (grown_frame _ _ _ Hg).
  - rewrite Hrb, (grown_bufs _ _ _ Hg).
    assert (∀ p, p ∈ bufs_of xs → p ∉ bufs h0); [|set_solver].
    intros p Hin Hd. apply (proj2 Hok) in Hd. apply (grown_bnew _ _ _ Hg) in Hin. lia.
Qed.

(** From [h] to [h'] only the contents of the blocks [ps] changed. *)
Record touched (h h' : Heap) (ps : list ptr) : Prop := {
  touched_frame : ∀ q, q ∉ ps → blks h' !! q = blks h !! q;
  touched_dom : dom (blks h') = dom (blks h);
  touched_bufs : bufs h' = bufs h;
  touched_brk : brk h' = brk h;
}.

Lemma grown_touched h0 h h' xs xs' ps :
  grown h0 h xs → touched h h' ps → (∀ p, p ∈ ps → p ∈ xs.*1) →
  xs'.*1 ≡ₚ xs.*1 → bufs_of xs' ≡ₚ bufs_of xs → grown h0 h' xs'.
Proof.
  intros [[Hk1 Hk2] Hb Hnd Hnew Hlive Hfr Hbnd Hbnew Hbufs] [Hf Hd Hu Hk] Hsub Hp Hbp.
  split; rewrite ?Hp, ?Hbp, ?Hu, ?Hk, ?Hd; try done.
  - split; rewrite ?Hd, ?Hu, ?Hk; done.
  - intros p. rewrite Hp. auto.
  - intros p. rewrite Hp. auto.
  - intros p. rewrite Hp. intros Hin. rewrite Hf by auto. auto.
  - intros p. rewrite Hbp. auto.
Qed.

(** C14: a cache created in any heap can serve any sequence of accesses and then be
    closed without a null, dangling or double-freed pointer, and closing gives every
    block and data buffer back: the heap is again the one before the creation. *)
Theorem cache_lifecycle jb js h junk nm n bs k pol hl ml rob_size rs :
  heap_ok h → 0 < n → 0 < bs → 0 < k → Z.log2 bs + Z.log2 n < 32 → Forall req_ok rs →
  ∃ h0 c0 hits h1 c1 h2,
    cache_initialize jb js h junk nm n bs k pol hl ml = Some (h0, c0) ∧
    cache_run rob_size h0 c0 rs = Some (hits, h1, c1) ∧
    cache_close h1 c1 = Some h2 ∧
    blks h2 = blks h ∧ bufs h2 = bufs h.
Proof.
  intros Hok Hn Hbs Hk Hw Hrs.
  destruct (cache_initialize_rep jb js h junk nm n bs k pol hl ml Hok Hn Hbs Hk Hw)
    as (h0 & c0 & xss & He0 & Hrep0 & Hg & _).
  destruct (cache_run_rep rob_size h0 c0 xss rs Hrep0 Hrs)
    as (hits & h1 & c1 & xss' & He1 & Hrep1 & _ & Hp & Hb & Hfr & Hdm & Hbu & Hbk).
  assert (grown h h1 (concat xss')) as Hg1.
  { eapply (grown_touched _ _ _ _ _ (concat xss).*1 Hg); [|done..]. by split. }
  destruct (cache_close_rep h1 c1 xss' Hrep1) as (h2 & He2 & Hrel).
  { split; [apply Hrep1|apply Hg1|]. intros p. rewrite (grown_bufs _ _ _ Hg1). set_solver. }
  exists h0, c0, hits, h1, c1, h2. split_and!; try done; by eapply grown_released.
Qed.

(** ** LRU over sequences *)

(** Block geometry: [o] offset bits and [i] index bits. *)
Definition atag (o i a : Z) : Z := a .>> (o + i).
Definition aset (o i a : Z) : nat := Z.to_nat ((a .>> o) mod 2 ^ i).

(** Whether the next access to [a] hits after the accesses [past] (latest first): its tag
    is among the [k] most recently used distinct tags of its set. *)
Definition lru_hit (o i : Z) (k : nat) (past : list Z) (a : Z) : bool :=
  bool_decide (atag o i a ∈
    take k (recent (atag o i <$> filter (λ a', aset o i a' = aset o i a) past))).

Fixpoint lru_hits (o i : Z) (k : nat) (past addrs : list Z) : list bool :=
  match addrs with
  | [] => []
  | a :: addrs => lru_hit o i k past a :: lru_hits o i k (a :: past) addrs
  end.

Lemma set_of_aset b c xss addr :
  cache_rep b c xss → set_of c addr = aset (len_offset_bit c) (len_idx_bit c) addr.
Proof.
  intros [? ? ? ? ? ? [? ?] ?]. unfold set_of, aset, cache_idx. f_equal.
  rewrite Z.shiftl_1_l. replace (2 ^ len_idx_bit c - 1) with (Z.ones (len_idx_bit c))
    by (rewrite Z.ones_equiv; lia).
  by rewrite Z.land_ones.
Qed.

(** Every set holds its most recently used tags. *)
Definition lru_state (o i : Z) (k : nat) (past : list Z) (xss : list (list (ptr * line))) : Prop :=
  ∀ j xs, xss !! j = Some xs →
    lru_inv k (atag o i <$> filter (λ a, aset o i a = j) past) xs.*2.

Lemma lru_state_fresh o i k xss :
  Forall (λ xs, length xs = k) xss → fresh_lines (concat xss) → lru_state o i k [] xss.
Proof.
  intros Hl Hf j xs Hj. rewrite filter_nil. simpl. apply lru_inv_init.
  - rewrite length_fmap. by apply (Forall_lookup_1 _ _ _ _ Hl Hj).
  - apply list_elem_of_split_length in Hj as (L1 & L2 & -> & _).
    unfold fresh_lines in Hf. rewrite concat_app, Forall_app in Hf. simpl in Hf.
    rewrite Forall_app in Hf. rewrite Forall_fmap. eapply Forall_impl; [apply Hf|].
    intros x [d Hd]. simpl. by rewrite Hd.
Qed.

Lemma bufs_of_access pol rnd t xs xs' hit (L1 L2 : list (list (ptr * line))) :
  (hit, xs'.*2) = set_access pol rnd t xs.*2 →
  bufs_of (concat (L1 ++ xs' :: L2)) ≡ₚ bufs_of (concat (L1 ++ xs :: L2)).
Proof.
  intros Hacc. rewrite !concat_app. simpl. rewrite !bufs_of_app.
  enough (bufs_of xs' ≡ₚ bufs_of xs) as -> by done.
  rewrite !bufs_of_lines. change (xs'.*2) with ((hit, xs'.*2).2). rewrite Hacc. apply set_access_bufs.
Qed.

(** The result of an access to an LRU cache that has served [past]. *)
Record lru_post (rob_size id : Z) (ty : CacheAccessType) (addr : Z) (past : list Z)
  (h : Heap) (c : Cache_t) xss (hit : bool) (h' : Heap) (c' : Cache_t) xss' : Prop := {
  post_hit : hit = lru_hit (len_offset_bit c) (len_idx_bit c) (Z.to_nat (assoc (config c))) past addr;
  post_rep : cache_rep (blks h') c' xss';
  post_counted : ∃ sets, c' = set_cache_set sets (counted rob_size id ty hit c);
  post_state : lru_state (len_offset_bit c) (len_idx_bit c) (Z.to_nat (assoc (config c))) (addr :: past) xss';
  post_ptrs : (concat xss').*1 ≡ₚ (concat xss).*1;
  post_bufs : bufs_of (concat xss') ≡ₚ bufs_of (concat xss);
  post_frame : ∀ q, q ∉ (concat xss).*1 → blks h' !! q = blks h !! q;
  post_dom : dom (blks h') = dom (blks h);
  post_hbufs : bufs h' = bufs h;
  post_brk : brk h' = brk h;
}.

Lemma lru_access_step rob_size id h c ty addr rnd xss past :
  cache_rep (blks h) c xss → policy (config c) = LRU → 0 ≤ addr → 0 ≤ rnd →
  lru_state (len_offset_bit c) (len_idx_bit c) (Z.to_nat (assoc (config c))) past xss →
  ∃ hit h' c' xss', cache_access rob_size id h c ty addr rnd = Some (hit, h', c') ∧
    lru_post rob_size id ty addr past h c xss hit h' c' xss'.
Proof.
  intros Hrep Hpol Ha Hr Hst.
  set (o := len_offset_bit c) in *. set (i := len_idx_bit c) in *.
  destruct (cache_access_set rob_size id h c ty _ _ xss Hrep Ha Hr)
    as (xs & hit & h1 & c1 & xs' & Hxs & He & Hacc & Hperm & Hrep1 & Hc1 & Hfr & Hdm & Hbu & Hbk).
  exists hit, h1, c1, (<[set_of c addr := xs']> xss). split; [done|].
  pose proof (set_of_aset _ _ _ addr Hrep) as Hso. fold o i in Hso.
  pose proof Hacc as Hacc'. rewrite Hpol in Hacc'. symmetry in Hacc'.
  destruct (lru_step (Z.to_nat (assoc (config c))) _ _ _ _ _ _ ltac:(destruct Hrep; lia) (Hst _ _ Hxs) Hacc') as [Hhit Hinv].
  pose proof Hxs as Hsplit. apply list_elem_of_split_length in Hsplit as (L1 & L2 & -> & Hlen).
  constructor; try done.
  - rewrite Hhit. unfold lru_hit. fold o i. by rewrite <-Hso.
  - intros j ys Hj. rewrite filter_cons.
    destruct (decide (aset o i addr = j)) as [Hjs|Hjs].
    + rewrite decide_True by done. rewrite Hso, Hjs in Hj, Hxs, Hinv.
      rewrite list_lookup_insert_eq in Hj by by eapply lookup_lt_Some. simplify_eq. done.
    + rewrite decide_False by done. rewrite list_lookup_insert_ne in Hj by congruence. by apply Hst.
  - rewrite Hlen, insert_middle, !concat_app. simpl. rewrite !fmap_app. by rewrite Hperm.
  - rewrite Hlen, insert_middle. by eapply bufs_of_access.
  - intros q Hq. apply Hfr. intros Hin. apply Hq. rewrite concat_app, !fmap_app. simpl.
    rewrite fmap_app. set_solver.
Qed.

Lemma lru_run rob_size rs h c xss past hits h' c' :
  let o := len_offset_bit c in let i := len_idx_bit c in
  let k := Z.to_nat (assoc (config c)) in
  cache_rep (blks h) c xss → policy (config c) = LRU → Forall req_ok rs →
  lru_state o i k past xss → cache_run rob_size h c rs = Some (hits, h', c') →
  hits = lru_hits o i k past (r_addr <$> rs).
Proof.
  intros o i k. revert h c xss past hits o i k.
  induction rs as [|r rs IH]; intros h c xss past hits o i k Hrep Hpol Hok Hst Hrun.
  { simpl in Hrun. by simplify_eq. }
  apply Forall_cons in Hok as [[Ha Hr] Hok].
  destruct (lru_access_step rob_size (r_id r) h c (r_type r) _ _ xss past Hrep Hpol Ha Hr Hst)
    as (hit & h1 & c1 & xss1 & He & Hp).
  simpl in Hrun. rewrite He in Hrun. csimpl in Hrun.
  destruct (cache_run rob_size h1 c1 rs) as [[[hits1 h2] c2]|] eqn:Hrun1; simplify_eq/=.
  destruct Hp as [-> Hrep1 [sets ->] Hst1 _ _ _ _ _ _]. f_equal.
  match type of Hrun1 with cache_run _ _ (set_cache_set _ (counted _ ?id ?ty ?hit _)) _ = _ =>
    pose proof (same_geom_counted rob_size id ty hit sets c) as (Hcf & Hi & Ho) end.
  eapply IH in Hrun1; [|done|by rewrite Hcf|done|by rewrite Hcf, Hi, Ho].
  by rewrite Hcf, Hi, Ho in Hrun1.
Qed.

Lemma lru_from_init jb js h junk nm n bs k hl ml rob_size rs :
  heap_ok h → 0 < n → 0 < bs → 0 < k → Z.log2 bs + Z.log2 n < 32 → Forall req_ok rs →
  ∃ h0 c0 h1 c1,
    cache_initialize jb js h junk nm n bs k LRU hl ml = Some (h0, c0) ∧
    cache_run rob_size h0 c0 rs =
      Some (lru_hits (Z.log2 bs) (Z.log2 n) (Z.to_nat k) [] (r_addr <$> rs), h1, c1).
Proof.
  intros Hok Hn Hbs Hk Hw Hrs.
  destruct (cache_initialize_rep jb js h junk nm n bs k LRU hl ml Hok Hn Hbs Hk Hw)
    as (h0 & c0 & xss & He0 & Hrep0 & Hg & Hfl & Hpol & Has & Hns & Ho & Hi & _).
  destruct (cache_run_rep rob_size h0 c0 xss rs Hrep0 Hrs) as (hits & h1 & c1 & _ & He1 & _).
  exists h0, c0, h1, c1. split; [done|]. rewrite He1. do 3 f_equal.
  rewrite <-Ho, <-Hi, <-Has. eapply lru_run; try done. apply lru_state_fresh; [|done].
  eapply Forall_impl; [apply Hrep0|]. intros xs Hx. simpl in Hx. lia.
Qed.

(** C5: a freshly created LRU cache answers any sequence of accesses exactly as the LRU
    stack does: an access hits if and only if the tag is among the [assoc] most recently
    used distinct tags of the set the address falls in. *)
Theorem lru_exact jb js h junk nm n bs k hl ml rob_size rs :
  heap_ok h → 0 < n → 0 < bs → 0 < k → Z.log2 bs + Z.log2 n < 32 → Forall req_ok rs →
  ∃ h0 c0 h1 c1,
    cache_initialize jb js h junk nm n bs k LRU hl ml = Some (h0, c0) ∧
    cache_run rob_size h0 c0 rs =
      Some (lru_hits (Z.log2 bs) (Z.log2 n) (Z.to_nat k) [] (r_addr <$> rs), h1, c1).
Proof. apply lru_from_init. Qed.

Lemma lru_hits_mono o i k k' past addrs :
  (k ≤ k')%nat → Forall2 (λ b b', b = true → b' = true) (lru_hits o i k past addrs) (lru_hits o i k' past addrs).
Proof.
  intros Hk. revert past. induction addrs as [|a addrs IH]; intros past; simpl; constructor; [|done].
  unfold lru_hit. rewrite !bool_decide_eq_true. intros Hin.
  apply list_elem_of_lookup in Hin as [j Hj]. apply lookup_take_Some in Hj as [Hj ?].
  apply list_elem_of_lookup. exists j. apply lookup_take_Some. split; [done|lia].
Qed.


(** ** Statistics *)

Definition misses (hits : list bool) : Z := Z.of_nat (length (filter (λ b, b = false) hits)).
Definition read_misses (rs : list req) (hits : list bool) : Z :=
  Z.of_nat (length (filter (λ x, x.1 = false ∧ r_type x.2 = Read) (zip hits rs))).

Definition counters_ok (c : Cache_t) : Prop :=
  0 ≤ num_miss_star c ≤ num_read_miss c ∧ num_read_miss c ≤ num_miss c ≤ num_access c.

Lemma counted_ok rob_size id ty hit c :
  counters_ok c → num_access c + 1 < 2 ^ 64 →
  let c' := counted rob_size id ty hit c in
  counters_ok c' ∧ num_access c' = num_access c + 1 ∧
  num_miss c' = num_miss c + (if hit then 0 else 1) ∧
  num_read_miss c' = num_read_miss c + (if hit then 0 else match ty with Read => 1 | Write => 0 end).
Proof.
  intros (? & ?) ?. unfold counted, counters_ok, count_miss, u64, wrap.
  destruct hit, ty; simpl; rewrite ?(Z.mod_small (num_access _ + 1)) by lia;
    rewrite ?(Z.mod_small (num_miss _ + 1)) by lia;
    rewrite ?(Z.mod_small (num_read_miss _ + 1)) by lia; try lia.
  split; [|lia]. case_match; [rewrite Z.mod_small by lia|]; lia.
Qed.

Lemma counters_run rob_size rs h c xss hits h' c' :
  cache_rep (blks h) c xss → Forall req_ok rs → counters_ok c →
  num_access c + Z.of_nat (length rs) < 2 ^ 64 →
  cache_run rob_size h c rs = Some (hits, h', c') →
  counters_ok c' ∧ num_access c' = num_access c + Z.of_nat (length rs) ∧
  num_miss c' = num_miss c + misses hits ∧
  num_read_miss c' = num_read_miss c + read_misses rs hits.
Proof.
  revert h c xss hits. induction rs as [|r rs IH]; intros h c xss hits Hrep Hok Hc Hn Hrun.
  { simpl in Hrun. simplify_eq. unfold misses, read_misses. simpl. split_and!; try done; lia. }
  apply Forall_cons in Hok as [[Ha Hr] Hok].
  destruct (cache_access_set rob_size (r_id r) h c (r_type r) _ _ xss Hrep Ha Hr)
    as (xs & hit & h1 & c1 & xs' & Hxs & He & Hacc & _ & Hrep1 & [sets ->] & _).
  simpl in Hrun. rewrite He in Hrun. csimpl in Hrun. simpl in Hn.
  destruct (cache_run rob_size h1 _ rs) as [[[hits1 h2] c2]|] eqn:Hrun1; simplify_eq/=.
  destruct (counted_ok rob_size (r_id r) (r_type r) hit c Hc ltac:(lia)) as (H1 & H2 & H3 & H4).
  apply IH with (xss := <[set_of c (r_addr r):=xs']> xss) in Hrun1 as (K1 & K2 & K3 & K4);
    [|done|done|exact H1|simpl; rewrite H2; lia].
  unfold misses, read_misses in *. simpl in *. rewrite !filter_cons. split; [done|].
  rewrite K2, K3, K4, H2, H3, H4. simpl.
  destruct hit; simpl; [|destruct (r_type r); simpl]; repeat case_decide; simpl in *; intuition; try done; lia.
Qed.

(** C22: on every sequence of fewer than 2^64 accesses the statistics are exact: accesses,
    misses and read misses are counted one by one, and the misses counted as isolated
    ([num_miss_star]) are read misses. *)
Theorem cache_statistics jb js h junk nm n bs k pol hl ml rob_size rs :
  heap_ok h → 0 < n → 0 < bs → 0 < k → Z.log2 bs + Z.log2 n < 32 → Forall req_ok rs →
  Z.of_nat (length rs) < 2 ^ 64 →
  ∃ h0 c0 hits h1 c1,
    cache_initialize jb js h junk nm n bs k pol hl ml = Some (h0, c0) ∧
    cache_run rob_size h0 c0 rs = Some (hits, h1, c1) ∧
    num_access c1 = Z.of_nat (length rs) ∧ num_miss c1 = misses hits ∧
    num_read_miss c1 = read_misses rs hits ∧ 0 ≤ num_miss_star c1 ≤ num_read_miss c1.
Proof.
  intros Hok Hn Hbs Hk Hw Hrs Hlen.
  destruct (cache_initialize_rep jb js h junk nm n bs k pol hl ml Hok Hn Hbs Hk Hw)
    as (h0 & c0 & xss & He0 & Hrep0 & _ & _ & _ & _ & _ & _ & _ & E1 & E2 & E3 & E4).
  destruct (cache_run_rep rob_size h0 c0 xss rs Hrep0 Hrs) as (hits & h1 & c1 & _ & He1 & _).
  destruct (counters_run _ _ _ _ _ _ _ _ Hrep0 Hrs
    ltac:(unfold counters_ok; lia) ltac:(lia) He1) as ([? ?] & ? & ? & ?).
  exists h0, c0, hits, h1, c1. rewrite E1, E2, E3 in *. split_and!; try done; lia.
Qed.

(** ** Addresses *)

(** Set index and tag together name the memory block: two addresses fall in the same
    set with the same tag if and only if they agree above the block offset. *)
Theorem same_line b c xss a a' :
  cache_rep b c xss → 0 ≤ a → 0 ≤ a' →
  set_of c a = set_of c a' ∧ tag_of c a = tag_of c a' ↔
  a / 2 ^ len_offset_bit c = a' / 2 ^ len_offset_bit c.
Proof.
  intros Hrep Ha Ha'. rewrite !(set_of_aset _ _ _ _ Hrep).
  destruct Hrep as [? ? ? ? ? Ho [Hi _] _]. unfold aset, tag_of.
  rewrite <-!Z.shiftr_shiftr, !Z.shiftr_div_pow2 by lia.
  pose proof (Z.pow_pos_nonneg 2 (len_idx_bit c)). pose proof (Z.pow_pos_nonneg 2 (len_offset_bit c)).
  pose proof (Z.div_pos a (2 ^ len_offset_bit c)). pose proof (Z.div_pos a' (2 ^ len_offset_bit c)).
  pose proof (Z.mod_pos_bound (a / 2 ^ len_offset_bit c) (2 ^ len_idx_bit c)).
  pose proof (Z.mod_pos_bound (a' / 2 ^ len_offset_bit c) (2 ^ len_idx_bit c)).
  split; [|by intros ->]. intros [Hs Ht].
  rewrite (Z.div_mod (a / 2 ^ len_offset_bit c) (2 ^ len_idx_bit c)),
    (Z.div_mod (a' / 2 ^ len_offset_bit c) (2 ^ len_idx_bit c)) by lia.
  rewrite Ht. f_equal. lia.
Qed.

(** ** Invalidation *)

Lemma set_access_invalid pol rnd t ls :
  Forall (λ l, lvalid l = false) ls → (set_access pol rnd t ls).1 = false.
Proof.
  intros Hls. unfold set_access. destruct (list_find (holds t) ls) as [[i l]|] eqn:E; [|done].
  apply list_find_Some in E as (Hi & [Hv _] & _).
  apply (Forall_lookup_1 _ _ _ _ Hls) in Hi. simpl in Hi. congruence.
Qed.

(** Invalidating a well-formed cache always completes, keeps it well formed, and the
    first access after it misses whatever the address. *)
Theorem cache_invalidate_cold rob_size inst_id h c ty addr rnd xss :
  cache_rep (blks h) c xss → 0 ≤ addr → 0 ≤ rnd →
  ∃ h' h'' c' xss',
    cache_invalidate h c = Some h' ∧ cache_rep (blks h') c xss' ∧
    cache_access rob_size inst_id h' c ty addr rnd = Some (false, h'', c').
Proof.
  intros Hrep Ha Hr. destruct (cache_invalidate_rep h c xss Hrep) as (h' & He & Hrep').
  destruct (cache_access_set rob_size inst_id h' c ty addr rnd _ Hrep' Ha Hr)
    as (xs & hit & h'' & c' & xs' & Hxs & He' & Hacc & _).
  exists h', h'', c', (inval_blocks xss). split_and!; [done|done|].
  unfold inval_blocks in Hxs. rewrite list_lookup_fmap in Hxs.
  destruct (xss !! set_of c addr) as [ys|]; simplify_eq/=.
  pose proof (set_access_invalid (policy (config c)) rnd (tag_of c addr)
    (prod_map id invalidated <$> ys).*2) as Hinv.
  rewrite <-Hacc in Hinv. simpl in Hinv. rewrite He', Hinv; [done|].
  rewrite !Forall_fmap. by apply Forall_true.
Qed.

(** ** Concrete instances *)

Definition w_blk : Cache_blk_t :=
  {| valid := false; dirty := false; tag := 0; data := None; prev_blk := None; next_blk := None |}.
Definition w_set : Cache_set_t := {| first_blk := None; last_blk := None |}.
Definition w_heap : Heap := {| blks := ∅; bufs := ∅; brk := 1%positive |}.
Definition w_cache : Cache_t :=
  {| cache_set := []; num_access := 0; num_miss := 0; num_read_miss := 0; num_miss_star := 0;
     config := {| name := EmptyString; nset := 0; bsize := 0; assoc := 0; policy := LRU;
                  hit_lat := 0; miss_lat := 0 |};
     len_tag_bit := 0; len_idx_bit := 0; len_offset_bit := 0; last_miss_inst_id := 0;
     last_miss_addr := 0; offset_mask := 0; addr_mask := 0 |}.
Definition w_reqs : list req :=
  [Req 0 Read 0 5; Req 10 Write 4096 6; Req 20 Read 8192 7; Req 30 Read 0 8; Req 90 Read 8200 9].

Lemma w_heap_ok : heap_ok w_heap.
Proof. split; intros p; simpl; set_solver. Qed.

Lemma w_reqs_ok : Forall req_ok w_reqs.
Proof. repeat constructor; simpl; lia. Qed.

(** Two sets of two ways, 16-byte lines. *)
Definition w_init (pol : Cache_policy) : option (Heap * Cache_t) :=
  cache_initialize w_blk w_set w_heap w_cache EmptyString 2 16 2 pol 1 10.

Lemma w_init_rep pol : ∃ h c xss, w_init pol = Some (h, c) ∧ cache_rep (blks h) c xss.
Proof.
  destruct (cache_initialize_rep w_blk w_set w_heap w_cache EmptyString 2 16 2 pol 1 10)
    as (h & c & xss & He & Hrep & _); [apply w_heap_ok|done..|]. exists h, c, xss. exact (conj He Hrep).
Qed.

Lemma cache_access_refines_witness : ∃ h c xss, w_init FIFO = Some (h, c) ∧
  ∃ hit h' c' xss', cache_access 40 7 h c Read 4660 3 = Some (hit, h', c') ∧
    (hit, lines_of xss') = abs_access c 4660 3 (lines_of xss).
Proof.
  destruct (w_init_rep FIFO) as (h & c & xss & He & Hrep). exists h, c, xss. split; [exact He|].
  destruct (cache_access_refines 40 7 h c Read 4660 3 xss Hrep) as (hit & h' & c' & xss' & H1 & _ & H2 & _);
    [lia|lia|]. exists hit, h', c', xss'. exact (conj H1 H2).
Defined.

Lemma cache_lifecycle_witness : ∃ h0 c0 hits h1 c1 h2, w_init Random = Some (h0, c0) ∧
  cache_run 40 h0 c0 w_reqs = Some (hits, h1, c1) ∧ cache_close h1 c1 = Some h2 ∧
  blks h2 = ∅ ∧ bufs h2 = ∅.
Proof.
  apply (cache_lifecycle w_blk w_set w_heap w_cache EmptyString 2 16 2 Random 1 10 40 w_reqs);
    [apply w_heap_ok|done..|apply w_reqs_ok].
Defined.

Lemma lru_exact_witness : ∃ h0 c0 h1 c1, w_init LRU = Some (h0, c0) ∧
  cache_run 40 h0 c0 w_reqs = Some ([false; false; false; false; true], h1, c1).
Proof.
  destruct (lru_exact w_blk w_set w_heap w_cache EmptyString 2 16 2 1 10 40 w_reqs)
    as (h0 & c0 & h1 & c1 & H1 & H2); [apply w_heap_ok|done..|apply w_reqs_ok|].
  exists h0, c0, h1, c1. exact (conj H1 H2).
Defined.


Lemma cache_statistics_witness : ∃ h0 c0 hits h1 c1, w_init LRU = Some (h0, c0) ∧
  cache_run 40 h0 c0 w_reqs = Some (hits, h1, c1) ∧
  num_access c1 = 5 ∧ num_miss c1 = misses hits ∧
  num_read_miss c1 = read_misses w_reqs hits ∧ 0 ≤ num_miss_star c1 ≤ num_read_miss c1.
Proof.
  apply (cache_statistics w_blk w_set w_heap w_cache EmptyString 2 16 2 LRU 1 10 40 w_reqs);
    [apply w_heap_ok|done..|apply w_reqs_ok|done].
Defined.

Lemma same_line_witness : ∃ h c, w_init LRU = Some (h, c) ∧
  (set_of c 4096 = set_of c 4100 ∧ tag_of c 4096 = tag_of c 4100 ↔
   4096 / 2 ^ len_offset_bit c = 4100 / 2 ^ len_offset_bit c).
Proof.
  destruct (w_init_rep LRU) as (h & c & xss & He & Hrep). exists h, c. split; [exact He|].
  apply (same_line _ _ _ 4096 4100 Hrep); lia.
Defined.

Lemma cache_invalidate_cold_witness : ∃ h c h' h'' c', w_init LRU = Some (h, c) ∧
  cache_invalidate h c = Some h' ∧ cache_access 40 7 h' c Read 0 0 = Some (false, h'', c').
Proof.
  destruct (w_init_rep LRU) as (h & c & xss & He & Hrep).
  destruct (cache_invalidate_cold 40 7 h c Read 0 0 xss Hrep) as (h' & h'' & c' & xss' & H1 & _ & H2);
    [done|done|]. exists h, c, h', h'', c'. exact (conj He (conj H1 H2)).
Defined.
