(* ===== verification/CacheSim.v ===== *)
(** The simulated memory hierarchy of hsim-stub/cachesim.c: split first-level caches in
    front of a unified second level, all three in one heap. *)

From Stdlib Require Import ZArith Lia String.
From stdpp Require Import base tactics option list gmap.
From S2P Require Import Prelude DList Cache Config.

Inductive CacheMissType := L1Hit | L1Miss | L2Miss.

#[export] Instance CacheMissType_eq_dec : EqDecision CacheMissType.
Proof. solve_decision. Defined.

(** The globals [il1_cache], [dl1_cache], [ul2_cache]: null or a cache. *)
Record CacheSim := {
  il1_cache : option Cache_t;
  dl1_cache : option Cache_t;
  ul2_cache : option Cache_t;
}.

Definition set_il1_cache c s := {| il1_cache := Some c; dl1_cache := dl1_cache s; ul2_cache := ul2_cache s |}.
Definition set_dl1_cache c s := {| il1_cache := il1_cache s; dl1_cache := Some c; ul2_cache := ul2_cache s |}.
Definition set_ul2_cache c s := {| il1_cache := il1_cache s; dl1_cache := dl1_cache s; ul2_cache := Some c |}.

Definition fetchBufferSize : Z := 64.
Definition fetchBufferMask : Z := u32 (fetchBufferSize - 1).
Definition fetchbufferalignpc (addr : Z) : Z := addr .& u32 (Z.lnot fetchBufferMask).

Section CacheSimInit.
(** The contents of freshly allocated memory, and the configuration. *)
Variables (junk_blk : Cache_blk_t) (junk_set : Cache_set_t) (junk : Cache_t).
Variable perfmodel : perfmodel_config.

(** The latency a first-level miss adds: the second level's, or the memory's. *)
Definition l1_miss_lat (lat : Z) : Z :=
  u32 (if existUL2 perfmodel then cc_latency (ul2 perfmodel) + lat * 2
       else mem_latency (mem perfmodel) + lat * 2).

Definition cachesim_initialize (h : Heap) : option (Heap * CacheSim) :=
  let s := {| il1_cache := None; dl1_cache := None; ul2_cache := None |} in
  '(h, s) ← (if existIL1 perfmodel then
     let cc := il1 perfmodel in
     '(h, c) ← cache_initialize junk_blk junk_set h junk "il1" (num_set cc) (size_blk cc)
       (cc_assoc cc) LRU (u32 (cc_latency cc)) (l1_miss_lat (cc_latency cc));
     Some (h, set_il1_cache c s) else Some (h, s));
  '(h, s) ← (if existDL1 perfmodel then
     let cc := dl1 perfmodel in
     '(h, c) ← cache_initialize junk_blk junk_set h junk "dl1" (num_set cc) (size_blk cc)
       (cc_assoc cc) LRU (u32 (cc_latency cc)) (l1_miss_lat (cc_latency cc));
     Some (h, set_dl1_cache c s) else Some (h, s));
  if existUL2 perfmodel then
    let cc := ul2 perfmodel in
    '(h, c) ← cache_initialize junk_blk junk_set h junk "ul2" (num_set cc) (size_blk cc)
      (cc_assoc cc) LRU (u32 (cc_latency cc))
      (u32 (mem_latency (mem perfmodel) + cc_latency cc * 2));
    Some (h, set_ul2_cache c s)
  else Some (h, s).
End CacheSimInit.

Section CacheSimAccess.
Variable perfmodel : perfmodel_config.
(** What [miss_type] holds before it is assigned. *)
Variable junk_miss : CacheMissType.

(** The second-level access after a first-level miss; [rnd] is what [rand()] returns. *)
Definition ul2_access (h : Heap) (s : CacheSim) (cur_cycle : Z) (ty : CacheAccessType)
  (addr rnd : Z) (miss_type : CacheMissType) : option (CacheMissType * Heap * CacheSim) :=
  match ul2_cache s with
  | Some c =>
      if decide (miss_type = L1Miss) then
        '(hit, h, c) ← cache_access (rob_size (core perfmodel)) cur_cycle h c ty addr rnd;
        Some (if hit : bool then miss_type else L2Miss, h, set_ul2_cache c s)
      else Some (miss_type, h, s)
  | None => Some (miss_type, h, s)
  end.

Definition cachesim_iaccess (h : Heap) (s : CacheSim) (cur_cycle addr rnd rnd2 : Z)
  : option (CacheMissType * Heap * CacheSim) :=
  let eaddr := fetchbufferalignpc addr in
  '(miss_type, h, s) ← match il1_cache s with
    | Some c =>
        '(hit, h, c) ← cache_access (rob_size (core perfmodel)) cur_cycle h c Read eaddr rnd;
        Some (if hit : bool then L1Hit else L1Miss, h, set_il1_cache c s)
    | None => Some (junk_miss, h, s)
    end;
  ul2_access h s cur_cycle Read eaddr rnd2 miss_type.

Definition cachesim_daccess (h : Heap) (s : CacheSim) (cur_cycle addr : Z) (is_write : bool)
  (rnd rnd2 : Z) : option (CacheMissType * Heap * CacheSim) :=
  let ty := if is_write then Write else Read in
  '(miss_type, h, s) ← match dl1_cache s with
    | Some c =>
        '(hit, h, c) ← cache_access (rob_size (core perfmodel)) cur_cycle h c ty addr rnd;
        Some (if hit : bool then L1Hit else L1Miss, h, set_dl1_cache c s)
    | None => Some (junk_miss, h, s)
    end;
  ul2_access h s cur_cycle ty addr rnd2 miss_type.
End CacheSimAccess.

(** ** Statistics; 0 for an absent cache *)

Definition of_cache (f : Cache_t → Z) (c : option Cache_t) : Z := from_option f 0 c.

Definition cachesim_il1_num_miss (s : CacheSim) : Z := of_cache num_read_miss (il1_cache s).
Definition cachesim_dl1_num_miss (s : CacheSim) : Z := of_cache num_read_miss (dl1_cache s).
Definition cachesim_ul2_num_miss (s : CacheSim) : Z := of_cache num_miss_star (ul2_cache s).
Definition cachesim_il1_num_access (s : CacheSim) : Z := of_cache num_access (il1_cache s).
Definition cachesim_dl1_num_access (s : CacheSim) : Z := of_cache num_access (dl1_cache s).
Definition cachesim_ul2_num_access (s : CacheSim) : Z := of_cache num_access (ul2_cache s).

(** The latencies are stored unsigned and returned as an [int]. *)
Definition cachesim_il1_hit_latency (s : CacheSim) : Z := s32 (of_cache (hit_lat ∘ config) (il1_cache s)).
Definition cachesim_dl1_hit_latency (s : CacheSim) : Z := s32 (of_cache (hit_lat ∘ config) (dl1_cache s)).
Definition cachesim_ul2_hit_latency (s : CacheSim) : Z := s32 (of_cache (hit_lat ∘ config) (ul2_cache s)).
Definition cachesim_il1_miss_latency (s : CacheSim) : Z := s32 (of_cache (miss_lat ∘ config) (il1_cache s)).
Definition cachesim_dl1_miss_latency (s : CacheSim) : Z := s32 (of_cache (miss_lat ∘ config) (dl1_cache s)).
Definition cachesim_ul2_miss_latency (s : CacheSim) : Z := s32 (of_cache (miss_lat ∘ config) (ul2_cache s)).

(** [cachesim_end] closes the caches that exist; the globals keep their dangling values. *)
Definition cachesim_end (h : Heap) (s : CacheSim) : option Heap :=
  h ← match il1_cache s with Some c => cache_close h c | None => Some h end;
  h ← match dl1_cache s with Some c => cache_close h c | None => Some h end;
  match ul2_cache s with Some c => cache_close h c | None => Some h end.
