(* ===== verification/CacheSimTheorems.v ===== *)
(** The memory hierarchy as a whole: the second level sees exactly the first-level misses,
    and the answers are those of three LRU stacks. *)

From Stdlib Require Import ZArith Lia String.
From stdpp Require Import base tactics option list gmap.
From S2P Require Import Prelude DList Cache CacheSpec CacheLife CacheLRU CacheTheorems Config CacheSim.

(** Block offset bits, index bits and associativity of a configured cache. *)
Record geom := Geom { g_off : Z; g_idx : Z; g_ways : nat }.

Definition geom_of (cc : cache_config) : geom :=
  Geom (Z.log2 (size_blk cc)) (Z.log2 (num_set cc)) (Z.to_nat (cc_assoc cc)).

Definition geom_ok (cc : cache_config) : Prop :=
  0 < num_set cc ∧ 0 < size_blk cc ∧ 0 < cc_assoc cc ∧
  Z.log2 (size_blk cc) + Z.log2 (num_set cc) < 32.

Definition stack_hit (g : geom) (past : list Z) (a : Z) : bool :=
  lru_hit (g_off g) (g_idx g) (g_ways g) past a.

(** ** One cache of the hierarchy *)

(** The cache [c] has the geometry [g], has served [past] and lives in the blocks [X]. *)
Record slot (h : Heap) (c : Cache_t) (g : geom) (past : list Z) (X : list (ptr * line)) : Prop := {
  slot_rep : ∃ xss, X = concat xss ∧ cache_rep (blks h) c xss ∧
    lru_state (g_off g) (g_idx g) (g_ways g) past xss;
  slot_policy : policy (config c) = LRU;
  slot_geom : g = Geom (len_offset_bit c) (len_idx_bit c) (Z.to_nat (assoc (config c)));
  slot_counters : counters_ok c;
  slot_num_access : num_access c = Z.of_nat (length past);
}.

Lemma slot_frame h h' c g past X :
  slot h c g past X → (∀ p, p ∈ X.*1 → blks h' !! p = blks h !! p) → slot h' c g past X.
Proof.
  intros [(xss & -> & Hrep & Hst) Hp Hg Hc Hn] Hf. split; try done.
  exists xss. split; [done|]. split; [|done]. destruct Hrep. constructor; try done.
  by eapply set_rep_frame.
Qed.

Lemma slot_access rob_size id h c g past X ty addr rnd :
  slot h c g past X → 0 ≤ addr → 0 ≤ rnd → Z.of_nat (length past) + 1 < 2 ^ 64 →
  ∃ h' c' X', cache_access rob_size id h c ty addr rnd = Some (stack_hit g past addr, h', c') ∧
    slot h' c' g (addr :: past) X' ∧ touched h h' X.*1 ∧
    X'.*1 ≡ₚ X.*1 ∧ bufs_of X' ≡ₚ bufs_of X ∧
    num_miss c' = num_miss c + (if stack_hit g past addr then 0 else 1).
Proof.
  intros [(xss & -> & Hrep & Hst) Hp -> Hc Hn] Ha Hr Hlen.
  destruct (lru_access_step rob_size id h c ty addr rnd xss past Hrep Hp Ha Hr Hst)
    as (hit & h' & c' & xss' & He & [-> Hrep' [sets ->] Hst' Hpt Hbf Hfr Hdm Hhb Hbk]).
  eexists h', _, (concat xss'). split; [exact He|].
  destruct (counted_ok rob_size id ty (stack_hit (Geom (len_offset_bit c) (len_idx_bit c)
    (Z.to_nat (assoc (config c)))) past addr) c Hc ltac:(lia)) as (H1 & H2 & H3 & _).
  match goal with |- slot _ (set_cache_set _ (counted _ ?id ?ty ?hit _)) _ _ _ ∧ _ =>
    pose proof (same_geom_counted rob_size id ty hit sets c) as (Hcf & Hi & Ho) end.
  split; [|split; [by split|]]; [|done]. split.
  - by exists xss'.
  - by rewrite Hcf.
  - by rewrite Hcf, Hi, Ho.
  - exact H1.
  - unfold stack_hit in H2. simpl in *. rewrite H2. lia.
Qed.

Lemma slot_init jb js h junk nm cc hl ml :
  heap_ok h → geom_ok cc →
  ∃ h' c X, cache_initialize jb js h junk nm (num_set cc) (size_blk cc) (cc_assoc cc) LRU hl ml =
      Some (h', c) ∧
    slot h' c (geom_of cc) [] X ∧ grown h h' X ∧ num_miss c = 0.
Proof.
  intros Hok (Hn & Hb & Hk & Hw).
  destruct (cache_initialize_rep jb js h junk nm _ _ _ LRU hl ml Hok Hn Hb Hk Hw)
    as (h' & c & xss & He & Hrep & Hg & Hfl & Hpol & Has & Hns & Ho & Hi & E1 & E2 & E3 & E4).
  exists h', c, (concat xss). split; [done|]. split; [|done]. split; try done.
  - exists xss. split_and!; try done. apply lru_state_fresh; [|done]. simpl. rewrite <-Has.
    eapply Forall_impl; [apply Hrep|]. intros xs Hx. simpl in Hx. lia.
  - unfold geom_of. congruence.
  - unfold counters_ok. lia.
Qed.

Lemma slot_close h c g past X :
  slot h c g past X → owns h X → ∃ h', cache_close h c = Some h' ∧ released h h' X.
Proof. intros [(xss & -> & Hrep & _) _ _ _ _] Ho. by apply cache_close_rep. Qed.

(** ** The specification: three stacks of past addresses *)

Record hist := Hist { hist_i : list Z; hist_d : list Z; hist_2 : list Z }.

Inductive access :=
  | IFetch (cycle addr rnd rnd2 : Z)
  | DAccess (cycle addr : Z) (is_write : bool) (rnd rnd2 : Z).

Definition access_ok (a : access) : Prop :=
  match a with
  | IFetch _ addr r r2 | DAccess _ addr _ r r2 => 0 ≤ addr ∧ 0 ≤ r ∧ 0 ≤ r2
  end.

(** The outcome when the first level hits, or else the second level does, or not. *)
Definition outcome (hit1 hit2 : bool) : CacheMissType :=
  if hit1 then L1Hit else if hit2 then L1Miss else L2Miss.

Section Spec.
Variables gi gd g2 : geom.

Definition spec_access (H : hist) (a : access) : CacheMissType * hist :=
  match a with
  | IFetch _ addr _ _ =>
      let a := fetchbufferalignpc addr in
      let hit := stack_hit gi (hist_i H) a in
      (outcome hit (stack_hit g2 (hist_2 H) a),
       Hist (a :: hist_i H) (hist_d H) (if hit then hist_2 H else a :: hist_2 H))
  | DAccess _ a _ _ _ =>
      let hit := stack_hit gd (hist_d H) a in
      (outcome hit (stack_hit g2 (hist_2 H) a),
       Hist (hist_i H) (a :: hist_d H) (if hit then hist_2 H else a :: hist_2 H))
  end.

Fixpoint spec_run (H : hist) (l : list access) : list CacheMissType * hist :=
  match l with
  | [] => ([], H)
  | a :: l => let '(m, H) := spec_access H a in let '(ms, H) := spec_run H l in (m :: ms, H)
  end.
End Spec.

(** The implementation on the same sequence. *)
Definition do_access (perfmodel : perfmodel_config) junk (h : Heap) (s : CacheSim) (a : access) :=
  match a with
  | IFetch cyc addr r r2 => cachesim_iaccess perfmodel junk h s cyc addr r r2
  | DAccess cyc addr w r r2 => cachesim_daccess perfmodel junk h s cyc addr w r r2
  end.

Fixpoint cachesim_run perfmodel junk (h : Heap) (s : CacheSim) (l : list access)
  : option (list CacheMissType * Heap * CacheSim) :=
  match l with
  | [] => Some ([], h, s)
  | a :: l =>
      '(m, h, s) ← do_access perfmodel junk h s a;
      '(ms, h, s) ← cachesim_run perfmodel junk h s l;
      Some (m :: ms, h, s)
  end.

(** ** The hierarchy *)

Section Hierarchy.
Variables (base : Heap) (gi gd g2 : geom).

Record hier (h : Heap) (s : CacheSim) (H : hist) ci cd c2 Xi Xd X2 : Prop := {
  hier_state : s = {| il1_cache := Some ci; dl1_cache := Some cd; ul2_cache := Some c2 |};
  hier_i : slot h ci gi (hist_i H) Xi;
  hier_d : slot h cd gd (hist_d H) Xd;
  hier_2 : slot h c2 g2 (hist_2 H) X2;
  hier_heap : grown base h (Xi ++ Xd ++ X2);
  hier_miss : num_access c2 = num_miss ci + num_miss cd;
}.

Definition hier_ex (h : Heap) (s : CacheSim) (H : hist) : Prop :=
  ∃ ci cd c2 Xi Xd X2, hier h s H ci cd c2 Xi Xd X2.

(** The blocks of the three caches are distinct. *)
Lemma grown_disjoint h Xi Xd X2 p :
  grown base h (Xi ++ Xd ++ X2) →
  (p ∈ Xi.*1 → ¬ p ∈ Xd.*1 ∧ ¬ p ∈ X2.*1) ∧ (p ∈ Xd.*1 → ¬ p ∈ X2.*1).
Proof.
  intros Hg. pose proof (grown_nodup _ _ _ Hg) as Hnd.
  rewrite !fmap_app, !NoDup_app in Hnd. set_solver.
Qed.

Lemma hier_access_i rob_size id h s H ci cd c2 Xi Xd X2 ty addr rnd :
  hier h s H ci cd c2 Xi Xd X2 → 0 ≤ addr → 0 ≤ rnd →
  Z.of_nat (length (hist_i H)) + 1 < 2 ^ 64 →
  ∃ h' c' X', cache_access rob_size id h ci ty addr rnd = Some (stack_hit gi (hist_i H) addr, h', c') ∧
    slot h' c' gi (addr :: hist_i H) X' ∧ slot h' cd gd (hist_d H) Xd ∧ slot h' c2 g2 (hist_2 H) X2 ∧
    grown base h' (X' ++ Xd ++ X2) ∧
    num_miss c' = num_miss ci + (if stack_hit gi (hist_i H) addr then 0 else 1).
Proof.
  intros [-> Hi Hd H2 Hg Hm] Ha Hr Hl.
  destruct (slot_access rob_size id _ _ _ _ _ ty _ _ Hi Ha Hr Hl)
    as (h' & c' & X' & He & Hs & Ht & Hp & Hb & Hn).
  exists h', c', X'. split_and!; try done.
  - eapply slot_frame; [exact Hd|]. intros p Hin. apply (touched_frame _ _ _ Ht).
    pose proof (grown_disjoint _ _ _ _ p Hg). tauto.
  - eapply slot_frame; [exact H2|]. intros p Hin. apply (touched_frame _ _ _ Ht).
    pose proof (grown_disjoint _ _ _ _ p Hg). tauto.
  - eapply grown_touched; [exact Hg|exact Ht|..]; rewrite ?fmap_app, ?bufs_of_app, ?Hp, ?Hb; set_solver.
Qed.

Lemma hier_access_d rob_size id h s H ci cd c2 Xi Xd X2 ty addr rnd :
  hier h s H ci cd c2 Xi Xd X2 → 0 ≤ addr → 0 ≤ rnd →
  Z.of_nat (length (hist_d H)) + 1 < 2 ^ 64 →
  ∃ h' c' X', cache_access rob_size id h cd ty addr rnd = Some (stack_hit gd (hist_d H) addr, h', c') ∧
    slot h' ci gi (hist_i H) Xi ∧ slot h' c' gd (addr :: hist_d H) X' ∧ slot h' c2 g2 (hist_2 H) X2 ∧
    grown base h' (Xi ++ X' ++ X2) ∧
    num_miss c' = num_miss cd + (if stack_hit gd (hist_d H) addr then 0 else 1).
Proof.
  intros [-> Hi Hd H2 Hg Hm] Ha Hr Hl.
  destruct (slot_access rob_size id _ _ _ _ _ ty _ _ Hd Ha Hr Hl)
    as (h' & c' & X' & He & Hs & Ht & Hp & Hb & Hn).
  exists h', c', X'. split_and!; try done.
  - eapply slot_frame; [exact Hi|]. intros p Hin. apply (touched_frame _ _ _ Ht).
    pose proof (grown_disjoint _ _ _ _ p Hg). tauto.
  - eapply slot_frame; [exact H2|]. intros p Hin. apply (touched_frame _ _ _ Ht).
    pose proof (grown_disjoint _ _ _ _ p Hg). tauto.
  - eapply grown_touched; [exact Hg|exact Ht|..]; rewrite ?fmap_app, ?bufs_of_app, ?Hp, ?Hb; set_solver.
Qed.

(** A second-level access, in a state whose first level has just missed. *)
Lemma hier_access_2 rob_size id h p2 ci cd c2 pi pd Xi Xd X2 ty addr rnd :
  slot h ci gi pi Xi → slot h cd gd pd Xd → slot h c2 g2 p2 X2 → grown base h (Xi ++ Xd ++ X2) →
  num_access c2 + 1 = num_miss ci + num_miss cd →
  0 ≤ addr → 0 ≤ rnd → Z.of_nat (length p2) + 1 < 2 ^ 64 →
  ∃ h' c', cache_access rob_size id h c2 ty addr rnd = Some (stack_hit g2 p2 addr, h', c') ∧
    hier_ex h' {| il1_cache := Some ci; dl1_cache := Some cd; ul2_cache := Some c' |}
      (Hist pi pd (addr :: p2)).
Proof.
  intros Hi Hd H2 Hg Hm Ha Hr Hl.
  destruct (slot_access rob_size id _ _ _ _ _ ty _ _ H2 Ha Hr Hl)
    as (h' & c' & X' & He & Hs & Ht & Hp & Hb & Hn).
  exists h', c'. split; [done|]. exists ci, cd, c', Xi, Xd, X'. split; try done; simpl.
  - eapply slot_frame; [exact Hi|]. intros p Hin. apply (touched_frame _ _ _ Ht).
    pose proof (grown_disjoint _ _ _ _ p Hg). tauto.
  - eapply slot_frame; [exact Hd|]. intros p Hin. apply (touched_frame _ _ _ Ht).
    pose proof (grown_disjoint _ _ _ _ p Hg). tauto.
  - eapply grown_touched; [exact Hg|exact Ht|..]; rewrite ?fmap_app, ?bufs_of_app, ?Hp, ?Hb; set_solver.
  - rewrite (slot_num_access _ _ _ _ _ Hs). simpl. pose proof (slot_num_access _ _ _ _ _ H2). lia.
Qed.

Definition hist_len (H : hist) : Z :=
  Z.of_nat (length (hist_i H)) + Z.of_nat (length (hist_d H)) + Z.of_nat (length (hist_2 H)).

Lemma align_nonneg addr : 0 ≤ addr → 0 ≤ fetchbufferalignpc addr.
Proof. intros Ha. apply Z.land_nonneg. by left. Qed.

Lemma hier_step perfmodel junk h s H a :
  hier_ex h s H → access_ok a → hist_len H + 2 < 2 ^ 64 →
  ∃ h' s', do_access perfmodel junk h s a = Some ((spec_access gi gd g2 H a).1, h', s') ∧
    hier_ex h' s' (spec_access gi gd g2 H a).2.
Proof.
  intros (ci & cd & c2 & Xi & Xd & X2 & Hh) Hok Hl. pose proof Hh as [-> Hi Hd H2 Hg Hm].
  unfold hist_len in Hl. destruct a as [cyc addr r r2|cyc addr w r r2]; destruct Hok as (Ha & Hr & Hr2).
  - apply align_nonneg in Ha. simpl. unfold cachesim_iaccess. simpl.
    destruct (hier_access_i (rob_size (core perfmodel)) cyc _ _ _ _ _ _ _ _ _ Read _ _ Hh Ha Hr ltac:(lia))
      as (h1 & c1 & X1 & He & S1 & S2 & S3 & G & Hn). rewrite He. csimpl. unfold ul2_access. simpl.
    destruct (stack_hit gi (hist_i H) (fetchbufferalignpc addr)) eqn:Hhit; simpl.
    + eexists _, _. split; [done|]. exists c1, cd, c2, X1, Xd, X2. split; try done. simpl. lia.
    + destruct (hier_access_2 (rob_size (core perfmodel)) cyc _ _ _ _ _ _ _ _ _ _ Read _ _ S1 S2 S3 G
        ltac:(lia) Ha Hr2 ltac:(lia)) as (h2 & c2' & He2 & Hex). rewrite He2. csimpl.
      eexists _, _. split; [|exact Hex]. by destruct (stack_hit g2 (hist_2 H) _).
  - simpl. unfold cachesim_daccess. simpl. set (ty := if w then Write else Read).
    destruct (hier_access_d (rob_size (core perfmodel)) cyc _ _ _ _ _ _ _ _ _ ty _ _ Hh Ha Hr ltac:(lia))
      as (h1 & c1 & X1 & He & S1 & S2 & S3 & G & Hn). rewrite He. csimpl. unfold ul2_access. simpl.
    destruct (stack_hit gd (hist_d H) addr) eqn:Hhit; simpl.
    + eexists _, _. split; [done|]. exists ci, c1, c2, Xi, X1, X2. split; try done. simpl. lia.
    + destruct (hier_access_2 (rob_size (core perfmodel)) cyc _ _ _ _ _ _ _ _ _ _ ty _ _ S1 S2 S3 G
        ltac:(lia) Ha Hr2 ltac:(lia)) as (h2 & c2' & He2 & Hex). rewrite He2. csimpl.
      eexists _, _. split; [|exact Hex]. by destruct (stack_hit g2 (hist_2 H) _).
Qed.

Lemma spec_access_len H a : hist_len (spec_access gi gd g2 H a).2 ≤ hist_len H + 2.
Proof. unfold hist_len. destruct a; simpl; case_match; simpl; lia. Qed.

Lemma hier_run perfmodel junk l h s H :
  hier_ex h s H → Forall access_ok l → hist_len H + 2 * Z.of_nat (length l) < 2 ^ 64 →
  ∃ h' s', cachesim_run perfmodel junk h s l = Some ((spec_run gi gd g2 H l).1, h', s') ∧
    hier_ex h' s' (spec_run gi gd g2 H l).2.
Proof.
  revert h s H. induction l as [|a l IH]; intros h s H Hex Hok Hl; [by exists h, s|].
  apply Forall_cons in Hok as [Ha Hok]. simpl in Hl.
  destruct (hier_step perfmodel junk h s H a Hex Ha ltac:(lia)) as (h1 & s1 & He1 & Hex1).
  pose proof (spec_access_len H a) as Hla. simpl. rewrite He1. csimpl.
  destruct (spec_access gi gd g2 H a) as [m H1] eqn:Es. simpl in *.
  destruct (IH h1 s1 H1 Hex1 Hok ltac:(lia)) as (h2 & s2 & He2 & Hex2). rewrite He2. csimpl.
  destruct (spec_run gi gd g2 H1 l) as [ms H2]. simpl in *. by exists h2, s2.
Qed.

Lemma owns_grown h X : grown base h X → owns h X.
Proof.
  intros Hg. split; [apply Hg|apply Hg|]. intros p. rewrite (grown_bufs _ _ _ Hg). set_solver.
Qed.

(** After closing the caches in [X], those in [Y] are as they were. *)
Lemma owns_released h h' X Y :
  owns h (X ++ Y) → released h h' X →
  owns h' Y ∧ ∀ p, p ∈ Y.*1 → blks h' !! p = blks h !! p.
Proof.
  intros [Hnd Hb Hs] (Hr & Hu & _). rewrite fmap_app, NoDup_app in Hnd.
  rewrite bufs_of_app in Hb, Hs. rewrite NoDup_app in Hb.
  split; [split|]; [naive_solver|naive_solver| |].
  - intros p Hp. rewrite Hu. set_solver.
  - intros p Hp. rewrite Hr, decide_False; [done|]. naive_solver.
Qed.

Lemma hier_end h s H :
  heap_ok base → hier_ex h s H →
  ∃ h', cachesim_end h s = Some h' ∧ blks h' = blks base ∧ bufs h' = bufs base.
Proof.
  intros Hbase (ci & cd & c2 & Xi & Xd & X2 & [-> Hi Hd H2 Hg _]). unfold cachesim_end. simpl.
  pose proof (owns_grown _ _ Hg) as Ho.
  assert (owns h Xi) as Hoi.
  { destruct Ho as [Hn Hb Hu]. rewrite fmap_app, NoDup_app in Hn. rewrite bufs_of_app in Hb, Hu.
    rewrite NoDup_app in Hb. split; [naive_solver|naive_solver|]. set_solver. }
  destruct (slot_close _ _ _ _ _ Hi Hoi) as (h1 & -> & Hr1). simpl.
  destruct (owns_released _ _ _ _ Ho Hr1) as [Ho1 Hf1].
  assert (owns h1 Xd) as Hod.
  { destruct Ho1 as [Hn Hb Hu]. rewrite fmap_app, NoDup_app in Hn. rewrite bufs_of_app in Hb, Hu.
    rewrite NoDup_app in Hb. split; [naive_solver|naive_solver|]. set_solver. }
  rewrite fmap_app in Hf1.
  apply (slot_frame _ h1) in Hd; [|intros p Hp; apply Hf1; set_solver].
  destruct (slot_close _ _ _ _ _ Hd Hod) as (h2 & -> & Hr2). simpl.
  destruct (owns_released _ _ _ _ Ho1 Hr2) as [Ho2 Hf2].
  apply (slot_frame _ h2) in H2; [|intros p Hp; rewrite Hf2 by done; apply Hf1; set_solver].
  destruct (slot_close _ _ _ _ _ H2 Ho2) as (h3 & -> & Hr3).
  exists h3. split; [done|]. eapply grown_released; [done|exact Hg|].
  eapply released_trans; [done|]. by eapply released_trans.
Qed.
End Hierarchy.

(** [cachesim_initialize] builds the three caches one after the other. *)
Lemma hier_init jb js junk perfmodel h :
  heap_ok h → existIL1 perfmodel = true → existDL1 perfmodel = true → existUL2 perfmodel = true →
  geom_ok (il1 perfmodel) → geom_ok (dl1 perfmodel) → geom_ok (ul2 perfmodel) →
  ∃ h' s, cachesim_initialize jb js junk perfmodel h = Some (h', s) ∧
    hier_ex h (geom_of (il1 perfmodel)) (geom_of (dl1 perfmodel)) (geom_of (ul2 perfmodel))
      h' s (Hist [] [] []).
Proof.
  intros Hok Ei Ed E2 Gi Gd G2. unfold cachesim_initialize. rewrite Ei, Ed, E2.
  edestruct (slot_init jb js h junk "il1" (il1 perfmodel)) as (h1 & c1 & X1 & He1 & S1 & G1 & M1); [done..|].
  rewrite He1. csimpl.
  edestruct (slot_init jb js h1 junk "dl1" (dl1 perfmodel)) as (h2 & c2 & X2 & He2 & S2 & G2' & M2);
    [apply G1|done|]. rewrite He2. csimpl.
  edestruct (slot_init jb js h2 junk "ul2" (ul2 perfmodel)) as (h3 & c3 & X3 & He3 & S3 & G3 & M3);
    [apply G2'|done|]. rewrite He3. csimpl.
  pose proof (grown_trans _ _ _ _ _ (grown_ok _ _ _ G1) G2' G3) as G23.
  assert (Hlive : ∀ p, p ∈ X1.*1 → (p < brk h1)%positive).
  { intros p Hp. apply (proj1 (grown_ok _ _ _ G1)), (grown_live _ _ _ G1), Hp. }
  eexists _, _. split; [done|]. exists c1, c2, c3, X1, X2, X3. split; try done; simpl.
  - eapply slot_frame; [exact S1|]. intros p Hp. apply (grown_frame _ _ _ G23).
    intros Hin. apply (grown_new _ _ _ G23) in Hin. apply Hlive in Hp. lia.
  - eapply slot_frame; [exact S2|]. intros p Hp. apply (grown_frame _ _ _ G3).
    intros Hin. apply (grown_new _ _ _ G3) in Hin.
    apply (grown_live _ _ _ G2'), (proj1 (grown_ok _ _ _ G2')) in Hp. lia.
  - by apply (grown_trans _ h1).
  - rewrite (slot_num_access _ _ _ _ _ S3), M1, M2. done.
Qed.


(** C35: the second-level cache is accessed once for every first-level miss, so its access
    counter is the sum of the two first-level miss counters, after any run. *)
Theorem cachesim_ul2_traffic jb js junk junk_miss perfmodel h l :
  heap_ok h → existIL1 perfmodel = true → existDL1 perfmodel = true → existUL2 perfmodel = true →
  geom_ok (il1 perfmodel) → geom_ok (dl1 perfmodel) → geom_ok (ul2 perfmodel) →
  Forall access_ok l → 2 * Z.of_nat (length l) < 2 ^ 64 →
  ∃ h0 s0 ms h1 s1 ci cd,
    cachesim_initialize jb js junk perfmodel h = Some (h0, s0) ∧
    cachesim_run perfmodel junk_miss h0 s0 l = Some (ms, h1, s1) ∧
    il1_cache s1 = Some ci ∧ dl1_cache s1 = Some cd ∧
    cachesim_ul2_num_access s1 = num_miss ci + num_miss cd ∧
    cachesim_il1_num_access s1 + cachesim_dl1_num_access s1 = Z.of_nat (length l).
Proof.
  intros Hok Ei Ed E2 Gi Gd G2 Hl Hn.
  destruct (hier_init jb js junk perfmodel h Hok Ei Ed E2 Gi Gd G2) as (h0 & s0 & He0 & Hex0).
  edestruct (hier_run _ _ _ _ perfmodel junk_miss l h0 s0 _ Hex0 Hl Hn)
    as (h1 & s1 & He1 & (ci & cd & c2 & Xi & Xd & X2 & [-> Hi Hd H2 Hg Hm])).
  eexists h0, s0, _, h1, _, ci, cd. split_and!; try done. unfold cachesim_il1_num_access, cachesim_dl1_num_access.
  simpl. rewrite (slot_num_access _ _ _ _ _ Hi), (slot_num_access _ _ _ _ _ Hd). clear -l.
  generalize (geom_of (il1 perfmodel)) (geom_of (dl1 perfmodel)) (geom_of (ul2 perfmodel)). intros gi gd g2.
  enough (∀ H, Z.of_nat (length (hist_i (spec_run gi gd g2 H l).2)) +
    Z.of_nat (length (hist_d (spec_run gi gd g2 H l).2)) =
    Z.of_nat (length (hist_i H)) + Z.of_nat (length (hist_d H)) + Z.of_nat (length l)) as -> by done.
  induction l as [|a l IH]; intros H; simpl; [lia|].
  destruct (spec_access gi gd g2 H a) as [m H1] eqn:E. specialize (IH H1).
  destruct (spec_run gi gd g2 H1 l) as [ms H2]. simpl in *. rewrite IH.
  destruct a; simpl in E; simplify_eq; simpl; lia.
Qed.

(** ** A small hierarchy *)

Definition w_cc (sets ways lat : Z) : cache_config :=
  {| perfect := 0; num_set := sets; size_blk := 64; cc_assoc := ways;
     replacement_policy := []; cc_latency := lat |}.
Definition w_perfmodel : perfmodel_config :=
  set_ul2 (w_cc 4 2 10) (set_dl1 (w_cc 2 1 2) (set_il1 (w_cc 2 1 2) perfmodel0)).
Definition w_accesses : list access :=
  [IFetch 0 4096 0 0; IFetch 1 4100 0 0; DAccess 1 8192 false 0 0; IFetch 2 8200 0 0; IFetch 3 4096 0 0].

Lemma w_accesses_ok : Forall access_ok w_accesses.
Proof. repeat constructor; simpl; lia. Qed.

Lemma w_cc_ok sets ways lat : 0 < sets < 2 ^ 20 → 0 < ways → geom_ok (w_cc sets ways lat).
Proof.
  intros [? ?] ?. unfold geom_ok. simpl. split_and!; try lia. change (Z.log2 64) with 6.
  assert (Z.log2 sets < 20) by (apply Z.log2_lt_pow2; lia). lia.
Qed.


Lemma cachesim_ul2_traffic_witness : ∃ h0 s0 ms h1 s1 ci cd,
  cachesim_initialize w_blk w_set w_cache w_perfmodel w_heap = Some (h0, s0) ∧
  cachesim_run w_perfmodel L1Hit h0 s0 w_accesses = Some (ms, h1, s1) ∧
  il1_cache s1 = Some ci ∧ dl1_cache s1 = Some cd ∧
  cachesim_ul2_num_access s1 = num_miss ci + num_miss cd ∧
  cachesim_il1_num_access s1 + cachesim_dl1_num_access s1 = 5.
Proof.
  apply (cachesim_ul2_traffic w_blk w_set w_cache L1Hit w_perfmodel w_heap w_accesses);
    [apply w_heap_ok|done|done|done|by apply w_cc_ok..|apply w_accesses_ok|done].
Defined.
