(* ===== verification/Bpred.v ===== *)
(** Branch prediction: the saturating counters of hsim-stub/sat_counter.c, the bi-mode
    predictor of bpred_bimod.c, its driver bpredsim.c, and the two-bit local predictor of
    bpred_2bit_local.c. *)

From Stdlib Require Import ZArith Lia.
From stdpp Require Import base tactics option list.
From S2P Require Import Prelude.

(** ** Saturating counters (sat_counter.c) *)

Record SatCounter := { initialVal : Z; maxVal : Z; counter : Z }.

Definition set_counter v c := {| initialVal := initialVal c; maxVal := maxVal c; counter := v |}.

Definition init_counter (initial_val bits : Z) : SatCounter :=
  {| initialVal := initial_val; maxVal := u8 ((1 .<< bits) - 1); counter := initial_val |}.
Definition reset_counter (c : SatCounter) : SatCounter := set_counter (initialVal c) c.
Definition increment_counter (c : SatCounter) : SatCounter :=
  if counter c <? maxVal c then set_counter (u8 (counter c + 1)) c else c.
Definition decrement_counter (c : SatCounter) : SatCounter :=
  if 0 <? counter c then set_counter (u8 (counter c - 1)) c else c.
Definition read_counter (c : SatCounter) : Z := counter c.

(** [f (&a[i])]: the counter at [i] is replaced. *)
Definition upd_counter (f : SatCounter → SatCounter) (a : list SatCounter) (i : Z)
  : option (list SatCounter) :=
  c ← arr_get a i; arr_set a i (f c).

(** ** The bi-mode predictor (bpred_bimod.c) *)

Record BPHistory := {
  hist_globalHistoryReg : Z;
  takenUsed : bool;
  takenPred : bool;
  notTakenPred : bool;
  finalPred : bool;
  hist_valid : bool;
}.

Record bpred_t := {
  choiceCounters : list SatCounter;
  takenCounters : list SatCounter;
  notTakenCounters : list SatCounter;
  globalHistoryReg : Z;
  globalHistoryBits : Z;
  historyRegisterMask : Z;
  choicePredictorSize : Z;
  choiceCtrBits : Z;
  choiceHistoryMask : Z;
  globalPredictorSize : Z;
  globalCtrBits : Z;
  globalHistoryMask : Z;
  choiceThreshold : Z;
  takenThreshold : Z;
  notTakenThreshold : Z;
  num_lookup : Z;
  num_miss : Z;
  instShiftAmt : Z;
}.

(** The state with its tables, history and statistics replaced. *)
Definition with_state (choice taken notTaken : list SatCounter) (hist lookups misses : Z)
  (p : bpred_t) : bpred_t :=
  {| choiceCounters := choice; takenCounters := taken; notTakenCounters := notTaken;
     globalHistoryReg := hist; globalHistoryBits := globalHistoryBits p;
     historyRegisterMask := historyRegisterMask p; choicePredictorSize := choicePredictorSize p;
     choiceCtrBits := choiceCtrBits p; choiceHistoryMask := choiceHistoryMask p;
     globalPredictorSize := globalPredictorSize p; globalCtrBits := globalCtrBits p;
     globalHistoryMask := globalHistoryMask p; choiceThreshold := choiceThreshold p;
     takenThreshold := takenThreshold p; notTakenThreshold := notTakenThreshold p;
     num_lookup := lookups; num_miss := misses; instShiftAmt := instShiftAmt p |}.

Definition set_choice a p := with_state a (takenCounters p) (notTakenCounters p)
  (globalHistoryReg p) (num_lookup p) (num_miss p) p.
Definition set_taken a p := with_state (choiceCounters p) a (notTakenCounters p)
  (globalHistoryReg p) (num_lookup p) (num_miss p) p.
Definition set_notTaken a p := with_state (choiceCounters p) (takenCounters p) a
  (globalHistoryReg p) (num_lookup p) (num_miss p) p.
Definition set_hist v p := with_state (choiceCounters p) (takenCounters p) (notTakenCounters p)
  v (num_lookup p) (num_miss p) p.
Definition set_lookups v p := with_state (choiceCounters p) (takenCounters p) (notTakenCounters p)
  (globalHistoryReg p) v (num_miss p) p.
Definition set_misses v p := with_state (choiceCounters p) (takenCounters p) (notTakenCounters p)
  (globalHistoryReg p) (num_lookup p) v p.

Definition invalidate (h : BPHistory) : BPHistory :=
  {| hist_globalHistoryReg := hist_globalHistoryReg h; takenUsed := takenUsed h;
     takenPred := takenPred h; notTakenPred := notTakenPred h; finalPred := finalPred h;
     hist_valid := false |}.

Section Create.
(** [1ULL << nbits] for a shift count outside [0, 63], which C leaves undefined. *)
Variable wide_shift : Z → Z.

Definition mask (nbits : Z) : Z :=
  if nbits =? 64 then u64 (-1)
  else u64 ((if (0 <=? nbits) && (nbits <? 64) then 1 .<< nbits else wide_shift nbits) - 1).

Definition bpred_create (_instShiftAmt _globalPredictorSize _choicePredictorSize _choiceCtrBits
  _globalCtrBits : Z) : bpred_t :=
  let threshold := u32 (u64 ((1 .<< (_choiceCtrBits - 1)) - 1)) in
  let table n bits := replicate (Z.to_nat n) (init_counter 0 bits) in
  {| instShiftAmt := _instShiftAmt;
     globalHistoryReg := 0;
     globalHistoryBits := _globalPredictorSize;
     choicePredictorSize := _choicePredictorSize;
     choiceCtrBits := _choiceCtrBits;
     globalPredictorSize := _globalPredictorSize;
     globalCtrBits := _globalCtrBits;
     choiceCounters := table _choicePredictorSize _choiceCtrBits;
     takenCounters := table _globalPredictorSize _globalCtrBits;
     notTakenCounters := table _globalPredictorSize _globalCtrBits;
     num_lookup := 0;
     num_miss := 0;
     historyRegisterMask := u32 (mask _globalPredictorSize);
     choiceHistoryMask := u32 (_choicePredictorSize - 1);
     globalHistoryMask := u32 (_globalPredictorSize - 1);
     choiceThreshold := threshold;
     takenThreshold := threshold;
     notTakenThreshold := threshold |}.
End Create.

Definition bpred_updateGlobalHistReg (pred : bpred_t) (taken : bool) : bpred_t :=
  let r := if taken then u32 (globalHistoryReg pred .<< 1) .| 1 else u32 (globalHistoryReg pred .<< 1) in
  set_hist (r .& historyRegisterMask pred) pred.

Definition bpred_uncondBranch (pred : bpred_t) : bpred_t * BPHistory :=
  (bpred_updateGlobalHistReg pred true,
   {| hist_globalHistoryReg := globalHistoryReg pred; takenUsed := true; takenPred := true;
      notTakenPred := true; finalPred := true; hist_valid := true |}).

Definition bpred_squash (pred : bpred_t) (history : BPHistory) : bpred_t * BPHistory :=
  (set_hist (hist_globalHistoryReg history) pred, invalidate history).

(** The entries a branch at [branchAddr] uses when the history register holds [hist]. *)
Definition choiceHistoryIdx (pred : bpred_t) (branchAddr : Z) : Z :=
  (branchAddr .>> instShiftAmt pred) .& choiceHistoryMask pred.
Definition globalHistoryIdx (pred : bpred_t) (branchAddr hist : Z) : Z :=
  ((branchAddr .>> instShiftAmt pred) .^ hist) .& globalHistoryMask pred.

Definition bpred_lookup (pred : bpred_t) (branchAddr : Z) : option (bool * bpred_t * BPHistory) :=
  let choiceIdx := choiceHistoryIdx pred branchAddr in
  let globalIdx := globalHistoryIdx pred branchAddr (globalHistoryReg pred) in
  c ← arr_get (choiceCounters pred) choiceIdx;
  let choicePrediction := choiceThreshold pred <? read_counter c in
  t ← arr_get (takenCounters pred) globalIdx;
  let takenGHBPrediction := takenThreshold pred <? read_counter t in
  n ← arr_get (notTakenCounters pred) globalIdx;
  let notTakenGHBPrediction := notTakenThreshold pred <? read_counter n in
  let finalPrediction := if choicePrediction then takenGHBPrediction else notTakenGHBPrediction in
  let history := {| hist_globalHistoryReg := globalHistoryReg pred;
                    takenUsed := choicePrediction;
                    takenPred := takenGHBPrediction;
                    notTakenPred := notTakenGHBPrediction;
                    finalPred := finalPrediction;
                    hist_valid := true |} in
  Some (finalPrediction, bpred_updateGlobalHistReg pred finalPrediction, history).

Definition bpred_btbUpdate (pred : bpred_t) : bpred_t :=
  set_hist (globalHistoryReg pred .& (historyRegisterMask pred .& u32 (Z.lnot 1))) pred.

(** A counter moves towards the outcome. *)
Definition train (taken : bool) : SatCounter → SatCounter :=
  if taken then increment_counter else decrement_counter.

Definition bpred_update (pred : bpred_t) (branchAddr : Z) (taken : bool) (history : BPHistory)
  (squashed : bool) : option (bpred_t * BPHistory) :=
  if hist_valid history then
    let choiceIdx := choiceHistoryIdx pred branchAddr in
    let globalIdx := globalHistoryIdx pred branchAddr (hist_globalHistoryReg history) in
    pred ← (if takenUsed history then
              a ← upd_counter (train taken) (takenCounters pred) globalIdx; Some (set_taken a pred)
            else
              a ← upd_counter (train taken) (notTakenCounters pred) globalIdx;
              Some (set_notTaken a pred));
    pred ← (if eqb (finalPred history) taken then
              if eqb (finalPred history) (takenUsed history) then
                a ← upd_counter (train taken) (choiceCounters pred) choiceIdx;
                Some (set_choice a pred)
              else Some pred
            else
              a ← upd_counter (train taken) (choiceCounters pred) choiceIdx;
              Some (set_choice a pred));
    if squashed then
      let r := if taken then u32 (hist_globalHistoryReg history .<< 1) .| 1
               else u32 (hist_globalHistoryReg history .<< 1) in
      Some (set_hist (r .& historyRegisterMask pred) pred, history)
    else Some (pred, invalidate history)
  else Some (pred, history).

Definition bpred_retireSquashed (history : BPHistory) : BPHistory := invalidate history.

(** ** The driver (bpredsim.c) *)

Definition bpredsim_initialize (wide_shift : Z → Z) : bpred_t :=
  bpred_create wide_shift 2 4096 4096 2 2.

(** [sizeof(uint32_t)] is a [size_t], so the sum does not wrap at 32 bits. *)
Definition actual_taken (cur_PC next_PC : Z) : bool := negb (next_PC =? cur_PC + 4).

Definition bpredsim_access (pred : bpred_t) (cur_PC next_PC : Z) (is_cond : bool)
  : option (bool * bpred_t) :=
  let pred := set_lookups (u32 (num_lookup pred + 1)) pred in
  if is_cond then
    '(pred_taken, pred, hist) ← bpred_lookup pred cur_PC;
    let taken := actual_taken cur_PC next_PC in
    let pred := if eqb pred_taken taken then pred
                else set_misses (u32 (num_miss pred + 1)) pred in
    '(pred, _) ← bpred_update pred cur_PC taken hist (negb (eqb pred_taken taken));
    Some (eqb pred_taken taken, pred)
  else
    '(pred_taken, pred, _) ← bpred_lookup pred cur_PC;
    let taken := actual_taken cur_PC next_PC in
    let '(pred, hist) := bpred_uncondBranch pred in
    '(pred, _) ← bpred_update pred cur_PC taken hist (negb (eqb pred_taken taken));
    Some (true, pred).

Definition bpredsim_num_mispred (pred : bpred_t) : Z := s32 (num_miss pred).

(** ** The two-bit local predictor (bpred_2bit_local.c) *)

Module Local.
Record bpred_t := {
  localPredictorSize : Z;
  localPredictorSets : Z;
  localCtrBits : Z;
  instShiftAmt : Z;
  indexMask : Z;
  localCtrs : list SatCounter;
  num_lookup : Z;
  num_miss : Z;
}.

Definition set_ctrs a p :=
  {| localPredictorSize := localPredictorSize p; localPredictorSets := localPredictorSets p;
     localCtrBits := localCtrBits p; instShiftAmt := instShiftAmt p; indexMask := indexMask p;
     localCtrs := a; num_lookup := num_lookup p; num_miss := num_miss p |}.

Definition bpred_create (_localPredictorSize _localCtrBits _instShiftAmt : Z) : option bpred_t :=
  if _localCtrBits =? 0 then None
  else
    let sets := _localPredictorSize / _localCtrBits in
    Some {| localPredictorSize := _localPredictorSize; localCtrBits := _localCtrBits;
            instShiftAmt := _instShiftAmt; localPredictorSets := sets;
            indexMask := u32 (sets - 1);
            localCtrs := replicate (Z.to_nat sets) (init_counter (u8 (_localCtrBits / 2)) _localCtrBits);
            num_lookup := 0; num_miss := 0 |}.

Definition bpred_reset (pred : bpred_t) : bpred_t := set_ctrs (reset_counter <$> localCtrs pred) pred.

Definition BIMOD_HASH (addr : Z) : Z := ((addr .>> 19) .^ (addr .>> 2)) .& (2048 - 1).

Definition bpred_getLocalIndex (branch_addr : Z) : Z := BIMOD_HASH branch_addr.

Definition bpred_getPrediction (pred : bpred_t) (count : Z) : Z := count .>> (localCtrBits pred - 1).

Definition bpred_lookup (pred : bpred_t) (branch_addr : Z) : option Z :=
  c ← arr_get (localCtrs pred) (bpred_getLocalIndex branch_addr);
  Some (bpred_getPrediction pred (read_counter c)).

Definition bpred_update (pred : bpred_t) (branch_addr : Z) (taken : bool) : option bpred_t :=
  a ← upd_counter (train taken) (localCtrs pred) (bpred_getLocalIndex branch_addr);
  Some (set_ctrs a pred).
End Local.
