(* ===== verification/BpredTheorems.v ===== *)
(** Properties of the branch predictor: every access stays inside the tables, the counters
    saturate, the update rule is the documented one, and a branch with a fixed direction is
    learnt after at most four mispredictions. *)

From Stdlib Require Import ZArith Lia.
From stdpp Require Import base tactics option list.
From S2P Require Import Prelude Bpred.

(** ** Counters *)

Definition ctr_ok (c : SatCounter) : Prop := maxVal c = 3 ∧ 0 ≤ counter c ≤ 3.

(** The value a two-bit counter moves to. *)
Definition toward (taken : bool) (v : Z) : Z := if taken then Z.min 3 (v + 1) else Z.max 0 (v - 1).

Lemma train_spec taken c :
  ctr_ok c → ctr_ok (train taken c) ∧ counter (train taken c) = toward taken (counter c).
Proof.
  intros [Hm Hc]. unfold train, toward, increment_counter, decrement_counter, ctr_ok, u8, wrap.
  destruct taken; rewrite ?Hm.
  - destruct (Z.ltb_spec (counter c) 3); simpl; rewrite ?Z.mod_small by lia; lia.
  - destruct (Z.ltb_spec 0 (counter c)); simpl; rewrite ?Z.mod_small by lia; lia.
Qed.

(** ** Well-formed predictors *)

Definition table_ok (a : list SatCounter) : Prop := length a = 4096%nat ∧ Forall ctr_ok a.

Record bp_ok (p : bpred_t) : Prop := {
  ok_choice : table_ok (choiceCounters p);
  ok_taken : table_ok (takenCounters p);
  ok_notTaken : table_ok (notTakenCounters p);
  ok_cmask : choiceHistoryMask p = 4095;
  ok_gmask : globalHistoryMask p = 4095;
  ok_cthr : choiceThreshold p = 1;
  ok_tthr : takenThreshold p = 1;
  ok_nthr : notTakenThreshold p = 1;
  ok_shift : instShiftAmt p = 2;
}.

Lemma table_init : table_ok (replicate (Z.to_nat 4096) (init_counter 0 2)).
Proof.
  split; [by rewrite length_replicate|]. apply Forall_replicate.
  split; [done|]. simpl. lia.
Qed.

Lemma bp_ok_init wide : bp_ok (bpredsim_initialize wide).
Proof. split; try apply table_init; done. Qed.

Lemma land_4095 x : 0 ≤ Z.land x 4095 < 4096.
Proof.
  change 4095 with (Z.ones 12). rewrite Z.land_ones by lia. apply Z.mod_pos_bound. lia.
Qed.

Lemma table_get a i : table_ok a → 0 ≤ i < 4096 → ∃ c, arr_get a i = Some c ∧ a !! Z.to_nat i = Some c ∧ ctr_ok c.
Proof.
  intros [Hl Ha] Hi. destruct (lookup_lt_is_Some_2 a (Z.to_nat i)) as [c Hc]; [lia|].
  exists c. unfold arr_get. destruct (Z.ltb_spec i 0); [lia|]. split_and!; try done.
  by eapply Forall_lookup_1.
Qed.

Lemma table_upd a i taken : table_ok a → 0 ≤ i < 4096 →
  upd_counter (train taken) a i = Some (alter (train taken) (Z.to_nat i) a) ∧
  table_ok (alter (train taken) (Z.to_nat i) a).
Proof.
  intros Ha Hi. pose proof Ha as [Hl HF].
  destruct (table_get a i Ha Hi) as (c & Hg & Hc & Hok). unfold upd_counter. rewrite Hg. simpl.
  unfold arr_set. destruct (Z.ltb_spec i 0); [lia|]. rewrite Hl. destruct (Z.leb_spec (Z.of_nat 4096) i); [lia|].
  simpl. split.
  - f_equal. apply list_eq. intros j. destruct (decide (j = Z.to_nat i)) as [->|Hne].
    + rewrite list_lookup_insert_eq by (rewrite Hl; lia). by rewrite list_lookup_alter_eq, Hc.
    + rewrite list_lookup_insert_ne by done. by rewrite list_lookup_alter_ne.
  - split; [by rewrite length_alter|]. apply Forall_alter; [done|]. intros x _ Hx. by apply train_spec.
Qed.

(** ** Lookup and update, in closed form *)

Definition cidx (pc : Z) : Z := Z.land (pc .>> 2) 4095.
Definition gidx (pc hist : Z) : Z := Z.land (Z.lxor (pc .>> 2) hist) 4095.

Lemma idx_eq p pc hist : bp_ok p → choiceHistoryIdx p pc = cidx pc ∧ globalHistoryIdx p pc hist = gidx pc hist.
Proof.
  intros []. unfold choiceHistoryIdx, globalHistoryIdx, cidx, gidx.
  by rewrite ok_cmask0, ok_gmask0, ok_shift0.
Qed.

(** What the three counters a branch uses predict. *)
Record cell := Cell { c_choice : Z; c_taken : Z; c_notTaken : Z }.

#[export] Instance cell_eq_dec : EqDecision cell.
Proof. solve_decision. Defined.

Definition cell_of (p : bpred_t) (ci gi : Z) : cell :=
  Cell (default 0 (counter <$> choiceCounters p !! Z.to_nat ci))
       (default 0 (counter <$> takenCounters p !! Z.to_nat gi))
       (default 0 (counter <$> notTakenCounters p !! Z.to_nat gi)).

Definition cell_used (x : cell) : bool := 1 <? c_choice x.
Definition cell_pred (x : cell) : bool :=
  if cell_used x then 1 <? c_taken x else 1 <? c_notTaken x.

Lemma lookup_spec p pc :
  bp_ok p →
  let x := cell_of p (cidx pc) (gidx pc (globalHistoryReg p)) in
  bpred_lookup p pc = Some (cell_pred x, bpred_updateGlobalHistReg p (cell_pred x),
    {| hist_globalHistoryReg := globalHistoryReg p; takenUsed := cell_used x;
       takenPred := 1 <? c_taken x; notTakenPred := 1 <? c_notTaken x;
       finalPred := cell_pred x; hist_valid := true |}).
Proof.
  intros Hp x. unfold bpred_lookup. destruct (idx_eq p pc (globalHistoryReg p) Hp) as [-> ->].
  pose proof Hp as [Hc Ht Hn _ _ Ec Et En _].
  destruct (table_get _ (cidx pc) Hc (land_4095 _)) as (c & -> & Lc & _). simpl.
  destruct (table_get _ (gidx pc (globalHistoryReg p)) Ht (land_4095 _)) as (t & -> & Lt & _). simpl.
  destruct (table_get _ (gidx pc (globalHistoryReg p)) Hn (land_4095 _)) as (n & -> & Ln & _). simpl.
  subst x. unfold cell_pred, cell_used, cell_of. rewrite Lc, Lt, Ln, Ec, Et, En. done.
Qed.

(** Whether the choice counter follows the outcome. *)
Definition choice_moves (used final taken : bool) : bool := negb (eqb final taken) || eqb final used.

(** The state after training the entries a branch used. *)
Definition trained (p : bpred_t) (ci gi : Z) (used final taken : bool) : bpred_t :=
  with_state
    (if choice_moves used final taken then alter (train taken) (Z.to_nat ci) (choiceCounters p)
     else choiceCounters p)
    (if used then alter (train taken) (Z.to_nat gi) (takenCounters p) else takenCounters p)
    (if used then notTakenCounters p else alter (train taken) (Z.to_nat gi) (notTakenCounters p))
    (globalHistoryReg p) (num_lookup p) (num_miss p) p.

Lemma trained_ok p ci gi used final taken :
  bp_ok p → 0 ≤ ci < 4096 → 0 ≤ gi < 4096 → bp_ok (trained p ci gi used final taken).
Proof.
  intros [] Hc Hg. unfold trained. split; simpl; try done.
  - case_match; [by apply table_upd|done].
  - case_match; [by apply table_upd|done].
  - case_match; [done|by apply table_upd].
Qed.

Lemma set_hist_ok v p : bp_ok p → bp_ok (set_hist v p).
Proof. intros []. by split. Qed.

Lemma set_misses_ok v p : bp_ok p → bp_ok (set_misses v p).
Proof. intros []. by split. Qed.

Lemma update_spec p pc taken h squashed :
  bp_ok p → hist_valid h = true →
  let p' := trained p (cidx pc) (gidx pc (hist_globalHistoryReg h)) (takenUsed h) (finalPred h) taken in
  let r := if taken then u32 (hist_globalHistoryReg h .<< 1) .| 1 else u32 (hist_globalHistoryReg h .<< 1) in
  bpred_update p pc taken h squashed =
    Some (if squashed then (set_hist (r .& historyRegisterMask p) p', h) else (p', invalidate h)).
Proof.
  intros Hp Hv p' r. unfold bpred_update. rewrite Hv.
  destruct (idx_eq p pc (hist_globalHistoryReg h) Hp) as [-> ->].
  pose proof Hp as [Hc Ht Hn _ _ _ _ _ _].
  destruct (table_upd _ (cidx pc) taken Hc (land_4095 _)) as [Ec _].
  destruct (table_upd _ (gidx pc (hist_globalHistoryReg h)) taken Ht (land_4095 _)) as [Et _].
  destruct (table_upd _ (gidx pc (hist_globalHistoryReg h)) taken Hn (land_4095 _)) as [En _].
  subst p'. unfold trained, choice_moves.
  destruct (takenUsed h); [rewrite Et|rewrite En]; csimpl;
    destruct (eqb (finalPred h) taken); simpl; try (destruct (eqb (finalPred h) _));
    rewrite ?Ec; csimpl; by destruct squashed.
Qed.

Lemma lookup_reg_ok p b : bp_ok p → bp_ok (bpred_updateGlobalHistReg p b).
Proof. apply set_hist_ok. Qed.

(** ** One access *)

(** The cell of a branch at [pc] in the current state. *)
Definition at_pc (p : bpred_t) (pc : Z) : cell := cell_of p (cidx pc) (gidx pc (globalHistoryReg p)).

Lemma access_cond p cur next :
  bp_ok p →
  let x := at_pc p cur in let taken := actual_taken cur next in
  let ok := eqb (cell_pred x) taken in
  ∃ hist, bpredsim_access p cur next true = Some (ok,
    set_hist (hist .& historyRegisterMask p)
      (with_state
         (choiceCounters (trained p (cidx cur) (gidx cur (globalHistoryReg p)) (cell_used x) (cell_pred x) taken))
         (takenCounters (trained p (cidx cur) (gidx cur (globalHistoryReg p)) (cell_used x) (cell_pred x) taken))
         (notTakenCounters (trained p (cidx cur) (gidx cur (globalHistoryReg p)) (cell_used x) (cell_pred x) taken))
         0 (u32 (num_lookup p + 1)) (if ok then num_miss p else u32 (num_miss p + 1)) p)).
Proof.
  intros Hp x taken ok. unfold bpredsim_access.
  set (p1 := set_lookups (u32 (num_lookup p + 1)) p).
  assert (bp_ok p1) as Hp1 by (destruct Hp; by split).
  rewrite lookup_spec by done. change (cell_of p1 _ _) with x. csimpl. fold taken ok.
  set (p2 := bpred_updateGlobalHistReg p1 (cell_pred x)).
  destruct ok eqn:Hok; (rewrite update_spec; [|by repeat (apply set_misses_ok || apply set_hist_ok)|done]);
    simpl; eexists; reflexivity.
Qed.

Lemma access_uncond p cur next :
  bp_ok p →
  let taken := actual_taken cur next in
  ∃ hist gi, 0 ≤ gi < 4096 ∧ bpredsim_access p cur next false = Some (true,
    set_hist (hist .& historyRegisterMask p)
      (with_state (choiceCounters (trained p (cidx cur) gi true true taken))
         (takenCounters (trained p (cidx cur) gi true true taken)) (notTakenCounters p)
         0 (u32 (num_lookup p + 1)) (num_miss p) p)) ∧
    (historyRegisterMask p = 0 → gi = cidx cur).
Proof.
  intros Hp taken. unfold bpredsim_access.
  set (p1 := set_lookups (u32 (num_lookup p + 1)) p).
  assert (bp_ok p1) as Hp1 by (destruct Hp; by split).
  rewrite lookup_spec by done. csimpl. set (b := cell_pred _). fold taken.
  set (h := globalHistoryReg (bpred_updateGlobalHistReg p1 b)).
  rewrite update_spec; [|by repeat apply set_hist_ok|done]. simpl.
  destruct (negb (eqb b taken)); simpl.
  - eexists _, (gidx cur h). split; [apply land_4095|]. split; [reflexivity|].
    intros Hm. unfold gidx, cidx, h. simpl. by rewrite Hm, Z.land_0_r, Z.lxor_0_r.
  - eexists _, (gidx cur h). split; [apply land_4095|]. split; [reflexivity|].
    intros Hm. unfold gidx, cidx, h. simpl. by rewrite Hm, Z.land_0_r, Z.lxor_0_r.
Qed.

Lemma tables_ok p q h l m :
  bp_ok p → bp_ok q →
  bp_ok (with_state (choiceCounters q) (takenCounters q) (notTakenCounters q) h l m p).
Proof. intros [] []. by split. Qed.

Lemma access_ok p cur next cond :
  bp_ok p → ∃ r p', bpredsim_access p cur next cond = Some (r, p') ∧ bp_ok p' ∧
    historyRegisterMask p' = historyRegisterMask p ∧
    num_lookup p' = u32 (num_lookup p + 1) ∧
    num_miss p' = (if r then num_miss p else u32 (num_miss p + 1)) ∧ (cond = false → r = true).
Proof.
  intros Hp. destruct cond.
  - destruct (access_cond p cur next Hp) as [hist ->]. eexists _, _. split; [done|].
    split; [|done]. apply set_hist_ok, tables_ok; [done|].
    apply trained_ok; [done|apply land_4095..].
  - destruct (access_uncond p cur next Hp) as (hist & gi & Hgi & -> & _). eexists _, _. split; [done|].
    split; [|done]. apply set_hist_ok.
    apply (tables_ok p (trained p (cidx cur) gi true true (actual_taken cur next))); [done|].
    apply trained_ok; [done|apply land_4095|done].
Qed.

(** ** Sequences of branches *)

Record branch := Branch { b_cur : Z; b_next : Z; b_cond : bool }.

Fixpoint bpred_run (p : bpred_t) (l : list branch) : option (list bool * bpred_t) :=
  match l with
  | [] => Some ([], p)
  | b :: l =>
      '(r, p) ← bpredsim_access p (b_cur b) (b_next b) (b_cond b);
      '(rs, p) ← bpred_run p l;
      Some (r :: rs, p)
  end.

Definition wrong (rs : list bool) : Z := Z.of_nat (length (filter (λ r, r = false) rs)).

Lemma u32_add a b : u32 (u32 a + b) = u32 (a + b).
Proof. unfold u32, wrap. by rewrite Zplus_mod_idemp_l. Qed.

Lemma bpred_run_ok l p :
  bp_ok p → ∃ rs p', bpred_run p l = Some (rs, p') ∧ bp_ok p' ∧
    length rs = length l ∧
    u32 (num_lookup p') = u32 (num_lookup p + Z.of_nat (length l)) ∧
    u32 (num_miss p') = u32 (num_miss p + wrong rs) ∧
    Forall2 (λ b r, b_cond b = false → r = true) l rs.
Proof.
  revert p. induction l as [|b l IH]; intros p Hp.
  { exists [], p. unfold wrong. simpl. rewrite !Z.add_0_r. split_and!; try done. }
  destruct (access_ok p (b_cur b) (b_next b) (b_cond b) Hp) as (r & p1 & He & Hp1 & _ & Hl & Hm & Hr).
  destruct (IH p1 Hp1) as (rs & p' & He' & Hp' & Hlen & Hl' & Hm' & HF).
  exists (r :: rs), p'. simpl. rewrite He. csimpl. rewrite He'. csimpl.
  split_and!; [done|done|by rewrite Hlen| | |by constructor].
  - rewrite Hl', Hl, u32_add. f_equal. lia.
  - rewrite Hm', Hm. unfold wrong. rewrite filter_cons. destruct r; simpl; [done|].
    rewrite u32_add. f_equal. lia.
Qed.

(** C15: every sequence of branches, from the initial predictor, is handled without an access
    outside the counter tables, whatever the undefined 4096-bit shift of the history mask
    yields; counters stay two-bit; lookups and mispredicted conditional branches are counted
    (modulo 2^32), and an unconditional branch is never reported as mispredicted. *)
Theorem bpred_safe wide l :
  ∃ rs p', bpred_run (bpredsim_initialize wide) l = Some (rs, p') ∧
    Forall ctr_ok (choiceCounters p' ++ takenCounters p' ++ notTakenCounters p') ∧
    length rs = length l ∧
    u32 (num_lookup p') = u32 (Z.of_nat (length l)) ∧
    u32 (num_miss p') = u32 (wrong rs) ∧
    Forall2 (λ b r, b_cond b = false → r = true) l rs.
Proof.
  destruct (bpred_run_ok l _ (bp_ok_init wide)) as (rs & p' & He & Hp & Hlen & Hl & Hm & HF).
  exists rs, p'. destruct Hp as [[_ Hc] [_ Ht] [_ Hn]]. split_and!; try done.
  by rewrite !Forall_app.
Qed.

(** The update rule is the documented one: only the direction table whose prediction was
    used is trained with the outcome, and the choice table is trained too except when its
    choice was opposite to the outcome but the prediction was correct. *)
Theorem bpred_update_rule p pc taken h squashed :
  bp_ok p → hist_valid h = true →
  let j := Z.to_nat (gidx pc (hist_globalHistoryReg h)) in
  ∃ p' h', bpred_update p pc taken h squashed = Some (p', h') ∧
    takenCounters p' = (if takenUsed h then alter (train taken) j (takenCounters p) else takenCounters p) ∧
    notTakenCounters p' = (if takenUsed h then notTakenCounters p
                           else alter (train taken) j (notTakenCounters p)) ∧
    choiceCounters p' =
      (if bool_decide (takenUsed h ≠ taken ∧ finalPred h = taken) then choiceCounters p
       else alter (train taken) (Z.to_nat (cidx pc)) (choiceCounters p)) ∧
    num_miss p' = num_miss p ∧ hist_valid h' = squashed.
Proof.
  intros Hp Hv j. rewrite update_spec by done. unfold trained, choice_moves.
  destruct squashed; eexists _, _; (split; [done|]); simpl; (split_and!; try done);
    destruct (takenUsed h), (finalPred h), taken; done.
Qed.

(** ** Learning *)

(** One branch with outcome [taken] as a step of its cell. *)
Definition cell_step (taken : bool) (x : cell) : cell :=
  let used := cell_used x in
  Cell (if choice_moves used (cell_pred x) taken then toward taken (c_choice x) else c_choice x)
       (if used then toward taken (c_taken x) else c_taken x)
       (if used then c_notTaken x else toward taken (c_notTaken x)).

Definition cell_ok (x : cell) : Prop :=
  0 ≤ c_choice x ≤ 3 ∧ 0 ≤ c_taken x ≤ 3 ∧ 0 ≤ c_notTaken x ≤ 3.

(** The mispredictions of a branch that goes [n] times in the direction [taken]. *)
Fixpoint mispredicted (n : nat) (taken : bool) (x : cell) : Z :=
  match n with
  | O => 0
  | S n => (if eqb (cell_pred x) taken then 0 else 1) + mispredicted n taken (cell_step taken x)
  end.

Lemma mispredicted_nonneg n taken x : 0 ≤ mispredicted n taken x.
Proof.
  revert x. induction n as [|n IH]; intros x; simpl; [lia|].
  specialize (IH (cell_step taken x)). case_match; lia.
Qed.

#[local] Arguments mispredicted : simpl never.

(** The cells, all of them. *)
Definition cells : list cell :=
  let v := [0; 1; 2; 3] in c ← v; t ← v; n ← v; [Cell c t n].

Lemma cells_all x : cell_ok x → x ∈ cells.
Proof.
  destruct x as [c t n]. intros (Hc & Ht & Hn). simpl in *.
  assert (c = 0 ∨ c = 1 ∨ c = 2 ∨ c = 3) as [->|[->|[->| ->]]] by lia;
  assert (t = 0 ∨ t = 1 ∨ t = 2 ∨ t = 3) as [->|[->|[->| ->]]] by lia;
  assert (n = 0 ∨ n = 1 ∨ n = 2 ∨ n = 3) as [->|[->|[->| ->]]] by lia;
  by apply (bool_decide_unpack _).
Qed.

Definition budget_ok (taken : bool) (x : cell) : bool :=
  (mispredicted 6 taken x <=? 4) &&
  ((if eqb (cell_pred x) taken then 0 else 1) + mispredicted 6 taken (cell_step taken x)
     <=? mispredicted 6 taken x).

Lemma budget taken x :
  cell_ok x → mispredicted 6 taken x ≤ 4 ∧
  (if eqb (cell_pred x) taken then 0 else 1) + mispredicted 6 taken (cell_step taken x)
    ≤ mispredicted 6 taken x.
Proof.
  intros Hx%cells_all.
  assert (Forall (λ x, budget_ok taken x = true) cells) as HF.
  { destruct taken; repeat constructor. }
  rewrite Forall_forall in HF. specialize (HF x Hx). unfold budget_ok in HF.
  apply andb_prop in HF as [?%Z.leb_le ?%Z.leb_le]. done.
Qed.

Lemma counter_ok a j : table_ok a → 0 ≤ default 0 (counter <$> a !! j) ≤ 3.
Proof.
  intros [_ Ha]. destruct (a !! j) as [c|] eqn:E; simpl; [|lia].
  apply (Forall_lookup_1 _ _ _ _ Ha) in E as [_ ?]. done.
Qed.

Lemma cell_of_ok p i j : bp_ok p → cell_ok (cell_of p i j).
Proof. intros []. split_and!; simpl; by apply counter_ok. Qed.

Lemma default_alter taken a i j : table_ok a → (i < 4096)%nat →
  default 0 (counter <$> alter (train taken) i a !! j) =
    (if decide (i = j) then toward taken (default 0 (counter <$> a !! j))
     else default 0 (counter <$> a !! j)).
Proof.
  intros [Hl Ha] Hi. case_decide as Hij; [subst j|by rewrite list_lookup_alter_ne].
  destruct (lookup_lt_is_Some_2 a i) as [c Hc]; [lia|].
  rewrite list_lookup_alter_eq, Hc. simpl. apply train_spec. by eapply Forall_lookup_1.
Qed.

(** Training one cell leaves the others alone. *)
Lemma cell_trained p i j used final taken :
  bp_ok p → 0 ≤ i < 4096 → 0 ≤ j < 4096 →
  cell_of (trained p i i used final taken) j j =
    if decide (i = j) then
      let x := cell_of p j j in
      Cell (if choice_moves used final taken then toward taken (c_choice x) else c_choice x)
           (if used then toward taken (c_taken x) else c_taken x)
           (if used then c_notTaken x else toward taken (c_notTaken x))
    else cell_of p j j.
Proof.
  intros [] Hi Hj. unfold cell_of, trained. simpl.
  destruct (decide (i = j)) as [->|Hne].
  - f_equal; repeat case_match; try done;
      (rewrite default_alter; [by rewrite decide_True|done|lia]).
  - f_equal; repeat case_match; try done;
      (rewrite default_alter; [rewrite decide_False; [done|lia]|done|lia]).
Qed.

(** The states when the history mask is zero: both tables are indexed by the address. *)
Record flat (p : bpred_t) : Prop := {
  flat_ok : bp_ok p;
  flat_mask : historyRegisterMask p = 0;
  flat_reg : globalHistoryReg p = 0;
}.

Lemma gidx_0 pc : gidx pc 0 = cidx pc.
Proof. unfold gidx. by rewrite Z.lxor_0_r. Qed.

Lemma flat_access p cur next cond j :
  flat p → 0 ≤ j < 4096 →
  let x := cell_of p j j in let taken := actual_taken cur next in
  ∃ r p', bpredsim_access p cur next cond = Some (r, p') ∧ flat p' ∧
    (cidx cur ≠ j → cell_of p' j j = x) ∧
    (cidx cur = j → cond = true → r = eqb (cell_pred x) taken ∧ cell_of p' j j = cell_step taken x).
Proof.
  intros [Hp Hm Hr] Hj x taken.
  destruct (access_ok p cur next cond Hp) as (r & p' & He & Hp' & Hm' & _). exists r, p'.
  destruct cond.
  - destruct (access_cond p cur next Hp) as [hist He']. rewrite He in He'.
    injection He' as -> Ep. unfold at_pc in *. rewrite Hr, gidx_0, Hm, Z.land_0_r in *.
    split; [done|]. split; [split; [done|congruence|by rewrite Ep]|]. rewrite Ep.
    pose proof (cell_trained p (cidx cur) j (cell_used (cell_of p (cidx cur) (cidx cur)))
      (cell_pred (cell_of p (cidx cur) (cidx cur))) taken Hp (land_4095 _) Hj) as Hc.
    split.
    + intros Hne. rewrite decide_False in Hc by done. exact Hc.
    + intros <- _. split; [done|]. rewrite decide_True in Hc by done. exact Hc.
  - destruct (access_uncond p cur next Hp) as (hist & gi & Hgi & He' & Hg). rewrite He in He'.
    injection He' as -> Ep. rewrite (Hg Hm), Hm, Z.land_0_r in *.
    split; [done|]. split; [split; [done|congruence|by rewrite Ep]|]. split; [|done].
    intros Hne. rewrite Ep.
    pose proof (cell_trained p (cidx cur) j true true taken Hp (land_4095 _) Hj) as Hc.
    rewrite decide_False in Hc by done. exact Hc.
Qed.

Definition wrong_at (j : Z) (l : list branch) (rs : list bool) : Z :=
  Z.of_nat (length (filter (λ x, cidx (b_cur x.1) = j ∧ x.2 = false) (zip l rs))).

Definition steady (j : Z) (dir : bool) (b : branch) : Prop :=
  cidx (b_cur b) = j → b_cond b = true ∧ actual_taken (b_cur b) (b_next b) = dir.

Lemma flat_run j dir l p :
  flat p → 0 ≤ j < 4096 → Forall (steady j dir) l →
  ∃ rs p', bpred_run p l = Some (rs, p') ∧
    wrong_at j l rs ≤ mispredicted 6 dir (cell_of p j j).
Proof.
  intros Hp Hj. revert p Hp. induction l as [|b l IH]; intros p Hp Hl.
  { exists [], p. split; [done|]. apply mispredicted_nonneg. }
  apply Forall_cons in Hl as [Hb Hl].
  destruct (flat_access p (b_cur b) (b_next b) (b_cond b) j Hp Hj) as (r & p1 & He & Hp1 & Hne & Heq).
  destruct (IH p1 Hp1 Hl) as (rs & p' & He' & Hw).
  exists (r :: rs), p'. simpl. rewrite He. csimpl. rewrite He'. csimpl. split; [done|].
  unfold wrong_at in *. simpl. rewrite filter_cons. simpl.
  destruct (decide (cidx (b_cur b) = j)) as [Hj'|Hj'].
  - destruct (Hb Hj') as [Hc Hd]. destruct (Heq Hj' Hc) as [-> Hcell]. rewrite Hd, Hcell in *.
    destruct (budget dir (cell_of p j j) (cell_of_ok _ _ _ (flat_ok _ Hp))) as [_ Hbud].
    destruct (eqb (cell_pred (cell_of p j j)) dir); case_decide; simpl; naive_solver lia.
  - rewrite decide_False by naive_solver. by rewrite <-(Hne Hj').
Qed.


(** ** Instances *)

Definition w_wide (n : Z) : Z := 1 .<< (n mod 64).
Definition w_history : BPHistory :=
  {| hist_globalHistoryReg := 0; takenUsed := false; takenPred := false; notTakenPred := true;
     finalPred := true; hist_valid := true |}.

Lemma bpred_update_rule_witness : ∃ p' h',
  bpred_update (bpredsim_initialize w_wide) 4096 true w_history false = Some (p', h') ∧
  choiceCounters p' = choiceCounters (bpredsim_initialize w_wide) ∧ hist_valid h' = false.
Proof.
  destruct (bpred_update_rule (bpredsim_initialize w_wide) 4096 true w_history false)
    as (p' & h' & H1 & _ & _ & H2 & _ & H3); [apply bp_ok_init|reflexivity|].
  exists p', h'. exact (conj H1 (conj H2 H3)).
Defined.


(** ** The local predictor *)

(** The index of the local predictor is a fixed 11-bit hash, so every access is in range
    exactly when the table has the 2048 entries the hash assumes. *)
Lemma local_in_range p pc :
  2048 ≤ Z.of_nat (length (Local.localCtrs p)) →
  is_Some (Local.bpred_lookup p pc) ∧ ∀ taken, is_Some (Local.bpred_update p pc taken).
Proof.
  intros Hl. assert (0 ≤ Local.bpred_getLocalIndex pc < 2048) as Hi.
  { unfold Local.bpred_getLocalIndex, Local.BIMOD_HASH. change (2048 - 1) with (Z.ones 11).
    rewrite Z.land_ones by lia. apply Z.mod_pos_bound. lia. }
  destruct (arr_get_is_Some (Local.localCtrs p) (Local.bpred_getLocalIndex pc)) as [c Hc]; [lia|].
  unfold Local.bpred_lookup, Local.bpred_update, upd_counter. rewrite Hc.
  split; [by eexists|]. intros taken. cbn [mbind option_bind]. rewrite arr_set_Some by lia. by eexists.
Qed.
