(* ===== verification/InstQueue.v ===== *)
(** The instruction queues of trace_analyzer/inst_queue.c: doubly linked lists of elements
    that point to instructions, and the pool the elements come from. *)

From Stdlib Require Import ZArith Lia.
From stdpp Require Import base tactics functions option list gmap.
From S2P Require Import Prelude DList.

(** ** Data (inst_queue.h) *)

Record InstElem := {
  elem_inst : option ptr;
  prev_inst_elem : option ptr;
  next_inst_elem : option ptr;
}.

Record InstQueue := {
  oldest_inst_elem : option ptr;
  newest_inst_elem : option ptr;
  queue_size : Z;
  capacity : Z;
}.

(** The queues of the program: the element pool, the trace buffer, and the issue, load,
    store and functional-unit queues of the pipeline. *)
Inductive qid := POOL | TRACE | IQ | LDQ | STQ | FUB.

#[export] Instance qid_eq_dec : EqDecision qid.
Proof. solve_decision. Defined.

(** The memory the queues live in: the elements, the queues, the next fresh address. *)
Record QMem := {
  elems : gmap ptr InstElem;
  queues : qid → InstQueue;
  qbrk : ptr;
}.

Definition set_elem_inst v e :=
  {| elem_inst := v; prev_inst_elem := prev_inst_elem e; next_inst_elem := next_inst_elem e |}.
Definition set_elem_prev v e :=
  {| elem_inst := elem_inst e; prev_inst_elem := v; next_inst_elem := next_inst_elem e |}.
Definition set_elem_next v e :=
  {| elem_inst := elem_inst e; prev_inst_elem := prev_inst_elem e; next_inst_elem := v |}.
Definition set_oldest v q :=
  {| oldest_inst_elem := v; newest_inst_elem := newest_inst_elem q; queue_size := queue_size q;
     capacity := capacity q |}.
Definition set_newest v q :=
  {| oldest_inst_elem := oldest_inst_elem q; newest_inst_elem := v; queue_size := queue_size q;
     capacity := capacity q |}.
Definition set_size v q :=
  {| oldest_inst_elem := oldest_inst_elem q; newest_inst_elem := newest_inst_elem q;
     queue_size := v; capacity := capacity q |}.

Definition with_elems (e : gmap ptr InstElem) (m : QMem) : QMem :=
  {| elems := e; queues := queues m; qbrk := qbrk m |}.
Definition upd_queue (q : qid) (f : InstQueue → InstQueue) (m : QMem) : QMem :=
  {| elems := elems m; queues := <[q := f (queues m q)]> (queues m); qbrk := qbrk m |}.

#[export] Program Instance elem_dnode : DNode InstElem (option ptr) := {
  nprev := prev_inst_elem;
  nnext := next_inst_elem;
  ndata := elem_inst;
  set_nprev := set_elem_prev;
  set_nnext := set_elem_next;
}.
Solve All Obligations with done.

(** ** Operations *)

Definition inst_elem_pool_size : Z := 5000.

Definition null_elem : InstElem :=
  {| elem_inst := None; prev_inst_elem := None; next_inst_elem := None |}.

(** [malloc (sizeof (InstElem))]; every use overwrites all three fields at once. *)
Definition malloc_elem (m : QMem) : QMem * ptr :=
  ({| elems := <[qbrk m := null_elem]> (elems m); queues := queues m;
      qbrk := Pos.succ (qbrk m) |}, qbrk m).

Definition free_elem (m : QMem) (e : ptr) : option QMem :=
  _ ← elems m !! e; Some (with_elems (delete e (elems m)) m).

Definition init_inst_elem (m : QMem) (elem : ptr) (inst : option ptr) : option QMem :=
  h ← upd (elems m) elem (set_elem_inst inst);
  h ← upd h elem (set_elem_next None);
  h ← upd h elem (set_elem_prev None);
  Some (with_elems h m).

Definition init_inst_queue (m : QMem) (q : qid) (initial_capacity : Z) : QMem :=
  upd_queue q (λ _, {| oldest_inst_elem := None; newest_inst_elem := None; queue_size := 0;
                       capacity := initial_capacity |}) m.

Definition has_room (Q : InstQueue) : bool :=
  (capacity Q =? 0) || (queue_size Q <? capacity Q).

Definition push_back_inst_elem (m : QMem) (q : qid) (elem : ptr) : option (QMem * option ptr) :=
  let Q := queues m q in
  if has_room Q then
    h ← upd (elems m) elem (set_elem_next None);
    h ← upd h elem (set_elem_prev (newest_inst_elem Q));
    m ← (if 0 <? queue_size Q then
           n ← newest_inst_elem Q;
           h ← upd h n (set_elem_next (Some elem));
           Some (with_elems h m)
         else Some (upd_queue q (set_oldest (Some elem)) (with_elems h m)));
    let m := upd_queue q (set_newest (Some elem)) m in
    let m := upd_queue q (set_size (queue_size (queues m q) + 1)) m in
    Some (m, Some elem)
  else Some (m, None).

Definition is_full_queue (Q : InstQueue) : bool :=
  if capacity Q =? 0 then false else capacity Q <=? queue_size Q.

Definition is_empty_queue (Q : InstQueue) : bool := queue_size Q =? 0.

Definition get_current_queue_size (Q : InstQueue) : Z := queue_size Q.

Definition front_inst_elem (Q : InstQueue) : option ptr := oldest_inst_elem Q.

Definition remove_from_list (m : QMem) (q : qid) (cur : ptr) (push_back_inst_elem_pool : bool)
  : option QMem :=
  c ← elems m !! cur;
  h ← upd_opt (elems m) (next_inst_elem c) (set_elem_prev (prev_inst_elem c));
  c ← h !! cur;
  h ← upd_opt h (prev_inst_elem c) (set_elem_next (next_inst_elem c));
  c ← h !! cur;
  let m := with_elems h m in
  let m := if decide (oldest_inst_elem (queues m q) = Some cur)
           then upd_queue q (set_oldest (next_inst_elem c)) m else m in
  let m := if decide (newest_inst_elem (queues m q) = Some cur)
           then upd_queue q (set_newest (prev_inst_elem c)) m else m in
  h ← upd (elems m) cur (set_elem_next None);
  h ← upd h cur (set_elem_prev None);
  let m := with_elems h m in
  m ← (if push_back_inst_elem_pool then
         if is_full_queue (queues m POOL) then
           '(m, _) ← push_back_inst_elem m POOL cur; Some m
         else free_elem m cur
       else Some m);
  Some (upd_queue q (λ Q, set_size (queue_size Q - 1) Q) m).

Definition get_inst_elem_from_pool (m : QMem) : option (QMem * ptr) :=
  '(m, e) ← match oldest_inst_elem (queues m POOL) with
    | Some e => m ← remove_from_list m POOL e false; Some (m, e)
    | None => Some (malloc_elem m)
    end;
  m ← init_inst_elem m e None;
  Some (m, e).

Definition push_back_inst (m : QMem) (q : qid) (inst : ptr) : option (QMem * option ptr) :=
  if has_room (queues m q) then
    '(m, elem) ← get_inst_elem_from_pool m;
    h ← upd (elems m) elem (set_elem_inst (Some inst));
    h ← upd h elem (set_elem_next None);
    h ← upd h elem (set_elem_prev (newest_inst_elem (queues m q)));
    '(m, _) ← push_back_inst_elem (with_elems h m) q elem;
    Some (m, Some elem)
  else Some (m, None).

Definition push_front_inst (m : QMem) (q : qid) (inst : ptr) : option QMem :=
  '(m, elem) ← get_inst_elem_from_pool m;
  h ← upd (elems m) elem (set_elem_inst (Some inst));
  let m := with_elems h m in
  let Q := queues m q in
  if has_room Q then
    h ← upd (elems m) elem (set_elem_next (oldest_inst_elem Q));
    h ← upd h elem (set_elem_prev None);
    m ← (if 0 <? queue_size Q then
           o ← oldest_inst_elem Q;
           h ← upd h o (set_elem_prev (Some elem));
           Some (with_elems h m)
         else Some (upd_queue q (set_oldest (Some elem)) (with_elems h m)));
    let m := upd_queue q (set_oldest (Some elem)) m in
    Some (upd_queue q (λ Q, set_size (queue_size Q + 1) Q) m)
  else Some m.

Definition pop_front_inst_elem (m : QMem) (q : qid) : option (QMem * option ptr) :=
  match oldest_inst_elem (queues m q) with
  | Some cur => m ← remove_from_list m q cur true; Some (m, Some cur)
  | None => Some (m, None)
  end.

Definition pop_front_inst (m : QMem) (q : qid) : option (QMem * option ptr) :=
  match oldest_inst_elem (queues m q) with
  | Some cur =>
      c ← elems m !! cur;
      m ← remove_from_list m q cur true;
      Some (m, elem_inst c)
  | None => Some (m, None)
  end.

(** The loop of [destroy_all_inst_elem_from_queue]; the list pointers stay dangling. *)
Fixpoint destroy_loop (fuel : nat) (m : QMem) (q : qid) (elem : option ptr) : option QMem :=
  match elem with
  | None => Some m
  | Some e =>
      match fuel with
      | O => None
      | S fuel =>
          c ← elems m !! e;
          m ← free_elem m e;
          destroy_loop fuel (upd_queue q (λ Q, set_size (queue_size Q - 1) Q) m) q (next_inst_elem c)
      end
  end.

Definition destroy_all_inst_elem_from_queue (m : QMem) (q : qid) : option QMem :=
  destroy_loop (size (elems m)) m q (oldest_inst_elem (queues m q)).

Definition destroy_inst_elem_pool (m : QMem) : option QMem := destroy_all_inst_elem_from_queue m POOL.

Definition init_inst_elem_pool (m : QMem) : option QMem :=
  for_lt inst_elem_pool_size (λ _ m,
    let '(m, e) := malloc_elem m in
    m ← init_inst_elem m e None;
    '(m, _) ← push_back_inst_elem m POOL e;
    Some m) (init_inst_queue m POOL inst_elem_pool_size).
