(* ===== verification/InstQueueRep.v ===== *)
(** What the instruction queues promise: an abstract view (one list per queue) and what
    each operation does to it, as an interface the pipeline is verified against, and the
    proof that the linked lists implement it. *)

From Stdlib Require Import ZArith Lia.
From stdpp Require Import base tactics functions option list gmap.
From S2P Require Import Prelude DList InstQueue.

(** The contents of the queues: each element with the instruction it points to. *)
Abbreviation view := (qid → list (ptr * option ptr)).

(** [T q]: the [newest_inst_elem] pointer of [q] is known to be right.  It is not after
    [push_front_inst] on an empty queue, which leaves it null. *)
Abbreviation tails := (qid → bool).

Definition same_caps (m m' : QMem) : Prop :=
  ∀ q, capacity (queues m' q) = capacity (queues m q).

Definition room (m : QMem) (q : qid) (l : list (ptr * option ptr)) : Prop :=
  capacity (queues m q) = 0 ∨ Z.of_nat (length l) < capacity (queues m q).

(** ** The interface *)

Class QueueLaws (QV : QMem → view → tails → Prop) : Prop := {
  law_front m V T q : QV m V T → oldest_inst_elem (queues m q) = first_ptr (V q) None;
  law_newest m V T q : QV m V T → T q = true → newest_inst_elem (queues m q) = last_ptr None (V q);
  law_size m V T q : QV m V T → queue_size (queues m q) = Z.of_nat (length (V q));
  law_node m V T q xs x ys : QV m V T → V q = xs ++ x :: ys →
    ∃ n, elems m !! x.1 = Some n ∧ elem_inst n = x.2 ∧ next_inst_elem n = first_ptr ys None;
  law_nodup m V T q : QV m V T → NoDup (V q).*1;
  law_weaken m V T q : QV m V T → QV m V (<[q := false]> T);
  law_empty m V T q : QV m V T → V q = [] → QV m V (<[q := true]> T);
  law_remove m V T q xs x ys pb : QV m V T → V q = xs ++ x :: ys →
    ∃ m', remove_from_list m q x.1 pb = Some m' ∧ QV m' (<[q := xs ++ ys]> V) T ∧ same_caps m m';
  law_push_back m V T q i : QV m V T → q ≠ POOL → T q = true → room m q (V q) →
    ∃ m' e, push_back_inst m q i = Some (m', Some e) ∧
      QV m' (<[q := V q ++ [(e, Some i)]]> (<[POOL := tail (V POOL)]> V)) T ∧
      same_caps m m' ∧ (∀ q', q' ≠ POOL → ¬ e ∈ (V q').*1);
  law_push_front m V T q i : QV m V T → q ≠ POOL → room m q (V q) →
    ∃ m' e, push_front_inst m q i = Some m' ∧
      QV m' (<[q := (e, Some i) :: V q]> (<[POOL := tail (V POOL)]> V)) (<[q := false]> T) ∧
      same_caps m m';
}.

Section Laws.
Context {QV : QMem → view → tails → Prop} {QL : QueueLaws QV}.

Lemma law_pop m V T q x xs :
  QV m V T → V q = x :: xs →
  ∃ m', pop_front_inst m q = Some (m', x.2) ∧ QV m' (<[q := xs]> V) T ∧ same_caps m m'.
Proof.
  intros HQ HV. unfold pop_front_inst. rewrite (law_front _ _ _ q HQ), HV. simpl.
  destruct (law_node _ _ _ q [] x xs HQ HV) as (n & Hn & Hi & _). rewrite Hn. csimpl.
  destruct (law_remove _ _ _ q [] x xs true HQ HV) as (m' & He & HQ' & Hc).
  rewrite He. csimpl. rewrite Hi. by exists m'.
Qed.

Lemma law_full m V T q :
  QV m V T → is_full_queue (queues m q) = false → room m q (V q).
Proof.
  intros HQ. unfold is_full_queue, room. pose proof (law_size _ _ _ q HQ).
  destruct (Z.eqb_spec (capacity (queues m q)) 0); [by left|]. intros ?%Z.leb_gt. right. lia.
Qed.
End Laws.

Lemma same_caps_trans m1 m2 m3 : same_caps m1 m2 → same_caps m2 m3 → same_caps m1 m3.
Proof. intros H1 H2 q. by rewrite H2, H1. Qed.

Lemma same_caps_room m m' q l : same_caps m m' → room m q l → room m' q l.
Proof. unfold room. intros Hc. by rewrite Hc. Qed.

(** Fixed capacities can be added to any implementation, since no operation changes them. *)
Definition capped (QV : QMem → view → tails → Prop) (caps : qid → Z) (m : QMem) (V : view) (T : tails) : Prop :=
  QV m V T ∧ ∀ q, capacity (queues m q) = caps q.

#[export] Instance capped_laws QV caps : QueueLaws QV → QueueLaws (capped QV caps).
Proof.
  intros QL. split.
  - intros m V T q [HQ _]. by apply (law_front m V T q).
  - intros m V T q [HQ _]. by apply (law_newest m V T q).
  - intros m V T q [HQ _]. by apply (law_size m V T q).
  - intros m V T q xs x ys [HQ _]. by apply (law_node m V T q).
  - intros m V T q [HQ _]. by apply (law_nodup m V T q).
  - intros m V T q [HQ Hc]. split; [by apply law_weaken|done].
  - intros m V T q [HQ Hc] HV. split; [by apply law_empty|done].
  - intros m V T q xs x ys pb [HQ Hc] HV. destruct (law_remove m V T q xs x ys pb HQ HV) as (m' & ? & ? & Hs).
    exists m'. split_and!; try done. split; [done|]. intros q'. by rewrite Hs.
  - intros m V T q i [HQ Hc] Hq HT Hr. destruct (law_push_back m V T q i HQ Hq HT Hr) as (m' & e & ? & ? & Hs & ?).
    exists m', e. split_and!; try done. split; [done|]. intros q'. by rewrite Hs.
  - intros m V T q i [HQ Hc] Hq Hr. destruct (law_push_front m V T q i HQ Hq Hr) as (m' & e & ? & ? & Hs).
    exists m', e. split_and!; try done. split; [done|]. intros q'. by rewrite Hs.
Qed.

(** ** The implementation *)

Record QV (m : QMem) (V : view) (T : tails) : Prop := {
  qv_old q : oldest_inst_elem (queues m q) = first_ptr (V q) None;
  qv_new q : newest_inst_elem (queues m q) = last_ptr None (V q) ∨
             (T q = false ∧ newest_inst_elem (queues m q) = None);
  qv_size q : queue_size (queues m q) = Z.of_nat (length (V q));
  qv_seg q : dseg (elems m) None (V q) None;
  qv_nodup q : NoDup (V q).*1;
  qv_disj q q' p : q ≠ q' → p ∈ (V q).*1 → ¬ p ∈ (V q').*1;
  qv_brk p : p ∈ dom (elems m) → (p < qbrk m)%positive;
}.

Lemma fn_insert_same {A} (f : qid → A) q v : (<[q := v]> f) q = v.
Proof. apply fn_lookup_insert. Qed.

Lemma fn_insert_other {A} (f : qid → A) q q' v : q ≠ q' → (<[q := v]> f) q' = f q'.
Proof. intros. by apply fn_lookup_insert_ne. Qed.

(** Replacing the list of one queue, when only its nodes were written. *)
Lemma QV_set m V T m' q l T' :
  QV m V T →
  (∀ q', q' ≠ q → queues m' q' = queues m q') →
  oldest_inst_elem (queues m' q) = first_ptr l None →
  (newest_inst_elem (queues m' q) = last_ptr None l ∨
    (T' q = false ∧ newest_inst_elem (queues m' q) = None)) →
  (∀ q', q' ≠ q → T' q' = T q') →
  queue_size (queues m' q) = Z.of_nat (length l) →
  dseg (elems m') None l None → NoDup l.*1 →
  (∀ q' p, q' ≠ q → p ∈ (V q').*1 → ¬ p ∈ l.*1 ∧ elems m' !! p = elems m !! p) →
  (∀ p, p ∈ dom (elems m') → (p < qbrk m')%positive) →
  QV m' (<[q := l]> V) T'.
Proof.
  intros [] Hq Ho Hn HT Hs Hseg Hnd Hfr Hb. constructor; try done; intros q'.
  - destruct (decide (q' = q)) as [->|Hne]; [by rewrite fn_insert_same|].
    rewrite fn_insert_other, Hq by done. auto.
  - destruct (decide (q' = q)) as [->|Hne]; [by rewrite fn_insert_same|].
    rewrite fn_insert_other, Hq, HT by done. auto.
  - destruct (decide (q' = q)) as [->|Hne]; [by rewrite fn_insert_same|].
    rewrite fn_insert_other, Hq by done. auto.
  - destruct (decide (q' = q)) as [->|Hne]; [by rewrite fn_insert_same|].
    rewrite fn_insert_other by done. eapply dseg_frame; [|apply qv_seg0].
    intros p Hp. by apply (Hfr q').
  - destruct (decide (q' = q)) as [->|Hne]; [by rewrite fn_insert_same|].
    rewrite fn_insert_other by done. auto.
  - intros q'' p Hqq. destruct (decide (q' = q)) as [->|Hne], (decide (q'' = q)) as [->|Hne'];
      rewrite ?fn_insert_same, ?fn_insert_other by done.
    + done.
    + intros Hp Hp'. by destruct (Hfr q'' p Hne' Hp').
    + intros Hp. by destruct (Hfr q' p Hne Hp).
    + eauto.
Qed.

Lemma full_no_room Q : is_full_queue Q = true → has_room Q = false.
Proof.
  unfold is_full_queue, has_room. destruct (Z.eqb_spec (capacity Q) 0); [done|].
  intros ?%Z.leb_le. simpl. apply Z.ltb_ge. lia.
Qed.

Definition cleared (c : InstElem) : InstElem := set_elem_prev None (set_elem_next None c).

(** [remove_from_list] once the two neighbours are relinked: the queue's own pointers, the
    element's links, and the element's return to the allocator.  The pool never takes it
    back: it is asked only when it is full. *)
Lemma remove_raw m q cur c h1 h2 pb :
  elems m !! cur = Some c →
  upd_opt (elems m) (next_inst_elem c) (set_elem_prev (prev_inst_elem c)) = Some h1 →
  h1 !! cur = Some c →
  upd_opt h1 (prev_inst_elem c) (set_elem_next (next_inst_elem c)) = Some h2 →
  h2 !! cur = Some c →
  ∃ m', remove_from_list m q cur pb = Some m' ∧
    (∀ q', q' ≠ q → queues m' q' = queues m q') ∧
    oldest_inst_elem (queues m' q) =
      (if decide (oldest_inst_elem (queues m q) = Some cur) then next_inst_elem c
       else oldest_inst_elem (queues m q)) ∧
    newest_inst_elem (queues m' q) =
      (if decide (newest_inst_elem (queues m q) = Some cur) then prev_inst_elem c
       else newest_inst_elem (queues m q)) ∧
    queue_size (queues m' q) = queue_size (queues m q) - 1 ∧
    capacity (queues m' q) = capacity (queues m q) ∧
    (∀ p, p ≠ cur → elems m' !! p = h2 !! p) ∧
    (pb = false → elems m' !! cur = Some (cleared c)) ∧
    (∀ p, p ∈ dom (elems m') → p ∈ dom h2) ∧ qbrk m' = qbrk m.
Proof.
  intros Hc H1 Hc1 H2 Hc2. unfold remove_from_list. rewrite Hc. csimpl. rewrite H1. csimpl.
  rewrite Hc1. csimpl. rewrite H2. csimpl. rewrite Hc2. csimpl.
  set (m1 := with_elems h2 m).
  set (m2 := if decide (oldest_inst_elem (queues m q) = Some cur)
             then upd_queue q (set_oldest (next_inst_elem c)) m1 else m1).
  set (m3 := if decide (newest_inst_elem (queues m2 q) = Some cur)
             then upd_queue q (set_newest (prev_inst_elem c)) m2 else m2).
  assert (Hm3 : elems m3 = h2 ∧ qbrk m3 = qbrk m ∧
    (∀ q', q' ≠ q → queues m3 q' = queues m q') ∧
    oldest_inst_elem (queues m3 q) =
      (if decide (oldest_inst_elem (queues m q) = Some cur) then next_inst_elem c
       else oldest_inst_elem (queues m q)) ∧
    newest_inst_elem (queues m3 q) =
      (if decide (newest_inst_elem (queues m q) = Some cur) then prev_inst_elem c
       else newest_inst_elem (queues m q)) ∧
    queue_size (queues m3 q) = queue_size (queues m q) ∧
    capacity (queues m3 q) = capacity (queues m q)).
  { assert (newest_inst_elem (queues m2 q) = newest_inst_elem (queues m q)) as E.
    { subst m2. case_decide; [|done]. simpl. by rewrite fn_insert_same. }
    subst m3. rewrite E. subst m2.
    repeat case_decide; simpl; rewrite ?fn_insert_same; simpl; split_and!; try done;
      rewrite ?fn_insert_same; try done; intros q' Hq'; by rewrite ?fn_insert_other. }
  clearbody m3. clear m1 m2. destruct Hm3 as (E1 & E2 & E3 & E4 & E5 & E6 & E7).
  rewrite E1, (upd_Some _ _ c) by done. csimpl.
  rewrite (upd_Some _ _ (set_elem_next None c)) by by rewrite lookup_insert_eq. csimpl.
  rewrite insert_insert_eq. fold (cleared c).
  set (m4 := with_elems (<[cur:=cleared c]> h2) m3).
  assert (Hd : cur ∈ dom h2) by by eapply elem_of_dom_2.
  assert (∃ m5, (if pb then if is_full_queue (queues m3 POOL)
      then '(m, _) ← push_back_inst_elem m4 POOL cur; Some m else free_elem m4 cur
      else Some m4) = Some m5 ∧ queues m5 = queues m3 ∧ qbrk m5 = qbrk m3 ∧
      (∀ p, p ≠ cur → elems m5 !! p = h2 !! p) ∧ (pb = false → elems m5 !! cur = Some (cleared c)) ∧
      (∀ p, p ∈ dom (elems m5) → p ∈ dom h2)) as (m5 & -> & Q1 & Q2 & Q3 & Q4 & Q5).
  { destruct pb.
    - destruct (is_full_queue (queues m3 POOL)) eqn:Hf.
      + unfold push_back_inst_elem. apply full_no_room in Hf. simpl. rewrite Hf. csimpl.
        exists m4. split_and!; try done; simpl.
        * intros p Hp. by rewrite lookup_insert_ne.
        * intros p. rewrite dom_insert_L. set_solver.
      + unfold free_elem. simpl. rewrite lookup_insert_eq. csimpl.
        eexists. split; [done|]. split_and!; try done; simpl.
        * intros p Hp. by rewrite lookup_delete_ne, lookup_insert_ne.
        * intros p. rewrite dom_delete_L, dom_insert_L. set_solver.
    - exists m4. split_and!; try done; simpl.
      + intros p Hp. by rewrite lookup_insert_ne.
      + intros _. by rewrite lookup_insert_eq.
      + intros p. rewrite dom_insert_L. set_solver. }
  csimpl. eexists. split; [done|]. simpl. rewrite Q1, fn_insert_same. simpl.
  split_and!; try done; [|congruence..].
  intros q' Hq'. rewrite fn_insert_other by done. auto.
Qed.

Lemma oldest_after (xs : list (ptr * option ptr)) x ys :
  NoDup (xs ++ x :: ys).*1 →
  (if decide (first_ptr (xs ++ x :: ys) None = Some x.1) then first_ptr ys None
   else first_ptr (xs ++ x :: ys) None) = first_ptr (xs ++ ys) None.
Proof.
  destruct xs as [|y xs]; simpl; [by rewrite decide_True|]. intros [Hy _]%NoDup_cons.
  rewrite decide_False; [done|]. intros [= Hxy]. apply Hy. rewrite Hxy, fmap_app. set_solver.
Qed.

Lemma newest_after (xs : list (ptr * option ptr)) x ys o (t : bool) :
  NoDup (xs ++ x :: ys).*1 →
  o = last_ptr None (xs ++ x :: ys) ∨ (t = false ∧ o = None) →
  let o' := if decide (o = Some x.1) then last_ptr None xs else o in
  o' = last_ptr None (xs ++ ys) ∨ (t = false ∧ o' = None).
Proof.
  intros Hnd [Ho|[Ht Ho]] o'; subst o'; [|subst o; right; by rewrite decide_False].
  left. rewrite Ho. destruct ys as [|y ys _] using rev_ind.
  - rewrite app_nil_r, last_ptr_snoc, decide_True by done. done.
  - rewrite !app_assoc, last_ptr_snoc, app_comm_cons, app_assoc, last_ptr_snoc.
    rewrite decide_False; [done|]. intros [= Hxy]. rewrite !fmap_app in Hnd. simpl in Hnd.
    apply NoDup_app in Hnd as (_ & _ & [Hx _]%NoDup_cons). apply Hx. rewrite fmap_app. simpl. set_solver.
Qed.

Lemma remove_rep m V T q xs x ys pb :
  QV m V T → V q = xs ++ x :: ys →
  ∃ m', remove_from_list m q x.1 pb = Some m' ∧ QV m' (<[q := xs ++ ys]> V) T ∧ same_caps m m' ∧
    (pb = false → ∃ n, elems m' !! x.1 = Some n) ∧ qbrk m' = qbrk m.
Proof.
  intros HQ HV. pose proof (qv_seg _ _ _ HQ q) as Hs. pose proof (qv_nodup _ _ _ HQ q) as Hnd.
  rewrite HV in Hs, Hnd. destruct (dseg_mid _ _ _ _ _ _ Hs) as (c & Hc & Hp & Hn & _).
  simpl in Hp, Hn.
  destruct (unlink_np _ _ _ _ Hnd Hs) as (h1 & h2 & U1 & U2 & E1 & E2 & Hs2 & Hd & Hf).
  simpl in U1, U2. rewrite <-Hp, <-Hn in U1, U2.
  destruct (remove_raw m q x.1 c h1 h2 pb Hc U1 ltac:(congruence) U2 ltac:(congruence))
    as (m' & He & Q1 & Q2 & Q3 & Q4 & Q5 & Q6 & Q7 & Q8 & Q9).
  pose proof Hnd as Hnd'. apply NoDup_fst_middle in Hnd' as [Hndl Hx].
  exists m'. split; [done|]. split; [|split; [|split; [|done]]].
  - apply (QV_set m V T); try done.
    + rewrite Q2, (qv_old _ _ _ HQ q), HV, Hn. by apply oldest_after.
    + rewrite Q3, Hp. apply newest_after; [done|]. rewrite <-HV. apply (qv_new _ _ _ HQ q).
    + rewrite Q4, (qv_size _ _ _ HQ q), HV, !length_app. simpl. lia.
    + eapply dseg_frame; [|exact Hs2]. intros p Hp'. apply Q6. by intros ->.
    + intros q' p Hq' Hp'. pose proof (qv_disj _ _ _ HQ q' q p Hq' Hp') as Hd'. rewrite HV in Hd'.
      rewrite fmap_app in Hd'. simpl in Hd'. split; [rewrite fmap_app; set_solver|].
      rewrite Q6 by set_solver. apply Hf. rewrite fmap_app. set_solver.
    + intros p Hp'. rewrite Q9. apply (qv_brk _ _ _ HQ). rewrite <-Hd. auto.
  - intros q'. destruct (decide (q' = q)) as [->|Hne]; [done|]. by rewrite Q1.
  - intros Hpb. rewrite Q7 by done. by eexists.
Qed.

(** Writing an element that is in no queue. *)
Lemma QV_write m V T e n n' :
  QV m V T → elems m !! e = Some n → (∀ q, ¬ e ∈ (V q).*1) →
  QV (with_elems (<[e := n']> (elems m)) m) V T.
Proof.
  intros [O1 N1 S1 D1 ND1 DJ1 B1] Hn He. constructor; simpl; try done.
  - intros q. apply dseg_insert_notin; [auto|apply D1].
  - intros p. rewrite dom_insert_L, elem_of_union, elem_of_singleton.
    intros [->|Hp]; apply B1; [|done]. by eapply elem_of_dom_2.
Qed.

(** A fresh or recycled element: in no queue, its links null. *)
Lemma get_elem_rep m V T :
  QV m V T →
  ∃ m' e, get_inst_elem_from_pool m = Some (m', e) ∧ QV m' (<[POOL := tail (V POOL)]> V) T ∧
    same_caps m m' ∧ elems m' !! e = Some null_elem ∧
    ¬ e ∈ (tail (V POOL)).*1 ∧ (∀ q, q ≠ POOL → ¬ e ∈ (V q).*1).
Proof.
  intros HQ. unfold get_inst_elem_from_pool. rewrite (qv_old _ _ _ HQ POOL).
  assert (∃ m1 e n, match first_ptr (V POOL) None with
      | Some e => m ← remove_from_list m POOL e false; Some (m, e)
      | None => Some (malloc_elem m) end = Some (m1, e) ∧
      QV m1 (<[POOL := tail (V POOL)]> V) T ∧ same_caps m m1 ∧ elems m1 !! e = Some n ∧
      ¬ e ∈ (tail (V POOL)).*1 ∧ (∀ q, q ≠ POOL → ¬ e ∈ (V q).*1)) as
    (m1 & e & n & -> & HQ1 & Hc1 & Hn & He1 & He2).
  { destruct (V POOL) as [|x xs] eqn:HV; simpl.
    - assert (Hnew : ∀ q, ¬ qbrk m ∈ (V q).*1).
      { intros q [y [Hy1 Hy]]%list_elem_of_fmap.
        destruct (dseg_elem _ _ _ _ _ (qv_seg _ _ _ HQ q) Hy) as (n & Hn%elem_of_dom_2 & _).
        apply (qv_brk _ _ _ HQ) in Hn. lia. }
      eexists _, (qbrk m), null_elem. split; [done|]. split; [|split; [done|split; [|split]]].
      + apply (QV_set m V T); simpl; try done.
        * by rewrite (qv_old _ _ _ HQ POOL), HV.
        * pose proof (qv_new _ _ _ HQ POOL) as H. by rewrite HV in H.
        * by rewrite (qv_size _ _ _ HQ POOL), HV.
        * constructor.
        * intros q p Hq Hp. split; [set_solver|]. rewrite lookup_insert_ne; [done|].
          intros <-. by apply (Hnew q).
        * intros p. rewrite dom_insert_L, elem_of_union, elem_of_singleton. intros [->|Hp]; [lia|].
          apply (qv_brk _ _ _ HQ) in Hp. lia.
      + simpl. by rewrite lookup_insert_eq.
      + set_solver.
      + intros q _. apply Hnew.
    - destruct (remove_rep m V T POOL [] x xs false HQ HV) as (m1 & -> & HQ1 & Hc1 & Hn & _).
      destruct (Hn eq_refl) as [n Hn']. csimpl. eexists m1, x.1, n. split_and!; try done.
      + pose proof (qv_nodup _ _ _ HQ POOL) as Hnd. rewrite HV in Hnd. csimpl in Hnd.
        by apply NoDup_cons in Hnd as [? _].
      + intros q Hq. apply (qv_disj _ _ _ HQ POOL q); [done|]. rewrite HV. csimpl. set_solver. }
  csimpl. unfold init_inst_elem. rewrite (upd_Some _ _ n) by done. csimpl.
  rewrite (upd_Some _ _ (set_elem_inst None n)) by by rewrite lookup_insert_eq. csimpl.
  rewrite insert_insert_eq.
  rewrite (upd_Some _ _ (set_elem_next None (set_elem_inst None n))) by by rewrite lookup_insert_eq. csimpl.
  rewrite insert_insert_eq. eexists _, e. split; [done|]. simpl. rewrite lookup_insert_eq.
  split; [|split; [|done]]; [|intros q; apply Hc1].
  eapply QV_write; [done|exact Hn|]. intros q. destruct (decide (q = POOL)) as [->|Hq].
  - by rewrite fn_insert_same.
  - rewrite fn_insert_other by done. auto.
Qed.

Lemma room_has_room m V T q : QV m V T → room m q (V q) → has_room (queues m q) = true.
Proof.
  intros HQ. unfold room, has_room. rewrite (qv_size _ _ _ HQ q).
  intros [->|?]; [done|]. apply orb_true_intro. right. by apply Z.ltb_lt.
Qed.

(** Appending an element that is in no queue. *)
Lemma push_elem_rep m V T q e n :
  QV m V T → room m q (V q) → T q = true → elems m !! e = Some n → (∀ q', ¬ e ∈ (V q').*1) →
  ∃ m', push_back_inst_elem m q e = Some (m', Some e) ∧
    QV m' (<[q := V q ++ [(e, elem_inst n)]]> V) T ∧ same_caps m m'.
Proof.
  intros HQ Hroom HT Hn He. unfold push_back_inst_elem. rewrite (room_has_room _ _ _ _ HQ Hroom).
  rewrite (upd_Some _ _ n) by done. csimpl.
  rewrite (upd_Some _ _ (set_elem_next None n)) by by rewrite lookup_insert_eq. csimpl.
  rewrite insert_insert_eq. set (n' := set_elem_prev _ _). set (h := <[e := n']> (elems m)).
  assert (Hnew : newest_inst_elem (queues m q) = last_ptr None (V q)).
  { destruct (qv_new _ _ _ HQ q) as [?|[? _]]; [done|congruence]. }
  destruct (push_back_seg h (V q) e n' (elem_inst n)) as (h' & Hu & Hs & Hd & Hf).
  { apply HQ. }
  { apply He. }
  { apply dseg_insert_notin; [apply He|apply HQ]. }
  { apply lookup_insert_eq. }
  { simpl. by rewrite Hnew. }
  { done. }
  { done. }
  assert (Hstep : ∃ m1, (if 0 <? queue_size (queues m q) then
         n ← newest_inst_elem (queues m q); h ← upd h n (set_elem_next (Some e)); Some (with_elems h m)
       else Some (upd_queue q (set_oldest (Some e)) (with_elems h m))) = Some m1 ∧
       elems m1 = h' ∧ (∀ q', q' ≠ q → queues m1 q' = queues m q') ∧
       oldest_inst_elem (queues m1 q) = first_ptr (V q ++ [(e, elem_inst n)]) None ∧
       queue_size (queues m1 q) = queue_size (queues m q) ∧
       capacity (queues m1 q) = capacity (queues m q) ∧ qbrk m1 = qbrk m).
  { rewrite (qv_size _ _ _ HQ q), Hnew. destruct (V q) as [|x xs _] eqn:HV using rev_ind; simpl.
    - simpl in Hu. simplify_eq. eexists. split; [done|]. simpl. rewrite fn_insert_same. simpl.
      split_and!; try done; [|by rewrite (qv_size _ _ _ HQ q), HV].
      intros q' Hq'. by rewrite fn_insert_other.
    - rewrite length_app. simpl. destruct (Z.ltb_spec 0 (Z.of_nat (length xs + 1))); [|lia].
      rewrite last_ptr_snoc in *. simpl in Hu |- *. rewrite Hu. simpl. eexists. split; [done|]. simpl.
      rewrite (qv_old _ _ _ HQ q), HV. split_and!; try done; [by rewrite !first_ptr_app|].
      by rewrite (qv_size _ _ _ HQ q), HV, length_app. }
  destruct Hstep as (m1 & -> & Eh & Eq & Eo & Es & Ec & Eb). csimpl.
  eexists. split; [done|]. simpl. rewrite !fn_insert_same. simpl. split.
  - apply (QV_set m V T); simpl; rewrite ?fn_insert_same; simpl; try done.
    + intros q' Hq'. rewrite !fn_insert_other by done. auto.
    + left. by rewrite last_ptr_snoc.
    + rewrite Es, (qv_size _ _ _ HQ q), length_app. simpl. lia.
    + by rewrite Eh.
    + rewrite fmap_app. apply NoDup_app. split_and!; [apply HQ| |apply NoDup_singleton].
      intros p Hp. simpl. intros ->%list_elem_of_singleton. by apply (He q).
    + intros q' p Hq' Hp. split.
      * rewrite fmap_app. simpl. intros [Hin|Hin%list_elem_of_singleton]%elem_of_app; [|subst p; by apply (He q')].
        by apply (qv_disj _ _ _ HQ q' q p).
      * rewrite Eh, Hf by by apply (qv_disj _ _ _ HQ q' q p). unfold h.
        rewrite lookup_insert_ne; [done|]. intros <-. by apply (He q').
    + intros p. rewrite Eh, Hd, Eb. unfold h. rewrite dom_insert_L, elem_of_union, elem_of_singleton.
      intros [->|Hp]; apply (qv_brk _ _ _ HQ); [|done]. by eapply elem_of_dom_2.
  - intros q'. simpl. destruct (decide (q' = q)) as [->|Hne].
    + by rewrite !fn_insert_same.
    + by rewrite !fn_insert_other, Eq.
Qed.

Lemma pool_view_notin (V : view) e :
  ¬ e ∈ (tail (V POOL)).*1 → (∀ q, q ≠ POOL → ¬ e ∈ (V q).*1) →
  ∀ q, ¬ e ∈ ((<[POOL := tail (V POOL)]> V) q).*1.
Proof.
  intros Hp Hq q. destruct (decide (q = POOL)) as [->|Hne]; [by rewrite fn_insert_same|].
  rewrite fn_insert_other by done. auto.
Qed.

Lemma push_back_rep m V T q i :
  QV m V T → q ≠ POOL → T q = true → room m q (V q) →
  ∃ m' e, push_back_inst m q i = Some (m', Some e) ∧
    QV m' (<[q := V q ++ [(e, Some i)]]> (<[POOL := tail (V POOL)]> V)) T ∧
    same_caps m m' ∧ (∀ q', q' ≠ POOL → ¬ e ∈ (V q').*1).
Proof.
  intros HQ Hq HT Hroom. unfold push_back_inst. rewrite (room_has_room _ _ _ _ HQ Hroom).
  destruct (get_elem_rep m V T HQ) as (m1 & e & -> & HQ1 & Hc1 & Hn & He1 & He2). csimpl.
  rewrite (upd_Some _ _ null_elem) by done. csimpl.
  rewrite (upd_Some _ _ (set_elem_inst (Some i) null_elem)) by by rewrite lookup_insert_eq. csimpl.
  rewrite insert_insert_eq.
  rewrite (upd_Some _ _ (set_elem_next None (set_elem_inst (Some i) null_elem)))
    by by rewrite lookup_insert_eq. csimpl.
  rewrite insert_insert_eq. set (n := set_elem_prev _ _).
  pose proof (pool_view_notin V e He1 He2) as Hnot.
  eapply (QV_write _ _ _ e _ n) in HQ1; [|done|done].
  destruct (push_elem_rep _ _ _ q e n HQ1) as (m' & -> & HQ2 & Hc2).
  { rewrite fn_insert_other by done. eapply same_caps_room; [|exact Hroom]. intros q'. apply Hc1. }
  { done. }
  { simpl. apply lookup_insert_eq. }
  { done. }
  csimpl. exists m', e. split; [done|]. rewrite fn_insert_other in HQ2 by done. split; [done|].
  split; [|done]. intros q'. rewrite Hc2. apply Hc1.
Qed.

Lemma push_front_rep m V T q i :
  QV m V T → q ≠ POOL → room m q (V q) →
  ∃ m' e, push_front_inst m q i = Some m' ∧
    QV m' (<[q := (e, Some i) :: V q]> (<[POOL := tail (V POOL)]> V)) (<[q := false]> T) ∧
    same_caps m m'.
Proof.
  intros HQ Hq Hroom. unfold push_front_inst.
  destruct (get_elem_rep m V T HQ) as (m1 & e & -> & HQ1 & Hc1 & Hn & He1 & He2). csimpl.
  pose proof (pool_view_notin V e He1 He2) as Hnot. set (V1 := <[POOL := tail (V POOL)]> V) in *.
  assert (HV1 : V1 q = V q) by by (unfold V1; rewrite fn_insert_other).
  rewrite (upd_Some _ _ null_elem) by done. csimpl.
  rewrite (room_has_room m1 V1 T q HQ1) by (rewrite HV1; by eapply same_caps_room).
  rewrite (upd_Some _ _ (set_elem_inst (Some i) null_elem)) by by rewrite lookup_insert_eq. csimpl.
  rewrite insert_insert_eq.
  rewrite (upd_Some _ _ (set_elem_next (oldest_inst_elem (queues m1 q)) (set_elem_inst (Some i) null_elem)))
    by by rewrite lookup_insert_eq. csimpl.
  rewrite insert_insert_eq. set (n := set_elem_prev _ _). set (h := <[e := n]> (elems m1)).
  pose proof HQ1 as [O1 N1 S1 D1 ND1 DJ1 B1].
  destruct (push_front_seg h (V1 q) e n (Some i)) as (h' & Hu & Hs & Hd & Hf).
  { apply ND1. }
  { apply Hnot. }
  { apply dseg_insert_notin; [apply Hnot|apply D1]. }
  { apply lookup_insert_eq. }
  { done. }
  { simpl. apply O1. }
  { done. }
  assert (Hstep : ∃ m2, (if 0 <? queue_size (queues m1 q) then
         o ← oldest_inst_elem (queues m1 q); h ← upd h o (set_elem_prev (Some e));
         Some (with_elems h (with_elems (<[e:=set_elem_inst (Some i) null_elem]> (elems m1)) m1))
       else Some (upd_queue q (set_oldest (Some e)) (with_elems h
         (with_elems (<[e:=set_elem_inst (Some i) null_elem]> (elems m1)) m1)))) = Some m2 ∧
       elems m2 = h' ∧ (∀ q', q' ≠ q → queues m2 q' = queues m1 q') ∧
       newest_inst_elem (queues m2 q) = newest_inst_elem (queues m1 q) ∧
       queue_size (queues m2 q) = queue_size (queues m1 q) ∧
       capacity (queues m2 q) = capacity (queues m1 q) ∧ qbrk m2 = qbrk m1).
  { rewrite (O1 q), (S1 q). destruct (V1 q) as [|x xs] eqn:HV; simpl.
    - simpl in Hu. simplify_eq. eexists. split; [done|]. simpl. rewrite fn_insert_same. simpl.
      split_and!; try done; [|by rewrite (S1 q), HV]. intros q' Hq'. by rewrite fn_insert_other.
    - simpl in Hu. rewrite Hu. simpl. eexists. split; [done|]. simpl. split_and!; try done.
      by rewrite (S1 q), HV. }
  simpl. destruct Hstep as (m2 & -> & Eh & Eq & En & Es & Ec & Eb). csimpl.
  eexists _, e. split; [done|]. simpl. split.
  - rewrite <-HV1. apply (QV_set m1 V1 T); simpl; rewrite ?fn_insert_same; simpl; try done.
    + intros q' Hq'. rewrite !fn_insert_other by done. auto.
    + rewrite En. destruct (N1 q) as [Hnw|[_ Hnw]]; [|by right]. rewrite Hnw.
      destruct (V1 q) as [|x xs] eqn:HV; [by right|]. left. by rewrite !last_ptr_cons.
    + intros q' Hq'. by rewrite fn_insert_other.
    + rewrite Es, (S1 q). lia.
    + by rewrite Eh.
    + apply NoDup_cons. split; [apply Hnot|apply ND1].
    + intros q' p Hq' Hp. split.
      * intros [->|Hin]%elem_of_cons; [by apply (Hnot q')|]. by apply (DJ1 q' q p).
      * rewrite Eh, Hf by by apply (DJ1 q' q p). unfold h.
        rewrite lookup_insert_ne; [done|]. intros <-. by apply (Hnot q').
    + intros p. rewrite Eh, Hd, Eb. unfold h. rewrite dom_insert_L, elem_of_union, elem_of_singleton.
      intros [->|Hp]; apply B1; [|done]. by eapply elem_of_dom_2.
  - intros q'. simpl. destruct (decide (q' = q)) as [->|Hne].
    + rewrite !fn_insert_same. simpl. by rewrite Ec, Hc1.
    + rewrite !fn_insert_other, Eq by done. apply Hc1.
Qed.

#[export] Instance queue_laws : QueueLaws QV.
Proof.
  constructor.
  - intros. by apply qv_old with T.
  - intros m V T q HQ HT. destruct (qv_new _ _ _ HQ q) as [?|[? _]]; [done|congruence].
  - intros. by apply qv_size with T.
  - intros m V T q xs x ys HQ HV. pose proof (qv_seg _ _ _ HQ q) as Hs. rewrite HV in Hs.
    destruct (dseg_mid _ _ _ _ _ _ Hs) as (n & Hn & _ & Hx & Hi). by exists n.
  - intros. by apply qv_nodup with m T.
  - intros m V T q []. constructor; try done. intros q'.
    destruct (decide (q' = q)) as [->|Hne]; [rewrite fn_insert_same|rewrite fn_insert_other by done; auto].
    destruct (qv_new0 q) as [?|[_ ?]]; [by left|by right].
  - intros m V T q [] HV. constructor; try done. intros q'.
    destruct (decide (q' = q)) as [->|Hne]; [rewrite fn_insert_same|rewrite fn_insert_other by done; auto].
    destruct (qv_new0 q) as [?|[_ E]]; [by left|]. left. by rewrite HV, E.
  - intros m V T q xs x ys pb HQ HV. destruct (remove_rep m V T q xs x ys pb HQ HV) as (m' & ? & ? & ? & _).
    by exists m'.
  - intros. by apply push_back_rep.
  - intros. by apply push_front_rep.
Qed.
