(* ===== verification/InstQueueInit.v ===== *)
(** The queues after initialisation. *)

From Stdlib Require Import ZArith Lia.
From stdpp Require Import base tactics functions option list gmap.
From S2P Require Import Prelude DList InstQueue InstQueueRep.

(** Static memory before initialisation: no elements, all members zero. *)
Definition zero_queue : InstQueue :=
  {| oldest_inst_elem := None; newest_inst_elem := None; queue_size := 0; capacity := 0 |}.
Definition zero_queues : QMem := {| elems := ∅; queues := λ _, zero_queue; qbrk := 1 |}.

Lemma zero_queues_rep : QV zero_queues (λ _, []) (λ _, true).
Proof.
  constructor; try done.
  - intros q. by left.
  - intros q. constructor.
  - intros q q' p _ Hp. by apply elem_of_nil in Hp.
Qed.

Lemma init_inst_queue_rep m V T q cap :
  QV m V T →
  QV (init_inst_queue m q cap) (<[q := []]> V) (<[q := true]> T) ∧
  capacity (queues (init_inst_queue m q cap) q) = cap ∧
  (∀ q', q' ≠ q → queues (init_inst_queue m q cap) q' = queues m q').
Proof.
  intros HQ. unfold init_inst_queue, upd_queue. simpl. split; [|split].
  - destruct HQ as [O1 N1 S1 D1 ND1 DJ1 B1].
    assert (Hsub : ∀ q', (<[q := []]> V) q' = V q' ∧ q' ≠ q ∨ (<[q := []]> V) q' = [] ∧ q' = q).
    { intros q'. destruct (decide (q' = q)) as [->|]; [right; by rewrite fn_insert_same|].
      left. by rewrite fn_insert_other. }
    constructor; simpl; try done; intros q'; destruct (Hsub q') as [[-> Hq']|[-> ->]];
      rewrite ?fn_insert_same, ?fn_insert_other by done; try done; try apply O1; try apply N1; try apply S1;
      try apply D1; try apply ND1; try (by left); try (by constructor).
    + intros q'' p Hne Hp. destruct (Hsub q'') as [[-> _]|[-> _]]; [by eapply DJ1|]. apply not_elem_of_nil.
    + intros q'' p _ Hp. by apply elem_of_nil in Hp.
  - by rewrite fn_insert_same.
  - intros q' Hq'. by rewrite fn_insert_other.
Qed.

(** A fresh element is in no queue. *)
Lemma malloc_elem_rep m V T :
  QV m V T → QV (malloc_elem m).1 V T ∧ (∀ q, ¬ qbrk m ∈ (V q).*1).
Proof.
  intros [O1 N1 S1 D1 ND1 DJ1 B1].
  assert (Hfresh : ∀ q, ¬ qbrk m ∈ (V q).*1).
  { intros q Hin. apply list_elem_of_fmap in Hin as (x & Hx & Hin).
    destruct (dseg_elem _ _ _ _ _ (D1 q) Hin) as (n & Hn & _). rewrite <-Hx in Hn.
    apply elem_of_dom_2, B1 in Hn. lia. }
  split; [|done]. constructor; simpl; try done.
  - intros q. by apply dseg_insert_notin.
  - intros p. rewrite dom_insert_L, elem_of_union, elem_of_singleton. intros [->|?%B1]; lia.
Qed.

(** The pool holds its 5000 elements; nothing else changes. *)
Lemma init_inst_elem_pool_rep m V T :
  QV m V T →
  ∃ m' V', init_inst_elem_pool m = Some m' ∧ QV m' V' (<[POOL := true]> T) ∧
    Z.of_nat (length (V' POOL)) = inst_elem_pool_size ∧ capacity (queues m' POOL) = inst_elem_pool_size ∧
    (∀ q, q ≠ POOL → V' q = V q ∧ capacity (queues m' q) = capacity (queues m q)).
Proof.
  intros HQ. unfold init_inst_elem_pool.
  destruct (init_inst_queue_rep m V T POOL inst_elem_pool_size HQ) as (HQ0 & Hc0 & Ho0).
  set (m0 := init_inst_queue m POOL inst_elem_pool_size) in *.
  destruct (for_lt_ind (λ k m', ∃ V', QV m' V' (<[POOL := true]> T) ∧ Z.of_nat (length (V' POOL)) = k ∧
      same_caps m0 m' ∧ (∀ q, q ≠ POOL → V' q = V q)) inst_elem_pool_size (λ _ m,
    let '(m, e) := malloc_elem m in m ← init_inst_elem m e None; '(m, _) ← push_back_inst_elem m POOL e; Some m) m0)
    as (m' & Hm' & V' & HQ' & Hl & Hc & HV'); [done| | |].
  - intros k mk Hk (Vk & HQk & Hl & Hc & HVk).
    destruct (malloc_elem_rep _ _ _ HQk) as [HQ1 Hfresh]. unfold malloc_elem in *. simpl in HQ1.
    set (m1 := {| elems := <[qbrk mk := null_elem]> (elems mk); queues := _; qbrk := _ |}) in *.
    assert (Hn : elems m1 !! qbrk mk = Some null_elem) by apply lookup_insert_eq.
    unfold init_inst_elem. rewrite (upd_Some _ _ null_elem) by done. csimpl.
    rewrite (upd_Some _ _ null_elem) by apply lookup_insert_eq. csimpl.
    rewrite (upd_Some _ _ null_elem) by apply lookup_insert_eq. csimpl.
    rewrite !insert_insert_eq.
    match goal with |- context [push_back_inst_elem ?x POOL _] => change x with m1 end.
    destruct (push_elem_rep m1 Vk _ POOL (qbrk mk) null_elem HQ1) as (m2 & -> & HQ2 & Hc2).
    { right. change (queues m1) with (queues mk). rewrite Hc, Hc0. lia. }
    { apply fn_insert_same. }
    { done. }
    { done. }
    csimpl. eexists. split; [done|]. eexists. split; [exact HQ2|]. split; [|split].
    + rewrite fn_insert_same, length_app. simpl. lia.
    + intros q. rewrite Hc2. apply Hc.
    + intros q Hq. rewrite fn_insert_other by done. auto.
  - exists (<[POOL := []]> V). split; [done|]. rewrite fn_insert_same. split; [done|]. split; [done|].
    intros q Hq. by rewrite fn_insert_other.
  - exists m', V'. split; [done|]. split; [done|]. split; [done|]. split; [by rewrite Hc|]. intros q Hq. split; [auto|].
    rewrite Hc. by rewrite Ho0.
Qed.
