(* ===== verification/InstQueueTheorems.v ===== *)
(** The instruction queues as a whole: any sequence of insertions and removals on the linked
    lists gives the results of first-in first-out queues of bounded capacity. *)

From Stdlib Require Import ZArith Lia.
From stdpp Require Import base tactics functions option list gmap.
From S2P Require Import Prelude DList InstQueue InstQueueRep InstQueueInit.

Inductive qop :=
  | QPush (q : qid) (i : ptr)
  | QPop (q : qid).

Definition qop_queue (op : qop) : qid := match op with QPush q _ | QPop q => q end.

(** ** On the linked lists *)

(** The result of an insertion is the instruction if it was accepted. *)
Definition qstep (m : QMem) (op : qop) : option (QMem * option ptr) :=
  match op with
  | QPush q i => '(m, e) ← push_back_inst m q i; Some (m, _ ← e; Some i)
  | QPop q => pop_front_inst m q
  end.

Fixpoint qrun (m : QMem) (ops : list qop) : option (QMem * list (option ptr)) :=
  match ops with
  | [] => Some (m, [])
  | op :: ops => '(m, o) ← qstep m op; '(m, os) ← qrun m ops; Some (m, o :: os)
  end.

(** ** On lists *)

Definition accepts (cap : Z) (l : list ptr) : bool := (cap =? 0) || (Z.of_nat (length l) <? cap).

Definition astep (caps : qid → Z) (A : qid → list ptr) (op : qop) : (qid → list ptr) * option ptr :=
  match op with
  | QPush q i => if accepts (caps q) (A q) then (<[q := A q ++ [i]]> A, Some i) else (A, None)
  | QPop q => match A q with [] => (A, None) | i :: l => (<[q := l]> A, Some i) end
  end.

Fixpoint arun (caps : qid → Z) (A : qid → list ptr) (ops : list qop) : (qid → list ptr) * list (option ptr) :=
  match ops with
  | [] => (A, [])
  | op :: ops => let '(A, o) := astep caps A op in let '(A, os) := arun caps A ops in (A, o :: os)
  end.

(** ** Refinement *)

(** The queues other than the pool hold the instructions of [A]. *)
Definition holds (caps : qid → Z) (m : QMem) (A : qid → list ptr) : Prop :=
  ∃ V T, QV m V T ∧ (∀ q, T q = true) ∧ (∀ q, capacity (queues m q) = caps q) ∧
    (∀ q, q ≠ POOL → (V q).*2 = Some <$> A q).

Lemma holds_size caps m A q : holds caps m A → q ≠ POOL → queue_size (queues m q) = Z.of_nat (length (A q)).
Proof.
  intros (V & T & HV & HT & Hc & Hl) Hq. rewrite (law_size _ _ _ q HV), <-(length_fmap snd), Hl by done. by rewrite length_fmap.
Qed.

Lemma holds_has_room caps m A q : holds caps m A → q ≠ POOL → has_room (queues m q) = accepts (caps q) (A q).
Proof.
  intros HA Hq. unfold has_room, accepts. rewrite (holds_size _ _ _ _ HA Hq). by destruct HA as (V & T & HV & HT & -> & Hl).
Qed.

Lemma holds_push caps m A q i :
  holds caps m A → q ≠ POOL → accepts (caps q) (A q) = true →
  ∃ m' e, push_back_inst m q i = Some (m', Some e) ∧ holds caps m' (<[q := A q ++ [i]]> A).
Proof.
  intros HA Hq Ha. pose proof (holds_size _ _ _ q HA Hq) as Hs. destruct HA as (V & T & HV & HT & Hc & Hl).
  destruct (law_push_back m V _ q i HV Hq (HT q)) as (m' & e & He & HV' & Hc' & _).
  { unfold accepts in Ha. rewrite <-Hc, orb_true_iff, Z.eqb_eq, Z.ltb_lt in Ha. unfold room.
    rewrite (law_size _ _ _ q HV) in Hs. rewrite Hs. tauto. }
  exists m', e. split; [done|]. eexists _, T. split; [exact HV'|]. split; [done|]. split; [intros q'; by rewrite Hc'|].
  intros q' Hq'. destruct (decide (q' = q)) as [->|Hne].
  - rewrite !fn_insert_same, !fmap_app, Hl by done. done.
  - rewrite !fn_insert_other by done. by apply Hl.
Qed.

Lemma holds_pop caps m A q i l :
  holds caps m A → q ≠ POOL → A q = i :: l →
  ∃ m', pop_front_inst m q = Some (m', Some i) ∧ holds caps m' (<[q := l]> A).
Proof.
  intros (V & T & HV & HT & Hc & Hl) Hq HA. specialize (Hl q Hq) as Hlq. rewrite HA in Hlq.
  destruct (V q) as [|x xs] eqn:E; [done|]. injection Hlq as Ex Exs.
  destruct (law_pop m V _ q x xs HV E) as (m' & He & HV' & Hc'). exists m'. rewrite <-Ex. split; [done|].
  eexists _, T. split; [exact HV'|]. split; [done|]. split; [intros q'; by rewrite Hc'|]. intros q' Hq'. destruct (decide (q' = q)) as [->|Hne].
  - by rewrite !fn_insert_same.
  - rewrite !fn_insert_other by done. by apply Hl.
Qed.

Lemma qstep_refines caps m A op :
  holds caps m A → qop_queue op ≠ POOL →
  ∃ m', qstep m op = Some (m', (astep caps A op).2) ∧ holds caps m' (astep caps A op).1.
Proof.
  intros HA Hq. destruct op as [q i|q]; simpl in *.
  - destruct (accepts (caps q) (A q)) eqn:Ha.
    + destruct (holds_push _ _ _ _ i HA Hq Ha) as (m' & e & -> & HA'). by exists m'.
    + unfold push_back_inst. rewrite (holds_has_room _ _ _ _ HA Hq), Ha. by exists m.
  - destruct (A q) as [|i l] eqn:E.
    + exists m. split; [|done]. unfold pop_front_inst. destruct HA as (V & T & HV & HT & Hc & Hl). specialize (Hl q Hq).
      rewrite E in Hl. rewrite (law_front _ _ _ q HV). by destruct (V q).
    + destruct (holds_pop _ _ _ _ _ _ HA Hq E) as (m' & -> & HA'). by exists m'.
Qed.

(** C9: The queues are first-in first-out: a sequence of [push_back_inst] and
    [pop_front_inst] on linked lists that hold the instructions [A] never touches memory it
    must not, returns exactly what lists of bounded length return (a full queue refuses, an
    empty one gives a null pointer), and leaves the queues holding the resulting lists. *)
Theorem queues_refine_lists caps m A ops :
  holds caps m A → Forall (λ op, qop_queue op ≠ POOL) ops →
  ∃ m', qrun m ops = Some (m', (arun caps A ops).2) ∧ holds caps m' (arun caps A ops).1.
Proof.
  revert m A. induction ops as [|op ops IH]; intros m A HA Hops; [by exists m|].
  apply Forall_cons in Hops as [Hop Hops]. destruct (qstep_refines _ _ _ _ HA Hop) as (m1 & E1 & H1). simpl.
  rewrite E1. destruct (astep caps A op) as [A1 o]. destruct (IH m1 A1 H1 Hops) as (m' & E & H').
  simpl. rewrite E. destruct (arun caps A1 ops) as [A' os]. by exists m'.
Qed.

Lemma queues_refine_lists_witness :
  ∃ m', qrun (init_inst_queue zero_queues IQ 2) [QPush IQ 7; QPush IQ 8; QPush IQ 9; QPush LDQ 5; QPop IQ; QPop IQ; QPop IQ] =
    Some (m', [Some 7; Some 8; None; Some 5; Some 7; Some 8; None]%positive).
Proof.
  set (caps := λ q : qid, if decide (q = IQ) then 2 else 0).
  destruct (queues_refine_lists caps (init_inst_queue zero_queues IQ 2) (λ _, [])
    [QPush IQ 7; QPush IQ 8; QPush IQ 9; QPush LDQ 5; QPop IQ; QPop IQ; QPop IQ]) as (m' & E & _).
  - destruct (init_inst_queue_rep zero_queues _ _ IQ 2 zero_queues_rep) as (HQ & _).
    eexists _, _. split; [exact HQ|]. split; [by intros []|]. split; by intros [].
  - repeat constructor; done.
  - exists m'. exact E.
Defined.
