(* ===== verification/DarmTbl.v ===== *)
(** The encoding types, instruction labels and lookup tables of darm
    (trace_analyzer/darm/darm-tbl.h and armv7-tbl.c): the enumerators with their values, the
    tables entry by entry. *)

From Stdlib Require Import ZArith.
From stdpp Require Import base list.
From S2P Require Import Prelude.

(** ** Encoding types ([darm_enctype_t]) *)

Definition T_INVLD : Z := 0.
Definition T_ARM_ADR : Z := 1.
Definition T_ARM_UNCOND : Z := 2.
Definition T_ARM_MUL : Z := 3.
Definition T_ARM_STACK0 : Z := 4.
Definition T_ARM_STACK1 : Z := 5.
Definition T_ARM_STACK2 : Z := 6.
Definition T_ARM_ARITH_SHIFT : Z := 7.
Definition T_ARM_ARITH_IMM : Z := 8.
Definition T_ARM_BITS : Z := 9.
Definition T_ARM_BRNCHSC : Z := 10.
Definition T_ARM_BRNCHMISC : Z := 11.
Definition T_ARM_MOV_IMM : Z := 12.
Definition T_ARM_CMP_OP : Z := 13.
Definition T_ARM_CMP_IMM : Z := 14.
Definition T_ARM_OPLESS : Z := 15.
Definition T_ARM_DST_SRC : Z := 16.
Definition T_ARM_LDSTREGS : Z := 17.
Definition T_ARM_BITREV : Z := 18.
Definition T_ARM_MISC : Z := 19.
Definition T_ARM_SM : Z := 20.
Definition T_ARM_PAS : Z := 21.
Definition T_ARM_SAT : Z := 22.
Definition T_ARM_SYNC : Z := 23.
Definition T_ARM_PUSR : Z := 24.
Definition T_ARM_MVCR : Z := 25.
Definition T_ARM_UDF : Z := 26.
Definition T_THUMB_ONLY_IMM8 : Z := 27.
Definition T_THUMB_COND_BRANCH : Z := 28.
Definition T_THUMB_UNCOND_BRANCH : Z := 29.
Definition T_THUMB_SHIFT_IMM : Z := 30.
Definition T_THUMB_STACK : Z := 31.
Definition T_THUMB_LDR_PC : Z := 32.
Definition T_THUMB_GPI : Z := 33.
Definition T_THUMB_BRANCH_REG : Z := 34.
Definition T_THUMB_IT_HINTS : Z := 35.
Definition T_THUMB_HAS_IMM8 : Z := 36.
Definition T_THUMB_EXTEND : Z := 37.
Definition T_THUMB_MOD_SP_IMM : Z := 38.
Definition T_THUMB_3REG : Z := 39.
Definition T_THUMB_2REG_IMM : Z := 40.
Definition T_THUMB_ADD_SP_IMM : Z := 41.
Definition T_THUMB_MOV4 : Z := 42.
Definition T_THUMB_RW_MEMI : Z := 43.
Definition T_THUMB_RW_MEMO : Z := 44.
Definition T_THUMB_RW_REG : Z := 45.
Definition T_THUMB_REV : Z := 46.
Definition T_THUMB_SETEND : Z := 47.
Definition T_THUMB_PUSHPOP : Z := 48.
Definition T_THUMB_CMP : Z := 49.
Definition T_THUMB_MOD_SP_REG : Z := 50.
Definition T_THUMB_CBZ : Z := 51.
Definition T_THUMB2_NO_REG : Z := 52.
Definition T_THUMB2_RT_REG : Z := 53.
Definition T_THUMB2_RT_RT2_REG : Z := 54.
Definition T_THUMB2_RM_REG : Z := 55.
Definition T_THUMB2_RD_REG : Z := 56.
Definition T_THUMB2_RD_RM_REG : Z := 57.
Definition T_THUMB2_RN_REG : Z := 58.
Definition T_THUMB2_RN_RT_REG : Z := 59.
Definition T_THUMB2_RN_RT_RT2_REG : Z := 60.
Definition T_THUMB2_RN_RM_REG : Z := 61.
Definition T_THUMB2_RN_RM_RT_REG : Z := 62.
Definition T_THUMB2_RN_RD_REG : Z := 63.
Definition T_THUMB2_RN_RD_RT_REG : Z := 64.
Definition T_THUMB2_RN_RD_RT_RT2_REG : Z := 65.
Definition T_THUMB2_RN_RD_RM_REG : Z := 66.
Definition T_THUMB2_RN_RD_RM_RA_REG : Z := 67.
Definition T_THUMB2_NO_IMM : Z := 68.
Definition T_THUMB2_IMM12 : Z := 69.
Definition T_THUMB2_IMM8 : Z := 70.
Definition T_THUMB2_IMM2 : Z := 71.
Definition T_THUMB2_IMM2_IMM3 : Z := 72.
Definition T_THUMB2_IMM1_IMM3_IMM8 : Z := 73.
Definition T_THUMB2_NO_FLAG : Z := 74.
Definition T_THUMB2_ROTATE_FLAG : Z := 75.
Definition T_THUMB2_U_FLAG : Z := 76.
Definition T_THUMB2_WUP_FLAG : Z := 77.
Definition T_THUMB2_TYPE_FLAG : Z := 78.
Definition T_THUMB2_REGLIST_FLAG : Z := 79.
Definition T_THUMB2_WP_REGLIST_FLAG : Z := 80.
Definition T_THUMB2_S_FLAG : Z := 81.
Definition T_THUMB2_S_TYPE_FLAG : Z := 82.

(** ** Instruction labels ([darm_instr_t]) *)

Definition I_INVLD : Z := 0.
Definition I_ADC : Z := 1.
Definition I_ADD : Z := 2.
Definition I_ADDW : Z := 3.
Definition I_ADR : Z := 4.
Definition I_AND : Z := 5.
Definition I_ASR : Z := 6.
Definition I_B : Z := 7.
Definition I_BFC : Z := 8.
Definition I_BFI : Z := 9.
Definition I_BIC : Z := 10.
Definition I_BKPT : Z := 11.
Definition I_BL : Z := 12.
Definition I_BLX : Z := 13.
Definition I_BX : Z := 14.
Definition I_BXJ : Z := 15.
Definition I_CBNZ : Z := 16.
Definition I_CBZ : Z := 17.
Definition I_CDP : Z := 18.
Definition I_CDP2 : Z := 19.
Definition I_CHKA : Z := 20.
Definition I_CLREX : Z := 21.
Definition I_CLZ : Z := 22.
Definition I_CMN : Z := 23.
Definition I_CMP : Z := 24.
Definition I_CPS : Z := 25.
Definition I_CPY : Z := 26.
Definition I_DBG : Z := 27.
Definition I_DMB : Z := 28.
Definition I_DSB : Z := 29.
Definition I_ENTERX : Z := 30.
Definition I_EOR : Z := 31.
Definition I_HB : Z := 32.
Definition I_HBL : Z := 33.
Definition I_HBLP : Z := 34.
Definition I_HBP : Z := 35.
Definition I_ISB : Z := 36.
Definition I_IT : Z := 37.
Definition I_LDC : Z := 38.
Definition I_LDC2 : Z := 39.
Definition I_LDM : Z := 40.
Definition I_LDMDA : Z := 41.
Definition I_LDMDB : Z := 42.
Definition I_LDMIB : Z := 43.
Definition I_LDR : Z := 44.
Definition I_LDRB : Z := 45.
Definition I_LDRBT : Z := 46.
Definition I_LDRD : Z := 47.
Definition I_LDREX : Z := 48.
Definition I_LDREXB : Z := 49.
Definition I_LDREXD : Z := 50.
Definition I_LDREXH : Z := 51.
Definition I_LDRH : Z := 52.
Definition I_LDRHT : Z := 53.
Definition I_LDRSB : Z := 54.
Definition I_LDRSBT : Z := 55.
Definition I_LDRSH : Z := 56.
Definition I_LDRSHT : Z := 57.
Definition I_LDRT : Z := 58.
Definition I_LEAVEX : Z := 59.
Definition I_LSL : Z := 60.
Definition I_LSR : Z := 61.
Definition I_MCR : Z := 62.
Definition I_MCR2 : Z := 63.
Definition I_MCRR : Z := 64.
Definition I_MCRR2 : Z := 65.
Definition I_MLA : Z := 66.
Definition I_MLS : Z := 67.
Definition I_MOV : Z := 68.
Definition I_MOVT : Z := 69.
Definition I_MOVW : Z := 70.
Definition I_MRC : Z := 71.
Definition I_MRC2 : Z := 72.
Definition I_MRRC : Z := 73.
Definition I_MRRC2 : Z := 74.
Definition I_MRS : Z := 75.
Definition I_MSR : Z := 76.
Definition I_MUL : Z := 77.
Definition I_MVN : Z := 78.
Definition I_NEG : Z := 79.
Definition I_NOP : Z := 80.
Definition I_ORN : Z := 81.
Definition I_ORR : Z := 82.
Definition I_PKH : Z := 83.
Definition I_PLD : Z := 84.
Definition I_PLDW : Z := 85.
Definition I_PLI : Z := 86.
Definition I_POP : Z := 87.
Definition I_PUSH : Z := 88.
Definition I_QADD : Z := 89.
Definition I_QADD16 : Z := 90.
Definition I_QADD8 : Z := 91.
Definition I_QASX : Z := 92.
Definition I_QDADD : Z := 93.
Definition I_QDSUB : Z := 94.
Definition I_QSAX : Z := 95.
Definition I_QSUB : Z := 96.
Definition I_QSUB16 : Z := 97.
Definition I_QSUB8 : Z := 98.
Definition I_RBIT : Z := 99.
Definition I_REV : Z := 100.
Definition I_REV16 : Z := 101.
Definition I_REVSH : Z := 102.
Definition I_RFE : Z := 103.
Definition I_ROR : Z := 104.
Definition I_RRX : Z := 105.
Definition I_RSB : Z := 106.
Definition I_RSC : Z := 107.
Definition I_SADD16 : Z := 108.
Definition I_SADD8 : Z := 109.
Definition I_SASX : Z := 110.
Definition I_SBC : Z := 111.
Definition I_SBFX : Z := 112.
Definition I_SDIV : Z := 113.
Definition I_SEL : Z := 114.
Definition I_SETEND : Z := 115.
Definition I_SEV : Z := 116.
Definition I_SHADD16 : Z := 117.
Definition I_SHADD8 : Z := 118.
Definition I_SHASX : Z := 119.
Definition I_SHSAX : Z := 120.
Definition I_SHSUB16 : Z := 121.
Definition I_SHSUB8 : Z := 122.
Definition I_SMC : Z := 123.
Definition I_SMLA : Z := 124.
Definition I_SMLABB : Z := 125.
Definition I_SMLABT : Z := 126.
Definition I_SMLAD : Z := 127.
Definition I_SMLAL : Z := 128.
Definition I_SMLALBB : Z := 129.
Definition I_SMLALBT : Z := 130.
Definition I_SMLALD : Z := 131.
Definition I_SMLALTB : Z := 132.
Definition I_SMLALTT : Z := 133.
Definition I_SMLATB : Z := 134.
Definition I_SMLATT : Z := 135.
Definition I_SMLAW : Z := 136.
Definition I_SMLSD : Z := 137.
Definition I_SMLSLD : Z := 138.
Definition I_SMMLA : Z := 139.
Definition I_SMMLS : Z := 140.
Definition I_SMMUL : Z := 141.
Definition I_SMUAD : Z := 142.
Definition I_SMUL : Z := 143.
Definition I_SMULBB : Z := 144.
Definition I_SMULBT : Z := 145.
Definition I_SMULL : Z := 146.
Definition I_SMULTB : Z := 147.
Definition I_SMULTT : Z := 148.
Definition I_SMULW : Z := 149.
Definition I_SMUSD : Z := 150.
Definition I_SRS : Z := 151.
Definition I_SSAT : Z := 152.
Definition I_SSAT16 : Z := 153.
Definition I_SSAX : Z := 154.
Definition I_SSUB16 : Z := 155.
Definition I_SSUB8 : Z := 156.
Definition I_STC : Z := 157.
Definition I_STC2 : Z := 158.
Definition I_STM : Z := 159.
Definition I_STMDA : Z := 160.
Definition I_STMDB : Z := 161.
Definition I_STMIB : Z := 162.
Definition I_STR : Z := 163.
Definition I_STRB : Z := 164.
Definition I_STRBT : Z := 165.
Definition I_STRD : Z := 166.
Definition I_STREX : Z := 167.
Definition I_STREXB : Z := 168.
Definition I_STREXD : Z := 169.
Definition I_STREXH : Z := 170.
Definition I_STRH : Z := 171.
Definition I_STRHT : Z := 172.
Definition I_STRT : Z := 173.
Definition I_SUB : Z := 174.
Definition I_SUBW : Z := 175.
Definition I_SVC : Z := 176.
Definition I_SWP : Z := 177.
Definition I_SWPB : Z := 178.
Definition I_SXTAB : Z := 179.
Definition I_SXTAB16 : Z := 180.
Definition I_SXTAH : Z := 181.
Definition I_SXTB : Z := 182.
Definition I_SXTB16 : Z := 183.
Definition I_SXTH : Z := 184.
Definition I_TBB : Z := 185.
Definition I_TBH : Z := 186.
Definition I_TEQ : Z := 187.
Definition I_TST : Z := 188.
Definition I_UADD16 : Z := 189.
Definition I_UADD8 : Z := 190.
Definition I_UASX : Z := 191.
Definition I_UBFX : Z := 192.
Definition I_UDF : Z := 193.
Definition I_UDIV : Z := 194.
Definition I_UHADD16 : Z := 195.
Definition I_UHADD8 : Z := 196.
Definition I_UHASX : Z := 197.
Definition I_UHSAX : Z := 198.
Definition I_UHSUB16 : Z := 199.
Definition I_UHSUB8 : Z := 200.
Definition I_UMAAL : Z := 201.
Definition I_UMLAL : Z := 202.
Definition I_UMULL : Z := 203.
Definition I_UQADD16 : Z := 204.
Definition I_UQADD8 : Z := 205.
Definition I_UQASX : Z := 206.
Definition I_UQSAX : Z := 207.
Definition I_UQSUB16 : Z := 208.
Definition I_UQSUB8 : Z := 209.
Definition I_USAD8 : Z := 210.
Definition I_USADA8 : Z := 211.
Definition I_USAT : Z := 212.
Definition I_USAT16 : Z := 213.
Definition I_USAX : Z := 214.
Definition I_USUB16 : Z := 215.
Definition I_USUB8 : Z := 216.
Definition I_UXTAB : Z := 217.
Definition I_UXTAB16 : Z := 218.
Definition I_UXTAH : Z := 219.
Definition I_UXTB : Z := 220.
Definition I_UXTB16 : Z := 221.
Definition I_UXTH : Z := 222.
Definition I_VABA : Z := 223.
Definition I_VABAL : Z := 224.
Definition I_VABD : Z := 225.
Definition I_VABDL : Z := 226.
Definition I_VABS : Z := 227.
Definition I_VACGE : Z := 228.
Definition I_VACGT : Z := 229.
Definition I_VACLE : Z := 230.
Definition I_VACLT : Z := 231.
Definition I_VADD : Z := 232.
Definition I_VADDHN : Z := 233.
Definition I_VADDL : Z := 234.
Definition I_VADDW : Z := 235.
Definition I_VAND : Z := 236.
Definition I_VBIC : Z := 237.
Definition I_VBIF : Z := 238.
Definition I_VBIT : Z := 239.
Definition I_VBSL : Z := 240.
Definition I_VCEQ : Z := 241.
Definition I_VCGE : Z := 242.
Definition I_VCGT : Z := 243.
Definition I_VCLE : Z := 244.
Definition I_VCLS : Z := 245.
Definition I_VCLT : Z := 246.
Definition I_VCLZ : Z := 247.
Definition I_VCMP : Z := 248.
Definition I_VCMPE : Z := 249.
Definition I_VCNT : Z := 250.
Definition I_VCVT : Z := 251.
Definition I_VCVTB : Z := 252.
Definition I_VCVTR : Z := 253.
Definition I_VCVTT : Z := 254.
Definition I_VDIV : Z := 255.
Definition I_VDUP : Z := 256.
Definition I_VEOR : Z := 257.
Definition I_VEXT : Z := 258.
Definition I_VHADD : Z := 259.
Definition I_VHSUB : Z := 260.
Definition I_VLD1 : Z := 261.
Definition I_VLD2 : Z := 262.
Definition I_VLD3 : Z := 263.
Definition I_VLD4 : Z := 264.
Definition I_VLDM : Z := 265.
Definition I_VLDR : Z := 266.
Definition I_VMAX : Z := 267.
Definition I_VMIN : Z := 268.
Definition I_VMLA : Z := 269.
Definition I_VMLAL : Z := 270.
Definition I_VMLS : Z := 271.
Definition I_VMLSL : Z := 272.
Definition I_VMOV : Z := 273.
Definition I_VMOVL : Z := 274.
Definition I_VMOVN : Z := 275.
Definition I_VMRS : Z := 276.
Definition I_VMSR : Z := 277.
Definition I_VMUL : Z := 278.
Definition I_VMULL : Z := 279.
Definition I_VMVN : Z := 280.
Definition I_VNEG : Z := 281.
Definition I_VNMLA : Z := 282.
Definition I_VNMLS : Z := 283.
Definition I_VNMUL : Z := 284.
Definition I_VORN : Z := 285.
Definition I_VORR : Z := 286.
Definition I_VPADAL : Z := 287.
Definition I_VPADD : Z := 288.
Definition I_VPADDL : Z := 289.
Definition I_VPMAX : Z := 290.
Definition I_VPMIN : Z := 291.
Definition I_VPOP : Z := 292.
Definition I_VPUSH : Z := 293.
Definition I_VQABS : Z := 294.
Definition I_VQADD : Z := 295.
Definition I_VQDMLAL : Z := 296.
Definition I_VQDMLSL : Z := 297.
Definition I_VQDMULH : Z := 298.
Definition I_VQDMULL : Z := 299.
Definition I_VQMOVN : Z := 300.
Definition I_VQMOVUN : Z := 301.
Definition I_VQNEG : Z := 302.
Definition I_VQRDMULH : Z := 303.
Definition I_VQRSHL : Z := 304.
Definition I_VQRSHRN : Z := 305.
Definition I_VQRSHRUN : Z := 306.
Definition I_VQSHL : Z := 307.
Definition I_VQSHLU : Z := 308.
Definition I_VQSHRN : Z := 309.
Definition I_VQSHRUN : Z := 310.
Definition I_VQSUB : Z := 311.
Definition I_VRADDHN : Z := 312.
Definition I_VRECPE : Z := 313.
Definition I_VRECPS : Z := 314.
Definition I_VREV16 : Z := 315.
Definition I_VREV32 : Z := 316.
Definition I_VREV64 : Z := 317.
Definition I_VRHADD : Z := 318.
Definition I_VRSHL : Z := 319.
Definition I_VRSHR : Z := 320.
Definition I_VRSHRN : Z := 321.
Definition I_VRSQRTE : Z := 322.
Definition I_VRSQRTS : Z := 323.
Definition I_VRSRA : Z := 324.
Definition I_VRSUBHN : Z := 325.
Definition I_VSHL : Z := 326.
Definition I_VSHLL : Z := 327.
Definition I_VSHR : Z := 328.
Definition I_VSHRN : Z := 329.
Definition I_VSLI : Z := 330.
Definition I_VSQRT : Z := 331.
Definition I_VSRA : Z := 332.
Definition I_VSRI : Z := 333.
Definition I_VST1 : Z := 334.
Definition I_VST2 : Z := 335.
Definition I_VST3 : Z := 336.
Definition I_VST4 : Z := 337.
Definition I_VSTM : Z := 338.
Definition I_VSTR : Z := 339.
Definition I_VSUB : Z := 340.
Definition I_VSUBHN : Z := 341.
Definition I_VSUBL : Z := 342.
Definition I_VSUBW : Z := 343.
Definition I_VSWP : Z := 344.
Definition I_VTBL : Z := 345.
Definition I_VTBX : Z := 346.
Definition I_VTRN : Z := 347.
Definition I_VTST : Z := 348.
Definition I_VUZP : Z := 349.
Definition I_VZIP : Z := 350.
Definition I_WFE : Z := 351.
Definition I_WFI : Z := 352.
Definition I_YIELD : Z := 353.
Definition I_INSTRCNT : Z := 354.

(** ** Tables (armv7-tbl.c) *)

Definition armv7_instr_types : list Z :=
  [T_ARM_ARITH_SHIFT; T_ARM_ARITH_SHIFT; T_ARM_ARITH_SHIFT; T_ARM_ARITH_SHIFT;
   T_ARM_ARITH_SHIFT; T_ARM_ARITH_SHIFT; T_ARM_ARITH_SHIFT; T_ARM_ARITH_SHIFT;
   T_ARM_ARITH_SHIFT; T_ARM_ARITH_SHIFT; T_ARM_ARITH_SHIFT; T_ARM_ARITH_SHIFT;
   T_ARM_ARITH_SHIFT; T_ARM_ARITH_SHIFT; T_ARM_ARITH_SHIFT; T_ARM_ARITH_SHIFT; T_ARM_SM;
   T_ARM_CMP_OP; T_ARM_BRNCHMISC; T_ARM_CMP_OP; T_ARM_SM; T_ARM_CMP_OP; T_ARM_MISC;
   T_ARM_CMP_OP; T_ARM_ARITH_SHIFT; T_ARM_ARITH_SHIFT; T_ARM_DST_SRC; T_ARM_DST_SRC;
   T_ARM_ARITH_SHIFT; T_ARM_ARITH_SHIFT; T_ARM_MISC; T_ARM_MISC; T_ARM_ARITH_IMM;
   T_ARM_ARITH_IMM; T_ARM_ARITH_IMM; T_ARM_ARITH_IMM; T_ARM_ARITH_IMM; T_ARM_ARITH_IMM;
   T_ARM_ARITH_IMM; T_ARM_ARITH_IMM; T_ARM_ARITH_IMM; T_ARM_ARITH_IMM; T_ARM_ARITH_IMM;
   T_ARM_ARITH_IMM; T_ARM_ARITH_IMM; T_ARM_ARITH_IMM; T_ARM_ARITH_IMM; T_ARM_ARITH_IMM;
   T_ARM_MOV_IMM; T_ARM_CMP_IMM; T_ARM_OPLESS; T_ARM_CMP_IMM; T_ARM_MOV_IMM; T_ARM_CMP_IMM;
   T_INVLD; T_ARM_CMP_IMM; T_ARM_ARITH_IMM; T_ARM_ARITH_IMM; T_ARM_MOV_IMM; T_ARM_MOV_IMM;
   T_ARM_ARITH_IMM; T_ARM_ARITH_IMM; T_ARM_MOV_IMM; T_ARM_MOV_IMM; T_INVLD; T_INVLD;
   T_INVLD; T_INVLD; T_INVLD; T_INVLD; T_INVLD; T_INVLD; T_INVLD; T_INVLD; T_INVLD; T_INVLD;
   T_INVLD; T_INVLD; T_INVLD; T_INVLD; T_INVLD; T_INVLD; T_INVLD; T_INVLD; T_INVLD; T_INVLD;
   T_INVLD; T_INVLD; T_INVLD; T_INVLD; T_INVLD; T_INVLD; T_INVLD; T_INVLD; T_INVLD; T_INVLD;
   T_INVLD; T_ARM_PAS; T_ARM_PAS; T_ARM_PAS; T_INVLD; T_ARM_PAS; T_ARM_PAS; T_ARM_PAS;
   T_ARM_MISC; T_INVLD; T_INVLD; T_ARM_BITREV; T_INVLD; T_INVLD; T_INVLD; T_ARM_BITREV;
   T_ARM_SM; T_INVLD; T_INVLD; T_INVLD; T_ARM_SM; T_ARM_SM; T_INVLD; T_INVLD; T_INVLD;
   T_INVLD; T_ARM_BITS; T_ARM_BITS; T_ARM_BITS; T_ARM_BITS; T_ARM_BITS; T_ARM_UDF;
   T_ARM_LDSTREGS; T_ARM_LDSTREGS; T_ARM_LDSTREGS; T_ARM_LDSTREGS; T_INVLD; T_INVLD;
   T_INVLD; T_INVLD; T_ARM_LDSTREGS; T_ARM_LDSTREGS; T_ARM_LDSTREGS; T_ARM_LDSTREGS;
   T_INVLD; T_INVLD; T_INVLD; T_INVLD; T_ARM_LDSTREGS; T_ARM_LDSTREGS; T_ARM_LDSTREGS;
   T_ARM_LDSTREGS; T_INVLD; T_INVLD; T_INVLD; T_INVLD; T_ARM_LDSTREGS; T_ARM_LDSTREGS;
   T_ARM_LDSTREGS; T_ARM_LDSTREGS; T_INVLD; T_INVLD; T_INVLD; T_INVLD; T_ARM_BRNCHSC;
   T_ARM_BRNCHSC; T_ARM_BRNCHSC; T_ARM_BRNCHSC; T_ARM_BRNCHSC; T_ARM_BRNCHSC; T_ARM_BRNCHSC;
   T_ARM_BRNCHSC; T_ARM_BRNCHSC; T_ARM_BRNCHSC; T_ARM_BRNCHSC; T_ARM_BRNCHSC; T_ARM_BRNCHSC;
   T_ARM_BRNCHSC; T_ARM_BRNCHSC; T_ARM_BRNCHSC; T_ARM_BRNCHSC; T_ARM_BRNCHSC; T_ARM_BRNCHSC;
   T_ARM_BRNCHSC; T_ARM_BRNCHSC; T_ARM_BRNCHSC; T_ARM_BRNCHSC; T_ARM_BRNCHSC; T_ARM_BRNCHSC;
   T_ARM_BRNCHSC; T_ARM_BRNCHSC; T_ARM_BRNCHSC; T_ARM_BRNCHSC; T_ARM_BRNCHSC; T_ARM_BRNCHSC;
   T_ARM_BRNCHSC; T_INVLD; T_INVLD; T_INVLD; T_INVLD; T_INVLD; T_INVLD; T_INVLD; T_INVLD;
   T_INVLD; T_INVLD; T_INVLD; T_INVLD; T_INVLD; T_INVLD; T_INVLD; T_INVLD; T_INVLD; T_INVLD;
   T_INVLD; T_INVLD; T_INVLD; T_INVLD; T_INVLD; T_INVLD; T_INVLD; T_INVLD; T_INVLD; T_INVLD;
   T_INVLD; T_INVLD; T_INVLD; T_INVLD; T_ARM_MVCR; T_ARM_MVCR; T_ARM_MVCR; T_ARM_MVCR;
   T_ARM_MVCR; T_ARM_MVCR; T_ARM_MVCR; T_ARM_MVCR; T_ARM_MVCR; T_ARM_MVCR; T_ARM_MVCR;
   T_ARM_MVCR; T_ARM_MVCR; T_ARM_MVCR; T_ARM_MVCR; T_ARM_MVCR; T_ARM_BRNCHSC; T_ARM_BRNCHSC;
   T_ARM_BRNCHSC; T_ARM_BRNCHSC; T_ARM_BRNCHSC; T_ARM_BRNCHSC; T_ARM_BRNCHSC; T_ARM_BRNCHSC;
   T_ARM_BRNCHSC; T_ARM_BRNCHSC; T_ARM_BRNCHSC; T_ARM_BRNCHSC; T_ARM_BRNCHSC; T_ARM_BRNCHSC;
   T_ARM_BRNCHSC; T_ARM_BRNCHSC].

Definition armv7_instr_labels : list Z :=
  [I_AND; I_AND; I_EOR; I_EOR; I_SUB; I_SUB; I_RSB; I_RSB; I_ADD; I_ADD; I_ADC; I_ADC;
   I_SBC; I_SBC; I_RSC; I_RSC; I_SMLA; I_TST; I_SMULW; I_TEQ; I_SMLAL; I_CMP; I_SMC; I_CMN;
   I_ORR; I_ORR; I_STREXD; I_RRX; I_BIC; I_BIC; I_MVN; I_MVN; I_AND; I_AND; I_EOR; I_EOR;
   I_SUB; I_SUB; I_RSB; I_RSB; I_ADD; I_ADD; I_ADC; I_ADC; I_SBC; I_SBC; I_RSC; I_RSC;
   I_MOVW; I_TST; I_YIELD; I_TEQ; I_MOVT; I_CMP; I_INVLD; I_CMN; I_ORR; I_ORR; I_MOV; I_MOV;
   I_BIC; I_BIC; I_MVN; I_MVN; I_INVLD; I_INVLD; I_INVLD; I_INVLD; I_INVLD; I_INVLD;
   I_INVLD; I_INVLD; I_INVLD; I_INVLD; I_INVLD; I_INVLD; I_INVLD; I_INVLD; I_INVLD; I_INVLD;
   I_INVLD; I_INVLD; I_INVLD; I_INVLD; I_INVLD; I_INVLD; I_INVLD; I_INVLD; I_INVLD; I_INVLD;
   I_INVLD; I_INVLD; I_INVLD; I_INVLD; I_INVLD; I_INVLD; I_INVLD; I_SSUB8; I_QSUB8;
   I_SHSUB8; I_INVLD; I_USUB8; I_UQSUB8; I_UHSUB8; I_SEL; I_INVLD; I_INVLD; I_REV16;
   I_INVLD; I_INVLD; I_INVLD; I_REVSH; I_SMUSD; I_INVLD; I_INVLD; I_INVLD; I_SMLSLD;
   I_SMMUL; I_INVLD; I_INVLD; I_INVLD; I_INVLD; I_SBFX; I_SBFX; I_BFI; I_BFI; I_UBFX; I_UDF;
   I_STMDA; I_LDMDA; I_STMDA; I_LDMDA; I_INVLD; I_INVLD; I_INVLD; I_INVLD; I_STM; I_LDM;
   I_STM; I_LDM; I_INVLD; I_INVLD; I_INVLD; I_INVLD; I_STMDB; I_LDMDB; I_STMDB; I_LDMDB;
   I_INVLD; I_INVLD; I_INVLD; I_INVLD; I_STMIB; I_LDMIB; I_STMIB; I_LDMIB; I_INVLD; I_INVLD;
   I_INVLD; I_INVLD; I_B; I_B; I_B; I_B; I_B; I_B; I_B; I_B; I_B; I_B; I_B; I_B; I_B; I_B;
   I_B; I_B; I_BL; I_BL; I_BL; I_BL; I_BL; I_BL; I_BL; I_BL; I_BL; I_BL; I_BL; I_BL; I_BL;
   I_BL; I_BL; I_BL; I_INVLD; I_INVLD; I_INVLD; I_INVLD; I_INVLD; I_INVLD; I_INVLD; I_INVLD;
   I_INVLD; I_INVLD; I_INVLD; I_INVLD; I_INVLD; I_INVLD; I_INVLD; I_INVLD; I_INVLD; I_INVLD;
   I_INVLD; I_INVLD; I_INVLD; I_INVLD; I_INVLD; I_INVLD; I_INVLD; I_INVLD; I_INVLD; I_INVLD;
   I_INVLD; I_INVLD; I_INVLD; I_INVLD; I_MCR; I_MRC; I_MCR; I_MRC; I_MCR; I_MRC; I_MCR;
   I_MRC; I_MCR; I_MRC; I_MCR; I_MRC; I_MCR; I_MRC; I_MCR; I_MRC; I_SVC; I_SVC; I_SVC;
   I_SVC; I_SVC; I_SVC; I_SVC; I_SVC; I_SVC; I_SVC; I_SVC; I_SVC; I_SVC; I_SVC; I_SVC; I_SVC].

Definition type_shift_instr_lookup : list Z :=
  [I_LSL; I_LSL; I_LSR; I_LSR; I_ASR; I_ASR; I_ROR; I_ROR; I_LSL; I_INVLD; I_LSR; I_INVLD;
   I_ASR; I_INVLD; I_ROR; I_INVLD].

Definition type_brnchmisc_instr_lookup : list Z :=
  [I_MSR; I_BX; I_BXJ; I_BLX; I_INVLD; I_QSUB; I_INVLD; I_BKPT; I_SMLAW; I_INVLD; I_SMULW;
   I_INVLD; I_SMLAW; I_INVLD; I_SMULW; I_INVLD].

Definition type_opless_instr_lookup : list Z :=
  [I_NOP; I_YIELD; I_WFE; I_WFI; I_SEV; I_INVLD; I_INVLD; I_INVLD].

Definition type_uncond2_instr_lookup : list Z :=
  [I_INVLD; I_CLREX; I_INVLD; I_INVLD; I_DSB; I_DMB; I_ISB; I_INVLD].

Definition type_mul_instr_lookup : list Z :=
  [I_MUL; I_MLA; I_UMAAL; I_MLS; I_UMULL; I_UMLAL; I_SMULL; I_SMLAL].

Definition type_stack0_instr_lookup : list Z :=
  [I_STR; I_LDR; I_STRT; I_LDRT; I_STRB; I_LDRB; I_STRBT; I_LDRBT; I_STR; I_LDR; I_STRT;
   I_LDRT; I_STRB; I_LDRB; I_STRBT; I_LDRBT; I_STR; I_LDR; I_STR; I_LDR; I_STRB; I_LDRB;
   I_STRB; I_LDRB; I_STR; I_LDR; I_STR; I_LDR; I_STRB; I_LDRB; I_STRB; I_LDRB].

Definition type_stack1_instr_lookup : list Z :=
  [I_INVLD; I_INVLD; I_STRHT; I_LDRHT; I_INVLD; I_LDRSBT; I_INVLD; I_LDRSHT].

Definition type_stack2_instr_lookup : list Z :=
  [I_INVLD; I_INVLD; I_STRH; I_LDRH; I_LDRD; I_LDRSB; I_STRD; I_LDRSH].

Definition type_bits_instr_lookup : list Z :=
  [I_INVLD; I_SBFX; I_BFI; I_UBFX].

Definition type_pas_instr_lookup : list Z :=
  [I_INVLD; I_INVLD; I_INVLD; I_INVLD; I_INVLD; I_INVLD; I_INVLD; I_INVLD; I_SADD16; I_SASX;
   I_SSAX; I_SSUB16; I_SADD8; I_INVLD; I_INVLD; I_SSUB8; I_QADD16; I_QASX; I_QSAX; I_QSUB16;
   I_QADD8; I_INVLD; I_INVLD; I_QSUB8; I_SHADD16; I_SHASX; I_SHSAX; I_SHSUB16; I_SHADD8;
   I_INVLD; I_INVLD; I_SHSUB8; I_INVLD; I_INVLD; I_INVLD; I_INVLD; I_INVLD; I_INVLD;
   I_INVLD; I_INVLD; I_UADD16; I_UASX; I_USAX; I_USUB16; I_UADD8; I_INVLD; I_INVLD; I_USUB8;
   I_UQADD16; I_UQASX; I_UQSAX; I_UQSUB16; I_UQADD8; I_INVLD; I_INVLD; I_UQSUB8; I_UHADD16;
   I_UHASX; I_UHSAX; I_UHSUB16; I_UHADD8; I_INVLD; I_INVLD; I_UHSUB8].

Definition type_sat_instr_lookup : list Z :=
  [I_QADD; I_QSUB; I_QDADD; I_QDSUB].

Definition type_sync_instr_lookup : list Z :=
  [I_SWP; I_INVLD; I_INVLD; I_INVLD; I_SWPB; I_INVLD; I_INVLD; I_INVLD; I_STREX; I_LDREX;
   I_STREXD; I_LDREXD; I_STREXB; I_LDREXB; I_STREXH; I_LDREXH].

Definition type_pusr_instr_lookup : list Z :=
  [I_SXTAB16; I_SXTB16; I_INVLD; I_INVLD; I_SXTAB; I_SXTB; I_SXTAH; I_SXTH; I_UXTAB16;
   I_UXTB16; I_INVLD; I_INVLD; I_UXTAB; I_UXTB; I_UXTAH; I_UXTH].
