(* ===== verification/Darm.v ===== *)
(** The ARMv7 disassembler darm (trace_analyzer/darm/armv7.c and the parts of darm.c the
    simulator uses): from a 32-bit instruction word to its operands. *)

From Stdlib Require Import ZArith Lia.
From stdpp Require Import base tactics functions option list.
From S2P Require Import Prelude DarmTbl.

(** ** Data (darm.h) *)

Definition B_UNSET : Z := 0.
Definition B_SET : Z := 1.
Definition B_INVLD : Z := 2.
Definition R_INVLD : Z := -1.
Definition SP : Z := 13.
Definition PC : Z := 15.
Definition C_AL : Z := 14.
Definition C_UNCOND : Z := 15.
Definition C_INVLD : Z := -1.
Definition S_LSL : Z := 0.
Definition S_ROR : Z := 3.
Definition S_INVLD : Z := -1.
Definition O_INVLD : Z := -1.

(** The members of [darm_t]; they are all integers, so a [darm_t] is a function. *)
Inductive dfield :=
  | F_w | F_instr | F_instr_type | F_instr_imm_type | F_instr_flag_type | F_cond | F_B | F_S | F_E
  | F_M | F_N | F_option | F_U | F_H | F_P | F_R | F_T | F_W | F_I | F_rotate
  | F_Rd | F_Rn | F_Rm | F_Ra | F_Rt | F_Rt2 | F_RdHi | F_RdLo | F_imm | F_sat_imm
  | F_shift_type | F_Rs | F_shift | F_lsb | F_msb | F_width | F_reglist | F_coproc | F_opc1 | F_opc2
  | F_CRd | F_CRn | F_CRm | F_D | F_firstcond | F_mask.

#[export] Instance dfield_eq_dec : EqDecision dfield.
Proof. solve_decision. Defined.

Abbreviation darm_t := (dfield → Z).

(** A sequence of assignments to members. *)
Definition assign (l : list (dfield * Z)) (d : darm_t) : darm_t :=
  foldl (λ d x, <[x.1 := x.2]> d) d l.

Definition darm_init : darm_t :=
  assign [(F_instr, I_INVLD); (F_instr_type, T_INVLD); (F_shift_type, S_INVLD);
          (F_S, B_INVLD); (F_E, B_INVLD); (F_U, B_INVLD); (F_H, B_INVLD); (F_P, B_INVLD);
          (F_I, B_INVLD); (F_R, B_INVLD); (F_T, B_INVLD); (F_W, B_INVLD); (F_M, B_INVLD);
          (F_N, B_INVLD); (F_B, B_INVLD);
          (F_Rd, R_INVLD); (F_Rn, R_INVLD); (F_Rm, R_INVLD); (F_Ra, R_INVLD); (F_Rt, R_INVLD);
          (F_Rt2, R_INVLD); (F_RdHi, R_INVLD); (F_RdLo, R_INVLD); (F_Rs, R_INVLD);
          (F_option, O_INVLD); (F_CRn, R_INVLD); (F_CRm, R_INVLD); (F_CRd, R_INVLD);
          (F_firstcond, C_INVLD); (F_mask, 0)] (λ _, 0).

(** [(w >> n) & k] and a single bit. *)
Definition field (w n k : Z) : Z := (w .>> n) .& k.
Definition bit (w n : Z) : bool := negb (field w n 1 =? 0).

Definition BITMSK_12 : Z := 4095.
Definition BITMSK_16 : Z := 65535.
Definition BITMSK_24 : Z := 16777215.

(** The 24-bit branch offset, sign-extended by hand and multiplied by four. *)
Definition branch_imm (imm : Z) : Z :=
  if negb (field imm 23 1 =? 0) then u32 ((imm .| 4278190080) .<< 2) else u32 (imm .<< 2).

Section Armv7.
(** [v << 32] on a 32-bit operand, which C leaves undefined. *)
Variable shl_32 : Z → Z.

Definition ROR (val rotate : Z) : Z :=
  (val .>> rotate) .| (if rotate =? 0 then shl_32 val else u32 (val .<< (32 - rotate))).

Definition ARMExpandImm (imm12 : Z) : Z := ROR (imm12 .& 255) (field imm12 7 30).

(** ** Unconditional instructions *)

Definition uncond_preload (d : darm_t) (w : Z) : Z * darm_t :=
  let d := assign [(F_instr, if bit w 24 then I_PLD else I_PLI); (F_Rn, field w 16 15);
                   (F_U, field w 23 1)] d in
  let d := if bit w 25 then
      assign [(F_Rm, w .& 15); (F_shift_type, field w 5 3); (F_shift, field w 7 31)] d
    else assign [(F_I, B_SET); (F_imm, w .& BITMSK_12)] d in
  let d := if (d F_instr =? I_PLD) && negb (bit w 22) then <[F_instr := I_PLDW]> d else d in
  (0, d).

Definition armv7_disas_uncond (d : darm_t) (w : Z) : option (Z * darm_t) :=
  let d := <[F_instr_type := T_ARM_UNCOND]> d in
  match field w 25 7 with
  | 0 => Some (0, assign [(F_instr, I_SETEND); (F_E, field w 9 1)] d)
  | 2 =>
      if bit w 21 then
        i ← arr_get type_uncond2_instr_lookup (field w 4 7);
        let d := <[F_instr := i]> d in
        if negb (i =? I_INVLD) then
          Some (0, if negb (i =? I_CLREX) then <[F_option := w .& 15]> d else d)
        else Some (uncond_preload d w)
      else Some (uncond_preload d w)
  | 3 => Some (uncond_preload d w)
  | 5 =>
      let imm := branch_imm (w .& BITMSK_24) in
      let h := field w 24 1 in
      Some (0, assign [(F_instr, I_BLX); (F_H, h); (F_I, B_SET); (F_imm, imm .| (h .<< 1))] d)
  | 7 =>
      let d := assign [(F_CRn, field w 16 15); (F_coproc, field w 8 15); (F_opc2, field w 5 7);
                       (F_CRm, w .& 15)] d in
      if negb (bit w 4) then
        Some (0, assign [(F_instr, I_CDP2); (F_CRd, field w 12 15); (F_opc1, field w 20 15)] d)
      else
        Some (0, assign [(F_instr, if bit w 20 then I_MRC2 else I_MCR2); (F_opc1, field w 21 7);
                         (F_Rt, field w 12 15)] d)
  | _ => Some (-1, d)
  end.

(** ** Conditional instructions *)

Definition one_of (i : Z) (l : list Z) : bool := existsb (Z.eqb i) l.

(** All variants of MUL. *)
Definition disas_mul (d : darm_t) (w : Z) : option (Z * darm_t) :=
  i ← arr_get type_mul_instr_lookup (field w 21 7);
  let d := assign [(F_instr, i); (F_instr_type, T_ARM_MUL); (F_S, field w 20 1);
                   (F_Rm, field w 8 15); (F_Rn, w .& 15)] d in
  if one_of i [I_UMAAL; I_MLS] && negb (d F_S =? 0) then Some (-1, d)
  else if one_of i [I_MLA; I_MLS] then
    Some (0, assign [(F_Ra, field w 12 15); (F_Rd, field w 16 15)] d)
  else if i =? I_MUL then Some (0, <[F_Rd := field w 16 15]> d)
  else if one_of i [I_UMAAL; I_UMULL; I_UMLAL; I_SMULL; I_SMLAL] then
    Some (0, assign [(F_RdHi, field w 16 15); (F_RdLo, field w 12 15)] d)
  else Some (0, d).

(** The register or the split 8-bit immediate of the extra loads and stores. *)
Definition stack_operand (d : darm_t) (w : Z) : darm_t :=
  if negb (bit w 22) then <[F_Rm := w .& 15]> d
  else assign [(F_imm, field w 4 240 .| (w .& 15)); (F_I, B_SET)] d.

Definition stack_index (w : Z) : Z := field w 4 6 .| field w 20 1.

Definition disas_stack1 (d : darm_t) (w : Z) : option (Z * darm_t) :=
  i ← arr_get type_stack1_instr_lookup (stack_index w);
  let d := <[F_instr := i]> d in
  if i =? I_INVLD then Some (-1, d)
  else
    let d := assign [(F_instr_type, T_ARM_STACK1); (F_Rn, field w 16 15); (F_Rt, field w 12 15);
                     (F_P, field w 24 1); (F_U, field w 23 1)] d in
    Some (0, stack_operand d w).

Definition disas_stack2 (d : darm_t) (w : Z) : option (Z * darm_t) :=
  i ← arr_get type_stack2_instr_lookup (stack_index w);
  let d := <[F_instr := i]> d in
  if i =? I_INVLD then Some (-1, d)
  else
    let d := assign [(F_instr_type, T_ARM_STACK2); (F_Rn, field w 16 15); (F_Rt, field w 12 15);
                     (F_P, field w 24 1); (F_U, field w 23 1); (F_W, field w 21 1)] d in
    Some (0, stack_operand d w).

(** Synchronization primitives; [None] inside when the label is not one of them. *)
Definition disas_sync (d : darm_t) (w : Z) : option (option (Z * darm_t) * darm_t) :=
  i ← arr_get type_sync_instr_lookup (field w 20 15);
  let d := assign [(F_instr, i); (F_instr_type, T_ARM_SYNC); (F_Rn, field w 16 15)] d in
  if one_of i [I_SWP; I_SWPB] then
    Some (Some (0, assign [(F_B, field w 22 1); (F_Rt, field w 12 15); (F_Rt2, w .& 15)] d), d)
  else if one_of i [I_LDREX; I_LDREXD; I_LDREXB; I_LDREXH] then
    Some (Some (0, <[F_Rt := field w 12 15]> d), d)
  else if one_of i [I_STREX; I_STREXD; I_STREXB; I_STREXH] then
    Some (Some (0, assign [(F_Rd, field w 12 15); (F_Rt, w .& 15)] d), d)
  else Some (None, d).

(** STR, LDR and their variants; PUSH and POP of a single register. *)
Definition disas_stack0 (d : darm_t) (w : Z) : option (Z * darm_t) :=
  i ← arr_get type_stack0_instr_lookup (field w 20 31);
  let d := assign [(F_instr, i); (F_instr_type, T_ARM_STACK0); (F_Rn, field w 16 15);
                   (F_Rt, field w 12 15); (F_P, field w 24 1); (F_U, field w 23 1);
                   (F_W, field w 21 1)] d in
  let d := if negb (bit w 25) then assign [(F_imm, w .& BITMSK_12); (F_I, B_SET)] d
           else assign [(F_shift_type, field w 5 3); (F_shift, field w 7 31); (F_Rm, w .& 15)] d in
  let d :=
    if (d F_instr =? I_STR) && (d F_Rn =? SP) && (d F_P =? 1) && (d F_U =? 0) && (d F_W =? 1) &&
       (d F_imm =? 4) then <[F_instr := I_PUSH]> d
    else if (d F_instr =? I_LDR) && (d F_Rn =? SP) && (d F_P =? 0) && (d F_U =? 1) &&
       (d F_W =? 0) && (d F_imm =? 4) then <[F_instr := I_POP]> d
    else d in
  Some (0, d).

Definition disas_sat (d : darm_t) (w : Z) : option (Z * darm_t) :=
  i ← arr_get type_sat_instr_lookup (field w 21 3);
  Some (0, assign [(F_instr, i); (F_instr_type, T_ARM_SAT); (F_Rn, field w 16 15);
                   (F_Rd, field w 12 15); (F_Rm, w .& 15)] d).

(** Packing, unpacking, saturation and reversal; falls through when nothing matches. *)
Definition disas_pusr (d : darm_t) (w : Z) : option (option (Z * darm_t) * darm_t) :=
  let op1 := field w 20 7 in
  let A := field w 16 15 in
  let op2 := field w 5 7 in
  let d := <[F_instr_type := T_ARM_PUSR]> d in
  '(r, d) ← (if op2 =? 3 then
      i ← arr_get type_pusr_instr_lookup ((op1 .<< 1) .| (if A =? 15 then 1 else 0));
      let d := <[F_instr := i]> d in
      if negb (i =? I_INVLD) then
        let d := assign [(F_Rd, field w 12 15); (F_Rm, w .& 15); (F_rotate, field w 7 24)] d in
        Some (Some (0, if negb (A =? 15) then <[F_Rn := A]> d else d), d)
      else Some (None, d)
    else Some (None, d));
  match r with
  | Some r => Some (Some r, d)
  | None =>
      if (op1 .& 2 =? 2) && (op2 .& 1 =? 0) then
        let i := if negb (op1 .>> 2 =? 0) then I_USAT else I_SSAT in
        let imm := field w 16 31 in
        Some (Some (0, assign [(F_instr, i); (F_I, B_SET);
                               (F_imm, if i =? I_SSAT then imm + 1 else imm);
                               (F_Rd, field w 12 15); (F_shift, field w 7 31);
                               (F_shift_type, field w 5 3); (F_Rn, w .& 15)] d), d)
      else if ((op1 =? 2) || (op1 =? 6)) && (op2 =? 1) then
        let i := if op1 =? 2 then I_SSAT16 else I_USAT16 in
        let imm := field w 16 15 in
        Some (Some (0, assign [(F_instr, i); (F_I, B_SET);
                               (F_imm, if i =? I_SSAT16 then imm + 1 else imm);
                               (F_Rd, field w 12 15); (F_Rn, w .& 15)] d), d)
      else Some (None, d)
  end.

(** A shift by an immediate, or by the low bits of [Rs]. *)
Definition shift_operand (d : darm_t) (w : Z) : darm_t :=
  if field w 4 1 =? B_SET then <[F_Rs := field w 8 15]> d
  else <[F_shift := field w 7 31]> d.

Definition disas_pas (d : darm_t) (w : Z) : option (Z * darm_t) :=
  i ← arr_get type_pas_instr_lookup (field w 17 56 .| field w 5 7);
  let d := <[F_instr := i]> d in
  if i =? I_INVLD then Some (-1, d)
  else Some (0, assign [(F_Rn, field w 16 15); (F_Rd, field w 12 15); (F_Rm, w .& 15)] d).

(** Signed multiplications; other labels fall through to the parallel additions. *)
Definition disas_sm (d : darm_t) (w : Z) : option (Z * darm_t) :=
  let i := d F_instr in
  if i =? I_SMMUL then
    let d := assign [(F_Rd, field w 16 15); (F_Ra, field w 12 15); (F_Rm, field w 8 15);
                     (F_R, field w 5 1); (F_Rn, w .& 15)] d in
    Some (0, if bit w 6 then <[F_instr := I_SMMLS]> d
             else if negb (d F_Ra =? 15) then <[F_instr := I_SMMLA]> d else d)
  else if i =? I_SMUSD then
    let d := assign [(F_Rd, field w 16 15); (F_Ra, field w 12 15); (F_Rm, field w 8 15);
                     (F_M, field w 5 1); (F_Rn, w .& 15)] d in
    Some (0, if bit w 6 && negb (d F_Rn =? 15) then <[F_instr := I_SMLSD]> d
             else if negb (bit w 6) then
               <[F_instr := if d F_Ra =? 15 then I_SMUAD else I_SMLAD]> d
             else d)
  else if i =? I_SMLSLD then
    let d := assign [(F_RdHi, field w 16 15); (F_RdLo, field w 12 15); (F_Rm, field w 8 15);
                     (F_M, field w 5 1); (F_Rn, w .& 15)] d in
    Some (0, if negb (bit w 6) then <[F_instr := I_SMLALD]> d else d)
  else if i =? I_SMLA then
    Some (0, assign [(F_Rd, field w 16 15); (F_Ra, field w 12 15); (F_Rm, field w 8 15);
                     (F_M, field w 6 1); (F_N, field w 5 1); (F_Rn, w .& 15)] d)
  else if i =? I_SMLAL then
    Some (0, assign [(F_RdHi, field w 16 15); (F_RdLo, field w 12 15); (F_Rm, field w 8 15);
                     (F_M, field w 6 1); (F_N, field w 5 1); (F_Rn, w .& 15)] d)
  else disas_pas d w.

Definition disas_misc (d : darm_t) (w : Z) : option (Z * darm_t) :=
  let i := d F_instr in
  if i =? I_MVN then
    let d := assign [(F_S, field w 20 1); (F_Rd, field w 12 15); (F_shift_type, field w 5 3);
                     (F_Rm, w .& 15)] d in
    Some (0, if field w 4 1 =? B_UNSET then <[F_shift := field w 7 31]> d
             else <[F_Rs := field w 8 15]> d)
  else if i =? I_DBG then Some (0, <[F_option := w .& 15]> d)
  else if i =? I_SMC then
    let op := field w 4 15 in
    if one_of op [8; 10; 12; 14] then
      Some (0, assign [(F_instr, I_SMUL); (F_instr_type, T_ARM_SM); (F_Rd, field w 16 15);
                       (F_Rm, field w 8 15); (F_M, field w 6 1); (F_N, field w 5 1);
                       (F_Rn, w .& 15)] d)
    else if op =? 7 then
      Some (0, assign [(F_instr, I_SMC); (F_imm, w .& 15); (F_I, B_SET)] d)
    else if op =? 1 then
      Some (0, assign [(F_instr, I_CLZ); (F_Rm, w .& 15); (F_Rd, field w 12 15)] d)
    else Some (-1, d)
  else if i =? I_SEL then
    let d := assign [(F_Rd, field w 12 15); (F_Rn, field w 16 15); (F_Rm, w .& 15)] d in
    Some (0, if negb (bit w 5) then
               assign [(F_instr, I_PKH); (F_shift_type, field w 5 2); (F_shift, field w 7 31);
                       (F_T, field w 6 1)] d
             else d)
  else disas_sm d w.

Definition disas_arith_imm (d : darm_t) (w : Z) : Z * darm_t :=
  let d := assign [(F_S, field w 20 1); (F_Rd, field w 12 15); (F_Rn, field w 16 15);
                   (F_imm, ARMExpandImm (w .& BITMSK_12)); (F_I, B_SET)] d in
  (0, if one_of (d F_instr) [I_ADD; I_SUB] && (d F_S =? 0) && (d F_Rn =? PC) then
        assign [(F_instr, I_ADR); (F_Rn, R_INVLD); (F_U, field w 23 1)] d
      else d).

Definition disas_bits (d : darm_t) (w : Z) : option (Z * darm_t) :=
  i ← arr_get type_bits_instr_lookup (field w 21 3);
  let d := assign [(F_instr, i); (F_instr_type, T_ARM_BITS); (F_Rd, field w 12 15);
                   (F_Rn, w .& 15); (F_lsb, field w 7 31)] d in
  if i =? I_BFI then
    let d := <[F_width := u32 (field w 16 31 - d F_lsb + 1)]> d in
    Some (0, if d F_Rn =? 15 then assign [(F_Rn, R_INVLD); (F_instr, I_BFC)] d else d)
  else Some (0, <[F_width := field w 16 31 + 1]> d).

Definition disas_brnchmisc (d : darm_t) (w : Z) : option (Z * darm_t) :=
  i ← arr_get type_brnchmisc_instr_lookup (field w 4 15);
  let d := <[F_instr := i]> d in
  if i =? I_BKPT then
    Some (0, assign [(F_imm, (field w 8 BITMSK_12 .<< 4) + (w .& 15)); (F_I, B_SET)] d)
  else if one_of i [I_BX; I_BXJ; I_BLX] then Some (0, <[F_Rm := w .& 15]> d)
  else if i =? I_MSR then
    Some (0, assign [(F_Rn, w .& 15); (F_imm, field w 18 3); (F_I, B_SET)] d)
  else Some (-1, d).

Definition disas_mov_imm (d : darm_t) (w : Z) : Z * darm_t :=
  let d := assign [(F_Rd, field w 12 15); (F_imm, w .& BITMSK_12); (F_I, B_SET)] d in
  (0, if one_of (d F_instr) [I_MOV; I_MVN] then
        assign [(F_S, field w 20 1); (F_imm, ARMExpandImm (d F_imm))] d
      else <[F_imm := d F_imm .| (field w 16 15 .<< 12)]> d).

Definition disas_dst_src (d : darm_t) (w : Z) : option (Z * darm_t) :=
  i ← arr_get type_shift_instr_lookup (field w 4 15);
  let d := <[F_instr := i]> d in
  if i =? I_INVLD then Some (-1, d)
  else
    let d := assign [(F_S, field w 20 1); (F_Rd, field w 12 15); (F_shift_type, field w 5 3)] d in
    if bit w 4 then Some (0, assign [(F_Rm, field w 8 15); (F_Rn, w .& 15)] d)
    else
      let d := assign [(F_Rm, w .& 15); (F_shift, field w 7 31)] d in
      Some (0, if (i =? I_LSL) && (d F_shift_type =? S_LSL) && (d F_shift =? 0) then
                 <[F_instr := I_MOV]> d
               else if (i =? I_ROR) && (d F_shift_type =? S_ROR) && (d F_shift =? 0) then
                 <[F_instr := I_RRX]> d
               else d).

Definition disas_ldstregs (d : darm_t) (w : Z) : Z * darm_t :=
  let d := assign [(F_W, field w 21 1); (F_Rn, field w 16 15); (F_reglist, w .& BITMSK_16)] d in
  (0, if (d F_instr =? I_LDM) && (d F_W =? 1) && (d F_Rn =? SP) then <[F_instr := I_POP]> d
      else if (d F_instr =? I_STMDB) && (d F_W =? 1) && (d F_Rn =? SP) then <[F_instr := I_PUSH]> d
      else d).

Definition disas_bitrev (d : darm_t) (w : Z) : Z * darm_t :=
  let d := assign [(F_Rd, field w 12 15); (F_Rm, w .& 15)] d in
  (0, if (d F_instr =? I_REV16) && (field w 4 15 =? 3) then <[F_instr := I_REV]> d
      else if (d F_instr =? I_REVSH) && (field w 4 15 =? 3) then <[F_instr := I_RBIT]> d
      else d).

Definition disas_mvcr (d : darm_t) (w : Z) : Z * darm_t :=
  let d := assign [(F_CRn, field w 16 15); (F_coproc, field w 8 15); (F_opc2, field w 5 7);
                   (F_CRm, w .& 15)] d in
  (0, if negb (bit w 4) then
        assign [(F_instr, I_CDP); (F_opc1, field w 20 15); (F_CRd, field w 12 15)] d
      else assign [(F_opc1, field w 21 7); (F_Rt, field w 12 15)] d).

(** The lookup by bits 20 to 27, after the exceptions. *)
Definition disas_by_type (d : darm_t) (w : Z) : option (Z * darm_t) :=
  label ← arr_get armv7_instr_labels (field w 20 255);
  type ← arr_get armv7_instr_types (field w 20 255);
  let d := assign [(F_instr, label); (F_instr_type, type)] d in
  if type =? T_ARM_ARITH_SHIFT then
    let d := assign [(F_S, field w 20 1); (F_Rd, field w 12 15); (F_Rn, field w 16 15);
                     (F_Rm, w .& 15); (F_shift_type, field w 5 3)] d in
    Some (0, shift_operand d w)
  else if type =? T_ARM_ARITH_IMM then Some (disas_arith_imm d w)
  else if type =? T_ARM_BITS then disas_bits d w
  else if type =? T_ARM_BRNCHSC then
    let imm := w .& BITMSK_24 in
    Some (0, assign [(F_I, B_SET); (F_imm, if negb (label =? I_SVC) then branch_imm imm else imm)] d)
  else if type =? T_ARM_BRNCHMISC then disas_brnchmisc d w
  else if type =? T_ARM_MOV_IMM then Some (disas_mov_imm d w)
  else if type =? T_ARM_CMP_OP then
    let d := assign [(F_Rn, field w 16 15); (F_Rm, w .& 15); (F_shift_type, field w 5 3)] d in
    Some (0, shift_operand d w)
  else if type =? T_ARM_CMP_IMM then
    Some (0, assign [(F_Rn, field w 16 15); (F_imm, ARMExpandImm (w .& BITMSK_12)); (F_I, B_SET)] d)
  else if type =? T_ARM_OPLESS then
    i ← arr_get type_opless_instr_lookup (w .& 7);
    Some (if i =? I_INVLD then -1 else 0, <[F_instr := i]> d)
  else if type =? T_ARM_DST_SRC then disas_dst_src d w
  else if type =? T_ARM_LDSTREGS then Some (disas_ldstregs d w)
  else if type =? T_ARM_BITREV then Some (disas_bitrev d w)
  else if type =? T_ARM_MISC then disas_misc d w
  else if type =? T_ARM_SM then disas_sm d w
  else if type =? T_ARM_PAS then disas_pas d w
  else if type =? T_ARM_MVCR then Some (disas_mvcr d w)
  else if type =? T_ARM_UDF then
    Some (0, assign [(F_I, B_SET); (F_imm, (w .& 15) .| field w 4 (BITMSK_12 .<< 4))] d)
  else Some (-1, d).

(** The saturating and packing instructions, then the table. *)
Definition disas_rest (d : darm_t) (w : Z) : option (Z * darm_t) :=
  if w .& ((249 .<< 20) .| (15 .<< 4)) =? (1 .<< 24) .| (5 .<< 4) then disas_sat d w
  else if w .& ((31 .<< 23) .| (1 .<< 4)) =? (13 .<< 23) .| (1 .<< 4) then
    '(r, d) ← disas_pusr d w;
    match r with
    | Some r => Some r
    | None => disas_by_type d w
    end
  else disas_by_type d w.

Definition armv7_disas_cond (d : darm_t) (w : Z) : option (Z * darm_t) :=
  if w .& ((7 .<< 25) .| (9 .<< 4)) =? 9 .<< 4 then
    if negb (bit w 24) && (field w 4 15 =? 9) then disas_mul d w
    else if negb (bit w 24) && negb (field w 5 3 =? 0) && bit w 21 then disas_stack1 d w
    else if negb (field w 5 3 =? 0) && negb (field w 20 18 =? 2) then disas_stack2 d w
    else if bit w 24 && (field w 4 15 =? 9) then
      '(r, d) ← disas_sync d w;
      match r with
      | Some r => Some r
      | None => disas_rest d w
      end
    else disas_rest d w
  else if field w 26 3 =? 1 then
    let media_mask := (1 .<< 25) .| (1 .<< 4) in
    if negb (w .& media_mask =? media_mask) then disas_stack0 d w else disas_rest d w
  else disas_rest d w.

Definition darm_armv7_disasm (w : Z) : option (Z * darm_t) :=
  let d := assign [(F_w, w); (F_cond, field w 28 15)] darm_init in
  '(ret, d) ← (if d F_cond =? C_UNCOND then armv7_disas_uncond d w else armv7_disas_cond d w);
  if ret <? 0 then Some (ret, d)
  else
    Some (0, if (d F_shift_type =? S_LSL) && (d F_Rs =? R_INVLD) && (d F_shift =? 0)
             then <[F_shift_type := S_INVLD]> d else d).
End Armv7.

(** ** Register lists (darm.c) *)

Section RegList.
(** [__builtin_ctz (0)], which GCC leaves undefined. *)
Variable ctz_0 : Z.

Fixpoint ctz_pos (p : positive) : Z :=
  match p with
  | xO p => ctz_pos p + 1
  | _ => 0
  end.

Definition ctz (n : Z) : Z :=
  match n with
  | Z0 => ctz_0
  | Zpos p | Zneg p => ctz_pos p
  end.

(** [for (reg = start; reg == __builtin_ctz (reglist); reg++) reglist &= ~(1 << reg)]. *)
Fixpoint clear_run (fuel : nat) (reg reglist : Z) : option (Z * Z) :=
  if reg =? ctz reglist then
    match fuel with
    | O => None
    | S fuel => clear_run fuel (reg + 1) (reglist .& Z.lnot (1 .<< reg))
    end
  else Some (reg, reglist).

(** [while ((tmp+1) != (reg-1)) *regs++ = ++tmp]: the registers in between. *)
Fixpoint between (fuel : nat) (tmp reg : Z) : option (list Z) :=
  if tmp + 1 =? reg - 1 then Some []
  else
    match fuel with
    | O => None
    | S fuel => rs ← between fuel (tmp + 1) reg; Some ((tmp + 1) :: rs)
    end.

(** The body of the [while (reglist != 0)] loop appends one run of consecutive registers. *)
Definition reglist_run (reglist : Z) : option (list Z * Z) :=
  let start := ctz reglist in
  '(reg, reglist) ← clear_run 32 start reglist;
  if negb (reg =? start + 1) then
    if negb (reg =? start + 2) then
      mid ← between 32 start reg;
      Some (start :: mid ++ [reg - 1], reglist)
    else Some ([start; reg - 1], reglist)
  else Some ([start], reglist).

Fixpoint reglist_loop (fuel : nat) (reglist : Z) (regs : list Z) : option (list Z) :=
  if reglist =? 0 then Some regs
  else
    match fuel with
    | O => None
    | S fuel => '(rs, reglist) ← reglist_run reglist; reglist_loop fuel reglist (regs ++ rs)
    end.

(** The count returned and the registers written to [regs], in order. *)
Definition darm_reglist2 (reglist : Z) : option (Z * list Z) :=
  if reglist =? 0 then Some (-1, [])
  else regs ← reglist_loop 17 reglist []; Some (Z.of_nat (length regs), regs).
End RegList.
