(* ===== verification/DarmTheorems.v ===== *)
(** What the disassembler promises: it has a result for every instruction word, with fields of
    their types; the list of registers is exactly the set bits of the mask; and decoding an
    instruction fails only for a store of more registers than the arrays of [Inst] hold. *)

From Stdlib Require Import ZArith Lia Sorted.
From stdpp Require Import base tactics functions option numbers sets list list_numbers.
From S2P Require Import Prelude DarmTbl Darm.

(** ** Bits *)

Lemma field_range w n k : 0 ≤ k → 0 ≤ field w n k ≤ k.
Proof. apply land_range. Qed.

(** ** The type of every member *)

(** The values a member may have; the others are not restricted. *)
Definition in_range (f : dfield) (v : Z) : Prop :=
  match f with
  | F_Rd | F_Rn | F_Rm | F_Ra | F_Rt | F_Rt2 | F_RdHi | F_RdLo | F_Rs | F_CRd | F_CRn | F_CRm => -1 ≤ v ≤ 15
  | F_cond | F_coproc | F_opc1 => 0 ≤ v ≤ 15
  | F_opc2 => 0 ≤ v ≤ 7
  | F_option => -1 ≤ v ≤ 15
  | F_B | F_S | F_E | F_M | F_N | F_U | F_H | F_P | F_R | F_T | F_W | F_I => 0 ≤ v ≤ 2
  | F_shift_type => -1 ≤ v ≤ 3
  | F_shift | F_lsb => 0 ≤ v ≤ 31
  | F_reglist => 0 ≤ v ≤ 65535
  | _ => True
  end.

Definition typed (d : darm_t) : Prop := ∀ f, in_range f (d f).

(** No register list. *)
Definition listless (d : darm_t) : Prop := d F_reglist = 0.

Lemma insert_typed d f v : in_range f v → typed d → typed (<[f := v]> d).
Proof. intros Hv Hd g. destruct (decide (f = g)) as [<-|]; [by rewrite fn_lookup_insert|by rewrite fn_lookup_insert_ne]. Qed.

Lemma assign_typed l d : Forall (λ x, in_range x.1 x.2) l → typed d → typed (assign l d).
Proof. intros Hl. revert d. induction Hl as [|x l Hx _ IH]; intros d Hd; [done|]. apply IH. by apply insert_typed. Qed.

Lemma insert_other d f v g : f ≠ g → (<[f := v]> d : darm_t) g = d g.
Proof. intros. by apply fn_lookup_insert_ne. Qed.

Lemma assign_other l d g : g ∉ l.*1 → assign l d g = d g.
Proof.
  revert d. induction l as [|[f v] l IH]; intros d Hg; [done|]. simpl in *. apply not_elem_of_cons in Hg as [Hf Hg].
  change (assign l (<[f := v]> d) g = d g). rewrite (IH _ Hg). by apply insert_other.
Qed.

(** What one branch of the disassembler leaves. *)
Definition good (d : darm_t) : Prop := typed d ∧ listless d.

Lemma insert_good d f v : in_range f v → f ≠ F_reglist → good d → good (<[f := v]> d).
Proof. intros Hv Hf [Ht Hl]. split; [by apply insert_typed|]. unfold listless. by rewrite insert_other. Qed.

Lemma assign_good l d : Forall (λ x, in_range x.1 x.2 ∧ x.1 ≠ F_reglist) l → good d → good (assign l d).
Proof. intros Hl. revert d. induction Hl as [|x l [Hx Hf] _ IH]; intros d Hd; [done|]. apply IH. by apply insert_good. Qed.

Definition defined (r : option (Z * darm_t)) : Prop := ∃ ret d, r = Some (ret, d) ∧ (ret = 0 ∨ ret = -1) ∧ good d.

Lemma defined_0 d : good d → defined (Some (0, d)).
Proof. intros. exists 0, d. auto. Qed.

Lemma defined_1 d : good d → defined (Some (-1, d)).
Proof. intros. exists (-1), d. auto. Qed.

(** A lookup in one of the tables. *)
Lemma lookup_defined {A} t i (f : Z → option A) (P : option A → Prop) :
  0 ≤ i < Z.of_nat (length t) → (∀ x, P (f x)) → P (x ← arr_get t i; f x).
Proof. intros Hi Hf. destruct (arr_get_is_Some t i Hi) as [x ->]. apply Hf. Qed.

Ltac range :=
  repeat match goal with
  | |- context [field ?w ?n ?k] =>
      lazymatch goal with
      | _ : 0 ≤ field w n k ≤ k |- _ => fail
      | _ => pose proof (field_range w n k ltac:(lia))
      end
  | |- context [?a .& ?k] =>
      lazymatch goal with
      | _ : 0 ≤ a .& k ≤ k |- _ => fail
      | _ => pose proof (land_range a k ltac:(lia))
      end
  end;
  cbv [B_UNSET B_SET B_INVLD R_INVLD O_INVLD C_INVLD S_INVLD S_LSL S_ROR SP PC] in *; lia.

Ltac good_step :=
  match goal with
  | |- defined (Some (0, _)) => apply defined_0
  | |- defined (Some (-1, _)) => apply defined_1
  | |- good (assign _ _) => apply assign_good; [repeat (apply Forall_cons; split; [split; [cbn [fst snd in_range]; first [exact I|range]|discriminate]|]); apply Forall_nil; exact I|]
  | |- good (<[_ := _]> _) => apply insert_good; [cbn [in_range]; first [exact I|range]|discriminate|]
  | |- good (if ?b then _ else _) => destruct b
  | |- defined (if ?b then _ else _) => destruct b
  | |- defined (Some (0, if ?b then _ else _)) => destruct b
  | |- good ?d => assumption
  end.
Ltac good := cbv zeta; repeat good_step.

Ltac look n := apply lookup_defined; [match goal with |- _ ≤ _ < Z.of_nat ?l => change (Z.of_nat l) with n end|intros ?].

Section Disasm.
Variable shl_32 : Z → Z.

(** A lookup by a field of the word. *)
Lemma mul_good d w : good d → defined (disas_mul d w).
Proof. intros Hd. unfold disas_mul. look 8; [range|]. good. Qed.

Lemma stack_operand_good d w : good d → good (stack_operand d w).
Proof. intros Hd. unfold stack_operand. good. Qed.

Lemma stack_index_range w : 0 ≤ stack_index w < 8.
Proof. unfold stack_index. apply (lor_range _ _ 3); range. Qed.

Lemma stack1_good d w : good d → defined (disas_stack1 d w).
Proof. intros Hd. unfold disas_stack1. look 8; [apply stack_index_range|]. good. apply stack_operand_good. good. Qed.

Lemma stack2_good d w : good d → defined (disas_stack2 d w).
Proof. intros Hd. unfold disas_stack2. look 8; [apply stack_index_range|]. good. apply stack_operand_good. good. Qed.

Lemma stack0_good d w : good d → defined (disas_stack0 d w).
Proof. intros Hd. unfold disas_stack0. look 32; [range|]. good. Qed.

Lemma sat_good d w : good d → defined (disas_sat d w).
Proof. intros Hd. unfold disas_sat. look 4; [range|]. good. Qed.

Lemma bits_good d w : good d → defined (disas_bits d w).
Proof. intros Hd. unfold disas_bits. look 4; [range|]. good. Qed.

Lemma brnchmisc_good d w : good d → defined (disas_brnchmisc d w).
Proof. intros Hd. unfold disas_brnchmisc. look 16; [range|]. good. Qed.

Lemma dst_src_good d w : good d → defined (disas_dst_src d w).
Proof. intros Hd. unfold disas_dst_src. look 16; [range|]. good. Qed.

Lemma pas_good d w : good d → defined (disas_pas d w).
Proof. intros Hd. unfold disas_pas. look 64; [apply (lor_range _ _ 6); range|]. good. Qed.

Lemma sm_good d w : good d → defined (disas_sm d w).
Proof. intros Hd. unfold disas_sm. good. by apply pas_good. Qed.

Lemma misc_good d w : good d → defined (disas_misc d w).
Proof. intros Hd. unfold disas_misc. good. by apply sm_good. Qed.

Lemma shift_operand_good d w : good d → good (shift_operand d w).
Proof. intros Hd. unfold shift_operand. good. Qed.

(** Two stages may find nothing and leave the word to the next one. *)
Definition passes (r : option (option (Z * darm_t) * darm_t)) : Prop :=
  ∃ r' d, r = Some (r', d) ∧ good d ∧ match r' with Some x => defined (Some x) | None => True end.

Lemma passes_defined r (f : darm_t → option (Z * darm_t)) :
  passes r → (∀ d, good d → defined (f d)) →
  defined ('(r', d) ← r; match r' with Some x => Some x | None => f d end).
Proof. intros (r' & d & -> & Hd & Hr) Hf. cbn [mbind option_bind]. destruct r'; [done|by apply Hf]. Qed.

Lemma passes_bind r (g : darm_t → option (option (Z * darm_t) * darm_t)) :
  passes r → (∀ d, good d → passes (g d)) →
  passes ('(r', d) ← r; match r' with Some x => Some (Some x, d) | None => g d end).
Proof.
  intros (r' & d & -> & Hd & Hr) Hg. cbn [mbind option_bind]. destruct r' as [x|]; [|by apply Hg]. by exists (Some x), d.
Qed.

Lemma passes_found x d : good d → defined (Some x) → passes (Some (Some x, d)).
Proof. intros. by exists (Some x), d. Qed.

Lemma passes_none d : good d → passes (Some (None, d)).
Proof. intros. by exists None, d. Qed.

Ltac passes :=
  repeat match goal with
  | |- passes (if ?b then _ else _) => destruct b
  | |- passes (Some (Some _, _)) => apply passes_found; good
  | |- passes (Some (None, _)) => apply passes_none; good
  end.

Lemma sync_good d w : good d → passes (disas_sync d w).
Proof. intros Hd. unfold disas_sync. look 16; [range|]. cbv zeta. passes. Qed.

Lemma pusr_good d w : good d → passes (disas_pusr d w).
Proof.
  intros Hd. unfold disas_pusr. cbv zeta.
  refine (passes_bind (if field w 5 7 =? 3 then _ else _) (λ d, if (field w 20 7 .& 2 =? 2) && (field w 5 7 .& 1 =? 0) then _ else _) _ _).
  - destruct (field w 5 7 =? 3); [|passes]. look 16.
    + apply (lor_range _ _ 4); [lia| |destruct (_ =? _); lia]. rewrite Z.shiftl_mul_pow2 by lia. range.
    + passes.
  - intros d' Hd'. passes.
Qed.

(** ** The table *)

Lemma arith_imm_good d w : good d → defined (Some (disas_arith_imm shl_32 d w)).
Proof. intros Hd. unfold disas_arith_imm. good. Qed.

Lemma mov_imm_good d w : good d → defined (Some (disas_mov_imm shl_32 d w)).
Proof. intros Hd. unfold disas_mov_imm. good. Qed.

Lemma bitrev_good d w : good d → defined (Some (disas_bitrev d w)).
Proof. intros Hd. unfold disas_bitrev. good. Qed.

Lemma mvcr_good d w : good d → defined (Some (disas_mvcr d w)).
Proof. intros Hd. unfold disas_mvcr. good. Qed.

(** The type of an instruction word, by bits 20 to 27. *)
Definition table_type (w : Z) : Z := default T_INVLD (arr_get armv7_instr_types (field w 20 255)).
Definition table_label (w : Z) : Z := default I_INVLD (arr_get armv7_instr_labels (field w 20 255)).

Lemma table_lookup w :
  arr_get armv7_instr_labels (field w 20 255) = Some (table_label w) ∧
  arr_get armv7_instr_types (field w 20 255) = Some (table_type w).
Proof.
  unfold table_type, table_label. pose proof (field_range w 20 255 ltac:(lia)).
  destruct (arr_get_is_Some armv7_instr_labels (field w 20 255)) as [x ->]; [change (Z.of_nat (length armv7_instr_labels)) with 256; lia|].
  destruct (arr_get_is_Some armv7_instr_types (field w 20 255)) as [y ->]; [change (Z.of_nat (length armv7_instr_types)) with 256; lia|]. done.
Qed.

Lemma by_type_good d w : good d → table_type w ≠ T_ARM_LDSTREGS → defined (disas_by_type shl_32 d w).
Proof.
  intros Hd Ht. unfold disas_by_type. destruct (table_lookup w) as [-> ->]. cbn [mbind option_bind]. cbv zeta.
  set (d' := assign [(F_instr, table_label w); (F_instr_type, table_type w)] d). assert (Hd' : good d') by (unfold d'; good).
  clearbody d'. rewrite (proj2 (Z.eqb_neq _ _) Ht).
  repeat match goal with |- defined (if ?t =? ?c then _ else _) => destruct (t =? c) end;
    auto using arith_imm_good, bits_good, brnchmisc_good, mov_imm_good, dst_src_good, bitrev_good, misc_good, sm_good, pas_good, mvcr_good; good.
  - apply shift_operand_good. good.
  - apply shift_operand_good. good.
  - look 8; [range|]. destruct (_ =? I_INVLD); good.
Qed.

Lemma by_type_multiple d w :
  table_type w = T_ARM_LDSTREGS →
  disas_by_type shl_32 d w =
    Some (disas_ldstregs (assign [(F_instr, table_label w); (F_instr_type, T_ARM_LDSTREGS)] d) w).
Proof. intros Ht. unfold disas_by_type. destruct (table_lookup w) as [-> ->]. cbn [mbind option_bind]. rewrite Ht. reflexivity. Qed.

(** ** Loads and stores of several registers *)

Definition load_labels : list Z := [I_LDM; I_LDMDA; I_LDMDB; I_LDMIB; I_POP].
Definition store_labels : list Z := [I_STM; I_STMDA; I_STMDB; I_STMIB; I_PUSH].

(** Bits 25 to 27 are 100 and bit 22 is not set; bit 20 makes it a load. *)
Definition multiple (w : Z) : bool := field w 20 0xE4 =? 0x80.

Definition table_entry_ok (i : Z) : bool :=
  match arr_get armv7_instr_types i, arr_get armv7_instr_labels i with
  | Some t, Some l =>
      Bool.eqb (t =? T_ARM_LDSTREGS) (i .& 0xE4 =? 0x80) &&
      (negb (t =? T_ARM_LDSTREGS) || one_of l (if Z.testbit i 0 then load_labels else store_labels))
  | _, _ => false
  end.

Lemma table_scan i : 0 ≤ i < 256 → table_entry_ok i = true.
Proof.
  intros Hi. assert (H : forallb table_entry_ok (seqZ 0 256) = true) by (vm_compute; reflexivity).
  rewrite forallb_forall in H. apply H. apply list_elem_of_In, elem_of_seqZ. lia.
Qed.

Lemma bit_testbit w n : 0 ≤ n → bit w n = Z.testbit w n.
Proof.
  intros Hn. unfold bit, field. change 1 with (Z.ones 1) at 1. rewrite Z.land_ones, <-Z.bit0_mod by lia. rewrite Z.shiftr_spec by lia.
  rewrite Z.add_0_l. by destruct (Z.testbit w n).
Qed.

Lemma table_multiple w :
  (table_type w = T_ARM_LDSTREGS ↔ multiple w = true) ∧
  (multiple w = true → one_of (table_label w) (if bit w 20 then load_labels else store_labels) = true).
Proof.
  pose proof (field_range w 20 255 ltac:(lia)) as Hr. pose proof (table_scan (field w 20 255) ltac:(lia)) as H.
  unfold table_entry_ok in H. destruct (table_lookup w) as [El Et]. rewrite El, Et in H.
  assert (E4 : field w 20 255 .& 228 = field w 20 0xE4) by (unfold field; by rewrite <-Z.land_assoc).
  assert (Eb : Z.testbit (field w 20 255) 0 = bit w 20).
  { rewrite bit_testbit by lia. unfold field. rewrite Z.land_spec, Z.shiftr_spec by lia. apply andb_true_r. }
  rewrite E4, Eb in H. fold (multiple w) in H. apply andb_true_iff in H as [H1 H2]. apply Bool.eqb_prop in H1.
  destruct (multiple w); [apply Z.eqb_eq in H1|apply Z.eqb_neq in H1]; split; try done.
  rewrite (proj2 (Z.eqb_eq _ _) H1) in H2. done.
Qed.

(** A mask that looks at bit 27 tells words with this bit from words without it. *)
Lemma mask_neq w m v n : 0 ≤ n → Z.testbit w n = true → Z.testbit m n = true → Z.testbit v n = false → (w .& m =? v) = false.
Proof. intros Hn Hw Hm Hv. apply Z.eqb_neq. intros E. rewrite <-E, Z.land_spec, Hw, Hm in Hv. done. Qed.

Lemma multiple_bit w : multiple w = true → Z.testbit w 27 = true.
Proof.
  intros E%Z.eqb_eq. assert (H : Z.testbit (field w 20 0xE4) 7 = true) by (by rewrite E). unfold field in H.
  rewrite Z.land_spec, Z.shiftr_spec in H by lia. by apply andb_true_iff in H as [? _].
Qed.

Lemma rest_good d w : good d → multiple w = false → defined (disas_rest shl_32 d w).
Proof.
  intros Hd Hm. assert (Ht : table_type w ≠ T_ARM_LDSTREGS) by (rewrite (proj1 (table_multiple w)); by rewrite Hm).
  unfold disas_rest. destruct (_ =? _); [by apply sat_good|]. destruct (_ =? _); [|by apply by_type_good].
  apply (passes_defined _ (λ d, disas_by_type shl_32 d w)); [by apply pusr_good|]. intros. by apply by_type_good.
Qed.

Lemma cond_good d w : good d → multiple w = false → defined (armv7_disas_cond shl_32 d w).
Proof.
  intros Hd Hm. unfold armv7_disas_cond. cbv zeta.
  repeat match goal with |- defined (if ?b then _ else _) => destruct b end; auto using mul_good, stack1_good, stack2_good, stack0_good, rest_good.
  apply (passes_defined _ (λ d, disas_rest shl_32 d w)); [by apply sync_good|]. intros. by apply rest_good.
Qed.

Lemma cond_multiple d w : multiple w = true → armv7_disas_cond shl_32 d w = disas_by_type shl_32 d w.
Proof.
  intros Hm%multiple_bit. unfold armv7_disas_cond, disas_rest. cbv zeta.
  rewrite !(mask_neq w _ _ 27) by (done || lia).
  change (field w 26 3) with (w .>> 26 .& 3). rewrite (mask_neq (w .>> 26) 3 1 1) by first [lia|reflexivity|rewrite Z.shiftr_spec by lia; exact Hm].
  do 2 rewrite (mask_neq w _ _ 27) by (done || lia). done.
Qed.

Lemma preload_good d w : good d → defined (Some (uncond_preload d w)).
Proof. intros Hd. unfold uncond_preload. good. Qed.

Lemma uncond_good d w : good d → defined (armv7_disas_uncond d w).
Proof.
  intros Hd. unfold armv7_disas_uncond. cbv zeta.
  repeat match goal with |- defined (match ?x with _ => _ end) => destruct x end; try (good; fail); try (apply preload_good; good; fail).
  look 8; [range|]. good. apply preload_good. good.
Qed.

(** ** All words *)

Definition start_of (w : Z) : darm_t := assign [(F_w, w); (F_cond, field w 28 15)] darm_init.

Lemma start_good w : good (start_of w).
Proof. unfold start_of. good. split; [|done]. intros []; vm_compute; done. Qed.

Lemma start_cond w : start_of w F_cond = field w 28 15.
Proof. reflexivity. Qed.

Lemma disasm_single w :
  field w 28 15 = 15 ∨ multiple w = false → defined (darm_armv7_disasm shl_32 w).
Proof.
  intros Hw. unfold darm_armv7_disasm. cbv zeta. fold (start_of w). rewrite start_cond.
  set (r := if _ =? C_UNCOND then _ else _).
  assert (H : defined r).
  { unfold r. pose proof (start_good w). destruct (Z.eqb_spec (field w 28 15) C_UNCOND) as [E|E]; [by apply uncond_good|].
    apply cond_good; [done|]. by destruct Hw. }
  destruct H as (ret & d & -> & Hret & Hd). cbn [mbind option_bind].
  destruct Hret as [-> | ->]; [|by apply defined_1]. change (0 <? 0) with false. cbv iota. good.
Qed.

(** The fields of a load or store of several registers. *)
Record multiple_fields (w : Z) (d : darm_t) : Prop := {
  mf_typed : typed d;
  mf_list : d F_reglist = w .& 65535;
  mf_Rn : d F_Rn = field w 16 15;
  mf_Rt : d F_Rt = -1;
  mf_S : d F_S = B_INVLD;
  mf_cond : d F_cond = field w 28 15;
  mf_label : one_of (d F_instr) (if bit w 20 then load_labels else store_labels) = true;
}.

Lemma one_of_In i l : one_of i l = true ↔ i ∈ l.
Proof.
  unfold one_of. rewrite existsb_exists, list_elem_of_In. split; [|intros H; exists i; by rewrite Z.eqb_refl].
  intros (x & Hx & ->%Z.eqb_eq). done.
Qed.

Lemma disasm_multiple w :
  field w 28 15 ≠ 15 → multiple w = true →
  ∃ d, darm_armv7_disasm shl_32 w = Some (0, d) ∧ multiple_fields w d.
Proof.
  intros Hc Hm. unfold darm_armv7_disasm. cbv zeta. fold (start_of w). rewrite start_cond.
  rewrite (proj2 (Z.eqb_neq _ C_UNCOND) Hc), cond_multiple, by_type_multiple by (done || by apply table_multiple).
  pose proof (proj2 (table_multiple w) Hm) as Hl.
  unfold disas_ldstregs. cbn [mbind option_bind]. cbv zeta. change (0 <? 0) with false. cbv iota.
  set (d0 := assign _ (assign _ _)). eexists. split; [reflexivity|].
  assert (H0 : multiple_fields w d0).
  { split; try done. unfold d0. apply assign_typed; [|apply assign_typed; [|apply start_good]].
    - repeat (apply Forall_cons; split; [cbn [fst snd in_range]; first [exact I|unfold BITMSK_16; range]|]). apply Forall_nil. done.
    - repeat (apply Forall_cons; split; [exact I|]). by apply Forall_nil. }
  clearbody d0.
  assert (Hst : ∀ d, multiple_fields w d → multiple_fields w (<[F_shift_type := S_INVLD]> d)).
  { intros d [Ht ? ? ? ? ? ?]. split; rewrite ?insert_other by done; try done. apply insert_typed; [simpl; unfold S_INVLD; lia|done]. }
  assert (Hin : ∀ d l, multiple_fields w d → one_of l (if bit w 20 then load_labels else store_labels) = true →
    multiple_fields w (<[F_instr := l]> d)).
  { intros d l [Ht ? ? ? ? ? ?] Hl'. split; [by apply insert_typed|..|by rewrite fn_lookup_insert]; by rewrite insert_other. }
  set (d1 := if (d0 F_instr =? I_LDM) && _ && _ then _ else _).
  assert (H1 : multiple_fields w d1).
  { pose proof (mf_label _ _ H0) as Hl0. unfold d1. clear d1. destruct (Z.eqb_spec (d0 F_instr) I_LDM) as [E|_].
    - rewrite E in Hl0. destruct (bit w 20); [|discriminate Hl0]. rewrite E. change (I_LDM =? I_STMDB) with false.
      cbn [andb]. destruct (_ && _); [by apply Hin|exact H0].
    - cbn [andb]. destruct (Z.eqb_spec (d0 F_instr) I_STMDB) as [E|_]; [|exact H0].
      rewrite E in Hl0. destruct (bit w 20); [discriminate Hl0|]. cbn [andb]. destruct (_ && _); [by apply Hin|exact H0]. }
  clearbody d1. destruct (_ && _); [by apply Hst|exact H1].
Qed.
End Disasm.

(** ** Register lists *)

(** The registers of a mask, in ascending order. *)
Definition registers (l : Z) : list Z := filter (λ i, Z.testbit l i = true) (seqZ 0 16).

Definition clear_below (l k : Z) : Prop := ∀ i, 0 ≤ i < k → Z.testbit l i = false.

Lemma ctz_pos_ok p : 0 ≤ ctz_pos p ∧ Z.testbit (Zpos p) (ctz_pos p) = true ∧ clear_below (Zpos p) (ctz_pos p).
Proof.
  induction p as [p IH|p IH|]; simpl ctz_pos; [split; [lia|]; split; [done|]; intros i; lia| |split; [lia|]; split; [done|]; intros i; lia].
  destruct IH as (H0 & H1 & H2). split; [lia|]. change (Zpos p~0) with (2 * Zpos p). split; [by rewrite Z.add_1_r, Z.double_bits_succ|].
  intros i Hi. destruct (decide (i = 0)) as [->|]; [apply Z.testbit_even_0|]. replace i with (Z.succ (i - 1)) by lia.
  rewrite Z.double_bits_succ. apply H2. lia.
Qed.

Lemma small_bit l i : 0 ≤ l < 2 ^ 16 → Z.testbit l i = true → 0 ≤ i < 16.
Proof.
  intros Hl Hi. destruct (Z_lt_dec i 0) as [|H0]; [by rewrite Z.testbit_neg_r in Hi|]. split; [lia|].
  destruct (Z_lt_dec i 16); [done|]. rewrite (proj1 (Z.bounded_iff_bits_nonneg' 16 l ltac:(lia) ltac:(lia)) Hl i ltac:(lia)) in Hi. done.
Qed.

Section Lists.
Context (ctz_0 : Z) (Hctz : 16 < ctz_0).

Lemma ctz_ok l : 0 < l < 2 ^ 16 → Z.testbit l (ctz ctz_0 l) = true ∧ clear_below l (ctz ctz_0 l) ∧ 0 ≤ ctz ctz_0 l < 16.
Proof.
  intros Hl. destruct l as [|p|]; [lia| |lia]. destruct (ctz_pos_ok p) as (H0 & H1 & H2). split; [done|]. split; [done|].
  apply (small_bit (Zpos p)); [lia|done].
Qed.

Lemma clear_bit l r i : 0 ≤ r → 0 ≤ i → Z.testbit (l .& Z.lnot (1 .<< r)) i = Z.testbit l i && negb (i =? r).
Proof.
  intros Hr Hi. rewrite Z.land_spec, Z.lnot_spec by done. f_equal. f_equal. rewrite Z.shiftl_1_l, Z.pow2_bits_eqb by done.
  apply Z.eqb_sym.
Qed.

(** A run of consecutive registers is removed. *)
Lemma clear_run_ok fuel reg l :
  0 ≤ l < 2 ^ 16 → 0 ≤ reg ≤ 16 → clear_below l reg → (Z.to_nat (17 - reg) ≤ fuel)%nat →
  ∃ reg' l', clear_run ctz_0 fuel reg l = Some (reg', l') ∧ reg ≤ reg' ≤ 16 ∧ 0 ≤ l' < 2 ^ 16 ∧
    (∀ i, 0 ≤ i → Z.testbit l' i = Z.testbit l i && (reg' <=? i)) ∧
    (∀ i, reg ≤ i < reg' → Z.testbit l i = true) ∧ Z.testbit l reg' = false.
Proof.
  revert reg l. induction fuel as [|fuel IH]; intros reg l Hl Hreg Hcl Hf; [lia|]. simpl.
  destruct (Z.eqb_spec reg (ctz ctz_0 l)) as [E|E].
  - assert (Hl0 : 0 < l). { destruct (decide (l = 0)) as [->|]; [simpl in E; lia|lia]. }
    destruct (ctz_ok l ltac:(lia)) as (Hb & _ & Hr). rewrite <-E in Hb, Hr. set (l2 := l .& Z.lnot (1 .<< reg)).
    assert (Hl2 : ∀ i, 0 ≤ i → Z.testbit l2 i = Z.testbit l i && negb (i =? reg)) by (intros; apply clear_bit; lia).
    assert (H2 : 0 ≤ l2 ≤ l).
    { unfold l2. rewrite Z.land_comm. apply land_range. lia. }
    destruct (IH (reg + 1) l2) as (reg' & l' & -> & Hr' & Hl' & Hbits & Hrun & Hend); [lia|lia| |lia|].
    { intros i Hi. rewrite Hl2 by lia. destruct (Z.eqb_spec i reg); [apply andb_false_r|]. rewrite Hcl by lia. done. }
    exists reg', l'. split; [done|]. split; [lia|]. split; [done|]. split; [|split].
    + intros i Hi. rewrite Hbits, Hl2 by done. destruct (Z.eqb_spec i reg) as [->|]; [|by rewrite andb_true_r].
      rewrite (proj2 (Z.leb_gt reg' reg)) by lia. by rewrite !andb_false_r.
    + intros i Hi. destruct (decide (i = reg)) as [->|]; [done|]. specialize (Hrun i ltac:(lia)). rewrite Hl2 in Hrun by lia.
      by apply andb_true_iff in Hrun as [? _].
    + rewrite Hl2 in Hend by lia. destruct (Z.eqb_spec reg' reg); [lia|]. by rewrite andb_true_r in Hend.
  - exists reg, l. split; [done|]. split; [lia|]. split; [done|]. split; [|split; [intros; lia|]].
    + intros i Hi. destruct (Z.leb_spec reg i); [by rewrite andb_true_r|]. rewrite Hcl by lia. done.
    + destruct (decide (l = 0)) as [->|]; [apply Z.testbit_0_l|]. destruct (ctz_ok l ltac:(lia)) as (Hb & Hc & Hr).
      apply Hc. split; [lia|]. destruct (Z_lt_dec (ctz ctz_0 l) reg) as [Hlt|]; [rewrite (Hcl (ctz ctz_0 l)) in Hb; [done|lia]|lia].
Qed.

Lemma between_ok fuel tmp reg :
  tmp + 1 ≤ reg - 1 → (Z.to_nat (reg - tmp) ≤ fuel)%nat → between fuel tmp reg = Some (seqZ (tmp + 1) (reg - 2 - tmp)).
Proof.
  revert tmp. induction fuel as [|fuel IH]; intros tmp Ht Hf; [lia|]. simpl. destruct (Z.eqb_spec (tmp + 1) (reg - 1)) as [E|].
  - rewrite seqZ_nil by lia. done.
  - rewrite IH by lia. simpl. rewrite (seqZ_cons (tmp + 1)) by lia. do 3 f_equal; lia.
Qed.

Lemma run_ok l :
  0 < l < 2 ^ 16 →
  ∃ k reg l', reglist_run ctz_0 l = Some (seqZ k (reg - k), l') ∧ 0 ≤ k < reg ∧ reg ≤ 16 ∧ 0 ≤ l' < 2 ^ 16 ∧ clear_below l k ∧
    (∀ i, 0 ≤ i → Z.testbit l' i = Z.testbit l i && (reg <=? i)) ∧ (∀ i, k ≤ i < reg → Z.testbit l i = true).
Proof.
  intros Hl. destruct (ctz_ok l Hl) as (Hb & Hc & Hr). set (k := ctz ctz_0 l) in *.
  destruct (clear_run_ok 32 k l ltac:(lia) ltac:(lia) Hc ltac:(lia)) as (reg & l' & E & Hr' & Hl' & Hbits & Hrun & Hend).
  assert (k < reg). { destruct (decide (k = reg)) as [->|]; [congruence|lia]. }
  assert (E1 : ∀ m, seqZ m 1 = [m]) by done.
  exists k, reg, l'. split; [|split_and!; (done || lia)]. unfold reglist_run. fold k. cbv zeta. rewrite E. cbn [mbind option_bind].
  destruct (Z.eqb_spec reg (k + 1)) as [->|]; cbn [negb]; [by replace (k + 1 - k) with 1 by lia|].
  rewrite (seqZ_cons k) by lia. destruct (Z.eqb_spec reg (k + 2)) as [->|]; cbn [negb].
  - replace (Z.pred (k + 2 - k)) with 1 by lia. rewrite E1. do 4 f_equal. lia.
  - rewrite between_ok by lia. cbn [mbind option_bind]. replace (Z.pred (reg - k)) with (reg - 2 - k + 1) by lia.
    rewrite seqZ_app, E1 by lia. replace (Z.succ k + (reg - 2 - k)) with (reg - 1) by lia. done.
Qed.

Lemma filter_all (P : Z → Prop) `{!∀ x, Decision (P x)} (l : list Z) : (∀ x, x ∈ l → P x) → filter P l = l.
Proof.
  induction l as [|x l IH]; intros Hx; [done|]. rewrite filter_cons_True by (apply Hx; set_solver). f_equal. apply IH. set_solver.
Qed.

Lemma filter_none (P : Z → Prop) `{!∀ x, Decision (P x)} (l : list Z) : (∀ x, x ∈ l → ¬ P x) → filter P l = [].
Proof.
  induction l as [|x l IH]; intros Hx; [done|]. rewrite filter_cons_False by (apply Hx; set_solver). apply IH. set_solver.
Qed.

Lemma filter_ext (P Q : Z → Prop) `{!∀ x, Decision (P x), !∀ x, Decision (Q x)} (l : list Z) :
  (∀ x, x ∈ l → P x ↔ Q x) → filter P l = filter Q l.
Proof.
  induction l as [|x l IH]; intros Hx; [done|]. pose proof (Hx x ltac:(set_solver)) as Hy. rewrite !filter_cons, IH by set_solver.
  by repeat case_decide; try tauto.
Qed.

Lemma loop_ok fuel k l regs :
  0 ≤ l < 2 ^ 16 → 0 ≤ k ≤ 16 → clear_below l k → (Z.to_nat (16 - k) < fuel)%nat →
  reglist_loop ctz_0 fuel l regs = Some (regs ++ filter (λ i, Z.testbit l i = true) (seqZ k (16 - k))).
Proof.
  revert k l regs. induction fuel as [|fuel IH]; intros k l regs Hl Hk Hc Hf; [lia|]. simpl.
  destruct (Z.eqb_spec l 0) as [->|Hl0].
  { rewrite filter_none, app_nil_r; [done|]. intros x _. by rewrite Z.testbit_0_l. }
  destruct (run_ok l ltac:(lia)) as (k1 & reg & l' & -> & Hk1 & Hreg & Hl' & Hc1 & Hbits & Hrun). cbn [mbind option_bind].
  assert (Hle : k ≤ k1).
  { destruct (Z_lt_dec k1 k); [|lia]. specialize (Hc k1 ltac:(lia)). rewrite Hrun in Hc by lia. done. }
  rewrite (IH reg l') by (try lia; intros i Hi; rewrite Hbits, (proj2 (Z.leb_gt reg i)) by lia; apply andb_false_r).
  replace (16 - k) with ((k1 - k) + ((reg - k1) + (16 - reg))) by lia. rewrite seqZ_app, seqZ_app by lia.
  replace (k + (k1 - k)) with k1 by lia. replace (k1 + (reg - k1)) with reg by lia.
  rewrite !filter_app, (filter_none _ (seqZ k _)), (filter_all _ (seqZ k1 _)).
  - rewrite <-app_assoc, app_nil_l. do 3 f_equal. apply filter_ext. intros i Hi%elem_of_seqZ. rewrite Hbits, (proj2 (Z.leb_le reg i)), andb_true_r by lia. done.
  - intros i Hi%elem_of_seqZ. apply Hrun. lia.
  - intros i Hi%elem_of_seqZ. rewrite Hc1 by lia. done.
Qed.
End Lists.

Lemma filter_sorted (P : Z → Prop) `{!∀ x, Decision (P x)} (l : list Z) : StronglySorted Z.lt l → StronglySorted Z.lt (filter P l).
Proof.
  induction 1 as [|x l _ IH Hx]; [constructor|]. rewrite filter_cons. case_decide; [|done]. constructor; [done|].
  rewrite Forall_forall in *. intros y [_ Hy]%list_elem_of_filter. by apply Hx.
Qed.

Lemma seqZ_sorted : StronglySorted Z.lt (seqZ 0 16).
Proof. change (seqZ 0 16) with [0; 1; 2; 3; 4; 5; 6; 7; 8; 9; 10; 11; 12; 13; 14; 15]. repeat constructor. Qed.

(** The disassembler has a result for every 32-bit word, whatever the undefined shift gives: no
    table is read outside its bounds, the result is 0 or -1, and every field has a value of its
    type. *)
Lemma disasm_typed shl_32 w : ∃ ret d, darm_armv7_disasm shl_32 w = Some (ret, d) ∧ (ret = 0 ∨ ret = -1) ∧ typed d.
Proof.
  destruct (decide (field w 28 15 = 15 ∨ multiple w = false)) as [H|H].
  - destruct (disasm_single shl_32 w H) as (ret & d & E & Hr & Ht & _). by exists ret, d.
  - destruct (disasm_multiple shl_32 w) as (d & E & Hf); [tauto|by destruct (multiple w); tauto|]. exists 0, d. split; [done|].
    split; [by left|]. by apply mf_typed in Hf.
Qed.

Lemma reglist2_ok ctz_0 l : 16 < ctz_0 → 0 < l < 2 ^ 16 → darm_reglist2 ctz_0 l = Some (Z.of_nat (length (registers l)), registers l).
Proof.
  intros Hc Hl. unfold darm_reglist2. rewrite (proj2 (Z.eqb_neq l 0)) by lia. rewrite (loop_ok ctz_0 Hc 17 0) by (lia || (intros i; lia)). done.
Qed.

(** C29: when [__builtin_ctz (0)] is more than 16, [darm_reglist2] writes exactly the registers
    of the mask, each once and in ascending order, and returns how many there are, between 1
    and 16; it returns -1 for the empty mask. *)
Theorem reglist_exact ctz_0 l :
  16 < ctz_0 → 0 ≤ l < 2 ^ 16 →
  ∃ regs, darm_reglist2 ctz_0 l = Some (if l =? 0 then -1 else Z.of_nat (length regs), regs) ∧
    StronglySorted Z.lt regs ∧ (∀ r, r ∈ regs ↔ 0 ≤ r < 16 ∧ Z.testbit l r = true) ∧ (length regs ≤ 16)%nat.
Proof.
  intros Hc Hl. exists (registers l). assert (Hin : ∀ r, r ∈ registers l ↔ 0 ≤ r < 16 ∧ Z.testbit l r = true).
  { intros r. unfold registers. rewrite list_elem_of_filter, elem_of_seqZ. tauto. }
  split; [|split; [|split; [done|]]].
  - destruct (Z.eqb_spec l 0) as [->|]; [done|]. apply reglist2_ok; [done|lia].
  - apply filter_sorted, seqZ_sorted.
  - unfold registers. rewrite length_filter. done.
Qed.
Lemma reglist_exact_witness : ∃ regs, darm_reglist2 32 0x4830 = Some (Z.of_nat (length regs), regs) ∧ 11 ∈ regs ∧ 12 ∉ regs.
Proof.
  destruct (reglist_exact 32 0x4830 ltac:(lia) ltac:(lia)) as (regs & H & _ & Hin & _). exists regs. split; [exact H|].
  rewrite !Hin. vm_compute. split; [done|]. by intros [_ ?].
Defined.
