(* ===== verification/ThumbTbl.v ===== *)
(** The tables of the Thumb disassembler (trace_analyzer/darm/thumb-tbl.c). *)

From Stdlib Require Import ZArith.
From stdpp Require Import base list.
From S2P Require Import Prelude DarmTbl.

Definition thumb_instr_types : list Z :=
  [T_THUMB_SHIFT_IMM; T_THUMB_SHIFT_IMM; T_THUMB_SHIFT_IMM; T_THUMB_SHIFT_IMM; T_THUMB_SHIFT_IMM;
   T_THUMB_SHIFT_IMM; T_THUMB_SHIFT_IMM; T_THUMB_SHIFT_IMM; T_THUMB_SHIFT_IMM; T_THUMB_SHIFT_IMM;
   T_THUMB_SHIFT_IMM; T_THUMB_SHIFT_IMM; T_THUMB_SHIFT_IMM; T_THUMB_SHIFT_IMM; T_THUMB_SHIFT_IMM;
   T_THUMB_SHIFT_IMM; T_THUMB_SHIFT_IMM; T_THUMB_SHIFT_IMM; T_THUMB_SHIFT_IMM; T_THUMB_SHIFT_IMM;
   T_THUMB_SHIFT_IMM; T_THUMB_SHIFT_IMM; T_THUMB_SHIFT_IMM; T_THUMB_SHIFT_IMM; T_THUMB_3REG;
   T_THUMB_3REG; T_THUMB_3REG; T_THUMB_3REG; T_THUMB_2REG_IMM; T_THUMB_2REG_IMM;
   T_THUMB_2REG_IMM; T_THUMB_2REG_IMM; T_THUMB_HAS_IMM8; T_THUMB_HAS_IMM8; T_THUMB_HAS_IMM8;
   T_THUMB_HAS_IMM8; T_THUMB_HAS_IMM8; T_THUMB_HAS_IMM8; T_THUMB_HAS_IMM8; T_THUMB_HAS_IMM8;
   T_THUMB_HAS_IMM8; T_THUMB_HAS_IMM8; T_THUMB_HAS_IMM8; T_THUMB_HAS_IMM8; T_THUMB_HAS_IMM8;
   T_THUMB_HAS_IMM8; T_THUMB_HAS_IMM8; T_THUMB_HAS_IMM8; T_THUMB_HAS_IMM8; T_THUMB_HAS_IMM8;
   T_THUMB_HAS_IMM8; T_THUMB_HAS_IMM8; T_THUMB_HAS_IMM8; T_THUMB_HAS_IMM8; T_THUMB_HAS_IMM8;
   T_THUMB_HAS_IMM8; T_THUMB_HAS_IMM8; T_THUMB_HAS_IMM8; T_THUMB_HAS_IMM8; T_THUMB_HAS_IMM8;
   T_THUMB_HAS_IMM8; T_THUMB_HAS_IMM8; T_THUMB_HAS_IMM8; T_THUMB_HAS_IMM8; T_THUMB_GPI;
   T_THUMB_GPI; T_THUMB_GPI; T_THUMB_GPI; T_THUMB_MOD_SP_REG; T_THUMB_CMP; T_THUMB_MOV4;
   T_THUMB_BRANCH_REG; T_THUMB_LDR_PC; T_THUMB_LDR_PC; T_THUMB_LDR_PC; T_THUMB_LDR_PC;
   T_THUMB_LDR_PC; T_THUMB_LDR_PC; T_THUMB_LDR_PC; T_THUMB_LDR_PC; T_THUMB_RW_MEMO;
   T_THUMB_RW_MEMO; T_THUMB_RW_MEMO; T_THUMB_RW_MEMO; T_THUMB_RW_MEMO; T_THUMB_RW_MEMO;
   T_THUMB_RW_MEMO; T_THUMB_RW_MEMO; T_THUMB_RW_MEMO; T_THUMB_RW_MEMO; T_THUMB_RW_MEMO;
   T_THUMB_RW_MEMO; T_THUMB_RW_MEMO; T_THUMB_RW_MEMO; T_THUMB_RW_MEMO; T_THUMB_RW_MEMO;
   T_THUMB_RW_MEMI; T_THUMB_RW_MEMI; T_THUMB_RW_MEMI; T_THUMB_RW_MEMI; T_THUMB_RW_MEMI;
   T_THUMB_RW_MEMI; T_THUMB_RW_MEMI; T_THUMB_RW_MEMI; T_THUMB_RW_MEMI; T_THUMB_RW_MEMI;
   T_THUMB_RW_MEMI; T_THUMB_RW_MEMI; T_THUMB_RW_MEMI; T_THUMB_RW_MEMI; T_THUMB_RW_MEMI;
   T_THUMB_RW_MEMI; T_THUMB_RW_MEMI; T_THUMB_RW_MEMI; T_THUMB_RW_MEMI; T_THUMB_RW_MEMI;
   T_THUMB_RW_MEMI; T_THUMB_RW_MEMI; T_THUMB_RW_MEMI; T_THUMB_RW_MEMI; T_THUMB_RW_MEMI;
   T_THUMB_RW_MEMI; T_THUMB_RW_MEMI; T_THUMB_RW_MEMI; T_THUMB_RW_MEMI; T_THUMB_RW_MEMI;
   T_THUMB_RW_MEMI; T_THUMB_RW_MEMI; T_THUMB_RW_MEMI; T_THUMB_RW_MEMI; T_THUMB_RW_MEMI;
   T_THUMB_RW_MEMI; T_THUMB_RW_MEMI; T_THUMB_RW_MEMI; T_THUMB_RW_MEMI; T_THUMB_RW_MEMI;
   T_THUMB_RW_MEMI; T_THUMB_RW_MEMI; T_THUMB_RW_MEMI; T_THUMB_RW_MEMI; T_THUMB_RW_MEMI;
   T_THUMB_RW_MEMI; T_THUMB_RW_MEMI; T_THUMB_RW_MEMI; T_THUMB_STACK; T_THUMB_STACK;
   T_THUMB_STACK; T_THUMB_STACK; T_THUMB_STACK; T_THUMB_STACK; T_THUMB_STACK; T_THUMB_STACK;
   T_THUMB_STACK; T_THUMB_STACK; T_THUMB_STACK; T_THUMB_STACK; T_THUMB_STACK; T_THUMB_STACK;
   T_THUMB_STACK; T_THUMB_STACK; T_THUMB_HAS_IMM8; T_THUMB_HAS_IMM8; T_THUMB_HAS_IMM8;
   T_THUMB_HAS_IMM8; T_THUMB_HAS_IMM8; T_THUMB_HAS_IMM8; T_THUMB_HAS_IMM8; T_THUMB_HAS_IMM8;
   T_THUMB_ADD_SP_IMM; T_THUMB_ADD_SP_IMM; T_THUMB_ADD_SP_IMM; T_THUMB_ADD_SP_IMM;
   T_THUMB_ADD_SP_IMM; T_THUMB_ADD_SP_IMM; T_THUMB_ADD_SP_IMM; T_THUMB_ADD_SP_IMM;
   T_THUMB_MOD_SP_IMM; T_THUMB_CBZ; T_THUMB_EXTEND; T_THUMB_CBZ; T_THUMB_PUSHPOP;
   T_THUMB_PUSHPOP; T_THUMB_SETEND; T_INVLD; T_INVLD; T_THUMB_CBZ; T_THUMB_REV; T_THUMB_CBZ;
   T_THUMB_PUSHPOP; T_THUMB_PUSHPOP; T_THUMB_ONLY_IMM8; T_THUMB_IT_HINTS; T_THUMB_RW_REG;
   T_THUMB_RW_REG; T_THUMB_RW_REG; T_THUMB_RW_REG; T_THUMB_RW_REG; T_THUMB_RW_REG;
   T_THUMB_RW_REG; T_THUMB_RW_REG; T_THUMB_RW_REG; T_THUMB_RW_REG; T_THUMB_RW_REG;
   T_THUMB_RW_REG; T_THUMB_RW_REG; T_THUMB_RW_REG; T_THUMB_RW_REG; T_THUMB_RW_REG;
   T_THUMB_COND_BRANCH; T_THUMB_COND_BRANCH; T_THUMB_COND_BRANCH; T_THUMB_COND_BRANCH;
   T_THUMB_COND_BRANCH; T_THUMB_COND_BRANCH; T_THUMB_COND_BRANCH; T_THUMB_COND_BRANCH;
   T_THUMB_COND_BRANCH; T_THUMB_COND_BRANCH; T_THUMB_COND_BRANCH; T_THUMB_COND_BRANCH;
   T_THUMB_COND_BRANCH; T_THUMB_COND_BRANCH; T_THUMB_ONLY_IMM8; T_THUMB_ONLY_IMM8;
   T_THUMB_UNCOND_BRANCH; T_THUMB_UNCOND_BRANCH; T_THUMB_UNCOND_BRANCH; T_THUMB_UNCOND_BRANCH;
   T_THUMB_UNCOND_BRANCH; T_THUMB_UNCOND_BRANCH; T_THUMB_UNCOND_BRANCH; T_THUMB_UNCOND_BRANCH;
   T_INVLD; T_INVLD; T_INVLD; T_INVLD; T_INVLD; T_INVLD; T_INVLD; T_INVLD; T_INVLD; T_INVLD;
   T_INVLD; T_INVLD; T_INVLD; T_INVLD; T_INVLD; T_INVLD; T_INVLD; T_INVLD; T_INVLD; T_INVLD;
   T_INVLD; T_INVLD; T_INVLD; T_INVLD].

Definition thumb_instr_labels : list Z :=
  [I_LSL; I_LSL; I_LSL; I_LSL; I_LSL; I_LSL; I_LSL; I_LSL; I_LSR; I_LSR; I_LSR; I_LSR; I_LSR;
   I_LSR; I_LSR; I_LSR; I_ASR; I_ASR; I_ASR; I_ASR; I_ASR; I_ASR; I_ASR; I_ASR; I_ADD; I_ADD;
   I_SUB; I_SUB; I_ADD; I_ADD; I_SUB; I_SUB; I_MOV; I_MOV; I_MOV; I_MOV; I_MOV; I_MOV; I_MOV;
   I_MOV; I_CMP; I_CMP; I_CMP; I_CMP; I_CMP; I_CMP; I_CMP; I_CMP; I_ADD; I_ADD; I_ADD; I_ADD;
   I_ADD; I_ADD; I_ADD; I_ADD; I_SUB; I_SUB; I_SUB; I_SUB; I_SUB; I_SUB; I_SUB; I_SUB; I_LSR;
   I_SBC; I_TST; I_ORR; I_ADD; I_CMP; I_MOV; I_BX; I_LDR; I_LDR; I_LDR; I_LDR; I_LDR; I_LDR;
   I_LDR; I_LDR; I_STR; I_STR; I_STRH; I_STRH; I_STRB; I_STRB; I_LDRSB; I_LDRSB; I_LDR; I_LDR;
   I_LDRH; I_LDRH; I_LDRB; I_LDRB; I_LDRSH; I_LDRSH; I_STR; I_STR; I_STR; I_STR; I_STR; I_STR;
   I_STR; I_STR; I_LDR; I_LDR; I_LDR; I_LDR; I_LDR; I_LDR; I_LDR; I_LDR; I_STRB; I_STRB; I_STRB;
   I_STRB; I_STRB; I_STRB; I_STRB; I_STRB; I_LDRB; I_LDRB; I_LDRB; I_LDRB; I_LDRB; I_LDRB;
   I_LDRB; I_LDRB; I_STRH; I_STRH; I_STRH; I_STRH; I_STRH; I_STRH; I_STRH; I_STRH; I_LDRH;
   I_LDRH; I_LDRH; I_LDRH; I_LDRH; I_LDRH; I_LDRH; I_LDRH; I_STR; I_STR; I_STR; I_STR; I_STR;
   I_STR; I_STR; I_STR; I_LDR; I_LDR; I_LDR; I_LDR; I_LDR; I_LDR; I_LDR; I_LDR; I_ADR; I_ADR;
   I_ADR; I_ADR; I_ADR; I_ADR; I_ADR; I_ADR; I_ADD; I_ADD; I_ADD; I_ADD; I_ADD; I_ADD; I_ADD;
   I_ADD; I_SUB; I_CBZ; I_UXTH; I_CBZ; I_PUSH; I_PUSH; I_SETEND; I_INVLD; I_INVLD; I_CBZ;
   I_REVSH; I_CBZ; I_POP; I_POP; I_BKPT; I_YIELD; I_STM; I_STM; I_STM; I_STM; I_STM; I_STM;
   I_STM; I_STM; I_LDM; I_LDM; I_LDM; I_LDM; I_LDM; I_LDM; I_LDM; I_LDM; I_B; I_B; I_B; I_B; I_B;
   I_B; I_B; I_B; I_B; I_B; I_B; I_B; I_B; I_B; I_UDF; I_SVC; I_B; I_B; I_B; I_B; I_B; I_B; I_B;
   I_B; I_INVLD; I_INVLD; I_INVLD; I_INVLD; I_INVLD; I_INVLD; I_INVLD; I_INVLD; I_INVLD; I_INVLD;
   I_INVLD; I_INVLD; I_INVLD; I_INVLD; I_INVLD; I_INVLD; I_INVLD; I_INVLD; I_INVLD; I_INVLD;
   I_INVLD; I_INVLD; I_INVLD; I_INVLD].

Definition type_gpi_instr_lookup : list Z :=
  [I_AND; I_EOR; I_LSL; I_LSR; I_ASR; I_ADC; I_SBC; I_ROR; I_TST; I_RSB; I_CMP; I_CMN; I_ORR;
   I_MUL; I_BIC; I_MVN].

Definition type_hints_instr_lookup : list Z :=
  [I_NOP; I_YIELD; I_WFE; I_WFI; I_SEV].

Definition type_extend_instr_lookup : list Z :=
  [I_SXTH; I_SXTB; I_UXTH; I_UXTB].

Definition type_rev_instr_lookup : list Z :=
  [I_REV; I_REV16; I_INVLD; I_REVSH].
