(* ===== verification/Thumb.v ===== *)
(** The Thumb disassembler of darm (trace_analyzer/darm/thumb.c): from a 16-bit instruction to its
    operands.  The lookups in the tables are [arr_get]s, so [None] is a read outside a table. *)

From Stdlib Require Import ZArith.
From stdpp Require Import base functions option list.
From S2P Require Import Prelude DarmTbl ThumbTbl Darm.

Definition LR : Z := 14.
Definition S_LSR : Z := 1.
Definition S_ASR : Z := 2.
Definition BITMSK_8 : Z := 255.

Definition thumb_disasm (d : darm_t) (w : Z) : option (Z * darm_t) :=
  i ← arr_get thumb_instr_labels (w .>> 8);
  let d := <[F_instr := i]> d in
  i ← arr_get thumb_instr_types (w .>> 8);
  let d := <[F_instr_type := i]> d in
  if d F_instr_type =? T_THUMB_ONLY_IMM8 then
    Some (0, assign [(F_I, B_SET); (F_imm, w .& BITMSK_8)] d)
  else if d F_instr_type =? T_THUMB_COND_BRANCH then
    Some (0, assign [(F_cond, field w 8 15); (F_I, B_SET);
        (F_imm, u32 (u32 (s8 (w .& BITMSK_8)) .<< 1))] d)
  else if d F_instr_type =? T_THUMB_UNCOND_BRANCH then
    let d := assign [(F_I, B_SET); (F_imm, w .& ((1 .<< 11) - 1))] d in
    let d := if negb (field (d F_imm) 10 1 =? 0) then
          <[F_imm := u32 (d F_imm .| (Z.lnot ((1 .<< 11) - 1)))]> d
        else d in
    Some (0, <[F_imm := u32 (d F_imm .<< 1)]> d)
  else if d F_instr_type =? T_THUMB_SHIFT_IMM then
    let d := assign [(F_Rd, field w 0 7); (F_Rm, field w 3 7); (F_shift, field w 6 31)] d in
    let d := if (d F_shift =? 0) && (d F_instr =? I_LSL) then
          <[F_instr := I_MOV]> d
        else
          if d F_instr =? I_ASR then
            <[F_shift_type := S_ASR]> d
          else if d F_instr =? I_LSL then
            <[F_shift_type := S_LSL]> d
          else if d F_instr =? I_LSR then
            <[F_shift_type := S_LSR]> d
          else d in
    Some (0, d)
  else if d F_instr_type =? T_THUMB_STACK then
    Some (0, assign [(F_I, B_SET); (F_imm, (w .& BITMSK_8) .<< 2); (F_Rn, SP); (F_Rt, field w 8 7);
      (F_U, B_SET); (F_W, B_UNSET); (F_P, B_SET)] d)
  else if d F_instr_type =? T_THUMB_LDR_PC then
    Some (0, assign [(F_I, B_SET); (F_imm, (w .& BITMSK_8) .<< 2); (F_Rn, PC); (F_Rt, field w 8 7);
      (F_U, B_SET); (F_W, B_UNSET); (F_P, B_SET)] d)
  else if d F_instr_type =? T_THUMB_GPI then
    i ← arr_get type_gpi_instr_lookup (field w 6 15);
    let d := <[F_instr := i]> d in
    if one_of (d F_instr) [I_AND; I_EOR; I_LSL; I_LSR; I_ASR; I_ADC; I_SBC; I_ROR] then
      Some (0, assign [(F_Rn, w .& 7); (F_Rd, w .& 7); (F_Rm, field w 3 7)] d)
    else if one_of (d F_instr) [I_TST; I_CMP; I_CMN] then
      Some (0, assign [(F_Rn, w .& 7); (F_Rm, field w 3 7)] d)
    else if d F_instr =? I_RSB then
      Some (0, assign [(F_I, B_SET); (F_imm, 0); (F_Rd, w .& 7); (F_Rn, field w 3 7)] d)
    else if one_of (d F_instr) [I_ORR; I_BIC] then
      Some (0, assign [(F_Rn, w .& 7); (F_Rd, w .& 7); (F_Rm, field w 3 7)] d)
    else if d F_instr =? I_MVN then
      Some (0, assign [(F_Rd, w .& 7); (F_Rm, field w 3 7)] d)
    else if d F_instr =? I_MUL then
      Some (0, assign [(F_Rm, w .& 7); (F_Rd, w .& 7); (F_Rn, field w 3 7)] d)
    else
      Some (0, assign [(F_instr, if bit w 7 then I_BLX else I_BX); (F_Rm, field w 3 15)] d)
  else if d F_instr_type =? T_THUMB_BRANCH_REG then
    Some (0, assign [(F_instr, if bit w 7 then I_BLX else I_BX); (F_Rm, field w 3 15)] d)
  else if d F_instr_type =? T_THUMB_IT_HINTS then
    if (w .& 15) =? 0 then
      i ← arr_get type_hints_instr_lookup (field w 4 7);
      let d := <[F_instr := i]> d in
      Some (if d F_instr =? I_INVLD then -1 else 0, d)
    else
      Some (0, assign [(F_instr, I_IT); (F_mask, w .& 15); (F_firstcond, field w 4 15)] d)
  else if d F_instr_type =? T_THUMB_HAS_IMM8 then
    let d := assign [(F_I, B_SET); (F_imm, w .& BITMSK_8)] d in
    if one_of (d F_instr) [I_ADD; I_SUB] then
      Some (0, assign [(F_Rn, field w 8 7); (F_Rd, field w 8 7)] d)
    else if d F_instr =? I_ADR then
      let d := assign [(F_Rn, PC); (F_U, B_SET)] d in
      let d := <[F_imm := u32 (d F_imm .<< 2)]> d in
      Some (0, <[F_Rd := field w 8 7]> d)
    else if d F_instr =? I_MOV then
      Some (0, <[F_Rd := field w 8 7]> d)
    else if d F_instr =? I_CMP then
      Some (0, <[F_Rn := field w 8 7]> d)
    else
      i ← arr_get type_extend_instr_lookup (field w 6 3);
      let d := <[F_instr := i]> d in
      Some (0, assign [(F_Rd, w .& 7); (F_Rm, field w 3 7)] d)
  else if d F_instr_type =? T_THUMB_EXTEND then
    i ← arr_get type_extend_instr_lookup (field w 6 3);
    let d := <[F_instr := i]> d in
    Some (0, assign [(F_Rd, w .& 7); (F_Rm, field w 3 7)] d)
  else if d F_instr_type =? T_THUMB_MOD_SP_IMM then
    Some (0, assign [(F_instr, if bit w 7 then I_SUB else I_ADD); (F_Rn, SP); (F_Rd, SP);
      (F_I, B_SET); (F_imm, (w .& 0x7f) .<< 2)] d)
  else if d F_instr_type =? T_THUMB_3REG then
    Some (0, assign [(F_Rd, field w 0 7); (F_Rn, field w 3 7); (F_Rm, field w 6 7)] d)
  else if d F_instr_type =? T_THUMB_2REG_IMM then
    Some (0, assign [(F_Rd, w .& 7); (F_Rn, field w 3 7); (F_I, B_SET); (F_imm, field w 6 7)] d)
  else if d F_instr_type =? T_THUMB_ADD_SP_IMM then
    Some (0, assign [(F_I, B_SET); (F_imm, (w .& BITMSK_8) .<< 2); (F_Rn, SP);
        (F_Rd, field w 8 7)] d)
  else if d F_instr_type =? T_THUMB_MOV4 then
    Some (0, assign [(F_Rd, field w 4 8 .| (w .& 7)); (F_Rm, field w 3 15)] d)
  else if d F_instr_type =? T_THUMB_RW_MEMI then
    let d := assign [(F_Rt, w .& 7); (F_Rn, field w 3 7); (F_I, B_SET); (F_imm, field w 6 31)] d in
    let d := if one_of (d F_instr) [I_LDR; I_STR] then
          <[F_imm := u32 (d F_imm .<< 2)]> d
        else if one_of (d F_instr) [I_LDRH; I_STRH] then
          <[F_imm := u32 (d F_imm .<< 1)]> d
        else d in
    Some (0, assign [(F_P, B_SET); (F_U, B_SET); (F_W, B_UNSET)] d)
  else if d F_instr_type =? T_THUMB_RW_MEMO then
    Some (0, assign [(F_Rt, field w 0 7); (F_Rn, field w 3 7); (F_Rm, field w 6 7); (F_P, B_SET);
      (F_U, B_SET); (F_W, B_UNSET)] d)
  else if d F_instr_type =? T_THUMB_RW_REG then
    Some (0, assign [(F_reglist, w .& BITMSK_8); (F_Rn, field w 8 7)] d)
  else if d F_instr_type =? T_THUMB_REV then
    i ← arr_get type_rev_instr_lookup (field w 6 3);
    let d := <[F_instr := i]> d in
    if d F_instr =? I_INVLD then Some (-1, d)
    else
      Some (0, assign [(F_Rd, field w 0 7); (F_Rm, field w 3 7)] d)
  else if d F_instr_type =? T_THUMB_SETEND then
    Some (0, <[F_E := field w 4 1]> d)
  else if d F_instr_type =? T_THUMB_PUSHPOP then
    let d := <[F_reglist := w .& BITMSK_8]> d in
    let d := if d F_instr =? I_PUSH then
          <[F_reglist := u32 (d F_reglist .| (field w 8 1 .<< LR))]> d
        else
          <[F_reglist := u32 (d F_reglist .| (field w 8 1 .<< PC))]> d in
    Some (0, d)
  else if d F_instr_type =? T_THUMB_CMP then
    Some (0, assign [(F_Rn, (w .& 7) .| field w 4 8); (F_Rm, field w 3 15)] d)
  else if d F_instr_type =? T_THUMB_MOD_SP_REG then
    let d := assign [(F_Rn, field w 4 8 .| (w .& 7)); (F_Rd, field w 4 8 .| (w .& 7));
      (F_Rm, field w 3 15)] d in
    let d := if d F_Rm =? SP then
          let d := <[F_Rm := d F_Rn]> d in
          assign [(F_Rd, d F_Rn); (F_Rn, SP)] d
        else d in
    Some (0, d)
  else if d F_instr_type =? T_THUMB_CBZ then
    Some (0, assign [(F_instr, if bit w 11 then I_CBNZ else I_CBZ); (F_Rn, w .& 7); (F_Rm, PC);
      (F_U, B_SET); (F_I, B_SET); (F_imm, field w 2 (31 .<< 1) .| field w 5 (1 .<< 6))] d)
  else Some (-1, d).

Definition darm_thumb_disasm (w : Z) : option (Z * darm_t) :=
  let d := assign [(F_w, w); (F_cond, C_AL)] darm_init in
  match w .>> 11 with
  | 29 | 30 | 31 => Some (-1, d)
  | _ => thumb_disasm d w
  end.
