(* ===== verification/Thumb2Decoder.v ===== *)
(** The Thumb-2 decoder of darm (trace_analyzer/darm/thumb2-decoder.c): from the two halfwords of
    an instruction to its label and the kinds of its registers, immediates and flags.  Every
    function returns the label and the description with the kinds it has set. *)

From Stdlib Require Import ZArith.
From stdpp Require Import base functions.
From S2P Require Import Prelude DarmTbl Darm.

Definition thumb2_load_store_multiple (d : darm_t) (w w2 : Z) : Z * darm_t :=
  let op := field w 7 3 in
  let L := field w 4 1 in
  let W_Rn := field w 1 0x10 .| (w .& 15) in
  let d := assign [(F_instr_type, T_THUMB2_RN_REG); (F_instr_imm_type, T_THUMB2_NO_IMM);
    (F_instr_flag_type, T_THUMB2_REGLIST_FLAG)] d in
  match op with
  | 0 | 3 =>
      let d := assign [(F_instr_type, T_THUMB2_NO_REG); (F_instr_flag_type, T_THUMB2_NO_FLAG)] d in
      if L =? 0 then (I_SRS, d)
      else if L =? 1 then (I_RFE, d)
      else (I_INVLD, d)
  | 1 =>
      if L =? 0 then (I_STM, d)
      else if W_Rn =? 0x1d then
        let d := <[F_instr_type := T_THUMB2_NO_REG]> d in
        (I_POP, d)
      else
        let d := <[F_instr_flag_type := T_THUMB2_WP_REGLIST_FLAG]> d in
        (I_LDM, d)
  | 2 =>
      if L =? 0 then
        if W_Rn =? 0x1d then
          let d := <[F_instr_type := T_THUMB2_NO_REG]> d in
          (I_PUSH, d)
        else (I_STMDB, d)
      else
        let d := <[F_instr_flag_type := T_THUMB2_WP_REGLIST_FLAG]> d in
        (I_LDMDB, d)
  | _ => (I_INVLD, d)
  end.

Definition thumb2_load_store_dual (d : darm_t) (w w2 : Z) : Z * darm_t :=
  let op1 := field w 7 3 in
  let op2 := field w 4 3 in
  let op3 := field w2 4 15 in
  let Rn := w .& 15 in
  let d := assign [(F_instr_type, T_THUMB2_RN_RT_REG); (F_instr_imm_type, T_THUMB2_IMM8);
    (F_instr_flag_type, T_THUMB2_NO_FLAG)] d in
  if (op1 =? 0) && (op2 =? 0) then
    let d := <[F_instr_type := T_THUMB2_RN_RD_RT_REG]> d in
    (I_STREX, d)
  else if (op1 =? 0) && (op2 =? 1) then (I_LDREX, d)
  else if ((op1 .& 2) =? 0) && (op2 =? 2) then
    let d := assign [(F_instr_type, T_THUMB2_RN_RT_RT2_REG);
      (F_instr_flag_type, T_THUMB2_WUP_FLAG)] d in
    (I_STRD, d)
  else if (((op1 .& 2) =? 0) && (op2 =? 3)) || (((op1 .& 2) =? 2) && ((op2 .& 1) =? 1)) then
    let d := <[F_instr_flag_type := T_THUMB2_WUP_FLAG]> d in
    if Rn =? 15 then
      let d := <[F_instr_type := T_THUMB2_RT_RT2_REG]> d in
      (I_LDRD, d)
    else
      let d := <[F_instr_type := T_THUMB2_RN_RT_RT2_REG]> d in
      (I_LDRD, d)
  else if ((op1 .& 2) =? 2) && ((op2 .& 1) =? 0) then
    let d := assign [(F_instr_type, T_THUMB2_RN_RT_RT2_REG);
      (F_instr_flag_type, T_THUMB2_WUP_FLAG)] d in
    (I_STRD, d)
  else if (op1 =? 1) && (op2 =? 0) then
    let d := assign [(F_instr_imm_type, T_THUMB2_NO_IMM);
      (F_instr_type, T_THUMB2_RN_RD_RT_REG)] d in
    match op3 with
    | 4 => (I_STREXB, d)
    | 5 => (I_STREXH, d)
    | 7 =>
        let d := <[F_instr_type := T_THUMB2_RN_RD_RT_RT2_REG]> d in
        (I_STREXD, d)
    | _ => (I_INVLD, d)
    end
  else if (op1 =? 1) && (op2 =? 1) then
    let d := <[F_instr_imm_type := T_THUMB2_NO_IMM]> d in
    match op3 with
    | 0 =>
        let d := assign [(F_instr_type, T_THUMB2_RN_RM_REG);
          (F_instr_imm_type, T_THUMB2_NO_IMM)] d in
        (I_TBB, d)
    | 1 =>
        let d := assign [(F_instr_type, T_THUMB2_RN_RM_REG);
          (F_instr_imm_type, T_THUMB2_NO_IMM)] d in
        (I_TBH, d)
    | 4 => (I_LDREXB, d)
    | 5 => (I_LDREXH, d)
    | 7 =>
        let d := <[F_instr_type := T_THUMB2_RN_RT_RT2_REG]> d in
        (I_LDREXD, d)
    | _ => (I_INVLD, d)
    end
  else (I_INVLD, d).

Definition thumb2_move_shift (d : darm_t) (w w2 : Z) : Z * darm_t :=
  let type_ := field w2 4 3 in
  let imm3_imm2 := field w2 10 0x1C .| field w2 6 3 in
  let d := assign [(F_instr_type, T_THUMB2_RD_RM_REG); (F_instr_imm_type, T_THUMB2_IMM2_IMM3);
    (F_instr_flag_type, T_THUMB2_S_FLAG)] d in
  match type_ with
  | 0 =>
      if imm3_imm2 =? 0 then
        let d := <[F_instr_imm_type := T_THUMB2_NO_IMM]> d in
        (I_MOV, d)
      else (I_LSL, d)
  | 1 => (I_LSR, d)
  | 2 => (I_ASR, d)
  | 3 =>
      if imm3_imm2 =? 0 then
        let d := <[F_instr_imm_type := T_THUMB2_NO_IMM]> d in
        (I_RRX, d)
      else (I_ROR, d)
  | _ => (I_INVLD, d)
  end.

Definition thumb2_data_shifted_reg (d : darm_t) (w w2 : Z) : Z * darm_t :=
  let op := field w 5 15 in
  let Rn := w .& 15 in
  let Rd_S := field w2 7 0x1e .| field w 4 1 in
  let d := assign [(F_instr_type, T_THUMB2_RN_RD_RM_REG); (F_instr_imm_type, T_THUMB2_IMM2_IMM3);
    (F_instr_flag_type, T_THUMB2_S_TYPE_FLAG)] d in
  match op with
  | 0 =>
      if Rd_S =? 0x1f then
        let d := assign [(F_instr_type, T_THUMB2_RN_RM_REG);
          (F_instr_flag_type, T_THUMB2_TYPE_FLAG)] d in
        (I_TST, d)
      else (I_AND, d)
  | 1 => (I_BIC, d)
  | 2 =>
      if Rn =? 15 then thumb2_move_shift d w w2
      else (I_ORR, d)
  | 3 =>
      if Rn =? 15 then
        let d := <[F_instr_type := T_THUMB2_RD_RM_REG]> d in
        (I_MVN, d)
      else (I_ORN, d)
  | 4 =>
      if Rd_S =? 0x1f then
        let d := assign [(F_instr_type, T_THUMB2_RN_RM_REG);
          (F_instr_flag_type, T_THUMB2_TYPE_FLAG)] d in
        (I_TEQ, d)
      else (I_EOR, d)
  | 6 =>
      let d := <[F_instr_flag_type := T_THUMB2_S_FLAG]> d in
      (I_PKH, d)
  | 8 =>
      if Rd_S =? 0x1f then
        let d := assign [(F_instr_type, T_THUMB2_RN_RM_REG);
          (F_instr_flag_type, T_THUMB2_TYPE_FLAG)] d in
        (I_CMN, d)
      else (I_ADD, d)
  | 10 => (I_ADC, d)
  | 11 => (I_SBC, d)
  | 13 =>
      if Rd_S =? 0x1f then
        let d := assign [(F_instr_type, T_THUMB2_RN_RM_REG);
          (F_instr_flag_type, T_THUMB2_TYPE_FLAG)] d in
        (I_CMP, d)
      else (I_SUB, d)
  | 14 => (I_RSB, d)
  | _ => (I_INVLD, d)
  end.

Definition thumb2_modified_immediate (d : darm_t) (w w2 : Z) : Z * darm_t :=
  let op := field w 5 15 in
  let Rn := w .& 15 in
  let Rd_S := field w2 7 0x1e .| field w 4 1 in
  let d := assign [(F_instr_type, T_THUMB2_RN_RD_REG); (F_instr_imm_type, T_THUMB2_IMM1_IMM3_IMM8);
    (F_instr_flag_type, T_THUMB2_S_FLAG)] d in
  match op with
  | 0 =>
      if Rd_S =? 0x1f then
        let d := assign [(F_instr_type, T_THUMB2_RN_REG);
          (F_instr_flag_type, T_THUMB2_NO_FLAG)] d in
        (I_TST, d)
      else (I_AND, d)
  | 1 => (I_BIC, d)
  | 2 =>
      if Rn =? 15 then
        let d := <[F_instr_type := T_THUMB2_RD_REG]> d in
        (I_MOV, d)
      else (I_ORR, d)
  | 3 =>
      if Rn =? 15 then
        let d := <[F_instr_type := T_THUMB2_RD_REG]> d in
        (I_MVN, d)
      else (I_ORN, d)
  | 4 =>
      if Rd_S =? 0x1f then
        let d := assign [(F_instr_type, T_THUMB2_RN_REG);
          (F_instr_flag_type, T_THUMB2_NO_FLAG)] d in
        (I_TEQ, d)
      else (I_EOR, d)
  | 8 =>
      if Rd_S =? 0x1f then
        let d := assign [(F_instr_type, T_THUMB2_RN_REG);
          (F_instr_flag_type, T_THUMB2_NO_FLAG)] d in
        (I_CMN, d)
      else (I_ADD, d)
  | 10 => (I_ADC, d)
  | 11 => (I_SBC, d)
  | 13 =>
      if Rd_S =? 0x1f then
        let d := assign [(F_instr_type, T_THUMB2_RN_REG);
          (F_instr_flag_type, T_THUMB2_NO_FLAG)] d in
        (I_CMP, d)
      else (I_SUB, d)
  | 14 => (I_RSB, d)
  | _ => (I_INVLD, d)
  end.

Definition thumb2_plain_immediate (d : darm_t) (w w2 : Z) : Z * darm_t :=
  let op := field w 4 0x1f in
  let Rn := w .& 15 in
  let d := assign [(F_instr_type, T_THUMB2_RN_RD_REG); (F_instr_imm_type, T_THUMB2_IMM1_IMM3_IMM8);
    (F_instr_flag_type, T_THUMB2_NO_FLAG)] d in
  match op with
  | 0 => (if Rn =? 15 then I_ADR else I_ADDW, d)
  | 4 =>
      let d := <[F_instr_type := T_THUMB2_RD_REG]> d in
      (I_MOVW, d)
  | 10 => (if Rn =? 15 then I_ADR else I_SUBW, d)
  | 12 =>
      let d := <[F_instr_type := T_THUMB2_RD_REG]> d in
      (I_MOVT, d)
  | 16 =>
      let d := <[F_instr_imm_type := T_THUMB2_IMM2_IMM3]> d in
      (I_SSAT, d)
  | 18 =>
      if (w2 .& 0x70c0) =? 0 then
        let d := <[F_instr_imm_type := T_THUMB2_NO_IMM]> d in
        (I_SSAT16, d)
      else
        let d := <[F_instr_imm_type := T_THUMB2_IMM2_IMM3]> d in
        (I_SSAT, d)
  | 20 =>
      let d := <[F_instr_imm_type := T_THUMB2_IMM2_IMM3]> d in
      (I_SBFX, d)
  | 22 =>
      let d := <[F_instr_imm_type := T_THUMB2_IMM2_IMM3]> d in
      if Rn =? 15 then
        let d := <[F_instr_type := T_THUMB2_RD_REG]> d in
        (I_BFC, d)
      else (I_BFI, d)
  | 24 =>
      let d := <[F_instr_imm_type := T_THUMB2_IMM2_IMM3]> d in
      (I_USAT, d)
  | 26 =>
      if (w2 .& 0x70c0) =? 0 then
        let d := <[F_instr_imm_type := T_THUMB2_NO_IMM]> d in
        (I_USAT16, d)
      else
        let d := <[F_instr_imm_type := T_THUMB2_IMM2_IMM3]> d in
        (I_USAT, d)
  | 28 =>
      let d := <[F_instr_imm_type := T_THUMB2_IMM2_IMM3]> d in
      (I_UBFX, d)
  | _ => (I_INVLD, d)
  end.

Definition thumb2_proc_state (d : darm_t) (w w2 : Z) : Z * darm_t :=
  let op1 := field w2 8 7 in
  let op2 := w2 .& 0xff in
  if op1 =? 0 then
    match op2 with
    | 0 => (I_NOP, d)
    | 1 => (I_YIELD, d)
    | 2 => (I_WFE, d)
    | 3 => (I_WFI, d)
    | 4 => (I_SEV, d)
    | _ =>
        if field op2 4 15 =? 15 then (I_DBG, d)
        else (I_INVLD, d)
    end
  else (I_CPS, d).

Definition thumb2_misc_ctrl (d : darm_t) (w w2 : Z) : Z * darm_t :=
  let op := field w2 4 7 in
  match op with
  | 0 | 1 => (I_NOP, d)
  | 2 => (I_CLREX, d)
  | 4 => (I_DSB, d)
  | 5 => (I_DMB, d)
  | 6 => (I_ISB, d)
  | _ => (I_INVLD, d)
  end.

Definition thumb2_branch_misc_ctrl (d : darm_t) (w w2 : Z) : Z * darm_t :=
  let op := field w 4 0x7f in
  let op1 := field w2 12 7 in
  let imm8 := w2 .& 0xff in
  let d := assign [(F_instr_type, T_THUMB2_NO_REG); (F_instr_imm_type, T_THUMB2_NO_IMM);
    (F_instr_flag_type, T_THUMB2_NO_FLAG)] d in
  if (op1 =? 0) && (op =? 0xfe) then (I_NOP, d)
  else if (op1 =? 0) && (op =? 0xff) then (I_SMC, d)
  else if (op1 .& 5) =? 1 then
    let d := <[F_instr_flag_type := T_THUMB2_S_FLAG]> d in
    (I_B, d)
  else if (op1 =? 2) && (op =? 0xff) then (I_UDF, d)
  else if (op1 .& 5) =? 0 then
    if negb ((op .& 0x38) =? 0x38) then
      let d := <[F_instr_flag_type := T_THUMB2_S_FLAG]> d in
      (I_B, d)
    else if ((op .& 0x7e) =? 0x38) && ((imm8 .& 0x10) =? 0x10) then (I_MSR, d)
    else if (op =? 0x38) && ((imm8 .& 0x10) =? 0) then
      let d := <[F_instr_type := T_THUMB2_RN_REG]> d in
      (I_MSR, d)
    else if op =? 0x3a then thumb2_proc_state d w w2
    else if op =? 0x3b then thumb2_misc_ctrl d w w2
    else if op =? 0x3c then
      let d := <[F_instr_type := T_THUMB2_RM_REG]> d in
      (I_BXJ, d)
    else if (op =? 0x3e) && ((imm8 .& 0x10) =? 0) then
      let d := <[F_instr_type := T_THUMB2_RD_REG]> d in
      (I_MRS, d)
    else (I_INVLD, d)
  else if (op1 .& 5) =? 4 then
    let d := <[F_instr_flag_type := T_THUMB2_S_FLAG]> d in
    (I_BLX, d)
  else if (op1 .& 5) =? 5 then
    let d := <[F_instr_flag_type := T_THUMB2_S_FLAG]> d in
    (I_BL, d)
  else (I_INVLD, d).

Definition thumb2_store_single_item (d : darm_t) (w w2 : Z) : Z * darm_t :=
  let op1 := field w 5 7 in
  let op2 := field w2 6 0x3f in
  let d := assign [(F_instr_type, T_THUMB2_RN_RT_REG); (F_instr_imm_type, T_THUMB2_IMM8);
    (F_instr_flag_type, T_THUMB2_NO_FLAG)] d in
  match op1 with
  | 0 =>
      if op2 =? 0 then
        let d := assign [(F_instr_type, T_THUMB2_RN_RM_RT_REG);
          (F_instr_imm_type, T_THUMB2_IMM2)] d in
        (I_STRB, d)
      else if (op2 .& 0x3c) =? 0x38 then (I_STRBT, d)
      else if ((op2 .& 0x3c) =? 0x30) || ((op2 .& 0x24) =? 0x24) then
        let d := <[F_instr_flag_type := T_THUMB2_WUP_FLAG]> d in
        (I_STRB, d)
      else (I_INVLD, d)
  | 1 =>
      if op2 =? 0 then
        let d := assign [(F_instr_type, T_THUMB2_RN_RM_RT_REG);
          (F_instr_imm_type, T_THUMB2_IMM2)] d in
        (I_STRH, d)
      else if (op2 .& 0x3c) =? 0x38 then (I_STRHT, d)
      else if ((op2 .& 0x3c) =? 0x30) || ((op2 .& 0x24) =? 0x24) then
        let d := <[F_instr_flag_type := T_THUMB2_WUP_FLAG]> d in
        (I_STRH, d)
      else (I_INVLD, d)
  | 2 =>
      if op2 =? 0 then
        let d := assign [(F_instr_type, T_THUMB2_RN_RM_RT_REG);
          (F_instr_imm_type, T_THUMB2_IMM2)] d in
        (I_STR, d)
      else if (op2 .& 0x3c) =? 0x38 then (I_STRT, d)
      else if ((op2 .& 0x3c) =? 0x30) || ((op2 .& 0x24) =? 0x24) then
        if ((w .& 0xf) =? 13) && ((w2 .& 0xfff) =? 0xd04) then
          let d := assign [(F_instr_type, T_THUMB2_RT_REG); (F_instr_imm_type, T_THUMB2_NO_IMM);
            (F_instr_flag_type, T_THUMB2_NO_FLAG)] d in
          (I_PUSH, d)
        else
          let d := <[F_instr_flag_type := T_THUMB2_WUP_FLAG]> d in
          (I_STR, d)
      else (I_INVLD, d)
  | 4 =>
      let d := <[F_instr_imm_type := T_THUMB2_IMM12]> d in
      (I_STRB, d)
  | 5 =>
      let d := <[F_instr_imm_type := T_THUMB2_IMM12]> d in
      (I_STRH, d)
  | 6 =>
      let d := <[F_instr_imm_type := T_THUMB2_IMM12]> d in
      (I_STR, d)
  | _ => (I_INVLD, d)
  end.

Definition thumb2_load_byte_hints (d : darm_t) (w w2 : Z) : Z * darm_t :=
  let op1 := field w 7 3 in
  let op2 := field w2 6 0x3f in
  let Rn := w .& 15 in
  let Rt := field w2 12 15 in
  let d := assign [(F_instr_type, T_THUMB2_RN_RT_REG); (F_instr_imm_type, T_THUMB2_IMM12);
    (F_instr_flag_type, T_THUMB2_NO_FLAG)] d in
  if ((op1 .& 2) =? 0) && (Rn =? 15) then
    let d := <[F_instr_flag_type := T_THUMB2_U_FLAG]> d in
    if Rt =? 15 then
      let d := <[F_instr_imm_type := T_THUMB2_NO_REG]> d in
      (I_PLD, d)
    else
      let d := <[F_instr_type := T_THUMB2_RT_REG]> d in
      (I_LDRB, d)
  else if ((op1 .& 2) =? 2) && (Rn =? 15) then
    let d := <[F_instr_flag_type := T_THUMB2_U_FLAG]> d in
    if Rt =? 15 then
      let d := <[F_instr_imm_type := T_THUMB2_NO_REG]> d in
      (I_PLI, d)
    else
      let d := <[F_instr_type := T_THUMB2_RT_REG]> d in
      (I_LDRSB, d)
  else if op1 =? 0 then
    if op2 =? 0 then
      let d := <[F_instr_imm_type := T_THUMB2_IMM2]> d in
      if Rt =? 15 then
        let d := <[F_instr_type := T_THUMB2_RN_RM_REG]> d in
        (I_PLD, d)
      else
        let d := <[F_instr_type := T_THUMB2_RN_RM_RT_REG]> d in
        (I_LDRB, d)
    else if (op2 .& 0x24) =? 0x24 then
      let d := assign [(F_instr_imm_type, T_THUMB2_IMM8);
        (F_instr_flag_type, T_THUMB2_WUP_FLAG)] d in
      (I_LDRB, d)
    else if (op2 .& 0x3c) =? 0x30 then
      let d := <[F_instr_imm_type := T_THUMB2_IMM8]> d in
      if Rt =? 15 then
        let d := <[F_instr_type := T_THUMB2_RN_REG]> d in
        (I_PLD, d)
      else
        let d := <[F_instr_flag_type := T_THUMB2_WUP_FLAG]> d in
        (I_LDRB, d)
    else if (op2 .& 0x3c) =? 0x38 then
      let d := <[F_instr_imm_type := T_THUMB2_IMM8]> d in
      (I_LDRBT, d)
    else (I_INVLD, d)
  else if op1 =? 1 then
    if Rt =? 15 then
      let d := <[F_instr_type := T_THUMB2_RN_REG]> d in
      (I_PLD, d)
    else (I_LDRB, d)
  else if op1 =? 2 then
    if op2 =? 0 then
      let d := <[F_instr_imm_type := T_THUMB2_IMM2]> d in
      if Rt =? 15 then
        let d := <[F_instr_type := T_THUMB2_RN_RM_REG]> d in
        (I_PLI, d)
      else
        let d := <[F_instr_type := T_THUMB2_RN_RM_RT_REG]> d in
        (I_LDRSB, d)
    else if (op2 .& 0x24) =? 0x24 then
      let d := assign [(F_instr_imm_type, T_THUMB2_IMM8);
        (F_instr_flag_type, T_THUMB2_WUP_FLAG)] d in
      (I_LDRSB, d)
    else if (op2 .& 0x3C) =? 0x30 then
      let d := <[F_instr_imm_type := T_THUMB2_IMM8]> d in
      if Rt =? 15 then
        let d := <[F_instr_type := T_THUMB2_RN_REG]> d in
        (I_PLI, d)
      else
        let d := <[F_instr_flag_type := T_THUMB2_WUP_FLAG]> d in
        (I_LDRSB, d)
    else if (op2 .& 0x3C) =? 0x38 then
      let d := <[F_instr_imm_type := T_THUMB2_IMM8]> d in
      (I_LDRSBT, d)
    else (I_INVLD, d)
  else if op1 =? 3 then
    if Rt =? 15 then
      let d := <[F_instr_type := T_THUMB2_RN_REG]> d in
      (I_PLI, d)
    else (I_LDRSB, d)
  else (I_INVLD, d).

Definition thumb2_load_halfword_hints (d : darm_t) (w w2 : Z) : Z * darm_t :=
  let op1 := field w 7 3 in
  let op2 := field w2 6 0x3f in
  let Rn := w .& 15 in
  let Rt := field w2 12 15 in
  let d := assign [(F_instr_type, T_THUMB2_RN_RT_REG); (F_instr_imm_type, T_THUMB2_IMM12);
    (F_instr_flag_type, T_THUMB2_NO_FLAG)] d in
  if ((op1 .& 2) =? 0) && (Rn =? 15) then
    let d := <[F_instr_flag_type := T_THUMB2_U_FLAG]> d in
    if Rt =? 15 then (I_PLD, d)
    else
      let d := <[F_instr_type := T_THUMB2_RT_REG]> d in
      (I_LDRH, d)
  else if ((op1 .& 2) =? 2) && (Rn =? 15) then
    if Rt =? 15 then (I_NOP, d)
    else
      let d := assign [(F_instr_flag_type, T_THUMB2_U_FLAG); (F_instr_type, T_THUMB2_RT_REG)] d in
      (I_LDRSH, d)
  else if op1 =? 0 then
    if op2 =? 0 then
      let d := <[F_instr_imm_type := T_THUMB2_IMM2]> d in
      if Rt =? 15 then
        let d := <[F_instr_type := T_THUMB2_RN_RM_REG]> d in
        (I_PLD, d)
      else
        let d := <[F_instr_type := T_THUMB2_RN_RM_RT_REG]> d in
        (I_LDRH, d)
    else if (op2 .& 0x24) =? 0x24 then
      let d := assign [(F_instr_imm_type, T_THUMB2_IMM8);
        (F_instr_flag_type, T_THUMB2_WUP_FLAG)] d in
      (I_LDRH, d)
    else if (op2 .& 0x3c) =? 0x30 then
      if Rt =? 15 then
        let d := assign [(F_instr_type, T_THUMB2_RN_REG); (F_instr_imm_type, T_THUMB2_IMM8)] d in
        (I_PLD, d)
      else
        let d := assign [(F_instr_imm_type, T_THUMB2_IMM8);
          (F_instr_flag_type, T_THUMB2_WUP_FLAG)] d in
        (I_LDRH, d)
    else if (op2 .& 0x3c) =? 0x38 then
      let d := <[F_instr_imm_type := T_THUMB2_IMM8]> d in
      (I_LDRHT, d)
    else (I_INVLD, d)
  else if op1 =? 1 then
    if Rt =? 15 then
      let d := <[F_instr_type := T_THUMB2_RN_REG]> d in
      (I_PLD, d)
    else (I_LDRH, d)
  else if op1 =? 2 then
    if op2 =? 0 then
      if Rt =? 15 then (I_NOP, d)
      else
        let d := assign [(F_instr_imm_type, T_THUMB2_IMM2);
          (F_instr_type, T_THUMB2_RN_RM_RT_REG)] d in
        (I_LDRSH, d)
    else if (op2 .& 0x24) =? 0x24 then
      let d := assign [(F_instr_imm_type, T_THUMB2_IMM8);
        (F_instr_flag_type, T_THUMB2_WUP_FLAG)] d in
      (I_LDRSH, d)
    else if (op2 .& 0x3c) =? 0x30 then
      if Rt =? 15 then (I_NOP, d)
      else
        let d := assign [(F_instr_imm_type, T_THUMB2_IMM8);
          (F_instr_flag_type, T_THUMB2_WUP_FLAG)] d in
        (I_LDRSH, d)
    else if (op2 .& 0x3c) =? 0x38 then
      let d := <[F_instr_imm_type := T_THUMB2_IMM8]> d in
      (I_LDRSHT, d)
    else (I_INVLD, d)
  else if op1 =? 3 then
    if Rt =? 15 then (I_NOP, d)
    else (I_LDRSH, d)
  else (I_INVLD, d).

Definition thumb2_load_word (d : darm_t) (w w2 : Z) : Z * darm_t :=
  let op1 := field w 7 3 in
  let op2 := field w2 6 0x3f in
  let Rn := w .& 15 in
  let d := assign [(F_instr_type, T_THUMB2_RN_RT_REG); (F_instr_imm_type, T_THUMB2_IMM8);
    (F_instr_flag_type, T_THUMB2_NO_FLAG)] d in
  if ((op1 .& 2) =? 0) && (Rn =? 15) then
    let d := assign [(F_instr_type, T_THUMB2_RT_REG); (F_instr_imm_type, T_THUMB2_IMM12);
      (F_instr_flag_type, T_THUMB2_U_FLAG)] d in
    (I_LDR, d)
  else if (op1 =? 1) && negb (Rn =? 15) then
    let d := <[F_instr_imm_type := T_THUMB2_IMM12]> d in
    (I_LDR, d)
  else if (op1 =? 0) && negb (Rn =? 15) then
    if op2 =? 0 then
      let d := assign [(F_instr_type, T_THUMB2_RN_RM_RT_REG);
        (F_instr_imm_type, T_THUMB2_IMM2)] d in
      (I_LDR, d)
    else if ((op2 .& 0x3c) =? 0x30) || ((op2 .& 0x24) =? 0x24) then
      let d := <[F_instr_flag_type := T_THUMB2_WUP_FLAG]> d in
      if ((w .& 0xf) =? 13) && ((w2 .& 0xfff) =? 0xb04) then
        let d := assign [(F_instr_type, T_THUMB2_RT_REG); (F_instr_imm_type, T_THUMB2_NO_IMM);
          (F_instr_flag_type, T_THUMB2_NO_FLAG)] d in
        (I_POP, d)
      else (I_LDR, d)
    else if (op2 .& 0x3c) =? 0x38 then (I_LDRT, d)
    else (I_INVLD, d)
  else (I_INVLD, d).

Definition thumb2_parallel_signed (d : darm_t) (w w2 : Z) : Z * darm_t :=
  let op1 := field w 4 7 in
  let op2 := field w2 4 3 in
  let d := assign [(F_instr_type, T_THUMB2_RN_RD_RM_REG); (F_instr_imm_type, T_THUMB2_NO_IMM);
    (F_instr_flag_type, T_THUMB2_NO_FLAG)] d in
  if op2 =? 0 then
    match op1 with
    | 0 => (I_SADD8, d)
    | 1 => (I_SADD16, d)
    | 2 => (I_SASX, d)
    | 4 => (I_SSUB8, d)
    | 5 => (I_SSUB16, d)
    | 6 => (I_SSAX, d)
    | _ => (I_INVLD, d)
    end
  else if op2 =? 1 then
    match op1 with
    | 0 => (I_QADD8, d)
    | 1 => (I_QADD16, d)
    | 2 => (I_QASX, d)
    | 4 => (I_QSUB8, d)
    | 5 => (I_QSUB16, d)
    | 6 => (I_QSAX, d)
    | _ => (I_INVLD, d)
    end
  else if op2 =? 2 then
    match op1 with
    | 0 => (I_SHADD8, d)
    | 1 => (I_SHADD16, d)
    | 2 => (I_SHASX, d)
    | 4 => (I_SHSUB8, d)
    | 5 => (I_SHSUB16, d)
    | 6 => (I_SHSAX, d)
    | _ => (I_INVLD, d)
    end
  else (I_INVLD, d).

Definition thumb2_parallel_unsigned (d : darm_t) (w w2 : Z) : Z * darm_t :=
  let op1 := field w 4 7 in
  let op2 := field w2 4 3 in
  let d := assign [(F_instr_type, T_THUMB2_RN_RD_RM_REG); (F_instr_imm_type, T_THUMB2_NO_IMM);
    (F_instr_flag_type, T_THUMB2_NO_FLAG)] d in
  if op2 =? 0 then
    match op1 with
    | 0 => (I_UADD8, d)
    | 1 => (I_UADD16, d)
    | 2 => (I_UASX, d)
    | 4 => (I_USUB8, d)
    | 5 => (I_USUB16, d)
    | 6 => (I_USAX, d)
    | _ => (I_INVLD, d)
    end
  else if op2 =? 1 then
    match op1 with
    | 0 => (I_UQADD8, d)
    | 1 => (I_UQADD16, d)
    | 2 => (I_UQASX, d)
    | 4 => (I_UQSUB8, d)
    | 5 => (I_UQSUB16, d)
    | 6 => (I_UQSAX, d)
    | _ => (I_INVLD, d)
    end
  else if op2 =? 2 then
    match op1 with
    | 0 => (I_UHADD8, d)
    | 1 => (I_UHADD16, d)
    | 2 => (I_UHASX, d)
    | 4 => (I_UHSUB8, d)
    | 5 => (I_UHSUB16, d)
    | 6 => (I_UHSAX, d)
    | _ => (I_INVLD, d)
    end
  else (I_INVLD, d).

Definition thumb2_misc_op (d : darm_t) (w w2 : Z) : Z * darm_t :=
  let op1 := field w 4 3 in
  let op2 := field w2 4 3 in
  if negb (field w2 12 15 =? 15) then (I_INVLD, d)
  else
    let d := assign [(F_instr_type, T_THUMB2_RN_RD_RM_REG); (F_instr_imm_type, T_THUMB2_NO_IMM);
      (F_instr_flag_type, T_THUMB2_NO_FLAG)] d in
    match op1 with
    | 0 =>
        match op2 with
        | 0 => (I_QADD, d)
        | 1 => (I_QDADD, d)
        | 2 => (I_QSUB, d)
        | 3 => (I_QDSUB, d)
        | _ => let d := <[F_instr_type := T_THUMB2_RD_RM_REG]> d in
            match op2 with
            | 0 => (I_REV, d)
            | 1 => (I_REV16, d)
            | 2 => (I_RBIT, d)
            | 3 => (I_REVSH, d)
            | _ => if op2 =? 0 then (I_SEL, d)
                else (I_INVLD, d)
            end
        end
    | 1 =>
        let d := <[F_instr_type := T_THUMB2_RD_RM_REG]> d in
        match op2 with
        | 0 => (I_REV, d)
        | 1 => (I_REV16, d)
        | 2 => (I_RBIT, d)
        | 3 => (I_REVSH, d)
        | _ => if op2 =? 0 then (I_SEL, d)
            else (I_INVLD, d)
        end
    | 2 =>
        if op2 =? 0 then (I_SEL, d)
        else (I_INVLD, d)
    | 3 =>
        if op2 =? 0 then
          let d := <[F_instr_type := T_THUMB2_RD_RM_REG]> d in
          (I_CLZ, d)
        else (I_INVLD, d)
    | _ => (I_INVLD, d)
    end.

Definition thumb2_data_reg (d : darm_t) (w w2 : Z) : Z * darm_t :=
  let op1 := field w 4 15 in
  let op2 := field w2 4 15 in
  let Rn := w .& 15 in
  let d := assign [(F_instr_type, T_THUMB2_RN_RD_RM_REG); (F_instr_imm_type, T_THUMB2_NO_IMM);
    (F_instr_flag_type, T_THUMB2_ROTATE_FLAG)] d in
  if (op2 =? 0) && ((op1 .& 8) =? 0) then
    let d := <[F_instr_flag_type := T_THUMB2_S_FLAG]> d in
    match op1 .& 14 with
    | 0 => (I_LSL, d)
    | 2 => (I_LSR, d)
    | 4 => (I_ASR, d)
    | 6 => (I_ROR, d)
    | _ => (I_INVLD, d)
    end
  else if (op1 <? 8) && ((op2 .& 8) =? 8) then
    let d := <[F_instr_flag_type := T_THUMB2_ROTATE_FLAG]> d in
    match op1 with
    | 0 =>
        if Rn =? 15 then
          let d := <[F_instr_type := T_THUMB2_RD_RM_REG]> d in
          (I_SXTH, d)
        else (I_SXTAH, d)
    | 1 =>
        if Rn =? 15 then
          let d := <[F_instr_type := T_THUMB2_RD_RM_REG]> d in
          (I_UXTH, d)
        else (I_UXTAH, d)
    | 2 =>
        if Rn =? 15 then
          let d := <[F_instr_type := T_THUMB2_RD_RM_REG]> d in
          (I_SXTB16, d)
        else (I_SXTAB16, d)
    | 3 =>
        if Rn =? 15 then
          let d := <[F_instr_type := T_THUMB2_RD_RM_REG]> d in
          (I_UXTB16, d)
        else (I_UXTAB16, d)
    | 4 =>
        if Rn =? 15 then
          let d := <[F_instr_type := T_THUMB2_RD_RM_REG]> d in
          (I_SXTB, d)
        else (I_SXTAB, d)
    | 5 =>
        if Rn =? 15 then
          let d := <[F_instr_type := T_THUMB2_RD_RM_REG]> d in
          (I_UXTB, d)
        else (I_UXTAB, d)
    | _ => (I_INVLD, d)
    end
  else if ((op1 .& 8) =? 8) && ((op2 .& 12) =? 0) then thumb2_parallel_signed d w w2
  else if ((op1 .& 8) =? 8) && ((op2 .& 12) =? 4) then thumb2_parallel_unsigned d w w2
  else if ((op1 .& 12) =? 8) && ((op2 .& 12) =? 8) then thumb2_misc_op d w w2
  else (I_INVLD, d).

Definition thumb2_nm_decoder (d : darm_t) (w w2 : Z) (i1 i2 i3 i4 : Z) : Z * darm_t :=
  let n := field w2 5 1 in
  let m := field w2 4 1 in
  if n =? 1 then
    if m =? 1 then (i4, d)
    else (i3, d)
  else if m =? 1 then (i2, d)
  else (i1, d).

Definition thumb2_mult_acc_diff (d : darm_t) (w w2 : Z) : Z * darm_t :=
  let op1 := field w 4 7 in
  let op2 := field w2 4 3 in
  let Ra := field w2 12 15 in
  if negb (field w2 6 3 =? 0) then (I_INVLD, d)
  else
    let d := assign [(F_instr_type, T_THUMB2_RN_RD_RM_RA_REG); (F_instr_imm_type, T_THUMB2_NO_IMM);
      (F_instr_flag_type, T_THUMB2_NO_FLAG)] d in
    if op1 =? 1 then
      if Ra =? 15 then thumb2_nm_decoder d w w2 I_SMULBB I_SMULBT I_SMULTB I_SMULTT
      else thumb2_nm_decoder d w w2 I_SMLABB I_SMLABT I_SMLATB I_SMLATT
    else if negb ((op2 .& 2) =? 0) then (I_INVLD, d)
    else
      match op1 with
      | 0 =>
          if (op2 =? 0) && (Ra =? 15) then
            let d := <[F_instr_type := T_THUMB2_RN_RD_RM_REG]> d in
            (I_MUL, d)
          else if (op2 =? 0) && negb (Ra =? 15) then (I_MLA, d)
          else if op2 =? 1 then (I_MLS, d)
          else (I_INVLD, d)
      | 2 =>
          if Ra =? 15 then
            let d := <[F_instr_type := T_THUMB2_RN_RD_RM_REG]> d in
            (I_SMUAD, d)
          else (I_SMLAD, d)
      | 3 =>
          if Ra =? 15 then
            let d := <[F_instr_type := T_THUMB2_RN_RD_RM_REG]> d in
            (I_SMULW, d)
          else (I_SMLAW, d)
      | 4 =>
          if Ra =? 15 then
            let d := <[F_instr_type := T_THUMB2_RN_RD_RM_REG]> d in
            (I_SMUSD, d)
          else (I_SMLSD, d)
      | 5 =>
          if Ra =? 15 then
            let d := <[F_instr_type := T_THUMB2_RN_RD_RM_REG]> d in
            (I_SMMUL, d)
          else (I_SMMLA, d)
      | 6 => (I_SMMLS, d)
      | 7 =>
          if (op2 =? 0) && (Ra =? 15) then
            let d := <[F_instr_type := T_THUMB2_RN_RD_RM_REG]> d in
            (I_USAD8, d)
          else if op2 =? 0 then (I_USADA8, d)
          else (I_INVLD, d)
      | _ => (I_INVLD, d)
      end.

Definition thumb2_long_mult_acc (d : darm_t) (w w2 : Z) : Z * darm_t :=
  let op1 := field w 4 7 in
  let op2 := field w2 4 15 in
  let d := assign [(F_instr_type, T_THUMB2_RN_RM_REG); (F_instr_imm_type, T_THUMB2_NO_IMM);
    (F_instr_flag_type, T_THUMB2_NO_FLAG)] d in
  match op1 with
  | 0 =>
      if op2 =? 0 then (I_SMULL, d)
      else (I_INVLD, d)
  | 1 =>
      if op2 =? 15 then
        let d := <[F_instr_type := T_THUMB2_RN_RD_RM_REG]> d in
        (I_SDIV, d)
      else (I_INVLD, d)
  | 2 =>
      if op2 =? 0 then (I_UMULL, d)
      else (I_INVLD, d)
  | 3 =>
      if op2 =? 15 then
        let d := <[F_instr_type := T_THUMB2_RN_RD_RM_REG]> d in
        (I_UDIV, d)
      else (I_INVLD, d)
  | 4 =>
      if op2 =? 0 then (I_SMLAL, d)
      else if (op2 .& 12) =? 8 then thumb2_nm_decoder d w w2 I_SMLALBB I_SMLALBT I_SMLALTB I_SMLALTT
      else if (op2 .& 14) =? 12 then (I_SMLALD, d)
      else (I_INVLD, d)
  | 5 =>
      if (op2 .& 14) =? 12 then (I_SMLSLD, d)
      else (I_INVLD, d)
  | 6 =>
      if op2 =? 0 then (I_UMLAL, d)
      else if op2 =? 6 then (I_UMAAL, d)
      else (I_INVLD, d)
  | _ => (I_INVLD, d)
  end.

Definition thumb2_coproc_simd (d : darm_t) (w w2 : Z) : Z * darm_t :=
  (I_INVLD, d).

Definition thumb2_decode_instruction (d : darm_t) (w w2 : Z) : Z * darm_t :=
  let op2 := field w 4 0x7f in
  match field w 11 3 with
  | 1 =>
      let op2 := op2 .& 0x64 in
      if op2 =? 0 then thumb2_load_store_multiple d w w2
      else if op2 =? 4 then thumb2_load_store_dual d w w2
      else if field op2 5 3 =? 1 then thumb2_data_shifted_reg d w w2
      else if field op2 6 1 =? 1 then thumb2_coproc_simd d w w2
      else (I_INVLD, d)
  | 2 =>
      let op2 := (op2 .& 0x20) .>> 5 in
      if (op2 =? 0) && ((w2 .& 0x8000) =? 0) then thumb2_modified_immediate d w w2
      else if (op2 =? 1) && ((w2 .& 0x8000) =? 0) then thumb2_plain_immediate d w w2
      else if (w2 .& 0x8000) =? 0x8000 then thumb2_branch_misc_ctrl d w w2
      else (I_INVLD, d)
  | 3 =>
      if (op2 .& 0x71) =? 0 then thumb2_store_single_item d w w2
      else if (op2 .& 0x71) =? 0x10 then (I_INVLD, d)
      else if (op2 .& 0x70) =? 0x20 then thumb2_data_reg d w w2
      else if (op2 .& 0x78) =? 0x30 then thumb2_mult_acc_diff d w w2
      else if (op2 .& 0x78) =? 0x38 then thumb2_long_mult_acc d w w2
      else
        match op2 .& 0x67 with
        | 1 => thumb2_load_byte_hints d w w2
        | 3 => thumb2_load_halfword_hints d w w2
        | 5 => thumb2_load_word d w w2
        | _ => (I_INVLD, d)
        end
  | _ => (I_INVLD, d)
  end.
