(* ===== verification/Thumb2.v ===== *)
(** The Thumb-2 disassembler of darm (trace_analyzer/darm/thumb2.c): once the decoder has named the
    instruction and the kinds of its operands, the operands are read by kind and then corrected
    instruction by instruction; and [darm_disasm] (trace_analyzer/darm/darm.c), which picks one of
    the three disassemblers.  A left shift of a signed value keeps the low 32 bits and a right
    shift of a negative one is arithmetic, as GCC defines them. *)

From Stdlib Require Import ZArith.
From stdpp Require Import base functions option list.
From S2P Require Import Prelude DarmTbl ThumbTbl Darm Thumb Thumb2Decoder.

Definition SIGN_EXTEND32 (v len : Z) : Z := s32 (s32 v .<< (32 - len)) .>> (32 - len).

(** [(w >> n) & 1 ? B_SET : B_UNSET]. *)
Definition b_flag (w n : Z) : Z := if bit w n then B_SET else B_UNSET.

Section Thumb2.
(** [v << 32] on a 32-bit operand, which C leaves undefined. *)
Variable shl_32 : Z → Z.

(** The modified immediate: the remaining case of the [switch] is 3. *)
Definition thumb_expand_imm (imm12 : Z) : Z :=
  let imm12 := u16 imm12 .& 0xfff in
  if (imm12 .& 0xc00) =? 0 then
    match (imm12 .& 0x300) .>> 8 with
    | 0 => imm12 .& 0xff
    | 1 => ((imm12 .& 0xff) .<< 16) .| (imm12 .& 0xff)
    | 2 => u32 ((imm12 .& 0xff) .<< 24) .| ((imm12 .& 0xff) .<< 8)
    | _ =>
        let imm12 := imm12 .& 0xff in
        u32 (imm12 .| (imm12 .<< 8) .| (imm12 .<< 16) .| (imm12 .<< 24))
    end
  else
    let unrotated := 0x80 .| (imm12 .& 0x7F) in
    ROR shl_32 unrotated ((imm12 .& 0xF80) .>> 7).

Definition thumb2_decode_immshift (d : darm_t) (type_ imm5 : Z) : darm_t :=
  let imm5 := u8 imm5 in
  match type_ with
  | 0 => assign [(F_shift_type, S_LSL); (F_shift, imm5)] d
  | 1 => assign [(F_shift_type, S_LSR); (F_shift, if imm5 =? 0 then 32 else imm5)] d
  | 2 => assign [(F_shift_type, S_ASR); (F_shift, if imm5 =? 0 then 32 else imm5)] d
  | 3 => assign [(F_shift_type, S_ROR); (F_shift, if imm5 =? 0 then 1 else imm5)] d
  | _ => <[F_shift_type := S_INVLD]> d
  end.

Definition thumb2_parse_reg (d : darm_t) (w w2 : Z) : darm_t :=
  if d F_instr_type =? T_THUMB2_NO_REG then d
  else if d F_instr_type =? T_THUMB2_RT_REG then
    <[F_Rt := field w2 12 15]> d
  else if d F_instr_type =? T_THUMB2_RT_RT2_REG then
    assign [(F_Rt, field w2 12 15); (F_Rt2, field w2 8 15)] d
  else if d F_instr_type =? T_THUMB2_RM_REG then
    <[F_Rm := w .& 15]> d
  else if d F_instr_type =? T_THUMB2_RD_REG then
    <[F_Rd := field w2 8 15]> d
  else if d F_instr_type =? T_THUMB2_RD_RM_REG then
    assign [(F_Rd, field w2 8 15); (F_Rm, w2 .& 15)] d
  else if d F_instr_type =? T_THUMB2_RN_REG then
    <[F_Rn := w .& 15]> d
  else if d F_instr_type =? T_THUMB2_RN_RT_REG then
    assign [(F_Rn, w .& 15); (F_Rt, field w2 12 15)] d
  else if d F_instr_type =? T_THUMB2_RN_RT_RT2_REG then
    assign [(F_Rn, w .& 15); (F_Rt, field w2 12 15); (F_Rt2, field w2 8 15)] d
  else if d F_instr_type =? T_THUMB2_RN_RM_REG then
    assign [(F_Rn, w .& 15); (F_Rm, w2 .& 15)] d
  else if d F_instr_type =? T_THUMB2_RN_RM_RT_REG then
    assign [(F_Rn, w .& 15); (F_Rm, w2 .& 15); (F_Rt, field w2 12 15)] d
  else if d F_instr_type =? T_THUMB2_RN_RD_REG then
    assign [(F_Rn, w .& 15); (F_Rd, field w2 8 15)] d
  else if d F_instr_type =? T_THUMB2_RN_RD_RT_REG then
    assign [(F_Rn, w .& 15); (F_Rd, w2 .& 15); (F_Rt, field w2 12 15)] d
  else if d F_instr_type =? T_THUMB2_RN_RD_RT_RT2_REG then
    assign [(F_Rn, w .& 15); (F_Rd, w2 .& 15); (F_Rt, field w2 12 15); (F_Rt2, field w2 8 15)] d
  else if d F_instr_type =? T_THUMB2_RN_RD_RM_REG then
    assign [(F_Rn, w .& 15); (F_Rm, w2 .& 15); (F_Rd, field w2 8 15)] d
  else if d F_instr_type =? T_THUMB2_RN_RD_RM_RA_REG then
    assign [(F_Rn, w .& 15); (F_Rm, w2 .& 15); (F_Rd, field w2 8 15); (F_Ra, field w2 12 15)] d
  else d.

Definition thumb2_parse_imm (d : darm_t) (w w2 : Z) : darm_t :=
  let d := <[F_I := B_SET]> d in
  if d F_instr_imm_type =? T_THUMB2_NO_IMM then
    <[F_I := B_UNSET]> d
  else if d F_instr_imm_type =? T_THUMB2_IMM12 then
    <[F_imm := w2 .& 0xfff]> d
  else if d F_instr_imm_type =? T_THUMB2_IMM8 then
    <[F_imm := w2 .& 0xff]> d
  else if d F_instr_imm_type =? T_THUMB2_IMM2 then
    let d := <[F_imm := field w2 4 3]> d in
    assign [(F_shift, d F_imm); (F_shift_type, S_LSL)] d
  else if d F_instr_imm_type =? T_THUMB2_IMM2_IMM3 then
    <[F_imm := field w2 10 28 .| field w2 6 3]> d
  else if d F_instr_imm_type =? T_THUMB2_IMM1_IMM3_IMM8 then
    let d := if (w .& 0x300) =? 0x200 then
          <[F_imm := ((w .& 0x400) .<< 1) .| ((w2 .& 0x7000) .>> 4) .| (w2 .& 0xff)]> d
        else
          let d := <[F_imm := ((w .& 0x400) .<< 1) .| ((w2 .& 0x7000) .>> 4) .| (w2 .& 0xff)]> d in
          <[F_imm := thumb_expand_imm (d F_imm)]> d in
    d
  else d.

Definition thumb2_parse_flag (d : darm_t) (w w2 : Z) : darm_t :=
  if d F_instr_flag_type =? T_THUMB2_NO_FLAG then d
  else if d F_instr_flag_type =? T_THUMB2_ROTATE_FLAG then
    <[F_rotate := field w2 1 24]> d
  else if d F_instr_flag_type =? T_THUMB2_U_FLAG then
    <[F_U := b_flag w 7]> d
  else if d F_instr_flag_type =? T_THUMB2_WUP_FLAG then
    assign [(F_W, b_flag w2 8); (F_U, b_flag w2 9); (F_P, b_flag w2 10)] d
  else if d F_instr_flag_type =? T_THUMB2_TYPE_FLAG then
    thumb2_decode_immshift d (field w2 4 3) (d F_imm)
  else if d F_instr_flag_type =? T_THUMB2_REGLIST_FLAG then
    <[F_reglist := w2 .& 0xffff]> d
  else if d F_instr_flag_type =? T_THUMB2_WP_REGLIST_FLAG then
    assign [(F_reglist, w2 .& 0xffff); (F_W, b_flag w 5)] d
  else if d F_instr_flag_type =? T_THUMB2_S_FLAG then
    <[F_S := b_flag w 4]> d
  else if d F_instr_flag_type =? T_THUMB2_S_TYPE_FLAG then
    let d := <[F_S := b_flag w 4]> d in
    thumb2_decode_immshift d (field w2 4 3) (d F_imm)
  else d.

Definition thumb2_parse_misc (d : darm_t) (w w2 : Z) : darm_t :=
  if d F_instr =? I_B then
    let d := assign [(F_I, B_SET); (F_S, b_flag w 10)] d in
    let d := if (w2 .& 0x1000) =? 0 then
          let d := <[F_imm := ((w .& 0x400) .<< 10) .| ((w2 .& 0x800) .<< 8) .|
              ((w2 .& 0x2000) .<< 5) .| ((w .& 0x3F) .<< 12) .| ((w2 .& 0x7ff) .<< 1)]> d in
          assign [(F_imm, u32 (SIGN_EXTEND32 (d F_imm) 21)); (F_cond, field w 6 15)] d
        else
          let d := <[F_imm := ((w .& 0x400) .<< 14) .|
              ((((Z.lnot (w2 .>> 13)) .^ (w .>> 10)) .& 1) .<< 23) .|
              (((Z.lnot ((w2 .>> 11) .^ (w .>> 10))) .& 1) .<< 22) .| ((w .& 0x3FF) .<< 12) .|
              ((w2 .& 0x7FF) .<< 1)]> d in
          <[F_imm := u32 (SIGN_EXTEND32 (d F_imm) 25)]> d in
    d
  else if one_of (d F_instr) [I_BL; I_BLX] then
    let d := assign [(F_I, B_SET); (F_S, b_flag w 10)] d in
    let d := if (w2 .& 0x1000) =? 0 then
          let d := <[F_imm := ((w .& 0x400) .<< 14) .|
              (((Z.lnot ((w2 .>> 13) .^ (w .>> 10))) .& 1) .<< 23) .|
              (((Z.lnot ((w2 .>> 11) .^ (w .>> 10))) .& 1) .<< 22) .| ((w .& 0x3FF) .<< 12) .|
              ((w2 .& 0x7FE) .<< 1)]> d in
          assign [(F_imm, u32 (SIGN_EXTEND32 (d F_imm) 25));
            (F_H, b_flag w 0)] d
        else
          let d := <[F_imm := ((w .& 0x400) .<< 14) .|
              (((Z.lnot ((w2 .>> 13) .^ (w .>> 10))) .& 1) .<< 23) .|
              (((Z.lnot ((w2 .>> 11) .^ (w .>> 10))) .& 1) .<< 22) .| ((w .& 0x3FF) .<< 12) .|
              ((w2 .& 0x7FF) .<< 1)]> d in
          <[F_imm := u32 (SIGN_EXTEND32 (d F_imm) 25)]> d in
    d
  else if one_of (d F_instr) [I_BFC; I_BFI] then
    let d := assign [(F_lsb, d F_imm .& 0x1f); (F_msb, w2 .& 0x1f)] d in
    <[F_width := u32 (d F_msb + 1 - d F_lsb)]> d
  else if one_of (d F_instr) [I_LSL; I_LSR; I_ASR; I_ROR] then
    let d := if d F_I =? B_SET then
          assign [(F_shift, d F_imm); (F_shift_type, field w2 4 3)] d
        else d in
    d
  else if one_of (d F_instr) [I_MOVW; I_MOVT] then
    <[F_imm := ((w .& 15) .<< 12) .| ((w .& 0x400) .<< 1) .| ((w2 .& 0x7000) .>> 4) .|
        (w2 .& 0xff)]> d
  else if one_of (d F_instr) [I_CMP; I_CMN; I_TEQ; I_TST] then
    <[F_Rd := PC]> d
  else if one_of (d F_instr) [I_DBG; I_DMB; I_DSB; I_ISB] then
    <[F_option := w2 .& 15]> d
  else if one_of (d F_instr) [I_LDC; I_LDC2; I_STC; I_STC2] then
    assign [(F_P, b_flag w 8); (F_U, b_flag w 7); (F_D, b_flag w 6); (F_W, b_flag w 5);
      (F_Rn, if (w .& 15) =? 15 then R_INVLD else w .& 15); (F_I, B_SET);
          (F_imm, (w2 .& 0xff) .<< 2);
      (F_coproc, field w2 8 15); (F_CRd, field w2 12 15)] d
  else if d F_instr =? I_STREX then
    assign [(F_Rd, field w2 8 15); (F_imm, (w2 .& 0xff) .<< 2)] d
  else if one_of (d F_instr) [I_LDRD; I_LDREX; I_STRD] then
    assign [(F_imm, (w2 .& 0xff) .<< 2); (F_W, b_flag w 5); (F_U, b_flag w 7);
      (F_P, b_flag w 8)] d
  else if one_of (d F_instr) [I_POP; I_PUSH] then
    if (w =? 0xf85d) || (w =? 0xf84d) then d
    else let d := if w =? 0xe8bd then
          <[F_P := b_flag w2 15]> d
        else d in
    <[F_M := b_flag w2 14]> d
  else if one_of (d F_instr) [I_MCR; I_MCR2; I_MRC; I_MRC2] then
    assign [(F_CRm, w2 .& 15); (F_CRn, w .& 15); (F_coproc, field w2 8 15);
      (F_Rt, field w2 12 15); (F_opc1, field w 5 7); (F_opc2, field w2 5 7)] d
  else if one_of (d F_instr) [I_MCRR; I_MCRR2; I_MRRC; I_MRRC2] then
    assign [(F_coproc, field w2 8 15); (F_Rt, field w2 12 15); (F_opc1, field w2 4 15);
      (F_CRm, w2 .& 15); (F_Rt2, w .& 15)] d
  else if d F_instr =? I_MSR then
    assign [(F_I, B_SET); (F_Rn, w .& 15); (F_imm, field w2 10 3); (F_mask, field w2 10 3)] d
  else if d F_instr =? I_PKH then
    let d := <[F_T := field w2 4 1]> d in
    thumb2_decode_immshift d (field w2 4 2) (d F_imm)
  else if d F_instr =? I_PLI then
    let d := assign [(F_Rt, R_INVLD); (F_P, B_INVLD); (F_W, B_INVLD)] d in
    let d := if d F_Rn =? 15 then
          assign [(F_Rn, R_INVLD); (F_imm, w2 .& 0xfff); (F_U, b_flag w 7)] d
        else d in
    d
  else if d F_instr =? I_PLD then
    let d := assign [(F_Rt, R_INVLD); (F_P, B_INVLD)] d in
    let d := if d F_Rn =? 15 then
          assign [(F_Rm, R_INVLD); (F_Rn, R_INVLD); (F_imm, w2 .& 0xfff);
            (F_shift_type, S_INVLD); (F_shift, 0); (F_U, b_flag w 7)] d
        else d in
    <[F_W := (if negb ((w .& 15) =? 15) then field w 5 1 else B_INVLD)]> d
  else if one_of (d F_instr) [I_SBFX; I_UBFX] then
    assign [(F_lsb, d F_imm); (F_width, (w2 .& 0x1f) + 1)] d
  else if one_of (d F_instr) [I_SMLABB; I_SMLABT; I_SMLATB; I_SMLATT; I_SMULBB; I_SMULBT;
      I_SMULTB; I_SMULTT] then
    let d := assign [(F_N, b_flag w2 5); (F_M, b_flag w2 4)] d in
    let d := if d F_Ra =? 15 then
          <[F_Ra := R_INVLD]> d
        else d in
    d
  else if one_of (d F_instr) [I_SMLAD; I_SMLAW; I_SMLSD; I_SMUAD; I_SMULW; I_SMUSD] then
    let d := <[F_M := b_flag w2 4]> d in
    let d := if d F_Ra =? 15 then
          <[F_Ra := R_INVLD]> d
        else d in
    d
  else if one_of (d F_instr) [I_SMLALBB; I_SMLALBT; I_SMLALTB; I_SMLALTT] then
    assign [(F_N, b_flag w2 5); (F_M, b_flag w2 4); (F_RdHi, field w2 8 15);
      (F_RdLo, field w2 12 15)] d
  else if one_of (d F_instr) [I_SMLSLD; I_SMLALD] then
    assign [(F_M, b_flag w2 4); (F_RdHi, field w2 8 15); (F_RdLo, field w2 12 15)] d
  else if one_of (d F_instr) [I_SMLAL; I_SMULL; I_UMAAL; I_UMLAL; I_UMULL] then
    assign [(F_RdHi, field w2 8 15); (F_RdLo, field w2 12 15)] d
  else if one_of (d F_instr) [I_SMMLA; I_SMMLS; I_SMMUL] then
    <[F_R := b_flag w2 4]> d
  else if one_of (d F_instr) [I_SSAT; I_USAT] then
    let d := thumb2_decode_immshift d (field w 4 2) (d F_imm) in
    <[F_sat_imm := w2 .& 0x1f]> d
  else if one_of (d F_instr) [I_SSAT16; I_USAT16] then
    <[F_sat_imm := w2 .& 0xf]> d
  else if one_of (d F_instr) [I_STM; I_STMDB] then
    assign [(F_W, b_flag w 5); (F_M, b_flag w2 14)] d
  else if one_of (d F_instr) [I_TBB; I_TBH] then
    <[F_H := b_flag w2 4]> d
  else d.

Definition thumb2_disasm (d : darm_t) (w w2 : Z) : Z * darm_t :=
  let '(i, d) := thumb2_decode_instruction d w w2 in
  let d := <[F_instr := i]> d in
  if d F_instr =? I_INVLD then (-1, d)
  else
    let d := thumb2_parse_reg d w w2 in
    let d := thumb2_parse_imm d w w2 in
    let d := thumb2_parse_flag d w w2 in
    let d := thumb2_parse_misc d w w2 in
    (0, <[F_instr_type := T_INVLD]> d).

Definition darm_thumb2_disasm (w w2 : Z) : Z * darm_t :=
  let d := assign [(F_w, u32 (w .<< 16) .| w2); (F_cond, C_AL)] darm_init in
  match w .>> 11 with
  | 29 | 30 | 31 => thumb2_disasm d w w2
  | _ => (-1, d)
  end.

(** ** The choice of a disassembler *)

Definition is_thumb2 : list Z := replicate 29 0 ++ [1; 1; 1].

Definition darm_disasm (w w2 addr : Z) : option (Z * darm_t) :=
  if (addr .& 1) =? 0 then
    '(r, d) ← darm_armv7_disasm shl_32 (u32 (w2 .<< 16) .| w);
    Some (if r <? 0 then 0 else 2, d)
  else
    t ← arr_get is_thumb2 (w .>> 11);
    if t =? 0 then
      '(r, d) ← darm_thumb_disasm w;
      Some (if r <? 0 then 0 else 1, d)
    else
      let '(r, d) := darm_thumb2_disasm w w2 in
      Some (if r <? 0 then 0 else 2, d).
End Thumb2.
