(* ===== verification/ThumbTheorems.v ===== *)
(** What the three disassemblers of darm promise together: [darm_disasm] reads outside a table only
    for the reserved Thumb hints, and otherwise its fields have their types; the branches of every
    encoding decode to the offset they were assembled from; the modified immediate is the one of
    the manual. *)

From Stdlib Require Import ZArith Lia.
From stdpp Require Import base tactics functions option numbers list.
From S2P Require Import Prelude Bits DarmTbl ThumbTbl Darm DarmTheorems Thumb Thumb2Decoder Thumb2.

(** ** The type of every member *)

(** As [in_range], with the shift by 32 of Thumb-2 and the members ARM does not set. *)
Definition member_range (f : dfield) (v : Z) : Prop :=
  match f with
  | F_shift => 0 ≤ v ≤ 32
  | F_imm | F_width => 0 ≤ v < 2 ^ 32
  | F_rotate | F_sat_imm | F_msb => 0 ≤ v ≤ 31
  | F_mask => 0 ≤ v ≤ 15
  | F_firstcond => -1 ≤ v ≤ 15
  | _ => in_range f v
  end.

Definition well_typed (d : darm_t) : Prop := ∀ f, member_range f (d f).

Lemma insert_well d f v : member_range f v → well_typed d → well_typed (<[f := v]> d).
Proof. intros Hv Hd g. destruct (decide (f = g)) as [<-|]; [by rewrite fn_lookup_insert|by rewrite fn_lookup_insert_ne]. Qed.

Lemma assign_well l d : Forall (λ x, member_range x.1 x.2) l → well_typed d → well_typed (assign l d).
Proof. intros Hl. revert d. induction Hl as [|x l Hx _ IH]; intros d Hd; [done|]. apply IH. by apply insert_well. Qed.

Lemma init_well w : well_typed (assign [(F_w, w); (F_cond, C_AL)] darm_init).
Proof. intros []; vm_compute; done. Qed.

(** ** Thumb *)

(** The 16-bit words of the hint space that have no entry in [type_hints_instr_lookup]. *)
Definition reserved_hint (w : Z) : bool := (w .>> 8 =? 0xBF) && (w .& 15 =? 0) && (5 <=? field w 4 7).

Definition outcome (r : option (Z * darm_t)) : Prop :=
  ∃ ret d, r = Some (ret, d) ∧ (ret = 0 ∨ ret = -1) ∧ well_typed d.

Lemma outcome_0 d : well_typed d → outcome (Some (0, d)).
Proof. intros. exists 0, d. auto. Qed.

Lemma outcome_1 d : well_typed d → outcome (Some (-1, d)).
Proof. intros. exists (-1), d. auto. Qed.

Lemma u32_bound x : 0 ≤ u32 x < 2 ^ 32.
Proof. apply Z.mod_pos_bound. done. Qed.

Lemma b_flag_range w n : 0 ≤ b_flag w n ≤ 2.
Proof. unfold b_flag, B_SET, B_UNSET. destruct (bit w n); lia. Qed.

(** A bound the width of the word gives. *)
Ltac by_width N :=
  unfold field, BITMSK_8, LR, PC, b_flag;
  match goal with
  | |- _ ≤ ?a ≤ _ => let H := fresh in assert (H : 0 ≤ a < 2 ^ N) by bit_range; lia
  | |- _ ≤ ?a < _ => let H := fresh in assert (H : 0 ≤ a < 2 ^ N) by bit_range; lia
  end.

Ltac member :=
  cbn [member_range in_range fst snd];
  first
    [ exact I
    | unfold BITMSK_8, LR, S_LSR, S_ASR in *; range
    | apply u32_bound
    | rewrite ?insert_other by discriminate; match goal with H : well_typed ?d |- _ ≤ ?d ?f ≤ _ => exact (H f) end
    | apply b_flag_range
    | by_width 4 | by_width 5 | by_width 16 | by_width 32 ].

Ltac well_step :=
  match goal with
  | |- outcome (Some (0, _)) => apply outcome_0
  | |- outcome (Some (-1, _)) => apply outcome_1
  | |- well_typed (assign _ _) => apply assign_well; [repeat (apply Forall_cons; split; [member|]); apply Forall_nil; exact I|]
  | |- well_typed (<[_ := _]> _) => apply insert_well; [member|]
  | |- well_typed (if ?b then _ else _) => destruct b
  | |- outcome (if ?b then _ else _) => destruct b
  | |- outcome (Some (if ?b then _ else _, _)) => destruct b
  | |- well_typed ?d => assumption
  end.
Ltac well := cbv zeta; repeat well_step.

Lemma hint_row i : 0 ≤ i < 256 → arr_get thumb_instr_types i = Some T_THUMB_IT_HINTS → i = 0xBF.
Proof.
  intros Hi Hx.
  assert (H : forallb (λ i, implb (bool_decide (arr_get thumb_instr_types i = Some T_THUMB_IT_HINTS)) (i =? 0xBF)) (seqZ 0 256) = true)
    by (vm_compute; reflexivity).
  rewrite forallb_forall in H. specialize (H i). rewrite bool_decide_eq_true_2 in H by done.
  apply Z.eqb_eq, H, list_elem_of_In, elem_of_seqZ. lia.
Qed.

Lemma thumb_good d w :
  0 ≤ w < 65536 → well_typed d → reserved_hint w = false → outcome (thumb_disasm d w).
Proof.
  intros Hw Hd Hr. unfold thumb_disasm.
  change ((1 .<< 11) - 1) with 2047. change (31 .<< 1) with 62. change (1 .<< 6) with 64.
  assert (Hi : 0 ≤ w .>> 8 < 256) by (rewrite Z.shiftr_div_pow2 by lia; change (2 ^ 8) with 256; split; [apply Z.div_pos; lia|apply Z.div_lt_upper_bound; lia]).
  apply lookup_defined; [exact Hi|]. intros i. cbv zeta.
  destruct (arr_get_is_Some thumb_instr_types (w .>> 8) Hi) as [t Ht]. rewrite Ht. cbn [mbind option_bind].
  rewrite !fn_lookup_insert.
  assert (Hd' : well_typed (<[F_instr_type := t]> (<[F_instr := i]> d))) by well.
  revert Hd'. generalize (<[F_instr_type := t]> (<[F_instr := i]> d)) as d'. intros d' Hd'.
  repeat lazymatch goal with
  | |- outcome (if t =? T_THUMB_IT_HINTS then _ else _) => fail
  | |- outcome (if t =? ?x then _ else _) => destruct (t =? x); [try (well; fail)|]
  end.
  - look 16; [range|]. well.
  - destruct (Z.eqb_spec t T_THUMB_IT_HINTS) as [->|_].
    + destruct (Z.eqb_spec (w .& 15) 0) as [E|_]; [|well].
      apply (hint_row _ Hi) in Ht. unfold reserved_hint in Hr. rewrite Ht, E in Hr.
      cbn [Z.eqb Pos.eqb andb] in Hr. apply Z.leb_gt in Hr. look 5; [range|]. well.
    + repeat lazymatch goal with
      | |- outcome (if t =? ?x then _ else _) => destruct (t =? x); [try (well; fail)|]
      end; try (well; fail).
      * well. look 4; [range|]. well.
      * look 4; [range|]. well.
      * look 4; [range|]. well.
      * set (d1 := assign _ d'). assert (H1 : well_typed d1) by (unfold d1; well). clearbody d1. well.
Qed.

(** Goes through the conditions of a dispatch that are closed. *)
Ltac dispatch :=
  repeat lazymatch goal with
  | |- (if ?c then _ else _) = _ =>
      lazymatch eval vm_compute in c with
      | true => change c with true
      | false => change c with false
      end; cbv iota
  end.

Lemma hint_outside d w : reserved_hint w = true → thumb_disasm d w = None.
Proof.
  unfold reserved_hint. rewrite !andb_true_iff, Z.leb_le. intros [[Hi%Z.eqb_eq Hl%Z.eqb_eq] Hf].
  unfold thumb_disasm. rewrite Hi, Hl.
  change (arr_get thumb_instr_labels 191) with (Some I_YIELD).
  change (arr_get thumb_instr_types 191) with (Some T_THUMB_IT_HINTS). cbn [mbind option_bind]. cbv zeta.
  rewrite !fn_lookup_insert. dispatch. unfold arr_get. destruct (Z.ltb_spec (field w 4 7) 0); [lia|].
  rewrite lookup_ge_None_2; [done|]. simpl. lia.
Qed.

(** ** Thumb-2 *)

(** The instructions whose shift, position or saturation is read from the immediate, and the kinds
    of flags that hold a type of shift: their immediate has five bits or is absent. *)
Definition from_imm5 (i ft : Z) : bool :=
  one_of i [I_LSL; I_LSR; I_ASR; I_ROR; I_SBFX; I_UBFX; I_PKH; I_SSAT; I_USAT] ||
  one_of ft [T_THUMB2_TYPE_FLAG; T_THUMB2_S_TYPE_FLAG].

Definition kinds_agree (i it ft : Z) : bool :=
  implb (negb (i =? I_INVLD) && from_imm5 i ft) (one_of it [T_THUMB2_IMM2_IMM3; T_THUMB2_NO_IMM]).

(** What a stage of the decoder leaves. *)
Record decoded (d : darm_t) (r : Z * darm_t) : Prop := {
  dec_well : well_typed r.2;
  dec_imm : r.2 F_imm = d F_imm;
  dec_kinds : kinds_agree r.1 (r.2 F_instr_imm_type) (r.2 F_instr_flag_type) = true;
}.

Ltac cases :=
  repeat match goal with
  | |- decoded _ (if ?b then _ else _) => destruct b
  | |- decoded _ (match ?x with _ => _ end) => destruct x
  | |- decoded _ (if ?b then _ else _, _) => destruct b
  end.
Ltac decoded :=
  cbv zeta; cases; (split; cbn [fst snd]; [well|reflexivity|vm_compute; reflexivity]).

Lemma load_store_multiple_decoded d w w2 : well_typed d → decoded d (thumb2_load_store_multiple d w w2).
Proof. intros Hd. unfold thumb2_load_store_multiple. decoded. Qed.

Lemma load_store_dual_decoded d w w2 : well_typed d → decoded d (thumb2_load_store_dual d w w2).
Proof. intros Hd. unfold thumb2_load_store_dual. decoded. Qed.

Lemma data_shifted_reg_decoded d w w2 : well_typed d → decoded d (thumb2_data_shifted_reg d w w2).
Proof. intros Hd. unfold thumb2_data_shifted_reg, thumb2_move_shift. decoded. Qed.

Lemma modified_immediate_decoded d w w2 : well_typed d → decoded d (thumb2_modified_immediate d w w2).
Proof. intros Hd. unfold thumb2_modified_immediate. decoded. Qed.

Lemma plain_immediate_decoded d w w2 : well_typed d → decoded d (thumb2_plain_immediate d w w2).
Proof. intros Hd. unfold thumb2_plain_immediate. decoded. Qed.

Lemma branch_misc_ctrl_decoded d w w2 : well_typed d → decoded d (thumb2_branch_misc_ctrl d w w2).
Proof. intros Hd. unfold thumb2_branch_misc_ctrl, thumb2_proc_state, thumb2_misc_ctrl. decoded. Qed.

Lemma store_single_item_decoded d w w2 : well_typed d → decoded d (thumb2_store_single_item d w w2).
Proof. intros Hd. unfold thumb2_store_single_item. decoded. Qed.

Lemma load_byte_hints_decoded d w w2 : well_typed d → decoded d (thumb2_load_byte_hints d w w2).
Proof. intros Hd. unfold thumb2_load_byte_hints. decoded. Qed.

Lemma load_halfword_hints_decoded d w w2 : well_typed d → decoded d (thumb2_load_halfword_hints d w w2).
Proof. intros Hd. unfold thumb2_load_halfword_hints. decoded. Qed.

Lemma load_word_decoded d w w2 : well_typed d → decoded d (thumb2_load_word d w w2).
Proof. intros Hd. unfold thumb2_load_word. decoded. Qed.

Lemma data_reg_decoded d w w2 : well_typed d → decoded d (thumb2_data_reg d w w2).
Proof. intros Hd. unfold thumb2_data_reg, thumb2_parallel_signed, thumb2_parallel_unsigned, thumb2_misc_op. decoded. Qed.

Lemma mult_acc_diff_decoded d w w2 : well_typed d → decoded d (thumb2_mult_acc_diff d w w2).
Proof. intros Hd. unfold thumb2_mult_acc_diff, thumb2_nm_decoder. decoded. Qed.

Lemma long_mult_acc_decoded d w w2 : well_typed d → decoded d (thumb2_long_mult_acc d w w2).
Proof. intros Hd. unfold thumb2_long_mult_acc, thumb2_nm_decoder. decoded. Qed.

Create HintDb decoded.
#[export] Hint Resolve load_store_multiple_decoded load_store_dual_decoded data_shifted_reg_decoded
  modified_immediate_decoded plain_immediate_decoded branch_misc_ctrl_decoded store_single_item_decoded
  load_byte_hints_decoded load_halfword_hints_decoded load_word_decoded data_reg_decoded
  mult_acc_diff_decoded long_mult_acc_decoded : decoded.

Lemma instruction_decoded d w w2 : well_typed d → decoded d (thumb2_decode_instruction d w w2).
Proof.
  intros Hd. assert (Hi : decoded d (I_INVLD, d)) by (split; [done..|reflexivity]).
  unfold thumb2_decode_instruction, thumb2_coproc_simd. cbv zeta. cases; auto with decoded.
Qed.

(** *** The modified immediate *)

(** The modified immediate of the manual (ThumbExpandImm): a byte repeated in one of four patterns,
    or a byte with its top bit set, rotated right by eight or more. *)
Definition expanded (imm12 : Z) : Z :=
  let b := imm12 mod 256 in
  match imm12 / 256 with
  | 0 => b
  | 1 => b * 0x00010001
  | 2 => b * 0x01000100
  | 3 => b * 0x01010101
  | _ => (128 + imm12 mod 128) * 2 ^ (32 - imm12 / 128)
  end.

Lemma imm12_parts i : 0 ≤ i < 4096 →
  u16 i .& 0xfff = i ∧ i .& 0xc00 = (i .>> 10) .<< 10 ∧ (i .& 0xF80) .>> 7 = i .>> 7 ∧
  i .& 0xff = i mod 2 ^ 8 ∧ i .& 0x7F = i mod 2 ^ 7.
Proof.
  intros Hi. replace i with (i mod 2 ^ 12) by (apply Z.mod_small; done). repeat split; bits.
Qed.

Ltac div_lia := Z.to_euclidean_division_equations; lia.

Lemma byte_patterns b : 0 ≤ b < 256 →
  (b .<< 16) .| b = b * 0x00010001 ∧ u32 (b .<< 24) .| (b .<< 8) = b * 0x01000100 ∧
  u32 (b .| (b .<< 8) .| (b .<< 16) .| (b .<< 24)) = b * 0x01010101.
Proof.
  intros Hb. assert (Hm : b mod 2 ^ 8 = b) by (apply Z.mod_small; done).
  assert (H1 : (b .<< 16) .& b = 0) by (rewrite <-Hm; bits).
  assert (H2 : (b .<< 24) .& (b .<< 8) = 0) by (rewrite <-Hm; bits).
  assert (H3 : (b .| (b .<< 8) .| (b .<< 16)) .& (b .<< 24) = 0) by (rewrite <-Hm; bits).
  assert (H4 : (b .| (b .<< 8)) .& (b .<< 16) = 0) by (rewrite <-Hm; bits).
  assert (H5 : b .& (b .<< 8) = 0) by (rewrite <-Hm; bits).
  assert (H6 : u32 (b .<< 24) = b .<< 24) by (rewrite <-Hm; bits).
  rewrite H6, !lor_add by (done || by rewrite H5, ?lor_add). rewrite !Z.shiftl_mul_pow2 by lia.
  repeat split; [lia..|]. unfold u32, wrap. rewrite Z.mod_small; lia.
Qed.

Lemma expand_imm_expanded shl_32 i : 0 ≤ i < 4096 → thumb_expand_imm shl_32 i = expanded i.
Proof.
  intros Hi. destruct (imm12_parts i Hi) as (E0 & Ec & Er & Eb & E7).
  unfold thumb_expand_imm. rewrite E0, Ec, Er, Eb, E7. cbv zeta.
  assert (Hb : 0 ≤ i mod 2 ^ 8 < 2 ^ 8) by (apply Z.mod_pos_bound; lia).
  destruct (Z.eqb_spec ((i .>> 10) .<< 10) 0) as [E|E].
  - rewrite Z.shiftl_mul_pow2, Z.shiftr_div_pow2 in E by lia. change (2 ^ 10) with 1024 in E.
    assert (Hs : 0 ≤ i < 1024) by div_lia.
    replace ((i .& 0x300) .>> 8) with (i .>> 8) by (replace i with (i mod 2 ^ 10) by (apply Z.mod_small; done); bits).
    destruct (byte_patterns (i mod 256) ltac:(div_lia)) as (P1 & P2 & P3).
    unfold expanded. rewrite Z.shiftr_div_pow2 by lia. change (i mod 2 ^ 8) with (i mod 256). change (i / 2 ^ 8) with (i / 256).
    assert (i / 256 = 0 ∨ i / 256 = 1 ∨ i / 256 = 2 ∨ i / 256 = 3) as [-> | [-> | [-> | ->]]] by div_lia; done.
  - rewrite Z.shiftl_mul_pow2, Z.shiftr_div_pow2 in E by lia. change (2 ^ 10) with 1024 in E.
    assert (Hq : 8 ≤ i / 128 < 32) by div_lia. assert (Hv : 0 ≤ i mod 128 < 128) by div_lia.
    rewrite lor_add by (change 0x80 with (1 .<< 7); bits). unfold ROR, expanded.
    rewrite (Z.shiftr_div_pow2 i 7) by lia. change (i mod 2 ^ 7) with (i mod 128). change (i / 2 ^ 7) with (i / 128).
    rewrite Z.shiftr_div_pow2 by lia. rewrite (proj2 (Z.eqb_neq (i / 128) 0)) by lia.
    assert (2 ^ 8 ≤ 2 ^ (i / 128)) by (apply Z.pow_le_mono_r; lia).
    assert (2 ^ (32 - i / 128) ≤ 2 ^ 24) by (apply Z.pow_le_mono_r; lia).
    rewrite (Z.div_small (128 + i mod 128)) by lia. rewrite Z.lor_0_l, Z.shiftl_mul_pow2 by lia.
    unfold u32, wrap. rewrite Z.mod_small by nia.
    assert (4 ≤ i / 256) by div_lia. destruct (i / 256) as [|[[]|[]|]|] eqn:?; try done; lia.
Qed.

Lemma expanded_range i : 0 ≤ i < 4096 → 0 ≤ expanded i < 2 ^ 32.
Proof.
  intros Hi. unfold expanded. assert (Hb : 0 ≤ i mod 256 < 256) by div_lia. assert (Hv : 0 ≤ i mod 128 < 128) by div_lia.
  assert (Hc : 4 ≤ i / 256 → 0 ≤ (128 + i mod 128) * 2 ^ (32 - i / 128) < 2 ^ 32).
  { intros. assert (8 ≤ i / 128 < 32) by div_lia. assert (2 ^ (32 - i / 128) ≤ 2 ^ 24) by (apply Z.pow_le_mono_r; lia). nia. }
  assert (0 ≤ i / 256) by div_lia.
  destruct (i / 256) as [|[[]|[]|]|] eqn:?; try lia; apply Hc; lia.
Qed.

(** *** The operands *)

(** The immediate is one of five bits where a shift or a position is read from it. *)
Definition imm_fits (d : darm_t) : Prop :=
  from_imm5 (d F_instr) (d F_instr_flag_type) = true → 0 ≤ d F_imm ≤ 31.

Definition same_kinds (d d' : darm_t) : Prop :=
  d' F_instr = d F_instr ∧ d' F_instr_imm_type = d F_instr_imm_type ∧ d' F_instr_flag_type = d F_instr_flag_type.

Lemma u8_small x : 0 ≤ x ≤ 31 → u8 x = x.
Proof. intros. unfold u8, wrap. apply Z.mod_small. lia. Qed.

Section Operands.
Variable shl_32 : Z → Z.

Lemma immshift_well d t x : well_typed d → 0 ≤ x ≤ 31 → well_typed (thumb2_decode_immshift d t x).
Proof.
  intros Hd Hx. unfold thumb2_decode_immshift. rewrite u8_small by done. cbv zeta.
  destruct (Z.eqb_spec x 0), t as [|[[]|[]|]|]; well.
Qed.

Lemma parse_reg_well d w w2 :
  well_typed d → well_typed (thumb2_parse_reg d w w2) ∧ same_kinds d (thumb2_parse_reg d w w2) ∧ thumb2_parse_reg d w w2 F_imm = d F_imm.
Proof.
  intros Hd. unfold thumb2_parse_reg.
  repeat match goal with |- context [d F_instr_type =? ?x] => destruct (d F_instr_type =? x) end; (split; [well|]); done.
Qed.

Lemma parse_imm_well d w w2 :
  well_typed d → d F_imm = 0 → d F_instr ≠ I_INVLD →
  kinds_agree (d F_instr) (d F_instr_imm_type) (d F_instr_flag_type) = true →
  well_typed (thumb2_parse_imm shl_32 d w w2) ∧ imm_fits (thumb2_parse_imm shl_32 d w w2).
Proof.
  intros Hd Hi Hn Hk. unfold kinds_agree in Hk. rewrite (proj2 (Z.eqb_neq _ _) Hn) in Hk. cbn [negb andb] in Hk.
  unfold thumb2_parse_imm. cbv zeta. rewrite insert_other by discriminate.
  assert (He : 0 ≤ ((w .& 0x400) .<< 1) .| ((w2 .& 0x7000) .>> 4) .| (w2 .& 0xff) < 2 ^ 12) by bit_range.
  set (x := _ .| (w2 .& 0xff)) in *. clearbody x.
  set (d0 := <[F_I := B_SET]> d). assert (H0 : well_typed d0) by (unfold d0; well).
  assert (Hfit : ∀ d', d' F_instr = d F_instr → d' F_instr_flag_type = d F_instr_flag_type →
    (one_of (d F_instr_imm_type) [T_THUMB2_IMM2_IMM3; T_THUMB2_NO_IMM] = true → 0 ≤ d' F_imm ≤ 31) → imm_fits d').
  { intros d' E1 E2 H H5. rewrite E1, E2 in H5. rewrite H5 in Hk. apply H. by destruct (one_of _ _). }
  destruct (Z.eqb_spec (d F_instr_imm_type) T_THUMB2_NO_IMM) as [E|_].
  { split; [well|]. apply Hfit; [done..|]. intros _. change (0 ≤ d F_imm ≤ 31). lia. }
  destruct (Z.eqb_spec (d F_instr_imm_type) T_THUMB2_IMM12) as [E|_]; [split; [well|]; apply Hfit; [done..|by rewrite E]|].
  destruct (Z.eqb_spec (d F_instr_imm_type) T_THUMB2_IMM8) as [E|_]; [split; [well|]; apply Hfit; [done..|by rewrite E]|].
  destruct (Z.eqb_spec (d F_instr_imm_type) T_THUMB2_IMM2) as [E|_].
  { rewrite fn_lookup_insert. split; [well|]; apply Hfit; [done..|by rewrite E]. }
  destruct (Z.eqb_spec (d F_instr_imm_type) T_THUMB2_IMM2_IMM3) as [E|_].
  { split; [well|]. apply Hfit; [done..|]. intros _. rewrite fn_lookup_insert. by_width 5. }
  destruct (Z.eqb_spec (d F_instr_imm_type) T_THUMB2_IMM1_IMM3_IMM8) as [E|E].
  { rewrite fn_lookup_insert, expand_imm_expanded by done. pose proof (expanded_range x He).
    destruct (_ =? 0x200); (split; [repeat (apply insert_well; [simpl; lia|]); done|apply Hfit; [done..|by rewrite E]]). }
  split; [done|]. apply Hfit; [done..|]. intros _. change (0 ≤ d F_imm ≤ 31). lia.
Qed.

Lemma immshift_keeps d t x :
  thumb2_decode_immshift d t x F_imm = d F_imm ∧ thumb2_decode_immshift d t x F_instr = d F_instr ∧
  thumb2_decode_immshift d t x F_instr_flag_type = d F_instr_flag_type.
Proof. unfold thumb2_decode_immshift. cbv zeta. destruct t as [|[[]|[]|]|]; done. Qed.

Lemma parse_flag_well d w w2 :
  well_typed d → imm_fits d → well_typed (thumb2_parse_flag d w w2) ∧ imm_fits (thumb2_parse_flag d w w2).
Proof.
  intros Hd Hf. unfold thumb2_parse_flag.
  assert (Hfit : ∀ d', d' F_imm = d F_imm ∧ d' F_instr = d F_instr ∧ d' F_instr_flag_type = d F_instr_flag_type → imm_fits d').
  { intros d' (E1 & E2 & E3). unfold imm_fits. by rewrite E1, E2, E3. }
  assert (Ht : ∀ d' t, one_of (d F_instr_flag_type) [T_THUMB2_TYPE_FLAG; T_THUMB2_S_TYPE_FLAG] = true → well_typed d' →
    well_typed (thumb2_decode_immshift d' t (d F_imm))).
  { intros d' t Hft Hd'. apply immshift_well; [done|]. apply Hf. unfold from_imm5. rewrite Hft. apply orb_true_r. }
  repeat match goal with |- context [d F_instr_flag_type =? ?x] => destruct (Z.eqb_spec (d F_instr_flag_type) x) as [E|_] end;
    try (split; [well|by apply Hfit]; fail).
  - split; [apply Ht; [by rewrite E|done]|]. apply Hfit, immshift_keeps.
  - cbv zeta. rewrite insert_other by discriminate. split; [apply Ht; [by rewrite E|well]|].
    apply Hfit. destruct (immshift_keeps (<[F_S := b_flag w 4]> d) (field w2 4 3) (d F_imm)) as (-> & -> & ->). done.
Qed.

Lemma parse_misc_well d w w2 : well_typed d → imm_fits d → well_typed (thumb2_parse_misc d w w2).
Proof.
  intros Hd Hf. unfold thumb2_parse_misc.
  assert (H5 : one_of (d F_instr) [I_LSL; I_LSR; I_ASR; I_ROR; I_SBFX; I_UBFX; I_PKH; I_SSAT; I_USAT] = true → 0 ≤ d F_imm ≤ 31).
  { intros E. apply Hf. unfold from_imm5. by rewrite E. }
  repeat lazymatch goal with
  | |- well_typed (if d F_instr =? ?x then _ else _) => destruct (Z.eqb_spec (d F_instr) x) as [E|_]; [try (well; fail)|]
  | |- well_typed (if one_of (d F_instr) ?l then _ else _) => destruct (one_of (d F_instr) l) eqn:E; [try (well; fail)|clear E]
  end.
  - apply one_of_In in E. assert (0 ≤ d F_imm ≤ 31) by (apply H5, one_of_In; rewrite !elem_of_cons in *; tauto).
    destruct (d F_I =? B_SET); well.
  - destruct (w .& 15 =? 15); well.
  - apply immshift_well; [well|]. rewrite insert_other by discriminate. apply H5. by rewrite E.
  - destruct (negb _); well.
  - apply one_of_In in E. assert (0 ≤ d F_imm ≤ 31) by (apply H5, one_of_In; rewrite !elem_of_cons in *; tauto). well.
  - apply one_of_In in E. assert (0 ≤ d F_imm ≤ 31) by (apply H5, one_of_In; rewrite !elem_of_cons in *; tauto).
    apply insert_well; [member|]. by apply immshift_well.
  - done.
Qed.

Lemma thumb2_disasm_well d w w2 : well_typed d → d F_imm = 0 → outcome (Some (thumb2_disasm shl_32 d w w2)).
Proof.
  intros Hd H0. unfold thumb2_disasm. destruct (thumb2_decode_instruction d w w2) as [i d1] eqn:E.
  destruct (instruction_decoded d w w2 Hd) as [W1 I1 K1]. rewrite E in W1, I1, K1. cbn [fst snd] in *.
  rewrite fn_lookup_insert. destruct (Z.eqb_spec i I_INVLD) as [->|Hi]; [well|].
  set (d2 := <[F_instr := i]> d1). assert (W2 : well_typed d2) by (unfold d2; well).
  destruct (parse_reg_well d2 w w2 W2) as (W3 & (S1 & S2 & S3) & I3). set (d3 := thumb2_parse_reg d2 w w2) in *.
  destruct (parse_imm_well d3 w w2 W3) as [W4 F4]; [by rewrite I3; etrans|by rewrite S1|by rewrite S1, S2, S3|].
  destruct (parse_flag_well _ w w2 W4 F4) as [W5 F5]. pose proof (parse_misc_well _ w w2 W5 F5). cbv zeta. well.
Qed.

Lemma darm_thumb2_disasm_well w w2 : outcome (Some (darm_thumb2_disasm shl_32 w w2)).
Proof.
  unfold darm_thumb2_disasm. cbv zeta. set (d := assign _ _).
  assert (Hd : well_typed d) by apply init_well. assert (outcome (Some (-1, d))) by well.
  pose proof (thumb2_disasm_well d w w2 Hd eq_refl).
  destruct (w .>> 11) as [|p|p]; [done| |done]. do 5 (destruct p as [p|p|]; try done).
Qed.
End Operands.

(** ** Branches *)

(** The branches to an immediate offset, by their encodings in the manual.  [h] is the offset in
    halfwords, [q] in words. *)
Inductive branch :=
  | B_T1 (cond h : Z)
  | B_T2 (h : Z)
  | B_T3 (cond h : Z)
  | B_T4 (h : Z)
  | BL_T1 (h : Z)
  | BLX_T2 (q : Z).

(** The ranges an assembler accepts; conditions 14 and 15 of a conditional branch are other
    instructions. *)
Definition assemblable (b : branch) : Prop :=
  match b with
  | B_T1 cond h => 0 ≤ cond < 14 ∧ -2 ^ 7 ≤ h < 2 ^ 7
  | B_T2 h => -2 ^ 10 ≤ h < 2 ^ 10
  | B_T3 cond h => 0 ≤ cond < 14 ∧ -2 ^ 19 ≤ h < 2 ^ 19
  | B_T4 h | BL_T1 h => -2 ^ 23 ≤ h < 2 ^ 23
  | BLX_T2 q => -2 ^ 22 ≤ q < 2 ^ 22
  end.

(** The bits J1 and J2 of the long encodings: the bit [n] of the offset against its sign [s]. *)
Definition J (o s n : Z) : Z := 1 .^ ((o .>> n) .& 1) .^ ((o .>> s) .& 1).

(** The two halfwords; the second one of a short branch is whatever follows. *)
Definition assemble (b : branch) (next : Z) : Z * Z :=
  match b with
  | B_T1 cond h => (0xD000 .| (cond .<< 8) .| (h .& 0xFF), next)
  | B_T2 h => (0xE000 .| (h .& 0x7FF), next)
  | B_T3 cond h =>
      (0xF000 .| (((h .>> 19) .& 1) .<< 10) .| (cond .<< 6) .| ((h .>> 11) .& 0x3F),
       0x8000 .| (((h .>> 17) .& 1) .<< 13) .| (((h .>> 18) .& 1) .<< 11) .| (h .& 0x7FF))
  | B_T4 h =>
      (0xF000 .| (((h .>> 23) .& 1) .<< 10) .| ((h .>> 11) .& 0x3FF),
       0x9000 .| (J h 23 22 .<< 13) .| (J h 23 21 .<< 11) .| (h .& 0x7FF))
  | BL_T1 h =>
      (0xF000 .| (((h .>> 23) .& 1) .<< 10) .| ((h .>> 11) .& 0x3FF),
       0xD000 .| (J h 23 22 .<< 13) .| (J h 23 21 .<< 11) .| (h .& 0x7FF))
  | BLX_T2 q =>
      (0xF000 .| (((q .>> 22) .& 1) .<< 10) .| ((q .>> 10) .& 0x3FF),
       0xC000 .| (J q 22 21 .<< 13) .| (J q 22 20 .<< 11) .| ((q .& 0x3FF) .<< 1))
  end.

Definition branch_label (b : branch) : Z :=
  match b with
  | B_T1 _ _ | B_T2 _ | B_T3 _ _ | B_T4 _ => I_B
  | BL_T1 _ => I_BL
  | BLX_T2 _ => I_BLX
  end.

Definition branch_cond (b : branch) : Z :=
  match b with B_T1 cond _ | B_T3 cond _ => cond | _ => C_AL end.

(** The offset in bytes. *)
Definition branch_offset (b : branch) : Z :=
  match b with
  | B_T1 _ h | B_T2 h | B_T3 _ h | B_T4 h | BL_T1 h => 2 * h
  | BLX_T2 q => 4 * q
  end.

(** The size in halfwords. *)
Definition branch_size (b : branch) : Z :=
  match b with B_T1 _ _ | B_T2 _ => 1 | _ => 2 end.

Definition branches (d : darm_t) (i cond off : Z) : Prop :=
  d F_instr = i ∧ d F_cond = cond ∧ d F_I = B_SET ∧ d F_imm = u32 off.

(** *** Long branches *)

Lemma s32_eq z t k : z = t + k * 2 ^ 32 → -2 ^ 31 ≤ t < 2 ^ 31 → s32 z = t.
Proof.
  intros -> Ht. unfold s32, swrap. change (2 ^ (32 - 1)) with (2 ^ 31).
  replace (t + k * 2 ^ 32 + 2 ^ 31) with (t + 2 ^ 31 + k * 2 ^ 32) by lia. rewrite Z.mod_add, Z.mod_small by lia. lia.
Qed.

Lemma s32_cong z : ∃ k, s32 z = z + k * 2 ^ 32.
Proof. unfold s32, swrap. exists (- ((z + 2 ^ 31) / 2 ^ 32)). change (2 ^ (32 - 1)) with (2 ^ 31). div_lia. Qed.

Lemma sign_extend_ok v len off :
  0 < len ≤ 32 → -2 ^ (len - 1) ≤ off < 2 ^ (len - 1) → v = off mod 2 ^ len → SIGN_EXTEND32 v len = off.
Proof.
  intros Hl Ho ->. unfold SIGN_EXTEND32. destruct (s32_cong (off mod 2 ^ len)) as [a ->].
  assert (HP : 0 < 2 ^ len) by (apply Z.pow_pos_nonneg; lia). assert (HQ : 0 < 2 ^ (32 - len)) by (apply Z.pow_pos_nonneg; lia).
  assert (HPQ : 2 ^ len * 2 ^ (32 - len) = 2 ^ 32) by (rewrite <-Z.pow_add_r by lia; f_equal; lia).
  assert (HP1 : 2 ^ (len - 1) * 2 ^ (32 - len) = 2 ^ 31) by (rewrite <-Z.pow_add_r by lia; f_equal; lia).
  rewrite Z.shiftl_mul_pow2 by lia.
  rewrite (s32_eq _ (off * 2 ^ (32 - len)) (a * 2 ^ (32 - len) - off / 2 ^ len)).
  - rewrite Z.shiftr_div_pow2 by lia. apply Z.div_mul. lia.
  - rewrite Z.mod_eq by lia. rewrite <-HPQ. ring.
  - nia.
Qed.

Lemma misc_branch d w w2 :
  field w 11 3 = 2 → w2 .& 0x8000 = 0x8000 → thumb2_decode_instruction d w w2 = thumb2_branch_misc_ctrl d w w2.
Proof. intros E1 E2. unfold thumb2_decode_instruction. rewrite E1, E2. cbv zeta iota. destruct (_ =? 0), (_ =? 1); done. Qed.

(** The decoder's answer for a branch. *)
Definition branch_kinds (d : darm_t) : darm_t :=
  <[F_instr_flag_type := T_THUMB2_S_FLAG]>
    (assign [(F_instr_type, T_THUMB2_NO_REG); (F_instr_imm_type, T_THUMB2_NO_IMM); (F_instr_flag_type, T_THUMB2_NO_FLAG)] d).

Lemma branch_decoded d w w2 k :
  field w2 12 7 .& 5 = k → 
  (k = 0 → field w 4 0x7f .& 0x38 ≠ 0x38) →
  (k = 0 ∨ k = 1 ∨ k = 4 ∨ k = 5) →
  thumb2_branch_misc_ctrl d w w2 = (if k =? 5 then I_BL else if k =? 4 then I_BLX else I_B, branch_kinds d).
Proof.
  intros E E0 Hk. unfold thumb2_branch_misc_ctrl. cbv zeta. rewrite E.
  pose proof (field_range w 4 0x7f ltac:(lia)). rewrite (proj2 (Z.eqb_neq (field w 4 0x7f) 0xfe)), (proj2 (Z.eqb_neq (field w 4 0x7f) 0xff)) by lia.
  rewrite !andb_false_r. destruct Hk as [-> | [-> | [-> | ->]]]; try done.
  rewrite (proj2 (Z.eqb_neq _ _) (E0 eq_refl)). done.
Qed.

Lemma long_branch shl_32 w w2 addr k :
  addr .& 1 = 1 → w .>> 11 = 30 → w2 .& 0x8000 = 0x8000 → field w2 12 7 .& 5 = k →
  (k = 0 → field w 4 0x7f .& 0x38 ≠ 0x38) → (k = 0 ∨ k = 1 ∨ k = 4 ∨ k = 5) →
  ∃ d, (d F_instr = if k =? 5 then I_BL else if k =? 4 then I_BLX else I_B) ∧ d F_cond = C_AL ∧
    darm_disasm shl_32 w w2 addr = Some (2, <[F_instr_type := T_INVLD]> (thumb2_parse_misc d w w2)).
Proof.
  intros Ea Ew E2 Ek E0 Hk. unfold darm_disasm. rewrite Ea, Ew. change (1 =? 0) with false. cbv iota.
  change (arr_get is_thumb2 30) with (Some 1). cbn [mbind option_bind]. change (1 =? 0) with false. cbv iota.
  unfold darm_thumb2_disasm. rewrite Ew. cbv zeta iota. set (d := assign _ _). unfold thumb2_disasm.
  rewrite misc_branch, (branch_decoded _ _ _ k) by (done || (unfold field; by rewrite Ew)).
  set (i := if k =? 5 then _ else _). assert (Hi : i = I_BL ∨ i = I_BLX ∨ i = I_B) by (unfold i; destruct (k =? 5), (k =? 4); auto).
  clearbody i. cbv zeta. rewrite fn_lookup_insert.
  exists (<[F_S := b_flag w 4]> (<[F_I := B_UNSET]> (<[F_I := B_SET]> (<[F_instr := i]> (branch_kinds d))))).
  split; [done|]. split; [done|]. destruct Hi as [-> | [-> | ->]]; reflexivity.
Qed.

Lemma misc_T3 d w w2 cond off :
  d F_instr = I_B → field w 6 15 = cond → w2 .& 0x1000 = 0 → -2 ^ 20 ≤ off < 2 ^ 20 →
  ((w .& 0x400) .<< 10) .| ((w2 .& 0x800) .<< 8) .| ((w2 .& 0x2000) .<< 5) .| ((w .& 0x3F) .<< 12) .| ((w2 .& 0x7ff) .<< 1)
    = off mod 2 ^ 21 →
  branches (<[F_instr_type := T_INVLD]> (thumb2_parse_misc d w w2)) I_B cond off.
Proof.
  intros Hi <- E Ho Ev. unfold thumb2_parse_misc. rewrite Hi, E. cbv zeta. change (I_B =? I_B) with true. change (0 =? 0) with true. cbv iota.
  rewrite fn_lookup_insert, (sign_extend_ok _ 21 off) by (done || lia). split; [exact Hi|]. done.
Qed.

(** The two long encodings without a condition; [m] is the mask of the low bits of the offset. *)
Definition long_imm (w w2 m : Z) : Z :=
  ((w .& 0x400) .<< 14) .| (((Z.lnot ((w2 .>> 13) .^ (w .>> 10))) .& 1) .<< 23) .|
  (((Z.lnot ((w2 .>> 11) .^ (w .>> 10))) .& 1) .<< 22) .| ((w .& 0x3FF) .<< 12) .| ((w2 .& m) .<< 1).

Lemma misc_T4 d w w2 off :
  d F_instr = I_B → w2 .& 0x1000 = 0x1000 → -2 ^ 24 ≤ off < 2 ^ 24 → long_imm w w2 0x7FF = off mod 2 ^ 25 →
  branches (<[F_instr_type := T_INVLD]> (thumb2_parse_misc d w w2)) I_B (d F_cond) off.
Proof.
  intros Hi E Ho Ev. unfold thumb2_parse_misc. rewrite Hi, E. cbv zeta. change (I_B =? I_B) with true. change (0x1000 =? 0) with false. cbv iota.
  replace ((Z.lnot (w2 .>> 13) .^ (w .>> 10)) .& 1) with (Z.lnot ((w2 .>> 13) .^ (w .>> 10)) .& 1) by bits.
  rewrite fn_lookup_insert, (sign_extend_ok _ 25 off) by (done || lia). split; [exact Hi|]. done.
Qed.

Lemma misc_BL d w w2 off (x : bool) :
  d F_instr = (if x then I_BLX else I_BL) → w2 .& 0x1000 = (if x then 0 else 0x1000) → -2 ^ 24 ≤ off < 2 ^ 24 →
  long_imm w w2 (if x then 0x7FE else 0x7FF) = off mod 2 ^ 25 →
  branches (<[F_instr_type := T_INVLD]> (thumb2_parse_misc d w w2)) (if x then I_BLX else I_BL) (d F_cond) off.
Proof.
  intros Hi E Ho Ev. unfold thumb2_parse_misc. rewrite Hi, E. cbv zeta.
  destruct x.
  1: change (I_BLX =? I_B) with false; change (one_of I_BLX [I_BL; I_BLX]) with true; change (0 =? 0) with true.
  2: change (I_BL =? I_B) with false; change (one_of I_BL [I_BL; I_BLX]) with true; change (0x1000 =? 0) with false.
  all: cbv iota; (rewrite fn_lookup_insert, (sign_extend_ok _ 25 off) by (done || lia)); (split; [exact Hi|]); done.
Qed.

Lemma double_shift h : 2 * h = h .<< 1.
Proof. rewrite Z.shiftl_mul_pow2; lia. Qed.

Ltac word := unfold field, J; rewrite ?double_shift; bits.

Lemma s8_low h : -2 ^ 7 ≤ h < 2 ^ 7 → s8 (h mod 2 ^ 8) = h.
Proof. intros Hh. unfold s8, swrap. change (2 ^ (8 - 1)) with 128. change (2 ^ 8) with 256 in *. change (2 ^ 7) with 128 in Hh. div_lia. Qed.

Lemma u32_double x : u32 (u32 x .<< 1) = u32 (2 * x).
Proof. rewrite Z.shiftl_mul_pow2 by lia. unfold u32, wrap. rewrite Z.mul_mod_idemp_l by lia. f_equal. lia. Qed.

(** The 11-bit offset, extended by hand. *)
Lemma extend_11 h : -2 ^ 10 ≤ h < 2 ^ 10 →
  u32 ((if negb (field (h mod 2 ^ 11) 10 1 =? 0) then u32 (h mod 2 ^ 11 .| Z.lnot 2047) else h mod 2 ^ 11) .<< 1) = u32 (2 * h).
Proof.
  intros Hh. unfold field. change (2 ^ 10) with 1024 in Hh. destruct (Z.lt_ge_cases h 0).
  - assert (E : h mod 2 ^ 11 = h + 2048) by (change (2 ^ 11) with 2048; div_lia).
    replace ((h mod 2 ^ 11) .>> 10) with 1 by (rewrite E, Z.shiftr_div_pow2 by lia; change (2 ^ 10) with 1024; div_lia).
    change (negb (1 .& 1 =? 0)) with true. cbv iota. rewrite lor_add by (change (Z.lnot 2047) with (-2048); bits).
    rewrite E, u32_double. f_equal. change (Z.lnot 2047) with (-2048). lia.
  - assert (E : h mod 2 ^ 11 = h) by (change (2 ^ 11) with 2048; div_lia). rewrite E.
    replace (h .>> 10) with 0 by (rewrite Z.shiftr_div_pow2 by lia; change (2 ^ 10) with 1024; div_lia).
    change (negb (0 .& 1 =? 0)) with false. cbv iota. by rewrite double_shift.
Qed.

(** A branch that is read back. *)
Definition reads_back (shl_32 : Z → Z) (b : branch) (next addr : Z) : Prop :=
  ∃ d, darm_disasm shl_32 (assemble b next).1 (assemble b next).2 addr = Some (branch_size b, d) ∧
    branches d (branch_label b) (branch_cond b) (branch_offset b).

Lemma is_thumb2_row i : 0 ≤ i < 32 → ∃ t, arr_get is_thumb2 i = Some t ∧ t = if i <? 29 then 0 else 1.
Proof.
  intros Hi. exists (if i <? 29 then 0 else 1). split; [|done].
  assert (H : forallb (λ i, bool_decide (arr_get is_thumb2 i = Some (if i <? 29 then 0 else 1))) (seqZ 0 32) = true) by (vm_compute; reflexivity).
  rewrite forallb_forall in H. eapply bool_decide_eq_true_1, H, list_elem_of_In, elem_of_seqZ. lia.
Qed.

Lemma thumb_short w : 0 ≤ w .>> 11 < 29 → darm_thumb_disasm w = thumb_disasm (assign [(F_w, w); (F_cond, C_AL)] darm_init) w.
Proof.
  intros Hw. unfold darm_thumb_disasm. destruct (w .>> 11) as [|p|p]; [done| |lia]. repeat (destruct p as [p|p|]; try lia; try done).
Qed.

Section Roundtrip.
Variable shl_32 : Z → Z.
Variables (next addr : Z) (thumb : addr .& 1 = 1).

Ltac long k :=
  match goal with
  | |- ∃ _, darm_disasm _ ?w ?w2 _ = _ ∧ _ => destruct (long_branch shl_32 w w2 addr k) as (d & Hi & Hd & ->)
  end.

Lemma T3_back cond h : assemblable (B_T3 cond h) → reads_back shl_32 (B_T3 cond h) next addr.
Proof using thumb.
  intros [Hc Hh]. unfold reads_back. cbn [assemble fst snd branch_size branch_label branch_cond branch_offset].
  assert (Em : cond mod 2 ^ 4 = cond) by (apply Z.mod_small; lia).
  long 0; [exact thumb|rewrite <-Em; word|word|word| |by left|].
  - intros _. replace (field _ 4 0x7f .& 0x38) with ((cond .& 14) .<< 2) by (rewrite <-Em; word).
    rewrite Z.shiftl_mul_pow2 by lia. rewrite Z.land_comm. pose proof (land_range 14 cond ltac:(lia)). lia.
  - eexists. split; [done|]. apply misc_T3; [done|rewrite <-Em; word|word|lia|rewrite <-Em; word].
Qed.

Lemma T4_back h : assemblable (B_T4 h) → reads_back shl_32 (B_T4 h) next addr.
Proof using thumb.
  intros Hh. unfold reads_back. cbn [assemble fst snd branch_size branch_label branch_cond branch_offset]. simpl in Hh.
  long 1; [exact thumb|word|word|word|discriminate|auto|].
  eexists. split; [done|]. rewrite <-Hd. apply misc_T4; [done|word|lia|unfold long_imm; word].
Qed.

Lemma BL_back h : assemblable (BL_T1 h) → reads_back shl_32 (BL_T1 h) next addr.
Proof using thumb.
  intros Hh. unfold reads_back. cbn [assemble fst snd branch_size branch_label branch_cond branch_offset]. simpl in Hh.
  long 5; [exact thumb|word|word|word|discriminate|auto|].
  eexists. split; [done|]. rewrite <-Hd. apply (misc_BL _ _ _ _ false); [done|word|lia|unfold long_imm; word].
Qed.

Lemma BLX_back q : assemblable (BLX_T2 q) → reads_back shl_32 (BLX_T2 q) next addr.
Proof using thumb.
  intros Hh. unfold reads_back. cbn [assemble fst snd branch_size branch_label branch_cond branch_offset]. simpl in Hh.
  long 4; [exact thumb|word|word|word|discriminate|auto|].
  eexists. split; [done|]. rewrite <-Hd. apply (misc_BL _ _ _ _ true); [done|word|lia|].
  unfold long_imm. replace (4 * q) with (q .<< 2) by (rewrite Z.shiftl_mul_pow2; lia). word.
Qed.

Lemma short_branch w w2 : 0 ≤ w .>> 11 < 29 →
  darm_disasm shl_32 w w2 addr =
    '(r, d) ← thumb_disasm (assign [(F_w, w); (F_cond, C_AL)] darm_init) w; Some (if r <? 0 then 0 else 1, d).
Proof using thumb.
  intros Hw. unfold darm_disasm. rewrite thumb. change (1 =? 0) with false. cbv iota.
  destruct (is_thumb2_row (w .>> 11)) as (t & -> & ->); [lia|]. rewrite (proj2 (Z.ltb_lt _ 29)) by lia.
  cbn [mbind option_bind]. change (0 =? 0) with true. cbv iota. by rewrite thumb_short.
Qed.

(** The rows of the tables for short branches. *)
Definition row (i l t : Z) : bool :=
  bool_decide (arr_get thumb_instr_labels i = Some l ∧ arr_get thumb_instr_types i = Some t).

Lemma row_disasm i l t d w : row i l t = true → w .>> 8 = i →
  ∃ d0, d0 F_instr = l ∧ d0 F_cond = d F_cond ∧
    thumb_disasm d w =
      (if t =? T_THUMB_COND_BRANCH then
        Some (0, assign [(F_cond, field w 8 15); (F_I, B_SET); (F_imm, u32 (u32 (s8 (w .& BITMSK_8)) .<< 1))] d0)
      else if t =? T_THUMB_UNCOND_BRANCH then
        let d := assign [(F_I, B_SET); (F_imm, w .& ((1 .<< 11) - 1))] d0 in
        let d := if negb (field (d F_imm) 10 1 =? 0) then <[F_imm := u32 (d F_imm .| (Z.lnot ((1 .<< 11) - 1)))]> d else d in
        Some (0, <[F_imm := u32 (d F_imm .<< 1)]> d)
      else if t =? T_THUMB_CBZ then
        Some (0, assign [(F_instr, if bit w 11 then I_CBNZ else I_CBZ); (F_Rn, w .& 7); (F_Rm, PC);
          (F_U, B_SET); (F_I, B_SET); (F_imm, field w 2 (31 .<< 1) .| field w 5 (1 .<< 6))] d0)
      else thumb_disasm d w).
Proof using.
  intros [El Et]%bool_decide_eq_true_1 Hi. exists (<[F_instr_type := t]> (<[F_instr := l]> d)). split; [done|]. split; [done|].
  destruct (Z.eqb_spec t T_THUMB_COND_BRANCH) as [->|]; [unfold thumb_disasm; rewrite Hi, El, Et; reflexivity|].
  destruct (Z.eqb_spec t T_THUMB_UNCOND_BRANCH) as [->|]; [unfold thumb_disasm; rewrite Hi, El, Et; reflexivity|].
  destruct (Z.eqb_spec t T_THUMB_CBZ) as [->|]; [unfold thumb_disasm; rewrite Hi, El, Et; reflexivity|done].
Qed.

Lemma rows_in l t a n i : forallb (λ i, row i l t) (seqZ a n) = true → a ≤ i < a + n → row i l t = true.
Proof using. intros H Hi. rewrite forallb_forall in H. apply H, list_elem_of_In, elem_of_seqZ. lia. Qed.

Lemma T1_back cond h : assemblable (B_T1 cond h) → reads_back shl_32 (B_T1 cond h) next addr.
Proof using thumb.
  intros [Hc Hh]. unfold reads_back. cbn [assemble fst snd branch_size branch_label branch_cond branch_offset].
  assert (Em : cond mod 2 ^ 4 = cond) by (apply Z.mod_small; lia). set (w := 0xD000 .| _ .| _).
  assert (E8 : w .>> 8 = 0xD0 + cond).
  { replace (0xD0 + cond) with (0xD0 .| cond) by (apply lor_add; rewrite <-Em; bits). unfold w. rewrite <-Em. bits. }
  assert (E11 : w .>> 11 = (0xD0 + cond) .>> 3) by (rewrite <-E8, Z.shiftr_shiftr by lia; done).
  rewrite short_branch by (rewrite E11, Z.shiftr_div_pow2 by lia; div_lia).
  destruct (row_disasm (0xD0 + cond) I_B T_THUMB_COND_BRANCH (assign [(F_w, w); (F_cond, C_AL)] darm_init) w) as (d & Hl & _ & ->); [|done|].
  { apply (rows_in _ _ 0xD0 14); [vm_compute; reflexivity|lia]. }
  eexists. split; [reflexivity|]. split; [exact Hl|]. split; [|split; [done|]].
  - change (field w 8 15 = cond). unfold w. rewrite <-Em. word.
  - change (u32 (u32 (s8 (w .& 255)) .<< 1) = u32 (2 * h)). replace (w .& 255) with (h mod 2 ^ 8) by (unfold w; rewrite <-Em; bits).
    rewrite s8_low by done. apply u32_double.
Qed.

Lemma T2_back h : assemblable (B_T2 h) → reads_back shl_32 (B_T2 h) next addr.
Proof using thumb.
  intros Hh. unfold reads_back. cbn [assemble fst snd branch_size branch_label branch_cond branch_offset]. simpl in Hh.
  set (w := 0xE000 .| _).
  assert (E8 : w .>> 8 = 0xE0 + ((h .>> 8) .& 7)) by (rewrite <-lor_add by bits; unfold w; bits).
  pose proof (land_range (h .>> 8) 7 ltac:(lia)).
  assert (E11 : w .>> 11 = 28) by (unfold w; bits). rewrite short_branch by (rewrite E11; lia).
  destruct (row_disasm (0xE0 + ((h .>> 8) .& 7)) I_B T_THUMB_UNCOND_BRANCH (assign [(F_w, w); (F_cond, C_AL)] darm_init) w) as (d & Hl & Hc & ->); [|exact E8|].
  { apply (rows_in _ _ 0xE0 8); [vm_compute; reflexivity|lia]. }
  change ((1 .<< 11) - 1) with 2047. change (T_THUMB_UNCOND_BRANCH =? T_THUMB_COND_BRANCH) with false.
  change (T_THUMB_UNCOND_BRANCH =? T_THUMB_UNCOND_BRANCH) with true. cbv iota zeta.
  change (assign [(F_I, B_SET); (F_imm, w .& 2047)] d F_imm) with (w .& 2047).
  replace (w .& 2047) with (h mod 2 ^ 11) by (unfold w; bits).
  pose proof (extend_11 h Hh) as Hx. revert Hx.
  destruct (negb (field (h mod 2 ^ 11) 10 1 =? 0)); intros Hx;
    (eexists; split; [reflexivity|]; split; [exact Hl|]; split; [exact Hc|]; split; [done|exact Hx]).
Qed.

(** CBZ and CBNZ: [h] is the offset in halfwords, whose bit 5 is the bit 9 of the word. *)
Definition cbz (nonzero : bool) (rn h : Z) : Z :=
  0xB100 .| ((if nonzero then 1 else 0) .<< 11) .| (((h .>> 5) .& 1) .<< 9) .| ((h .& 31) .<< 3) .| rn.

Lemma cbz_back nonzero rn h : 0 ≤ rn < 8 → 0 ≤ h < 64 →
  ∃ d, darm_disasm shl_32 (cbz nonzero rn h) next addr = Some (1, d) ∧
    d F_instr = (if nonzero then I_CBNZ else I_CBZ) ∧ d F_Rn = rn ∧ d F_imm = 2 * (h mod 32) + (if nonzero then 64 else 0).
Proof using thumb.
  intros Hr Hh. assert (Em : rn mod 2 ^ 3 = rn) by (apply Z.mod_small; lia). set (w := cbz nonzero rn h).
  assert (E8 : w .>> 8 = 0xB1 .| ((if nonzero then 1 else 0) .<< 3) .| (((h .>> 5) .& 1) .<< 1)) by (unfold w, cbz; rewrite <-Em; destruct nonzero; bits).
  assert (E11 : w .>> 11 = if nonzero then 23 else 22) by (unfold w, cbz; rewrite <-Em; destruct nonzero; bits).
  rewrite short_branch by (rewrite E11; destruct nonzero; lia).
  destruct (row_disasm (w .>> 8) I_CBZ T_THUMB_CBZ (assign [(F_w, w); (F_cond, C_AL)] darm_init) w) as (d & Hl & Hc & ->); [|done|].
  { rewrite E8. pose proof (land_range (h .>> 5) 1 ltac:(lia)).
    assert ((h .>> 5) .& 1 = 0 ∨ (h .>> 5) .& 1 = 1) as [-> | ->] by lia; destruct nonzero; vm_compute; reflexivity. }
  eexists. split; [reflexivity|]. split; [|split].
  - change ((if bit w 11 then I_CBNZ else I_CBZ) = if nonzero then I_CBNZ else I_CBZ). unfold bit.
    replace (field w 11 1) with (if nonzero then 1 else 0) by (unfold w, cbz; rewrite <-Em; destruct nonzero; word). by destruct nonzero.
  - change (w .& 7 = rn). unfold w, cbz. rewrite <-Em. destruct nonzero; word.
  - change (field w 2 62 .| field w 5 64 = 2 * (h mod 2 ^ 5) + if nonzero then 64 else 0). rewrite double_shift, <-lor_add by (destruct nonzero; bits).
    unfold w, cbz. rewrite <-Em. destruct nonzero; word.
Qed.
End Roundtrip.

(** ** The theorems *)


(** C13: every Thumb branch to an immediate offset, in each of the six encodings of B, BL and BLX,
    decodes to its label, its condition and the offset it was assembled from, over the whole range
    of each encoding. *)
Theorem branch_roundtrip shl_32 b next addr :
  addr .& 1 = 1 → assemblable b →
  ∃ d, darm_disasm shl_32 (assemble b next).1 (assemble b next).2 addr = Some (branch_size b, d) ∧
    d F_instr = branch_label b ∧ d F_cond = branch_cond b ∧ d F_imm = u32 (branch_offset b).
Proof.
  intros Ha Hb. assert (H : reads_back shl_32 b next addr).
  { destruct b; [by apply T1_back|by apply T2_back|by apply T3_back|by apply T4_back|by apply BL_back|by apply BLX_back]. }
  destruct H as (d & E & H1 & H2 & _ & H4). eauto.
Qed.
Lemma branch_roundtrip_witness :
  ∃ d, darm_disasm id 0xF43F 0xAFFE 0x8001 = Some (2, d) ∧ d F_instr = I_B ∧ d F_cond = 0 ∧ d F_imm = 2 ^ 32 - 4.
Proof. exact (branch_roundtrip id (B_T3 0 (-2)) 0 0x8001 eq_refl ltac:(simpl; lia)). Defined.

(** C30: the offset of CBZ and CBNZ is not the one in the word: its bit 6 is taken from bit 11,
    which tells CBNZ from CBZ, and not from bit 9.  The offset of CBZ loses 64 when it is 64 or
    more, the one of CBNZ gains 64 when it is less, and all other offsets are right. *)
Theorem cbz_offset shl_32 nonzero rn h next addr :
  addr .& 1 = 1 → 0 ≤ rn < 8 → 0 ≤ h < 64 →
  ∃ d, darm_disasm shl_32 (cbz nonzero rn h) next addr = Some (1, d) ∧
    d F_instr = (if nonzero then I_CBNZ else I_CBZ) ∧ d F_Rn = rn ∧
    d F_imm = 2 * h + (if nonzero then (if h <? 32 then 64 else 0) else if h <? 32 then 0 else -64).
Proof.
  intros Ha Hr Hh. destruct (cbz_back shl_32 next addr Ha nonzero rn h Hr Hh) as (d & E & H1 & H2 & H3).
  exists d. repeat split; [done..|]. rewrite H3. destruct nonzero, (Z.ltb_spec h 32); div_lia.
Qed.
Lemma cbz_offset_witness : ∃ d, darm_disasm id 0xB90B 0 1 = Some (1, d) ∧ d F_instr = I_CBNZ ∧ d F_Rn = 3 ∧ d F_imm = 66.
Proof. exact (cbz_offset id true 3 1 0 1 eq_refl ltac:(lia) ltac:(lia)). Defined.
