(* ===== verification/Inst.v ===== *)
(** Instructions of the trace (trace_analyzer/inst.c): the structure every pipeline stage
    works on, and its decoding. *)

From Stdlib Require Import ZArith Lia String.
From stdpp Require Import base tactics functions option list.
From S2P Require Import Prelude DarmTbl Darm CacheSim.

(** ** Data (inst.h) *)

Inductive InstState := Ready | Dispatch | Issue | Complete | Retire.

Inductive InstTypeName :=
  | IntAlu | IntMult | IntDiv | SimdFloatAdd | SimdFloatMult | SimdFloatMultAcc | MemRead | MemWrite
  | Branch | Syscall | Pop | Push | Unsupported.

#[export] Instance InstState_eq_dec : EqDecision InstState.
Proof. solve_decision. Defined.
#[export] Instance InstTypeName_eq_dec : EqDecision InstTypeName.
Proof. solve_decision. Defined.

(** The values of the enumerators. *)
Definition state_num (s : InstState) : Z :=
  match s with Ready => 0 | Dispatch => 1 | Issue => 2 | Complete => 3 | Retire => 4 end.
Definition type_num (t : InstTypeName) : Z :=
  match t with
  | IntAlu => 0 | IntMult => 1 | IntDiv => 2 | SimdFloatAdd => 3 | SimdFloatMult => 4
  | SimdFloatMultAcc => 5 | MemRead => 6 | MemWrite => 7 | Branch => 8 | Syscall => 9 | Pop => 10
  | Push => 11 | Unsupported => 12
  end.
Definition miss_num (m : CacheMissType) : Z :=
  match m with L1Hit => 0 | L1Miss => 1 | L2Miss => 2 end.

Record InstType := MkInstType { type_name : InstTypeName; type_latency : Z; pipelined : bool }.

Definition init_inst_type (name : InstTypeName) (latency : Z) (pipelined : bool) : InstType :=
  MkInstType name latency pipelined.

Record Inst := MkInst {
  seq : Z;
  pc : Z;
  code : Z;
  state : InstState;
  type : InstTypeName;
  remaining_latency : Z;
  stack_inst : bool;
  is_cond_inst : bool;
  update_cond_flag : bool;
  shift_inst : bool;
  mshr : bool;
  imm : Z;
  num_src_reg : Z;
  num_dst_reg : Z;
  num_eff_addr : Z;
  src_reg : list Z;    (* int8_t[16] *)
  dst_reg : list Z;    (* int8_t[16] *)
  eff_addr : list Z;   (* uint32_t[16] *)
  inst_cache_miss : CacheMissType;
  cache_miss : CacheMissType;
  bpred_mispred : bool;
  dispatched_cycle : Z;
  issued_cycle : Z;
  completed_cycle : Z;
  committed_cycle : Z;
  iq_elem : option ptr;
  ldq_elem : option ptr;
  stq_elem : option ptr;
  decoded : bool;
  rob_idx : Z;
  str : option string;
}.

#[export] Instance Inst_settable : Settable Inst := λ x,
  MkInst (seq x) (pc x) (code x) (state x) (type x) (remaining_latency x) (stack_inst x)
    (is_cond_inst x) (update_cond_flag x) (shift_inst x) (mshr x) (imm x) (num_src_reg x)
    (num_dst_reg x) (num_eff_addr x) (src_reg x) (dst_reg x) (eff_addr x) (inst_cache_miss x)
    (cache_miss x) (bpred_mispred x) (dispatched_cycle x) (issued_cycle x) (completed_cycle x)
    (committed_cycle x) (iq_elem x) (ldq_elem x) (stq_elem x) (decoded x) (rob_idx x) (str x).

(** ** Operations *)

(** [init_inst] on memory that held [inst]: the members it does not assign keep their
    contents. *)
Definition init_inst (inst : Inst) (seq_ pc_ code_ : Z) : Inst :=
  inst <| seq := seq_ |> <| pc := pc_ |> <| code := code_ |> <| state := Ready |>
       <| type := IntAlu |> <| is_cond_inst := false |> <| update_cond_flag := false |>
       <| shift_inst := false |> <| stack_inst := false |> <| mshr := false |>
       <| cache_miss := L1Hit |> <| bpred_mispred := false |> <| num_src_reg := 0 |>
       <| num_dst_reg := 0 |> <| num_eff_addr := 0 |> <| iq_elem := None |> <| ldq_elem := None |>
       <| stq_elem := None |> <| decoded := false |> <| imm := 0 |> <| str := None |>.

(** [inst->src_reg[inst->num_src_reg] = r; inst->num_src_reg++] and its like; the arrays
    have 16 entries. *)
Definition add_src_reg (r : Z) (inst : Inst) : option Inst :=
  a ← arr_set (src_reg inst) (num_src_reg inst) (s8 r);
  Some (inst <| src_reg := a |> <| num_src_reg := num_src_reg inst + 1 |>).

Definition add_dst_reg (r : Z) (inst : Inst) : option Inst :=
  a ← arr_set (dst_reg inst) (num_dst_reg inst) (s8 r);
  Some (inst <| dst_reg := a |> <| num_dst_reg := num_dst_reg inst + 1 |>).

(** [if (r != R_INVLD) ...]. *)
Definition if_reg (r : Z) (f : Z → Inst → option Inst) (inst : Inst) : option Inst :=
  if r =? R_INVLD then Some inst else f r inst.

Fixpoint add_regs (f : Z → Inst → option Inst) (regs : list Z) (inst : Inst) : option Inst :=
  match regs with
  | [] => Some inst
  | r :: regs => inst ← f r inst; add_regs f regs inst
  end.

Section Decode.
(** The two undefined operations of the disassembler. *)
Variables (shl_32 : Z → Z) (ctz_0 : Z).

Definition init_inst_src_dst_reg (inst : Inst) (d : darm_t) : option Inst :=
  '(_, regs) ← darm_reglist2 ctz_0 (d F_reglist);
  if (16 <? length regs)%nat then None
  else
    let inst := inst <| src_reg := replicate 16 (-1) |> <| dst_reg := replicate 16 (-1) |> in
    inst ← match type inst with
      | MemRead | Pop =>
          inst ← if_reg (d F_Rt) add_dst_reg inst;
          inst ← if_reg (d F_Rn) add_src_reg inst;
          add_regs add_dst_reg regs inst
      | MemWrite | Push =>
          inst ← if_reg (d F_Rt) add_src_reg inst;
          inst ← if_reg (d F_Rn) add_src_reg inst;
          add_regs add_src_reg regs inst
      | _ =>
          inst ← if_reg (d F_Rd) add_dst_reg inst;
          inst ← if_reg (d F_Rm) add_src_reg inst;
          inst ← if_reg (d F_Rn) add_src_reg inst;
          add_regs add_src_reg regs inst
      end;
    inst ← (if is_cond_inst inst then add_src_reg 17 inst else Some inst);
    if update_cond_flag inst then add_dst_reg 17 inst else Some inst.

(** The type [decode_inst] gives to an instruction label. *)
Definition inst_type_of (i : Z) : InstTypeName :=
  if one_of i [I_AND; I_EOR; I_SUB; I_RSB; I_ADD; I_ADC; I_SBC; I_RSC; I_ORR; I_MOVW; I_BIC; I_MVN;
               I_MOVT; I_MOV; I_SSUB8; I_QSUB8; I_SHSUB8; I_USUB8; I_UQSUB8; I_UHSUB8; I_SEL;
               I_REV16; I_REVSH; I_SBFX; I_BFI; I_UBFX; I_CLZ] then IntAlu
  else if one_of i [I_ASR; I_LSL; I_LSR; I_ROR; I_RRX] then IntAlu
  else if one_of i [I_TST; I_TEQ; I_CMP; I_CMN] then Branch
  else if one_of i [I_MUL; I_MLA; I_UMAAL; I_MLS; I_SMLA; I_SMLABB; I_SMLABT; I_SMLATB; I_SMLATT;
                    I_UMULL; I_UMLAL; I_SMUAD; I_SMUL; I_SMULBB; I_SMULBT; I_SMULL; I_SMULTB;
                    I_SMULTT; I_SMULW] then IntMult
  else if one_of i [I_SDIV; I_UDIV] then IntDiv
  else if one_of i [I_VADD; I_VADDHN; I_VADDL; I_VADDW; I_VSUB; I_VSUBHN; I_VSUBL; I_VSUBW]
    then SimdFloatAdd
  else if one_of i [I_VMUL; I_VNMUL] then SimdFloatMult
  else if one_of i [I_VMLA; I_VMLAL; I_VMLS; I_VMLSL; I_VNMLA; I_VNMLS] then SimdFloatMultAcc
  else if one_of i [I_LDM; I_LDMDA; I_LDMDB; I_LDMIB; I_LDR; I_LDRB; I_LDRBT; I_LDRD; I_LDRH;
                    I_LDRHT; I_LDRSB; I_LDRSBT; I_LDRSH; I_LDRSHT; I_LDRT; I_PLD] then MemRead
  else if one_of i [I_STM; I_STMDA; I_STMDB; I_STMIB; I_STR; I_STRB; I_STRBT; I_STRD; I_STRH;
                    I_STRHT; I_STRT] then MemWrite
  else if i =? I_POP then Pop
  else if i =? I_PUSH then Push
  else if one_of i [I_B; I_BL; I_BX; I_BXJ; I_BLX] then Branch
  else if one_of i [I_SVC; I_MCR; I_MRC] then Syscall
  else Unsupported.

(** The switch of [decode_inst]: the type, and the flags some cases set with it. *)
Definition classify (i : Z) (inst : Inst) : Inst :=
  let inst := inst <| type := inst_type_of i |> in
  if one_of i [I_ASR; I_LSL; I_LSR; I_ROR; I_RRX] then inst <| shift_inst := true |>
  else if one_of i [I_TST; I_TEQ; I_CMP; I_CMN] then inst <| update_cond_flag := true |>
  else if one_of i [I_POP; I_PUSH] then inst <| stack_inst := true |>
  else inst.

Definition decode_inst (inst : Inst) : option Inst :=
  if decoded inst then Some inst
  else
    '(_, d) ← darm_armv7_disasm shl_32 (code inst);
    let inst := inst <| is_cond_inst := negb (one_of (d F_cond) [C_UNCOND; C_INVLD; C_AL]) |> in
    let inst := if negb (d F_shift =? 0) then inst <| shift_inst := true |> else inst in
    let inst := if negb (d F_S =? B_INVLD) then inst <| update_cond_flag := d F_S =? B_SET |>
                else inst in
    let inst := classify (d F_instr) inst in
    inst ← (if decide (type inst = Unsupported) then Some inst else init_inst_src_dst_reg inst d);
    Some (inst <| decoded := true |> <| imm := s32 (d F_imm) |>).
End Decode.

Definition set_inst_bpred_mispred (inst : Inst) (mispred : bool) : Inst :=
  inst <| bpred_mispred := mispred |>.

Definition set_inst_eff_addr (inst : Inst) (addr : Z) (miss : CacheMissType) : option Inst :=
  a ← arr_set (eff_addr inst) (num_eff_addr inst) addr;
  Some (inst <| eff_addr := a |> <| num_eff_addr := num_eff_addr inst + 1 |>
             <| cache_miss := if miss_num (cache_miss inst) <? miss_num miss then miss
                              else cache_miss inst |>).
