(* ===== verification/InstTheorems.v ===== *)
(** Which instruction words decode: the register arrays of [Inst] have 16 entries, and decoding
    fills them without a bound check. *)

From Stdlib Require Import ZArith Lia.
From stdpp Require Import base tactics functions option numbers list list_numbers.
From S2P Require Import Prelude DarmTbl Darm DarmTheorems CacheSim Inst.

(** ** Register arrays *)

(** The members that decide what is done next. *)
Definition kind (i : Inst) : InstTypeName * bool * bool := (type i, is_cond_inst i, update_cond_flag i).

(** [a] sources and [b] destinations have been stored. *)
Record filled (a b : Z) (k : InstTypeName * bool * bool) (i : Inst) : Prop := {
  fi_src : length (src_reg i) = 16%nat;
  fi_dst : length (dst_reg i) = 16%nat;
  fi_nsrc : num_src_reg i = a;
  fi_ndst : num_dst_reg i = b;
  fi_kind : kind i = k;
}.

(** Storing [a] sources and [b] destinations fails exactly when one of the arrays is too small. *)
Definition stores (a b : Z) (k : InstTypeName * bool * bool) (o : option Inst) : Prop :=
  if (a <=? 16) && (b <=? 16) then ∃ i, o = Some i ∧ filled a b k i else o = None.

Lemma stores_bind a b a' b' k o f :
  stores a b k o → a ≤ a' → b ≤ b' → (∀ i, a ≤ 16 → b ≤ 16 → filled a b k i → stores a' b' k (f i)) → stores a' b' k (o ≫= f).
Proof.
  unfold stores at 1. intros H Ha Hb Hf. destruct (Z.leb_spec a 16), (Z.leb_spec b 16); simpl in H.
  1: destruct H as (i & -> & Hi); by apply Hf.
  all: subst o; unfold stores; rewrite ?(proj2 (Z.leb_gt a' 16)), ?(proj2 (Z.leb_gt b' 16)), ?andb_false_r by lia; done.
Qed.

Lemma stores_done a b k i : a ≤ 16 → b ≤ 16 → filled a b k i → stores a b k (Some i).
Proof. intros. unfold stores. rewrite !(proj2 (Z.leb_le _ 16)) by lia. by exists i. Qed.

Lemma add_src_stores a b k r i : 0 ≤ a ≤ 16 → b ≤ 16 → filled a b k i → stores (a + 1) b k (add_src_reg r i).
Proof.
  intros Ha Hb [Hs Hd Hns Hnd Hk]. unfold stores, add_src_reg, arr_set. rewrite Hs, Hns, (proj2 (Z.ltb_ge a 0)) by lia.
  rewrite (proj2 (Z.leb_le b 16)), andb_true_r by lia. destruct (Z.leb_spec (a + 1) 16), (Z.leb_spec (Z.of_nat 16) a); try lia; simpl; [|done].
  eexists. split; [done|]. split; simpl; try done. by rewrite length_insert.
Qed.

Lemma add_dst_stores a b k r i : a ≤ 16 → 0 ≤ b ≤ 16 → filled a b k i → stores a (b + 1) k (add_dst_reg r i).
Proof.
  intros Ha Hb [Hs Hd Hns Hnd Hk]. unfold stores, add_dst_reg, arr_set. rewrite Hd, Hnd, (proj2 (Z.ltb_ge b 0)) by lia.
  rewrite (proj2 (Z.leb_le a 16)) by lia. destruct (Z.leb_spec (b + 1) 16), (Z.leb_spec (Z.of_nat 16) b); try lia; simpl; [|done].
  eexists. split; [done|]. split; simpl; try done. by rewrite length_insert.
Qed.

(** One if the register is there. *)
Definition one_if (r : Z) : Z := if r =? R_INVLD then 0 else 1.
Definition flag (b : bool) : Z := if b then 1 else 0.

Lemma if_src_stores a b k r i : 0 ≤ a ≤ 16 → b ≤ 16 → filled a b k i → stores (a + one_if r) b k (if_reg r add_src_reg i).
Proof.
  intros. unfold if_reg, one_if. destruct (r =? R_INVLD); [|by apply add_src_stores]. rewrite Z.add_0_r. apply stores_done; (done || lia).
Qed.

Lemma if_dst_stores a b k r i : a ≤ 16 → 0 ≤ b ≤ 16 → filled a b k i → stores a (b + one_if r) k (if_reg r add_dst_reg i).
Proof.
  intros. unfold if_reg, one_if. destruct (r =? R_INVLD); [|by apply add_dst_stores]. rewrite Z.add_0_r. apply stores_done; (done || lia).
Qed.

Lemma add_srcs_stores a b k rs i :
  0 ≤ a ≤ 16 → b ≤ 16 → filled a b k i → stores (a + Z.of_nat (length rs)) b k (add_regs add_src_reg rs i).
Proof.
  revert a i. induction rs as [|r rs IH]; intros a i Ha Hb Hi; simpl.
  - rewrite Z.add_0_r. apply stores_done; (done || lia).
  - apply (stores_bind (a + 1) b); [by apply add_src_stores|lia..|]. intros j Ha1 _ Hj.
    replace (a + Z.of_nat (S (length rs))) with (a + 1 + Z.of_nat (length rs)) by lia. apply IH; (done || lia).
Qed.

Lemma add_dsts_stores a b k rs i :
  a ≤ 16 → 0 ≤ b ≤ 16 → filled a b k i → stores a (b + Z.of_nat (length rs)) k (add_regs add_dst_reg rs i).
Proof.
  revert b i. induction rs as [|r rs IH]; intros b i Ha Hb Hi; simpl.
  - rewrite Z.add_0_r. apply stores_done; (done || lia).
  - apply (stores_bind a (b + 1)); [by apply add_dst_stores|lia..|]. intros j _ Hb1 Hj.
    replace (b + Z.of_nat (S (length rs))) with (b + 1 + Z.of_nat (length rs)) by lia. apply IH; (done || lia).
Qed.

(** ** The registers of an instruction *)

Section Decode.
Variables (shl_32 : Z → Z) (ctz_0 : Z).

(** How many sources and destinations an instruction has. *)
Definition num_srcs (k : InstTypeName * bool * bool) (d : darm_t) (n : Z) : Z :=
  match k.1.1 with
  | MemRead | Pop => one_if (d F_Rn)
  | MemWrite | Push => one_if (d F_Rt) + one_if (d F_Rn) + n
  | _ => one_if (d F_Rm) + one_if (d F_Rn) + n
  end + flag k.1.2.

Definition num_dsts (k : InstTypeName * bool * bool) (d : darm_t) (n : Z) : Z :=
  match k.1.1 with
  | MemRead | Pop => one_if (d F_Rt) + n
  | MemWrite | Push => 0
  | _ => one_if (d F_Rd)
  end + flag k.2.

Lemma one_if_range r : 0 ≤ one_if r ≤ 1.
Proof. unfold one_if. destruct (_ =? _); lia. Qed.

Lemma flag_range b : 0 ≤ flag b ≤ 1.
Proof. destruct b; simpl; lia. Qed.

(** The three ways the registers are collected. *)
Lemma load_stores k d regs i :
  filled 0 0 k i →
  stores (one_if (d F_Rn)) (one_if (d F_Rt) + Z.of_nat (length regs)) k
    (i ← if_reg (d F_Rt) add_dst_reg i; i ← if_reg (d F_Rn) add_src_reg i; add_regs add_dst_reg regs i).
Proof.
  intros Hi. pose proof (one_if_range (d F_Rn)). pose proof (one_if_range (d F_Rt)).
  apply (stores_bind 0 (0 + one_if (d F_Rt))); [by apply if_dst_stores|lia..|]. intros i1 _ _ Hi1.
  apply (stores_bind (0 + one_if (d F_Rn)) (one_if (d F_Rt))); [apply if_src_stores; (done || lia)|lia..|]. intros i2 _ _ Hi2.
  apply add_dsts_stores; (done || lia).
Qed.

Lemma store_stores k d regs i :
  filled 0 0 k i →
  stores (one_if (d F_Rt) + one_if (d F_Rn) + Z.of_nat (length regs)) 0 k
    (i ← if_reg (d F_Rt) add_src_reg i; i ← if_reg (d F_Rn) add_src_reg i; add_regs add_src_reg regs i).
Proof.
  intros Hi. pose proof (one_if_range (d F_Rn)). pose proof (one_if_range (d F_Rt)).
  apply (stores_bind (0 + one_if (d F_Rt)) 0); [by apply if_src_stores|lia..|]. intros i1 _ _ Hi1.
  apply (stores_bind (one_if (d F_Rt) + one_if (d F_Rn)) 0); [apply if_src_stores; (done || lia)|lia..|]. intros i2 _ _ Hi2.
  apply add_srcs_stores; (done || lia).
Qed.

Lemma other_stores k d regs i :
  filled 0 0 k i →
  stores (one_if (d F_Rm) + one_if (d F_Rn) + Z.of_nat (length regs)) (one_if (d F_Rd)) k
    (i ← if_reg (d F_Rd) add_dst_reg i; i ← if_reg (d F_Rm) add_src_reg i; i ← if_reg (d F_Rn) add_src_reg i;
     add_regs add_src_reg regs i).
Proof.
  intros Hi. pose proof (one_if_range (d F_Rn)). pose proof (one_if_range (d F_Rm)). pose proof (one_if_range (d F_Rd)).
  apply (stores_bind 0 (0 + one_if (d F_Rd))); [by apply if_dst_stores|lia..|]. intros i0 _ _ Hi0.
  apply (stores_bind (0 + one_if (d F_Rm)) (one_if (d F_Rd))); [apply if_src_stores; (done || lia)|lia..|]. intros i1 _ _ Hi1.
  apply (stores_bind (one_if (d F_Rm) + one_if (d F_Rn)) (one_if (d F_Rd))); [apply if_src_stores; (done || lia)|lia..|]. intros i2 _ _ Hi2.
  apply add_srcs_stores; (done || lia).
Qed.

(** The condition flags count as register 17. *)
Lemma flags_stored a b t c u i :
  0 ≤ a ≤ 16 → 0 ≤ b ≤ 16 → filled a b (t, c, u) i →
  stores (a + flag c) (b + flag u) (t, c, u)
    (i ← (if is_cond_inst i then add_src_reg 17 i else Some i); if update_cond_flag i then add_dst_reg 17 i else Some i).
Proof.
  intros Ha Hb Hi. pose proof (fi_kind _ _ _ _ Hi) as Ek. injection Ek as _ Ec Eu. rewrite Ec. pose proof (flag_range c). pose proof (flag_range u).
  apply (stores_bind (a + flag c) b); [|lia..|].
  - destruct c; simpl; [apply add_src_stores; (done || lia)|]. rewrite Z.add_0_r. apply stores_done; (done || lia).
  - intros j Ha' _ Hj. pose proof (fi_kind _ _ _ _ Hj) as Ek'. injection Ek' as _ _ Eu'. rewrite Eu'.
    destruct u; simpl; [apply add_dst_stores; (done || lia)|]. rewrite Z.add_0_r. apply stores_done; (done || lia).
Qed.

Lemma regs_stored inst d c regs :
  num_src_reg inst = 0 → num_dst_reg inst = 0 → darm_reglist2 ctz_0 (d F_reglist) = Some (c, regs) → (length regs ≤ 16)%nat →
  let n := Z.of_nat (length regs) in
  stores (num_srcs (kind inst) d n) (num_dsts (kind inst) d n) (kind inst) (init_inst_src_dst_reg ctz_0 inst d).
Proof.
  intros Hs Hd E Hl n. unfold init_inst_src_dst_reg. rewrite E. cbn [mbind option_bind].
  rewrite (proj2 (Nat.ltb_ge 16 (length regs))) by done. cbv zeta.
  set (i0 := inst <| src_reg := _ |> <| dst_reg := _ |>). assert (Hi0 : filled 0 0 (kind inst) i0) by (by split).
  change (type i0) with (type inst). unfold num_srcs, num_dsts, kind in *. cbn [fst snd].
  pose proof (one_if_range (d F_Rn)). pose proof (one_if_range (d F_Rm)). pose proof (one_if_range (d F_Rt)). pose proof (one_if_range (d F_Rd)).
  pose proof (flag_range (is_cond_inst inst)). pose proof (flag_range (update_cond_flag inst)).
  assert (Hfin : ∀ a b o, 0 ≤ a → 0 ≤ b → stores a b (type inst, is_cond_inst inst, update_cond_flag inst) o →
    stores (a + flag (is_cond_inst inst)) (b + flag (update_cond_flag inst)) (type inst, is_cond_inst inst, update_cond_flag inst)
      (o ≫= λ i, i ← (if is_cond_inst i then add_src_reg 17 i else Some i); if update_cond_flag i then add_dst_reg 17 i else Some i)).
  { intros a b o Ha Hb Ho. apply (stores_bind a b); [done|lia..|]. intros i1 Ha' Hb' Hi1. apply flags_stored; (done || lia). }
  destruct (type inst); (apply Hfin; [lia..|]); (apply load_stores || apply store_stores || apply other_stores); done.
Qed.

(** ** Which words decode *)

Lemma stores_is_Some a b k o : stores a b k o → is_Some o ↔ a ≤ 16 ∧ b ≤ 16.
Proof.
  unfold stores. destruct (Z.leb_spec a 16), (Z.leb_spec b 16); simpl; [intros (i & -> & _); by split|intros ->..];
    (split; [by intros []|lia]).
Qed.

(** The instruction [decode_inst] fills the register arrays of. *)
Definition prepared (inst : Inst) (d : darm_t) : Inst :=
  let inst := inst <| is_cond_inst := negb (one_of (d F_cond) [C_UNCOND; C_INVLD; C_AL]) |> in
  let inst := if negb (d F_shift =? 0) then inst <| shift_inst := true |> else inst in
  let inst := if negb (d F_S =? B_INVLD) then inst <| update_cond_flag := d F_S =? B_SET |> else inst in
  classify (d F_instr) inst.

Lemma prepared_fields inst d :
  num_src_reg (prepared inst d) = num_src_reg inst ∧ num_dst_reg (prepared inst d) = num_dst_reg inst ∧
  type (prepared inst d) = inst_type_of (d F_instr) ∧
  is_cond_inst (prepared inst d) = negb (one_of (d F_cond) [C_UNCOND; C_INVLD; C_AL]) ∧
  update_cond_flag (prepared inst d) =
    one_of (d F_instr) [I_TST; I_TEQ; I_CMP; I_CMN] || (if d F_S =? B_INVLD then update_cond_flag inst else d F_S =? B_SET).
Proof.
  unfold prepared, classify. cbv zeta. set (i0 := if negb (d F_S =? B_INVLD) then _ else _).
  assert (H0 : num_src_reg i0 = num_src_reg inst ∧ num_dst_reg i0 = num_dst_reg inst ∧
    is_cond_inst i0 = negb (one_of (d F_cond) [C_UNCOND; C_INVLD; C_AL]) ∧
    update_cond_flag i0 = if d F_S =? B_INVLD then update_cond_flag inst else d F_S =? B_SET).
  { unfold i0. by destruct (d F_S =? B_INVLD), (d F_shift =? 0). }
  destruct H0 as (<- & <- & <- & <-). clearbody i0. destruct (one_of (d F_instr) [I_ASR; I_LSL; I_LSR; I_ROR; I_RRX]) eqn:Es.
  - assert (one_of (d F_instr) [I_TST; I_TEQ; I_CMP; I_CMN] = false) as ->; [|done].
    apply one_of_In in Es. rewrite !elem_of_cons, elem_of_nil in Es. by destruct Es as [-> | [-> | [-> | [-> | [-> | []]]]]].
  - destruct (one_of (d F_instr) [I_TST; I_TEQ; I_CMP; I_CMN]); [done|]. by destruct (one_of (d F_instr) [I_POP; I_PUSH]).
Qed.

Lemma decode_prepared inst d ret :
  decoded inst = false → darm_armv7_disasm shl_32 (code inst) = Some (ret, d) →
  is_Some (decode_inst shl_32 ctz_0 inst) ↔
    type (prepared inst d) = Unsupported ∨ is_Some (init_inst_src_dst_reg ctz_0 (prepared inst d) d).
Proof.
  intros Hd E. unfold decode_inst. rewrite Hd, E. cbn [mbind option_bind]. cbv zeta.
  change (classify _ _) with (prepared inst d). case_decide as Ht.
  - split; [by left|]. intros _. by eexists.
  - destruct (init_inst_src_dst_reg _ _ _); split; intros H; [right; by eexists|by eexists|by destruct H|]. destruct H as [|[? ?]]; done.
Qed.

(** Few registers without a list. *)
Lemma single_fits k d : num_srcs k d 0 ≤ 16 ∧ num_dsts k d 0 ≤ 16.
Proof.
  unfold num_srcs, num_dsts. pose proof (one_if_range (d F_Rn)). pose proof (one_if_range (d F_Rm)). pose proof (one_if_range (d F_Rt)).
  pose proof (one_if_range (d F_Rd)). pose proof (flag_range k.1.2). pose proof (flag_range k.2). destruct k.1.1; lia.
Qed.

Lemma label_type i :
  (one_of i load_labels = true → inst_type_of i = MemRead ∨ inst_type_of i = Pop) ∧
  (one_of i store_labels = true → inst_type_of i = MemWrite ∨ inst_type_of i = Push) ∧
  (one_of i load_labels = true ∨ one_of i store_labels = true → one_of i [I_TST; I_TEQ; I_CMP; I_CMN] = false).
Proof.
  rewrite !one_of_In. unfold load_labels, store_labels. rewrite !elem_of_cons, !elem_of_nil.
  split; [|split]; intros H; destruct_or!; subst; vm_compute; auto; done.
Qed.

(** The entries a store of several registers needs in [src_reg]: the base, the list, and the
    condition flags if it is conditional. *)
Definition store_sources (w : Z) : Z :=
  1 + Z.of_nat (length (registers (w .& 65535))) + flag (negb (field w 28 15 =? C_AL)).

Lemma multiple_decodes inst w d :
  16 < ctz_0 → update_cond_flag inst = false → num_src_reg inst = 0 → num_dst_reg inst = 0 → field w 28 15 ≠ 15 → multiple_fields w d →
  is_Some (init_inst_src_dst_reg ctz_0 (prepared inst d) d) ↔ (bit w 20 = false → store_sources w ≤ 16).
Proof.
  intros Hc Hu Hs Hd Hn [Ht Hlist HRn HRt HS Hcond Hlab]. destruct (prepared_fields inst d) as (Es & Ed & Ety & Eco & Eup).
  assert (Hl : ∃ c, darm_reglist2 ctz_0 (d F_reglist) = Some (c, registers (w .& 65535))).
  { rewrite Hlist. pose proof (land_range w 65535 ltac:(lia)). destruct (decide (w .& 65535 = 0)) as [E|]; [rewrite E; by eexists|].
    rewrite reglist2_ok by lia. by eexists. }
  destruct Hl as [c Hl]. assert (Hlen : (length (registers (w .& 65535)) ≤ 16)%nat) by (unfold registers; rewrite length_filter; done).
  rewrite Hs in Es. rewrite Hd in Ed. pose proof (regs_stored (prepared inst d) d c _ Es Ed Hl Hlen) as Hst. cbv zeta in Hst.
  rewrite (stores_is_Some _ _ _ _ Hst). unfold num_srcs, num_dsts, kind. cbn [fst snd].
  destruct (label_type (d F_instr)) as (Hload & Hstore & Hno).
  assert (Eu : update_cond_flag (prepared inst d) = false).
  { rewrite Eup, HS, Hu, Hno by (destruct (bit w 20); auto). done. }
  assert (Ec : is_cond_inst (prepared inst d) = negb (field w 28 15 =? C_AL)).
  { rewrite Eco, Hcond. pose proof (field_range w 28 15 ltac:(lia)). unfold one_of. cbn [existsb].
    rewrite (proj2 (Z.eqb_neq _ C_UNCOND)), (proj2 (Z.eqb_neq _ C_INVLD)) by (unfold C_UNCOND, C_INVLD; lia). by rewrite orb_false_r. }
  assert (ERn : one_if (d F_Rn) = 1).
  { unfold one_if. rewrite HRn. pose proof (field_range w 16 15 ltac:(lia)). by rewrite (proj2 (Z.eqb_neq _ R_INVLD)) by (unfold R_INVLD; lia). }
  rewrite Eu, Ec, Ety, HRt, ERn. change (one_if (-1)) with 0. unfold store_sources. pose proof (flag_range (negb (field w 28 15 =? C_AL))).
  change (flag false) with 0. revert Hload Hstore Hlab Hlen H. generalize (length (registers (w .& 65535))) (flag (negb (field w 28 15 =? C_AL))). clear.
  intros n f Hload Hstore Hlab Hlen Hf.
  destruct (bit w 20); [destruct (Hload Hlab) as [-> | ->]|destruct (Hstore Hlab) as [-> | ->]]; clear Hload Hstore Hlab; split; intros; first [lia|discriminate].
Qed.

(** The word is not a store of several registers, or [src_reg] has room for its sources. *)
Definition word_fits (w : Z) : bool :=
  (field w 28 15 =? C_UNCOND) || negb (multiple w) || bit w 20 || (store_sources w <=? 16).

Lemma word_fits_spec w :
  word_fits w = true ↔ (field w 28 15 ≠ 15 → multiple w = true → bit w 20 = false → store_sources w ≤ 16).
Proof.
  unfold word_fits. rewrite !orb_true_iff, Z.eqb_eq, Z.leb_le, negb_true_iff. unfold C_UNCOND.
  generalize (store_sources w). intros n. destruct (multiple w), (bit w 20); split; try tauto; try lia; intuition congruence.
Qed.

Lemma decode_iff junk seq_ pc_ w :
  16 < ctz_0 → is_Some (decode_inst shl_32 ctz_0 (init_inst junk seq_ pc_ w)) ↔ word_fits w = true.
Proof.
  intros Hc. rewrite word_fits_spec. set (inst := init_inst junk seq_ pc_ w).
  destruct (decide (field w 28 15 = 15 ∨ multiple w = false)) as [H|H].
  - destruct (disasm_single shl_32 w H) as (ret & d & E & _ & Ht & Hl). rewrite (decode_prepared inst d ret eq_refl E).
    destruct (prepared_fields inst d) as (Hs & Hd & _).
    pose proof (regs_stored (prepared inst d) d (-1) [] Hs Hd ltac:(by rewrite Hl) ltac:(simpl; lia)) as Hst. cbv zeta in Hst. simpl length in Hst.
    rewrite (stores_is_Some _ _ _ _ Hst). pose proof (single_fits (kind (prepared inst d)) d). split; [|by right].
    intros _ Hn Hm. destruct H; congruence.
  - destruct (disasm_multiple shl_32 w) as (d & E & Hf); [tauto|by destruct (multiple w); tauto|].
    rewrite (decode_prepared inst d 0 eq_refl E), (multiple_decodes inst w d Hc eq_refl eq_refl eq_refl ltac:(tauto) Hf).
    destruct (prepared_fields inst d) as (_ & _ & -> & _). destruct (label_type (d F_instr)) as (Hload & Hstore & _).
    pose proof (mf_label _ _ Hf) as Hlab. assert (inst_type_of (d F_instr) ≠ Unsupported).
    { destruct (bit w 20); [destruct (Hload Hlab) as [-> | ->]|destruct (Hstore Hlab) as [-> | ->]]; done. }
    split; [intros [|]; [done|]; auto|]. intros Hx. right. intros Hb. apply Hx; [tauto|by destruct (multiple w); tauto|done].
Qed.
End Decode.

(** An instruction to start from. *)
Definition zero_inst : Inst :=
  MkInst 0 0 0 Ready IntAlu 0 false false false false false 0 0 0 0 (replicate 16 0) (replicate 16 0)
    (replicate 16 0) L1Hit L1Hit false 0 0 0 0 None None None false 0 None.


