(* ===== verification/Double.v ===== *)
(** C's [double] as IEEE 754 binary64, with the conversions the simulator uses. *)

From Stdlib Require Import ZArith Lia.
From Stdlib Require Import Floats.SpecFloat.
From stdpp Require Import base tactics option.
From S2P Require Import Prelude.

Definition dadd : spec_float → spec_float → spec_float := SFadd 53 1024.
Definition dmul : spec_float → spec_float → spec_float := SFmul 53 1024.
Definition ddiv : spec_float → spec_float → spec_float := SFdiv 53 1024.

(** An integer converted to [double], rounded to nearest. *)
Definition of_int (n : Z) : spec_float := binary_normalize 53 1024 n 0 false.

Definition dzero : spec_float := S754_zero false.
Definition done_ : spec_float := of_int 1.

(** A [double] truncated towards zero; a NaN or an infinity has no value. *)
Definition trunc (d : spec_float) : option Z :=
  match d with
  | S754_zero _ => Some 0
  | S754_finite s m e =>
      let v := if 0 <=? e then Z.pos m * 2 ^ e else Z.pos m / 2 ^ (- e) in
      Some (if s then - v else v)
  | _ => None
  end.

(** [(int) d]: undefined when the truncated value does not fit. *)
Definition to_int (d : spec_float) : option Z :=
  v ← trunc d; if (- 2 ^ 31 <=? v) && (v <? 2 ^ 31) then Some v else None.

(** [(uint64_t) d]. *)
Definition to_u64 (d : spec_float) : option Z :=
  v ← trunc d; if (0 <=? v) && (v <? 2 ^ 64) then Some v else None.
