(* ===== verification/DoubleRange.v ===== *)
(** Rounding never leaves a range whose ends are representable: bounds for chains of
    [double] operations, and the running average of the analyzer. *)

From Stdlib Require Import ZArith Lia Znumtheory.
From Stdlib Require Import Floats.SpecFloat.
From stdpp Require Import base tactics option numbers.
From S2P Require Import Prelude Double.

(** Magnitudes are compared as integers, scaled by [2 ^ K]. *)
Definition K : Z := 4096.
Definition scaled (m e : Z) : Z := m * 2 ^ (e + K).

(** [- a ≤ d ≤ b], for a finite [d]. *)
Definition within (a b : Z) (d : spec_float) : Prop :=
  match d with
  | S754_zero _ => True
  | S754_finite s m e => -1074 ≤ e ∧ scaled (Z.pos m) e ≤ (if s then a else b) * 2 ^ K
  | _ => False
  end.

(** A representable bound. *)
Definition grid (j B : Z) : Prop := 0 ≤ j ≤ 900 ∧ 0 ≤ B < 2 ^ (53 + j) ∧ (2 ^ j | B).

(** ** Powers of two *)

Lemma pow2_pos n : 0 ≤ n → 0 < 2 ^ n.
Proof. intros. by apply Z.pow_pos_nonneg. Qed.

Lemma scaled_succ m e : - K ≤ e → scaled m (e + 1) = scaled (2 * m) e.
Proof. intros. unfold scaled. replace (e + 1 + K) with (Z.succ (e + K)) by lia. rewrite Z.pow_succ_r by lia. lia. Qed.

Lemma scaled_shift m e d : - K ≤ e → 0 ≤ d → scaled m (e + d) = scaled (m * 2 ^ d) e.
Proof. intros. unfold scaled. replace (e + d + K) with (d + (e + K)) by lia. rewrite Z.pow_add_r by lia. lia. Qed.

Lemma scaled_le m m' e : - K ≤ e → scaled m e ≤ scaled m' e ↔ m ≤ m'.
Proof. intros. unfold scaled. pose proof (pow2_pos (e + K)). nia. Qed.

(** A representable bound is a whole number of units of any size up to [2 ^ j]. *)
Lemma grid_unit j B e : grid j B → - K ≤ e ≤ j → ∃ n, B * 2 ^ K = scaled n e.
Proof.
  intros (Hj & _ & c & ->) He. exists (c * 2 ^ (j - e)). unfold scaled.
  rewrite <-!Z.mul_assoc, <-!Z.pow_add_r by (unfold K in *; lia). do 2 f_equal. lia.
Qed.

(** ** Digits *)

Lemma digits2_bounds p : 2 ^ (Z.pos (digits2_pos p) - 1) ≤ Z.pos p < 2 ^ Z.pos (digits2_pos p).
Proof.
  induction p as [p IH|p IH|]; simpl digits2_pos; [| |done];
    rewrite Pos2Z.inj_succ, Z.pow_succ_r by lia;
    replace (Z.succ (Z.pos (digits2_pos p)) - 1) with (Z.succ (Z.pos (digits2_pos p) - 1)) by lia;
    rewrite Z.pow_succ_r by lia; lia.
Qed.

Lemma digits_small m e j B :
  0 < m → - K ≤ e → grid j B → scaled m e ≤ B * 2 ^ K → Zdigits2 m + e ≤ 53 + j.
Proof.
  intros Hm He (Hj & HB & _) Hle. destruct m as [|p|p]; [done| |lia]. simpl Zdigits2.
  destruct (digits2_bounds p) as [Hd _]. unfold scaled in Hle.
  assert (H : 2 ^ (Z.pos (digits2_pos p) - 1 + (e + K)) < 2 ^ (53 + j + K)).
  { rewrite (Z.pow_add_r 2 _ (e + K)), (Z.pow_add_r 2 (53 + j) K) by (unfold K in *; lia).
    pose proof (pow2_pos (e + K) ltac:(lia)). pose proof (pow2_pos K ltac:(done)).
    eapply Z.le_lt_trans; [apply Z.mul_le_mono_nonneg_r; [lia|exact Hd]|].
    eapply Z.le_lt_trans; [exact Hle|]. apply Z.mul_lt_mono_pos_r; lia. }
  apply Z.pow_lt_mono_r_iff in H; [lia|lia|unfold K in *; lia].
Qed.

(** ** Shifting right *)

Definition exact (r : shr_record) : bool := negb (shr_r r) && negb (shr_s r).

(** The number a record stands for is at most [B]. *)
Definition below (B : Z) (r : shr_record) (e : Z) : Prop :=
  0 ≤ shr_m r ∧ scaled (shr_m r + if exact r then 0 else 1) e ≤ B * 2 ^ K.

Lemma below_shr_1 j B r e :
  grid j B → - K ≤ e → e + 1 ≤ j → below B r e → below B (shr_1 r) (e + 1).
Proof.
  intros HB He Hj [Hm Hle]. destruct (grid_unit j B (e + 1) HB) as [n Hn]; [lia|].
  unfold below. rewrite Hn in *. rewrite scaled_succ in Hle |- * by done. rewrite scaled_succ by done.
  apply scaled_le in Hle; [|done]. rewrite scaled_le by done.
  destruct r as [m rr ss]. unfold exact in *. simpl in *.
  destruct m as [|[p|p|]|p]; simpl; destruct rr, ss; simpl in *; lia.
Qed.

Lemma below_iter j B p r e :
  grid j B → - K ≤ e → e + Z.pos p ≤ j → below B r e → below B (SpecFloat.iter_pos shr_1 p r) (e + Z.pos p).
Proof.
  intros HB. revert r e. induction p as [p IH|p IH|]; intros r e He Hj Hb; simpl.
  - replace (e + Z.pos p~1) with (e + 1 + Z.pos p + Z.pos p) by lia. apply IH; [lia|lia|].
    apply IH; [lia|lia|]. by apply (below_shr_1 j); [|lia|lia|].
  - replace (e + Z.pos p~0) with (e + Z.pos p + Z.pos p) by lia. apply IH; [lia|lia|]. by apply IH; [lia|lia|].
  - by apply (below_shr_1 j).
Qed.

Lemma below_shr_fexp j B m l e :
  grid j B → - K ≤ e → below B (shr_record_of_loc m l) e →
  let '(r, e') := shr_fexp 53 1024 m e l in below B r e' ∧ -1074 ≤ e'.
Proof.
  intros HB He Hb. unfold shr_fexp, fexp, emin.
  assert (Hd : Z.max (Zdigits2 m + e - 53) (3 - 1024 - 53) ≤ Z.max j e).
  { assert (E : shr_m (shr_record_of_loc m l) = m) by (by destruct l as [|[]]).
    destruct Hb as [Hm Hle]. rewrite E in *. destruct HB as [Hj HB]. destruct (decide (m = 0)) as [->|].
    { simpl. lia. }
    enough (Zdigits2 m + e ≤ 53 + j) by lia. apply (digits_small m e j B); [lia|done|done|].
    etrans; [|exact Hle]. apply scaled_le; [done|]. case_match; lia. }
  set (x := Z.max _ _) in *. destruct (x - e) as [|d|d] eqn:E; simpl.
  - split; [done|lia].
  - split; [|lia]. apply (below_iter j); [done|done| |done]. lia.
  - split; [done|lia].
Qed.

(** ** Rounding *)

Lemma round_within j B (sx : bool) m e l :
  grid j B → - K ≤ e → below B (shr_record_of_loc m l) e →
  ∀ a b, (if sx then a else b) = B → within a b (binary_round_aux 53 1024 sx m e l).
Proof.
  intros HB He Hb a b Hab. unfold binary_round_aux. pose proof (below_shr_fexp j B m l e HB He Hb) as H1.
  destruct (shr_fexp 53 1024 m e l) as [r1 e1]. destruct H1 as [[Hm1 Hb1] He1].
  set (m2 := round_nearest_even _ _).
  assert (Hm2 : 0 ≤ m2 ≤ shr_m r1 + if exact r1 then 0 else 1).
  { unfold m2. clear -Hm1. destruct r1 as [m1 [] []]; unfold exact, round_nearest_even;
      cbn [shr_m shr_r shr_s negb andb loc_of_shr_record] in *; try destruct (Z.even m1); lia. }
  assert (Hb2 : below B (shr_record_of_loc m2 loc_Exact) e1).
  { split; [simpl; lia|]. etrans; [|exact Hb1]. apply scaled_le; [unfold K; lia|].
    change (m2 + 0 ≤ shr_m r1 + if exact r1 then 0 else 1). lia. }
  pose proof (below_shr_fexp j B m2 loc_Exact e1 HB ltac:(unfold K; lia) Hb2) as H3.
  destruct (shr_fexp 53 1024 m2 e1 loc_Exact) as [r3 e3]. destruct H3 as [[Hm3 Hb3] He3].
  destruct (shr_m r3) as [|m3|m3] eqn:E3; [done| |lia].
  assert (Hs : scaled (Z.pos m3) e3 ≤ B * 2 ^ K).
  { etrans; [|exact Hb3]. apply scaled_le; [unfold K; lia|]. case_match; lia. }
  destruct (Z.leb_spec e3 (1024 - 53)) as [|Hbig]; simpl; [by rewrite Hab|].
  pose proof (digits_small (Z.pos m3) e3 j B ltac:(lia) ltac:(unfold K; lia) HB Hs) as Hd. simpl in Hd.
  destruct HB as [Hj _]. lia.
Qed.

Lemma pos_iter_xO d m : Z.pos (Pos.iter xO m d) = Z.pos m * 2 ^ Z.pos d.
Proof.
  induction d as [|d IH] using Pos.peano_ind; [simpl; lia|].
  rewrite Pos.iter_succ. change (Z.pos (Pos.iter xO m d)~0) with (2 * Z.pos (Pos.iter xO m d)).
  rewrite IH, Pos2Z.inj_succ, Z.pow_succ_r by lia. lia.
Qed.

(** Aligning to a smaller exponent is exact. *)
Lemma shl_align_exact m e e' :
  - K ≤ e' → - K ≤ e →
  scaled (Z.pos (shl_align m e e').1) (shl_align m e e').2 = scaled (Z.pos m) e ∧
  (shl_align m e e').2 = Z.min e e'.
Proof.
  intros. unfold shl_align. destruct (e' - e) as [|d|d] eqn:E; simpl; split; try lia.
  rewrite pos_iter_xO, <-scaled_shift by lia. f_equal. lia.
Qed.

Lemma normalize_within j1 j2 a b z e :
  grid j1 a → grid j2 b → - 3000 ≤ e → - (a * 2 ^ K) ≤ scaled z e ≤ b * 2 ^ K →
  within a b (binary_normalize 53 1024 z e false).
Proof.
  intros Ha Hb He Hz. unfold binary_normalize, binary_round. destruct z as [|p|p]; [done| |].
  - destruct (shl_align p e (fexp 53 1024 (Z.pos (digits2_pos p) + e))) as [m' e'] eqn:E.
    pose proof (shl_align_exact p e (fexp 53 1024 (Z.pos (digits2_pos p) + e))) as H.
    rewrite E in H. simpl in H. unfold fexp, emin in H. destruct H as [Hs He']; [unfold K; lia..|].
    apply (round_within j2 b); [done|unfold K; lia| |done]. split; [simpl; lia|].
    change (scaled (Z.pos m' + 0) e' ≤ b * 2 ^ K). rewrite Z.add_0_r, Hs. lia.
  - destruct (shl_align p e (fexp 53 1024 (Z.pos (digits2_pos p) + e))) as [m' e'] eqn:E.
    pose proof (shl_align_exact p e (fexp 53 1024 (Z.pos (digits2_pos p) + e))) as H.
    rewrite E in H. simpl in H. unfold fexp, emin in H. destruct H as [Hs He']; [unfold K; lia..|].
    apply (round_within j1 a); [done|unfold K; lia| |done]. split; [simpl; lia|].
    change (scaled (Z.pos m' + 0) e' ≤ a * 2 ^ K). rewrite Z.add_0_r, Hs. unfold scaled in *. change (Z.neg p) with (- Z.pos p) in Hz. lia.
Qed.

(** ** Operations *)

(** Every integer below [2 ^ 53] is a [double]. *)
Lemma round_exact s p :
  Z.pos p < 2 ^ 53 →
  ∃ m e, binary_round 53 1024 s p 0 = S754_finite s m e ∧ -1074 ≤ e ≤ 0 ∧ Z.pos m = Z.pos p * 2 ^ (- e).
Proof.
  intros Hn. unfold binary_round.
  destruct (digits2_bounds p) as [Hlo Hhi]. set (d := Z.pos (digits2_pos p)) in *.
  assert (Hd : 1 ≤ d ≤ 53).
  { split; [lia|]. assert (H : 2 ^ (d - 1) < 2 ^ 53) by lia. apply Z.pow_lt_mono_r_iff in H; lia. }
  assert (Hf : fexp 53 1024 (d + 0) = d - 53) by (unfold fexp, emin; lia). rewrite Hf.
  set (m := (shl_align p 0 (d - 53)).1).
  assert (Hal : shl_align p 0 (d - 53) = (m, d - 53) ∧ Z.pos m = Z.pos p * 2 ^ (53 - d)).
  { unfold m, shl_align. destruct (d - 53 - 0) as [|k|k] eqn:E; [| lia|].
    - replace (53 - d) with 0 by lia. simpl. split; [f_equal; lia|lia].
    - simpl. split; [done|]. rewrite pos_iter_xO. do 2 f_equal. lia. }
  destruct Hal as [-> Hm].
  assert (Hdm : Z.pos (digits2_pos m) = 53).
  { destruct (digits2_bounds m) as [Hl Hh]. rewrite Hm in Hl, Hh.
    assert (H1 : 2 ^ 52 ≤ Z.pos p * 2 ^ (53 - d) < 2 ^ 53).
    { replace (2 ^ 52) with (2 ^ (d - 1) * 2 ^ (53 - d)) by (rewrite <-Z.pow_add_r by lia; f_equal; lia).
      replace (2 ^ 53) with (2 ^ d * 2 ^ (53 - d)) by (rewrite <-Z.pow_add_r by lia; f_equal; lia).
      pose proof (pow2_pos (53 - d) ltac:(lia)). split; [apply Z.mul_le_mono_nonneg_r|apply Z.mul_lt_mono_pos_r]; lia. }
    assert (H2 : 2 ^ (Z.pos (digits2_pos m) - 1) < 2 ^ 53) by lia.
    assert (H3 : 2 ^ 52 < 2 ^ Z.pos (digits2_pos m)) by lia.
    apply Z.pow_lt_mono_r_iff in H2; [|lia..]. apply Z.pow_lt_mono_r_iff in H3; [|lia..]. lia. }
  exists m, (d - 53). split; [|split; [lia|rewrite Hm; do 2 f_equal; lia]].
  assert (Hsh : shr_fexp 53 1024 (Z.pos m) (d - 53) loc_Exact = (shr_record_of_loc (Z.pos m) loc_Exact, d - 53)).
  { unfold shr_fexp. simpl Zdigits2. rewrite Hdm. unfold fexp, emin.
    replace (Z.max (53 + (d - 53) - 53) (3 - 1024 - 53) - (d - 53)) with 0 by lia. done. }
  unfold binary_round_aux. rewrite Hsh. cbn [shr_record_of_loc shr_m loc_of_shr_record round_nearest_even].
  rewrite Hsh. cbn [shr_record_of_loc shr_m]. by rewrite (proj2 (Z.leb_le (d - 53) (1024 - 53))) by lia.
Qed.

Lemma of_int_pos n :
  0 < n < 2 ^ 53 →
  ∃ m e, of_int n = S754_finite false m e ∧ -1074 ≤ e ≤ 0 ∧ Z.pos m = n * 2 ^ (- e).
Proof. intros. destruct n as [|p|p]; [lia| |lia]. apply round_exact. lia. Qed.

Lemma of_int_scaled n m e : -1074 ≤ e ≤ 0 → m = n * 2 ^ (- e) → scaled m e = n * 2 ^ K.
Proof.
  intros ? ->. unfold scaled. rewrite <-Z.mul_assoc, <-Z.pow_add_r by (unfold K; lia). do 2 f_equal. lia.
Qed.

Lemma of_int_within a b n : - a ≤ n ≤ b → Z.abs n < 2 ^ 53 → within a b (of_int n).
Proof.
  intros Hn Hs. destruct n as [|p|p]; [done| |].
  - destruct (round_exact false p) as (m & e & E & He & Hm); [lia|]. change (of_int (Z.pos p)) with (binary_round 53 1024 false p 0).
    rewrite E. split; [lia|]. rewrite (of_int_scaled (Z.pos p)) by done. apply Z.mul_le_mono_nonneg_r; [|lia].
    apply Z.lt_le_incl, pow2_pos. done.
  - destruct (round_exact true p) as (m & e & E & He & Hm); [lia|]. change (of_int (Z.neg p)) with (binary_round 53 1024 true p 0).
    rewrite E. split; [lia|]. rewrite (of_int_scaled (Z.pos p)) by done. apply Z.mul_le_mono_nonneg_r; [|lia].
    apply Z.lt_le_incl, pow2_pos. done.
Qed.

Lemma within_weaken a b a' b' d : a ≤ a' → b ≤ b' → within a b d → within a' b' d.
Proof.
  intros Ha Hb. destruct d as [s| | |s m e]; try done. simpl. intros [He Hs]. split; [done|]. etrans; [exact Hs|].
  apply Z.mul_le_mono_nonneg_r; [|by destruct s]. apply Z.lt_le_incl, pow2_pos. done.
Qed.

Lemma mul_within j1 j2 a b x n :
  grid j1 (a * n) → grid j2 (b * n) → 0 ≤ n < 2 ^ 53 → within a b x → within (a * n) (b * n) (dmul x (of_int n)).
Proof.
  intros Ha Hb Hn Hx. destruct (decide (n = 0)) as [->|]; [by destruct x|].
  destruct (of_int_pos n) as (m & e & -> & He & Hm); [lia|].
  destruct x as [s| | |s mx ex]; try done. simpl in Hx |- *. destruct Hx as [Hex Hx]. unfold dmul, SFmul.
  set (j := if s then j1 else j2). set (B := if s then a * n else b * n).
  apply (round_within j B); [by destruct s|unfold K; lia| |by destruct s].
  split; [done|]. change (scaled (Z.pos mx * Z.pos m + 0) (ex + e) ≤ B * 2 ^ K).
  rewrite Z.add_0_r, Hm. replace (Z.pos mx * (n * 2 ^ (- e))) with (n * Z.pos mx * 2 ^ (- e)) by lia.
  rewrite <-scaled_shift by (unfold K; lia). replace (ex + e + - e) with ex by lia.
  unfold scaled in *. assert (H : n * (Z.pos mx * 2 ^ (ex + K)) ≤ n * ((if s then a else b) * 2 ^ K)).
  { apply Z.mul_le_mono_nonneg_l; lia. }
  unfold B. destruct s; lia.
Qed.

(** The signed, scaled value. *)
Definition sval (d : spec_float) : Z :=
  match d with S754_finite s m e => if s then - scaled (Z.pos m) e else scaled (Z.pos m) e | _ => 0 end.

Lemma within_sval a b d : 0 ≤ a → 0 ≤ b → within a b d → - (a * 2 ^ K) ≤ sval d ≤ b * 2 ^ K.
Proof.
  intros Ha Hb. pose proof (pow2_pos K ltac:(done)) as HK.
  assert (0 ≤ a * 2 ^ K) by (apply Z.mul_nonneg_nonneg; lia).
  assert (0 ≤ b * 2 ^ K) by (apply Z.mul_nonneg_nonneg; lia).
  destruct d as [s| | |s m e]; simpl; try lia. intros [He Hs].
  assert (0 ≤ scaled (Z.pos m) e) by (unfold scaled; apply Z.mul_nonneg_nonneg; [lia|]; apply Z.lt_le_incl, pow2_pos; unfold K; lia).
  destruct s; lia.
Qed.

Lemma aligned s m e e' :
  - K ≤ e' ≤ e →
  scaled (cond_Zopp s (Z.pos (shl_align m e e').1)) e' = sval (S754_finite s m e).
Proof.
  intros He. destruct (shl_align_exact m e e') as [Hs H2]; [lia|lia|]. rewrite H2 in Hs.
  replace (Z.min e e') with e' in Hs by lia. simpl. rewrite <-Hs. destruct s; simpl; [|done]. unfold scaled. lia.
Qed.

Lemma add_within j1 j2 a b a' b' x y :
  0 ≤ a → 0 ≤ b → 0 ≤ a' → 0 ≤ b' → grid j1 (a + a') → grid j2 (b + b') →
  within a b x → within a' b' y → within (a + a') (b + b') (dadd x y).
Proof.
  intros ???? Ha Hb Hx Hy. pose proof (within_sval a b x ltac:(done) ltac:(done) Hx) as Hvx.
  pose proof (within_sval a' b' y ltac:(done) ltac:(done) Hy) as Hvy.
  destruct x as [sx| | |sx mx ex], y as [sy| | |sy my ey]; try done.
  - by destruct sx, sy.
  - eapply within_weaken; [..|exact Hy]; lia.
  - eapply within_weaken; [..|exact Hx]; lia.
  - destruct Hx as [Hex _], Hy as [Hey _]. unfold dadd, SFadd. cbv zeta. apply (normalize_within j1 j2); [done|done|lia|].
    assert (Hsum : scaled (cond_Zopp sx (Z.pos (shl_align mx ex (Z.min ex ey)).1) +
        cond_Zopp sy (Z.pos (shl_align my ey (Z.min ex ey)).1)) (Z.min ex ey) =
      sval (S754_finite sx mx ex) + sval (S754_finite sy my ey)).
    { rewrite <-(aligned sx mx ex (Z.min ex ey)), <-(aligned sy my ey (Z.min ex ey)) by (unfold K; lia). unfold scaled. lia. }
    rewrite Hsum. lia.
Qed.

(** The exponent of a quotient that is at most [B]. *)
Lemma div_digits j B m1 e1 m2 e2 :
  grid j B → -1074 ≤ e1 → -1074 ≤ e2 → scaled (Z.pos m1) e1 ≤ B * scaled (Z.pos m2) e2 →
  Zdigits2 (Z.pos m1) + e1 - (Zdigits2 (Z.pos m2) + e2) ≤ 53 + j.
Proof.
  intros (Hj0 & HB & _) He1 He2 Hle. unfold scaled in Hle. simpl Zdigits2.
  destruct (digits2_bounds m1) as [H1 _], (digits2_bounds m2) as [_ H2].
  set (d1 := Z.pos (digits2_pos m1)) in *. set (d2 := Z.pos (digits2_pos m2)) in *.
  assert (Hc : 2 ^ (d1 - 1 + (e1 + K)) < 2 ^ (53 + j + (d2 + (e2 + K)))).
  { rewrite (Z.pow_add_r 2 _ (e1 + K)), (Z.pow_add_r 2 (53 + j)), (Z.pow_add_r 2 d2) by (unfold K; lia).
    pose proof (pow2_pos (e1 + K) ltac:(unfold K; lia)). pose proof (pow2_pos (e2 + K) ltac:(unfold K; lia)).
    eapply Z.le_lt_trans; [apply Z.mul_le_mono_nonneg_r; [lia|exact H1]|]. eapply Z.le_lt_trans; [exact Hle|].
    apply Z.mul_lt_mono_nonneg; [lia|lia|apply Z.mul_nonneg_nonneg; lia|apply Z.mul_lt_mono_pos_r; lia]. }
  apply Z.pow_lt_mono_r_iff in Hc; [lia|lia|unfold K; lia].
Qed.

(** The quotient before rounding: its integer part at the chosen exponent, and whether it is
    exact. *)
Lemma div_core m1 e1 m2 e2 q e' l :
  -1074 ≤ e1 → -1074 ≤ e2 → SFdiv_core_binary 53 1024 (Z.pos m1) e1 (Z.pos m2) e2 = (q, e', l) →
  ∃ r, e' = Z.min (fexp 53 1024 (Zdigits2 (Z.pos m1) + e1 - (Zdigits2 (Z.pos m2) + e2))) (e1 - e2) ∧
    Z.pos m1 * 2 ^ (e1 - e2 - e') = Z.pos m2 * q + r ∧ 0 ≤ r < Z.pos m2 ∧
    shr_m (shr_record_of_loc q l) = q ∧ exact (shr_record_of_loc q l) = (r =? 0).
Proof.
  intros He1 He2. unfold SFdiv_core_binary. cbv zeta.
  set (ez := Z.min _ (e1 - e2)). assert (Hez : ez ≤ e1 - e2) by (unfold ez; lia).
  replace (match e1 - e2 - ez with 0 => Z.pos m1 | Z.pos _ => Z.pos m1 .<< (e1 - e2 - ez) | Z.neg _ => 0 end)
    with (Z.pos m1 * 2 ^ (e1 - e2 - ez)).
  2:{ destruct (e1 - e2 - ez) eqn:E; [lia|by rewrite Z.shiftl_mul_pow2 by lia|lia]. }
  pose proof (Z_div_mod (Z.pos m1 * 2 ^ (e1 - e2 - ez)) (Z.pos m2) ltac:(lia)) as Hdm.
  destruct (Z.div_eucl _ (Z.pos m2)) as [q0 r0]. destruct Hdm as [Hdm Hr]. intros [= <- <- <-].
  exists r0. split; [done|]. split; [done|]. split; [done|].
  unfold new_location, new_location_even, new_location_odd. destruct (Z.even _), (r0 =? 0); simpl; try done; by case_match.
Qed.

Lemma div_below j B m1 e1 m2 e2 q e' l :
  grid j B → -1074 ≤ e1 → -1074 ≤ e2 ≤ 1000 → scaled (Z.pos m1) e1 ≤ B * scaled (Z.pos m2) e2 →
  SFdiv_core_binary 53 1024 (Z.pos m1) e1 (Z.pos m2) e2 = (q, e', l) →
  -2074 ≤ e' ∧ below B (shr_record_of_loc q l) e'.
Proof.
  intros HB He1 He2 Hle E. destruct (div_core _ _ _ _ _ _ _ He1 (proj1 He2) E) as (r & Ee & Hdm & Hr & E1 & E2).
  pose proof (div_digits j B m1 e1 m2 e2 HB He1 (proj1 He2) Hle) as Hd.
  assert (Hez : -2074 ≤ e' ∧ e' ≤ e1 - e2 ∧ e' ≤ j) by (unfold fexp, emin in Ee; destruct HB; lia). clear Ee E.
  split; [lia|]. destruct (grid_unit j B e' HB) as [u Hu]; [unfold K; lia|].
  assert (Hm' : Z.pos m1 * 2 ^ (e1 - e2 - e') ≤ u * Z.pos m2).
  { apply (scaled_le _ _ (e' + e2)); [unfold K; lia|].
    rewrite <-scaled_shift by (unfold K; lia). replace (e' + e2 + (e1 - e2 - e')) with e1 by lia.
    etrans; [exact Hle|]. apply Z.eq_le_incl. apply (Z.mul_reg_r _ _ (2 ^ K)); [apply Z.pow_nonzero; unfold K; lia|].
    unfold scaled in *. replace (B * (Z.pos m2 * 2 ^ (e2 + K)) * 2 ^ K) with (B * 2 ^ K * (Z.pos m2 * 2 ^ (e2 + K))) by lia.
    rewrite Hu. replace (u * Z.pos m2 * 2 ^ (e' + e2 + K) * 2 ^ K) with (u * Z.pos m2 * (2 ^ (e' + e2 + K) * 2 ^ K)) by lia.
    rewrite <-Z.pow_add_r by (unfold K; lia). replace (e' + e2 + K + K) with ((e' + K) + (e2 + K)) by lia.
    rewrite (Z.pow_add_r 2 (e' + K) (e2 + K)) by (unfold K; lia). lia. }
  unfold below. rewrite E1, E2, Hu. split; [|apply scaled_le; [unfold K; lia|]].
  - assert (0 ≤ Z.pos m1 * 2 ^ (e1 - e2 - e')) by (apply Z.mul_nonneg_nonneg; [lia|]; apply Z.lt_le_incl, pow2_pos; lia). nia.
  - destruct (Z.eqb_spec r 0); nia.
Qed.

Lemma div_within j1 j2 a b x n :
  grid j1 a → grid j2 b → 0 < n < 2 ^ 53 → within (a * n) (b * n) x → within a b (ddiv x (of_int n)).
Proof.
  intros Ha Hb Hn Hx. destruct (of_int_pos n) as (m & e & -> & He & Hm); [lia|].
  destruct x as [s| | |s mx ex]; try done. destruct Hx as [Hex Hx]. unfold ddiv, SFdiv.
  destruct (SFdiv_core_binary 53 1024 (Z.pos mx) ex (Z.pos m) e) as [[q e'] l] eqn:E.
  set (j := if s then j1 else j2). set (B := if s then a else b).
  assert (HB : grid j B) by (by destruct s).
  destruct (div_below j B mx ex m e q e' l HB Hex) as [He' Hbl]; [lia| |done|].
  { rewrite (of_int_scaled n (Z.pos m) e) by done. unfold B. destruct s; lia. }
  apply (round_within j B); [done|unfold K; lia|done|by destruct s].
Qed.

(** ** The running average of bounded samples *)

Lemma grid_40 n : 0 ≤ n < 2 ^ 32 → grid 0 (40 * n).
Proof. intros. split; [lia|]. split; [lia|]. exists (40 * n). lia. Qed.

Lemma grid_0 : grid 0 0.
Proof. split; [lia|]. split; [lia|]. by exists 0. Qed.

Lemma running_average avg k p :
  within 0 40 avg → 0 ≤ k < 2 ^ 31 → 0 ≤ p ≤ 40 →
  within 0 40 (ddiv (dadd (dmul avg (of_int k)) (of_int p)) (of_int (k + 1))).
Proof.
  intros Ha Hk Hp. apply (div_within 0 0); [apply grid_0|apply (grid_40 1); lia|lia|].
  replace (0 * (k + 1)) with (0 * k + 0) by lia. replace (40 * (k + 1)) with (40 * k + 40) by lia.
  apply (add_within 0 0); try lia.
  - apply grid_0.
  - replace (40 * k + 40) with (40 * (k + 1)) by lia. apply grid_40. lia.
  - apply (mul_within 0 0); [apply grid_0|apply grid_40|..|done]; lia.
  - apply of_int_within; lia.
Qed.

(** Truncation respects an integer bound. *)
Lemma trunc_bounds m e B :
  -1074 ≤ e → scaled (Z.pos m) e ≤ B * 2 ^ K → 0 ≤ (if 0 <=? e then Z.pos m * 2 ^ e else Z.pos m / 2 ^ (- e)) ≤ B.
Proof.
  intros He HB. destruct (Z.leb_spec 0 e).
  - split; [apply Z.mul_nonneg_nonneg; [lia|]; by apply Z.lt_le_incl, pow2_pos|].
    unfold scaled in HB. rewrite Z.pow_add_r, Z.mul_assoc in HB by (unfold K; lia).
    apply Z.mul_le_mono_pos_r in HB; [done|]. by apply pow2_pos.
  - split; [apply Z.div_pos; [lia|]; apply pow2_pos; lia|].
    apply Z.div_le_upper_bound; [apply pow2_pos; lia|].
    apply (Z.mul_le_mono_pos_r _ _ (2 ^ (e + K))); [apply pow2_pos; unfold K; lia|].
    replace (2 ^ (- e) * B * 2 ^ (e + K)) with (B * (2 ^ (- e) * 2 ^ (e + K))) by lia.
    rewrite <-Z.pow_add_r by (unfold K; lia). by replace (- e + (e + K)) with K by lia.
Qed.

(** A [double] in a range of [int] values truncates to one of them. *)
Lemma within_to_int a b d : 0 ≤ a ≤ 2 ^ 31 → 0 ≤ b < 2 ^ 31 → within a b d → ∃ v, to_int d = Some v ∧ - a ≤ v ≤ b.
Proof.
  intros Ha Hb. destruct d as [s| | |s m e]; try done; [exists 0; split; [done|lia]|]. intros [He Hs].
  pose proof (trunc_bounds m e _ He Hs) as Ht.
  unfold to_int, trunc. set (v := if 0 <=? e then _ else _) in *. clearbody v. cbn [mbind option_bind].
  exists (if s then - v else v). destruct s.
  - rewrite (proj2 (Z.leb_le (- 2 ^ 31) (- v))), (proj2 (Z.ltb_lt (- v) (2 ^ 31))) by lia. split; [done|lia].
  - rewrite (proj2 (Z.leb_le (- 2 ^ 31) v)), (proj2 (Z.ltb_lt v (2 ^ 31))) by lia. split; [done|lia].
Qed.
