(* ===== verification/DoublePos.v ===== *)
(** Positive [double] values between a power of two and an upper bound: sums and quotients
    stay away from zero. *)

From Stdlib Require Import ZArith Lia Znumtheory.
From Stdlib Require Import Floats.SpecFloat.
From stdpp Require Import base tactics option numbers.
From S2P Require Import Prelude Double DoubleRange.

(** [2 ^ t ≤ d ≤ B]. *)
Definition spans (t B : Z) (d : spec_float) : Prop :=
  match d with
  | S754_finite false m e => -1074 ≤ e ∧ 2 ^ (t + K) ≤ scaled (Z.pos m) e ≤ B * 2 ^ K
  | _ => False
  end.

Lemma between_within t B d : spans t B d → within 0 B d.
Proof. destruct d as [s| | |[] m e]; try done. simpl. lia. Qed.

Lemma between_weaken t B t' B' d : - K ≤ t' ≤ t → B ≤ B' → spans t B d → spans t' B' d.
Proof.
  intros Ht HB. destruct d as [s| | |[] m e]; try done. simpl. intros (He & Hlo & Hhi). split; [done|]. split.
  - etrans; [|exact Hlo]. apply Z.pow_le_mono_r; lia.
  - etrans; [exact Hhi|]. apply Z.mul_le_mono_nonneg_r; [|lia]. apply Z.lt_le_incl, pow2_pos. done.
Qed.

(** An upper bound limits the exponent. *)
Lemma bounded_exponent j B m e : grid j B → - K ≤ e → scaled (Z.pos m) e ≤ B * 2 ^ K → e < 53 + j.
Proof.
  intros HB He Hle. pose proof (digits_small (Z.pos m) e j B ltac:(lia) He HB Hle) as H. simpl in H. lia.
Qed.

(** ** Lower bounds through rounding *)

Lemma shr_1_m r : 0 ≤ shr_m r → shr_m (shr_1 r) = shr_m r / 2.
Proof.
  intros. destruct r as [m rr ss]. simpl in *. rewrite <-Z.div2_div. by destruct m as [|[p|p|]|p].
Qed.

Lemma shr_iter_m p r : 0 ≤ shr_m r → shr_m (SpecFloat.iter_pos shr_1 p r) = shr_m r / 2 ^ Z.pos p.
Proof.
  revert r. induction p as [p IH|p IH|]; intros r Hr; simpl SpecFloat.iter_pos.
  - pose proof (pow2_pos (Z.pos p) ltac:(lia)). assert (0 ≤ shr_m (shr_1 r)) by (rewrite shr_1_m by done; apply Z.div_pos; lia).
    rewrite IH; [|rewrite IH by done; apply Z.div_pos; lia].
    rewrite IH, shr_1_m, !Z.div_div by lia. f_equal.
    replace (Z.pos p~1) with (1 + Z.pos p + Z.pos p) by lia. rewrite !Z.pow_add_r by lia. lia.
  - pose proof (pow2_pos (Z.pos p) ltac:(lia)). rewrite IH; [|rewrite IH by done; apply Z.div_pos; lia].
    rewrite IH, Z.div_div by lia. f_equal. replace (Z.pos p~0) with (Z.pos p + Z.pos p) by lia. rewrite Z.pow_add_r; lia.
  - by apply shr_1_m.
Qed.

(** Dropping low bits keeps a power of two below the number. *)
Lemma shr_fexp_low t m l e :
  -1074 ≤ t → 0 < m → - K ≤ e → 2 ^ (t + K) ≤ scaled m e →
  let '(r, e') := shr_fexp 53 1024 m e l in 2 ^ (t + K) ≤ scaled (shr_m r) e' ∧ - K ≤ e'.
Proof.
  intros Ht Hm He Hlo. unfold shr_fexp, fexp, emin. destruct m as [|p|p]; [lia| |lia]. simpl Zdigits2.
  assert (E : shr_m (shr_record_of_loc (Z.pos p) l) = Z.pos p) by (by destruct l as [|[]]).
  destruct (digits2_bounds p) as [Hd _]. set (d := Z.pos (digits2_pos p)) in *.
  set (x := Z.max _ _) in *. destruct (x - e) as [|k|k] eqn:Ek; simpl; [by rewrite E| |by rewrite E].
  rewrite shr_iter_m, E by (rewrite E; lia). split; [|lia].
  replace (e + Z.pos k) with x by lia. pose proof (pow2_pos (Z.pos k) ltac:(lia)).
  enough (H1 : 2 ^ Z.max 0 (t - x) ≤ Z.pos p / 2 ^ Z.pos k).
  { etrans; [|apply scaled_le; [|exact H1]]; [|unfold K; lia]. unfold scaled. rewrite <-Z.pow_add_r by (unfold K; lia).
    apply Z.pow_le_mono_r; lia. }
  apply Z.div_le_lower_bound; [lia|]. rewrite <-Z.pow_add_r by lia. destruct (Z.le_gt_cases x t).
  - apply (scaled_le _ _ e); [done|]. etrans; [|exact Hlo]. unfold scaled. rewrite <-Z.pow_add_r by lia.
    apply Z.pow_le_mono_r; lia.
  - etrans; [|exact Hd]. apply Z.pow_le_mono_r; lia.
Qed.

Lemma round_between t j B m e l :
  -1074 ≤ t → grid j B → - K ≤ e → 0 < m → below B (shr_record_of_loc m l) e → 2 ^ (t + K) ≤ scaled m e →
  spans t B (binary_round_aux 53 1024 false m e l).
Proof.
  intros Ht HB He Hm Hb Hlo. pose proof (round_within j B false m e l HB He Hb 0 B eq_refl) as Hw. revert Hw.
  unfold binary_round_aux. pose proof (shr_fexp_low t m l e Ht Hm He Hlo) as H1.
  destruct (shr_fexp 53 1024 m e l) as [r1 e1]. destruct H1 as [H1 He1].
  set (m2 := round_nearest_even _ _).
  assert (Hm2 : shr_m r1 ≤ m2) by (unfold m2; destruct r1 as [m1 [] []]; simpl; try case_match; lia).
  pose proof (pow2_pos (t + K) ltac:(unfold K; lia)).
  assert (H2 : 2 ^ (t + K) ≤ scaled m2 e1) by (etrans; [exact H1|]; by apply scaled_le).
  assert (Hp : 0 < m2) by (unfold scaled in H2; pose proof (pow2_pos (e1 + K) ltac:(lia)); nia).
  pose proof (shr_fexp_low t m2 loc_Exact e1 Ht Hp He1 H2) as H3.
  destruct (shr_fexp 53 1024 m2 e1 loc_Exact) as [r3 e3]. destruct H3 as [H3 He3].
  destruct (shr_m r3) as [|m3|m3] eqn:E3; [unfold scaled in H3; simpl in H3; lia| |].
  - destruct (e3 <=? 1024 - 53); [|done]. simpl. intros [? ?]. by split_and!.
  - unfold scaled in H3. pose proof (pow2_pos (e3 + K) ltac:(lia)). nia.
Qed.

Lemma normalize_between t j B z e :
  -1074 ≤ t → grid j B → - 3000 ≤ e → 2 ^ (t + K) ≤ scaled z e ≤ B * 2 ^ K →
  spans t B (binary_normalize 53 1024 z e false).
Proof.
  intros Ht HB He [Hlo Hhi]. pose proof (pow2_pos (t + K) ltac:(unfold K; lia)). pose proof (pow2_pos (e + K) ltac:(unfold K; lia)).
  destruct z as [|p|p]; [unfold scaled in Hlo; simpl in Hlo; lia| |unfold scaled in Hlo; nia].
  unfold binary_normalize, binary_round.
  destruct (shl_align p e (fexp 53 1024 (Z.pos (digits2_pos p) + e))) as [m' e'] eqn:E.
  pose proof (shl_align_exact p e (fexp 53 1024 (Z.pos (digits2_pos p) + e))) as Hx.
  rewrite E in Hx. simpl in Hx. unfold fexp, emin in Hx. destruct Hx as [Hs He']; [unfold K; lia..|].
  apply (round_between t j); [done|done|unfold K; lia|lia| |by rewrite Hs]. split; [simpl; lia|].
  change (scaled (Z.pos m' + 0) e' ≤ B * 2 ^ K). by rewrite Z.add_0_r, Hs.
Qed.

(** ** Operations *)

Lemma of_int_between n : 1 ≤ n < 2 ^ 53 → spans 0 n (of_int n).
Proof.
  intros. apply (normalize_between 0 0 n); [lia| |lia|].
  - split; [lia|]. split; [lia|]. exists n. lia.
  - unfold scaled. rewrite !Z.add_0_l. pose proof (pow2_pos K ltac:(done)). nia.
Qed.

Lemma add_between t j B B' x y :
  -1074 ≤ t → 0 ≤ B → grid j (B + B') → within 0 B x → spans t B' y → (x = dzero ∨ ∃ t, spans t B x) →
  spans t (B + B') (dadd x y).
Proof.
  intros Ht HB HG Hx Hy [->|[tx Hx']].
  { destruct y as [s| | |[] my ey]; try done. eapply between_weaken; [..|exact Hy]; [unfold K|]; lia. }
  destruct x as [s| | |[] mx ex]; try done. destruct y as [s| | |[] my ey]; try done.
  destruct Hx' as (Hex & Hlx & Hhx), Hy as (Hey & Hly & Hhy). unfold dadd, SFadd. cbv zeta.
  apply (normalize_between t j); [done|done|lia|].
  assert (Hsum : scaled (cond_Zopp false (Z.pos (shl_align mx ex (Z.min ex ey)).1) +
      cond_Zopp false (Z.pos (shl_align my ey (Z.min ex ey)).1)) (Z.min ex ey) =
    scaled (Z.pos mx) ex + scaled (Z.pos my) ey).
  { transitivity (sval (S754_finite false mx ex) + sval (S754_finite false my ey)); [|done].
    rewrite <-(aligned false mx ex (Z.min ex ey)), <-(aligned false my ey (Z.min ex ey)) by (unfold K; lia).
    unfold scaled. lia. }
  assert (0 ≤ scaled (Z.pos mx) ex) by (unfold scaled; pose proof (pow2_pos (ex + K) ltac:(unfold K; lia)); nia).
  rewrite Hsum. lia.
Qed.

Lemma div_between t j B mx ex my ey :
  -1074 ≤ t → grid j B → -1074 ≤ ex → -1074 ≤ ey ≤ 1000 →
  scaled (Z.pos mx) ex ≤ B * scaled (Z.pos my) ey →
  2 ^ (t + K) * scaled (Z.pos my) ey ≤ scaled (Z.pos mx) ex * 2 ^ K →
  spans t B (ddiv (S754_finite false mx ex) (S754_finite false my ey)).
Proof.
  intros Ht HB Hex Hey Hhi Hlo. unfold ddiv, SFdiv.
  destruct (SFdiv_core_binary 53 1024 (Z.pos mx) ex (Z.pos my) ey) as [[q e'] l] eqn:E.
  destruct (div_below j B mx ex my ey q e' l HB Hex Hey Hhi E) as [He' Hbl].
  destruct (div_core _ _ _ _ _ _ _ Hex (proj1 Hey) E) as (r & Ee & Hdm & Hr & E1 & _).
  assert (Hq : 2 ^ Z.max 0 (t - e') ≤ q).
  { enough (2 ^ Z.max 0 (t - e') * Z.pos my ≤ Z.pos mx * 2 ^ (ex - ey - e')) by nia.
    destruct (Z.le_gt_cases e' t).
    - rewrite Z.max_r by lia. apply (scaled_le _ _ (e' + ey)); [unfold K; lia|].
      rewrite <-(scaled_shift (Z.pos mx)) by (unfold K; lia). replace (e' + ey + (ex - ey - e')) with ex by lia.
      apply (Z.mul_le_mono_pos_r _ _ (2 ^ K)); [by apply pow2_pos|]. etrans; [|exact Hlo]. apply Z.eq_le_incl.
      unfold scaled.
      transitivity (Z.pos my * (2 ^ (t - e') * (2 ^ (e' + ey + K) * 2 ^ K))); [lia|].
      transitivity (Z.pos my * (2 ^ (t + K) * 2 ^ (ey + K))); [|lia].
      rewrite <-!Z.pow_add_r by (unfold K; lia). do 2 f_equal. lia.
    - rewrite Z.max_l by lia. destruct (digits2_bounds mx) as [H1 _], (digits2_bounds my) as [_ H2].
      unfold fexp, emin in Ee. simpl Zdigits2 in Ee.
      set (d1 := Z.pos (digits2_pos mx)) in *. set (d2 := Z.pos (digits2_pos my)) in *.
      transitivity (2 ^ d2); [lia|]. transitivity (2 ^ (d1 - 1 + (ex - ey - e'))); [apply Z.pow_le_mono_r; lia|].
      rewrite Z.pow_add_r by lia. apply Z.mul_le_mono_nonneg_r; [|done]. apply Z.lt_le_incl, pow2_pos. lia. }
  pose proof (pow2_pos (Z.max 0 (t - e')) ltac:(lia)).
  change (binary_round_aux 53 1024 (xorb false false) q e' l) with (binary_round_aux 53 1024 false q e' l).
  apply (round_between t j); [done|done|unfold K; lia|lia|done|].
  etrans; [|apply scaled_le; [|exact Hq]]; [|unfold K; lia]. unfold scaled. rewrite <-Z.pow_add_r by (unfold K; lia).
  apply Z.pow_le_mono_r; lia.
Qed.
