(* ===== verification/Rob.v ===== *)
(** The reorder buffer (trace_analyzer/rob.c), the dependency matrix (dep_mat.c) and the
    functional units (fu.c). *)

From Stdlib Require Import ZArith Lia.
From stdpp Require Import base tactics option list gmap.
From Stdlib Require Import Floats.SpecFloat.
From S2P Require Import Prelude Double Inst.

(** ** Reorder buffer *)

Record ROB := MkROB {
  entries : list (option ptr);   (* ROBEntry[60] *)
  start_idx : Z;
  end_idx : Z;
  rob_count : Z;
  rob_cap : Z;
}.

#[export] Instance ROB_settable : Settable ROB := λ r,
  MkROB (entries r) (start_idx r) (end_idx r) (rob_count r) (rob_cap r).

(** [rob_init] leaves the entries as they are. *)
Definition rob_init (rob : ROB) (_size : Z) : ROB :=
  rob <| start_idx := 0 |> <| end_idx := 0 |> <| rob_count := 0 |> <| rob_cap := _size |>.

(** [x % capacity]: a division by zero when the capacity is 0. *)
Definition ring (rob : ROB) (x : Z) : option Z :=
  if rob_cap rob =? 0 then None else Some (Z.rem x (rob_cap rob)).

Definition rob_insert_inst (rob : ROB) (insts : gmap ptr Inst) (inst : ptr)
  : option (ROB * gmap ptr Inst) :=
  es ← arr_set (entries rob) (end_idx rob) (Some inst);
  insts ← upd insts inst (λ i, i <| rob_idx := end_idx rob |>);
  e ← ring rob (end_idx rob + 1);
  Some (rob <| entries := es |> <| end_idx := e |> <| rob_count := rob_count rob + 1 |>, insts).

Definition rob_remove_inst (rob : ROB) : option ROB :=
  s ← ring rob (start_idx rob + 1);
  Some (rob <| start_idx := s |> <| rob_count := rob_count rob - 1 |>).

(** A null entry is returned like any other; [None] is an index outside the array. *)
Definition rob_get_inst (rob : ROB) (idx : Z) : option (option ptr) := arr_get (entries rob) idx.

Definition rob_get_oldest_inst (rob : ROB) : option (option ptr) :=
  arr_get (entries rob) (start_idx rob).

Definition is_rob_full (rob : ROB) : bool := rob_count rob =? rob_cap rob.
Definition is_rob_empty (rob : ROB) : bool := rob_count rob =? 0.

(** ** Dependency matrix *)

Definition dep_t : Type := list (list bool).   (* bool[60][60] *)

Definition in_order (start x y : Z) : bool :=
  if (start <=? x) && (start <=? y) && (x <? y) then true
  else if (x <? start) && (y <? start) && (x <? y) then true
  else if (start <=? y) && (x <? start) then true
  else false.

Definition is_dependent (rob : ROB) (m : dep_t) (inst_a inst_b : Inst) : option bool :=
  let idx_a := rob_idx inst_a in
  let idx_b := rob_idx inst_b in
  if in_order (start_idx rob) idx_a idx_b then
    row ← arr_get m idx_b; arr_get row idx_a
  else Some false.

Definition set_dependency (m : dep_t) (inst_a inst_b : Inst) : option dep_t :=
  row ← arr_get m (rob_idx inst_b);
  row ← arr_set row (rob_idx inst_a) true;
  arr_set m (rob_idx inst_b) row.

(** [memset (row, 0, capacity)], which must stay inside the row. *)
Definition clear_row (n : Z) (row : list bool) : option (list bool) :=
  if (n <? 0) || (Z.of_nat (length row) <? n) then None
  else Some (replicate (Z.to_nat n) false ++ drop (Z.to_nat n) row).

Definition clean_dependency (rob : ROB) (m : dep_t) (inst_b : Inst) : option dep_t :=
  row ← arr_get m (rob_idx inst_b);
  row ← clear_row (rob_cap rob) row;
  arr_set m (rob_idx inst_b) row.

(** ** Functional units *)

Inductive FUType :=
  | SimpleALU | ComplexALU | FPUnit | LoadUnit | StoreUnit | BranchUnit | EtcUnit.

#[export] Instance FUType_eq_dec : EqDecision FUType.
Proof. solve_decision. Defined.

Definition fu_num (t : FUType) : Z :=
  match t with
  | SimpleALU => 0 | ComplexALU => 1 | FPUnit => 2 | LoadUnit => 3 | StoreUnit => 4
  | BranchUnit => 5 | EtcUnit => 6
  end.

Record FU := MkFU {
  fu_type : FUType;
  fu_capacity : Z;
  num_issue : Z;
  num_active : Z;
  num_stage : Z;
  fu_num_access : Z;
  num_available : Z;
  num_use : Z;
}.

#[export] Instance FU_settable : Settable FU := λ f,
  MkFU (fu_type f) (fu_capacity f) (num_issue f) (num_active f) (num_stage f) (fu_num_access f)
    (num_available f) (num_use f).

Definition init_FU (type : FUType) (capacity num_stage : Z) : FU :=
  {| fu_type := type; fu_capacity := capacity; num_active := 0; num_issue := 0;
     fu_num_access := 0; num_available := 0; num_stage := num_stage; num_use := 0 |}.

Definition get_available_rate_FU (fu : FU) : spec_float :=
  ddiv (of_int (num_available fu)) (of_int (fu_num_access fu)).

Definition release_FU (fu : FU) : FU := fu <| num_active := num_active fu - 1 |>.

Definition reset_FU (fu : FU) : FU :=
  fu <| num_active := 0 |> <| num_issue := 0 |> <| fu_num_access := 0 |> <| num_available := 0 |>
     <| num_use := 0 |>.

Definition reflesh_FU (fu : FU) : FU := fu <| num_issue := 0 |>.

Definition try_FU (fu : FU) : bool * FU :=
  let fu := fu <| fu_num_access := fu_num_access fu + 1 |> in
  if (num_issue fu <? fu_capacity fu) && (num_active fu <? num_stage fu) then
    (true, fu <| num_issue := num_issue fu + 1 |> <| num_active := num_active fu + 1 |>
              <| num_available := num_available fu + 1 |> <| num_use := num_use fu + 1 |>)
  else (false, fu).
