(* ===== verification/TraceAnalyzer.v ===== *)
(** The out-of-order pipeline of trace_analyzer/trace_analyzer.c: a trace is dispatched into
    the reorder buffer, issued to functional units, executed, written back and committed,
    cycle by cycle. *)

From Stdlib Require Import ZArith Lia String.
From Stdlib Require Import Floats.SpecFloat.
From stdpp Require Import base tactics functions option list gmap.
From S2P Require Import Prelude Double Config CacheSim InstQueue Inst Rob.

(** ** State: the static variables of trace_analyzer.c and the heap *)

Record TA := MkTA {
  (* heap *)
  qm : QMem;
  insts : gmap ptr Inst;
  ibrk : ptr;
  (* reorder buffer, dependency matrix, functional units *)
  rob : ROB;
  dep_mat : dep_t;
  fu : list FU;
  (* configuration *)
  dispatch_width : Z;
  issue_width : Z;
  wb_width : Z;
  commit_width : Z;
  rob_capacity : Z;
  latency_l1_hit : Z;
  latency_l1_miss : Z;
  latency_l2_miss : Z;
  (* statistics *)
  first_issue_cycle : Z;
  rob_full_event : Z;
  rob_access_event : Z;
  iq_full_event : Z;
  ldq_access_event : Z;
  ldq_full_event : Z;
  stq_full_event : Z;
  dl1_outstanding_request : Z;
  ul2_outstanding_request : Z;
  num_dispatched_insts_cycle : Z;
  num_issued_insts_cycle : Z;
  num_executed_insts_cycle : Z;
  num_committed_insts_cycle : Z;
  num_inst_type : list Z;
  num_fetched_insts : Z;
  num_issued_insts : Z;
  num_committed_insts : Z;
  num_dispatched_insts : Z;
  num_mispred_insts : Z;
  avg_mispred_penalty : spec_float;
  cur_cycle : Z;
  num_il1_miss : Z;
  num_dl1_miss : Z;
  num_l2_miss : Z;
  reserved_inst : option ptr;
  inst_cache_miss_penalty : Z;
  mispred_penalty : Z;
}.

#[export] Instance TA_settable : Settable TA := λ s,
  MkTA (qm s) (insts s) (ibrk s) (rob s) (dep_mat s) (fu s) (dispatch_width s) (issue_width s)
    (wb_width s) (commit_width s) (rob_capacity s) (latency_l1_hit s) (latency_l1_miss s)
    (latency_l2_miss s) (first_issue_cycle s) (rob_full_event s) (rob_access_event s)
    (iq_full_event s) (ldq_access_event s) (ldq_full_event s) (stq_full_event s)
    (dl1_outstanding_request s) (ul2_outstanding_request s) (num_dispatched_insts_cycle s)
    (num_issued_insts_cycle s) (num_executed_insts_cycle s) (num_committed_insts_cycle s)
    (num_inst_type s) (num_fetched_insts s) (num_issued_insts s) (num_committed_insts s)
    (num_dispatched_insts s) (num_mispred_insts s) (avg_mispred_penalty s) (cur_cycle s)
    (num_il1_miss s) (num_dl1_miss s) (num_l2_miss s) (reserved_inst s)
    (inst_cache_miss_penalty s) (mispred_penalty s).

(** ** Constants and tables *)

Definition default_wb_latency : Z := 2.
Definition front_pipeline_depth : Z := 12.
Definition NUM_INST_TYPE : Z := 13.
Definition NUM_FU : Z := 7.

(** The contents of [inst_type_fu_type_map] and [inst_type]; entries that are not assigned
    are zero. *)
Definition inst_type_fu_type_map (t : InstTypeName) : FUType :=
  match t with
  | IntAlu => SimpleALU
  | IntMult => ComplexALU
  | IntDiv => ComplexALU
  | SimdFloatAdd => FPUnit
  | SimdFloatMult => FPUnit
  | SimdFloatMultAcc => FPUnit
  | MemRead => LoadUnit
  | MemWrite => StoreUnit
  | Branch => BranchUnit
  | Syscall => EtcUnit
  | Pop | Push | Unsupported => SimpleALU
  end.

Definition inst_type (t : InstTypeName) : InstType :=
  match t with
  | IntAlu => init_inst_type IntAlu 1 true
  | IntMult => init_inst_type IntMult 3 true
  | IntDiv => init_inst_type IntDiv 12 true
  | SimdFloatAdd => init_inst_type SimdFloatAdd 10 true
  | SimdFloatMult => init_inst_type SimdFloatMult 12 true
  | SimdFloatMultAcc => init_inst_type SimdFloatMultAcc 20 true
  | MemRead => init_inst_type MemRead 2 true
  | MemWrite => init_inst_type MemWrite 3 true
  | Branch => init_inst_type Branch 1 true
  | Syscall => init_inst_type Syscall 1 true
  | Pop | Push | Unsupported => init_inst_type IntAlu 0 false
  end.

(** ** Access to the heap *)

Definition get_inst (s : TA) (p : ptr) : option Inst := insts s !! p.

Definition upd_inst (s : TA) (p : ptr) (f : Inst → Inst) : option TA :=
  h ← upd (insts s) p f; Some (s <| insts := h |>).

Definition free_inst (s : TA) (p : ptr) : option TA :=
  _ ← insts s !! p; Some (s <| insts := delete p (insts s) |>).

(** [malloc (sizeof (Inst))]; the memory holds [junk]. *)
Definition malloc_inst (junk : Inst) (s : TA) : TA * ptr :=
  (s <| insts := <[ibrk s := junk]> (insts s) |> <| ibrk := Pos.succ (ibrk s) |>, ibrk s).

Definition queue (s : TA) (q : qid) : InstQueue := queues (qm s) q.

(** ** Initialisation *)

Definition init_all_queues (perfmodel : perfmodel_config) (s : TA) : TA :=
  let s := s <| rob := rob_init (rob s) (rob_capacity s) |> in
  let m := init_inst_queue (qm s) IQ (iq_size (core perfmodel)) in
  let m := init_inst_queue m LDQ 16 in
  let m := init_inst_queue m STQ 16 in
  let m := init_inst_queue m FUB 0 in
  s <| qm := m |>.

Definition init_all_FUs (perfmodel : perfmodel_config) (s : TA) : TA :=
  let n := numfu perfmodel in
  s <| fu := [init_FU SimpleALU (numfu_intalu n) (numfu_intalu n);
              init_FU ComplexALU (numfu_intmultdiv n) (numfu_intmultdiv n * 3);
              init_FU FPUnit 2 10;
              init_FU LoadUnit 1 1;
              init_FU StoreUnit 1 3;
              init_FU BranchUnit 1 1;
              init_FU EtcUnit 1 1] |>.

Definition reset_all_FUs (s : TA) : TA := s <| fu := reset_FU <$> fu s |>.
Definition reflesh_all_FUs (s : TA) : TA := s <| fu := reflesh_FU <$> fu s |>.

Definition init_trace_statistics (s : TA) : TA :=
  s <| num_inst_type := replicate (Z.to_nat NUM_INST_TYPE) 0 |>
    <| num_fetched_insts := 0 |> <| num_issued_insts := 0 |> <| num_committed_insts := 0 |>
    <| num_dispatched_insts := 0 |> <| num_mispred_insts := 0 |> <| avg_mispred_penalty := dzero |>
    <| cur_cycle := 0 |> <| num_il1_miss := 0 |> <| num_dl1_miss := 0 |> <| num_l2_miss := 0 |>
    <| reserved_inst := None |> <| inst_cache_miss_penalty := 0 |> <| mispred_penalty := 0 |>
    <| dl1_outstanding_request := 0 |> <| ul2_outstanding_request := 0 |> <| rob_full_event := 0 |>
    <| rob_access_event := 0 |> <| iq_full_event := 0 |> <| ldq_full_event := 0 |>
    <| stq_full_event := 0 |> <| ldq_access_event := 0 |>.

Definition init_trace_analyzer (perfmodel : perfmodel_config) (s : TA) : option TA :=
  let c := core perfmodel in
  let s := s <| rob_capacity := rob_size c |> <| dispatch_width := frontend_width c |>
             <| issue_width := backend_width c |> <| wb_width := backend_width c |>
             <| commit_width := backend_width c |>
             <| latency_l1_hit := cc_latency (il1 perfmodel) |>
             <| latency_l1_miss := cc_latency (ul2 perfmodel) |>
             <| latency_l2_miss := mem_latency (mem perfmodel) |> in
  let s := init_trace_statistics s in
  m ← init_inst_elem_pool (qm s);
  let s := s <| qm := m |> in
  let s := init_all_queues perfmodel s in
  Some (init_all_FUs perfmodel s).

Definition destroy_trace_analyzer (s : TA) : option TA :=
  m ← destroy_all_inst_elem_from_queue (qm s) IQ;
  m ← destroy_all_inst_elem_from_queue m LDQ;
  m ← destroy_all_inst_elem_from_queue m STQ;
  m ← destroy_all_inst_elem_from_queue m FUB;
  m ← destroy_inst_elem_pool m;
  Some (s <| qm := m |>).

(** ** Dependencies *)

Definition can_forward (inst : Inst) : bool :=
  if decide (type inst = MemRead) then
    (state_num Complete <=? state_num (state inst)) && (remaining_latency inst <=? 1)
  else state_num Complete <=? state_num (state inst).

(** [cur_idx = (cur_idx-1+rob.capacity)%rob.capacity]. *)
Definition older_idx (s : TA) (cur_idx : Z) : option Z :=
  ring (rob s) (cur_idx - 1 + rob_cap (rob s)).

(** The instruction in an entry; a null entry would be dereferenced. *)
Definition rob_at (s : TA) (idx : Z) : option ptr := o ← rob_get_inst (rob s) idx; o.

(** One comparison of [find_regs_dependency]: source [i] of [b] with destination [j] of [a]. *)
Definition match_reg (pa pb : ptr) (i j : Z) (sc : TA * Z) : option (TA * Z) :=
  let '(s, count) := sc in
  b ← get_inst s pb;
  a ← get_inst s pa;
  x ← arr_get (src_reg b) i;
  y ← arr_get (dst_reg a) j;
  if x =? y then
    m ← set_dependency (dep_mat s) a b;
    src ← arr_set (src_reg b) i (-1);
    s ← upd_inst (s <| dep_mat := m |>) pb (λ b, b <| src_reg := src |>);
    Some (s, count - 1)
  else Some (s, count).

(** The two nested loops over the sources of [b] and the destinations of [a]. *)
Definition match_regs (pa pb : ptr) (sc : TA * Z) : option (TA * Z) :=
  b ← get_inst (sc.1) pb;
  a ← get_inst (sc.1) pa;
  for_lt (num_src_reg b) (λ i sc,
    b ← get_inst (sc.1) pb;
    x ← arr_get (src_reg b) i;
    if x =? -1 then Some sc
    else for_lt (num_dst_reg a) (λ j sc, match_reg pa pb i j sc) sc) sc.

(** [while (count)]: visits the instructions older than [cur_idx], the youngest first. *)
Fixpoint older_loop (body : ptr → TA * Z → option (TA * Z)) (fuel : nat) (cur_idx : Z)
    (sc : TA * Z) : option TA :=
  if sc.2 =? 0 then Some sc.1
  else
    match fuel with
    | O => None
    | S fuel =>
        cur_idx ← older_idx (sc.1) cur_idx;
        pa ← rob_at (sc.1) cur_idx;
        sc ← body pa sc;
        if cur_idx =? start_idx (rob (sc.1)) then Some sc.1 else older_loop body fuel cur_idx sc
    end.

Definition find_regs_dependency (s : TA) (pb : ptr) : option TA :=
  b ← get_inst s pb;
  if rob_idx b =? start_idx (rob s) then Some s
  else older_loop (λ pa, match_regs pa pb) (Z.to_nat (rob_cap (rob s))) (rob_idx b) (s, num_src_reg b).

Definition match_mem (pa pb : ptr) (i j : Z) (sc : TA * Z) : option (TA * Z) :=
  let '(s, count) := sc in
  b ← get_inst s pb;
  a ← get_inst s pa;
  x ← arr_get (eff_addr b) i;
  y ← arr_get (eff_addr a) j;
  if x =? y then
    addrs ← arr_set (eff_addr b) i 0;
    m ← set_dependency (dep_mat s) a b;
    s ← upd_inst (s <| dep_mat := m |>) pb (λ b, b <| eff_addr := addrs |>);
    Some (s, count - 1)
  else Some (s, count).

Definition match_mems (pa pb : ptr) (sc : TA * Z) : option (TA * Z) :=
  b ← get_inst (sc.1) pb;
  a ← get_inst (sc.1) pa;
  for_lt (num_eff_addr b) (λ i sc,
    b ← get_inst (sc.1) pb;
    x ← arr_get (eff_addr b) i;
    if x =? 0 then Some sc
    else for_lt (num_eff_addr a) (λ j sc, match_mem pa pb i j sc) sc) sc.

Definition find_mems_dependency (s : TA) (pb : ptr) : option TA :=
  b ← get_inst s pb;
  if rob_idx b =? start_idx (rob s) then Some s
  else older_loop (λ pa, match_mems pa pb) (Z.to_nat (rob_cap (rob s))) (rob_idx b) (s, num_eff_addr b).

Fixpoint dependency_loop (fuel : nat) (s : TA) (b : Inst) (cur_idx : Z) : option bool :=
  match fuel with
  | O => None
  | S fuel =>
      cur_idx ← older_idx s cur_idx;
      pa ← rob_at s cur_idx;
      a ← get_inst s pa;
      dep ← is_dependent (rob s) (dep_mat s) a b;
      if dep && negb (can_forward a) then Some true
      else if cur_idx =? start_idx (rob s) then Some false
      else dependency_loop fuel s b cur_idx
  end.

Definition has_dependency (s : TA) (pb : ptr) : option bool :=
  b ← get_inst s pb;
  if rob_idx b =? start_idx (rob s) then Some false
  else dependency_loop (Z.to_nat (rob_cap (rob s))) s b (rob_idx b).

(** ** Micro-operations *)

Section Pipeline.
(** Uninitialised memory and the undefined operations of the disassembler. *)
Variables (junk : Inst) (shl_32 : Z → Z) (ctz_0 : Z).

(** The stack-pointer update both conversions start with. *)
Definition sp_update (inst : Inst) : option Inst :=
  let m := init_inst junk (u32 (seq inst)) (pc inst) (code inst) in
  let m := m <| decoded := true |> <| type := IntAlu |> <| str := Some "sub "%string |> in
  m ← add_dst_reg 13 m;
  add_src_reg 13 m.

(** One transfer: element [i] of [inst]'s addresses, with its register. *)
Definition push_op (inst : Inst) (i : Z) : option Inst :=
  let m := init_inst junk (u32 (seq inst)) (pc inst) (code inst) in
  let m := m <| decoded := true |> <| type := MemWrite |> <| str := Some "str_op "%string |> in
  a ← arr_get (eff_addr inst) i;
  addrs ← arr_set (eff_addr m) (num_eff_addr m) a;
  let m := m <| eff_addr := addrs |> <| num_eff_addr := num_eff_addr m + 1 |> in
  r ← arr_get (src_reg inst) i;
  m ← add_src_reg r m;
  Some (if (i =? 0) && negb (miss_num (cache_miss m) =? 0) then m <| cache_miss := cache_miss inst |>
        else m).

Definition pop_op (inst : Inst) (i : Z) : option Inst :=
  let m := init_inst junk (u32 (seq inst)) (pc inst) (code inst) in
  let m := m <| decoded := true |> <| type := MemRead |> <| str := Some "ldr_op "%string |> in
  a ← arr_get (eff_addr inst) i;
  addrs ← arr_set (eff_addr m) (num_eff_addr m) a;
  let m := m <| eff_addr := addrs |> <| num_eff_addr := num_eff_addr m + 1 |> in
  r ← arr_get (dst_reg inst) i;
  m ← add_dst_reg r m;
  m ← add_src_reg 13 m;
  Some (if (i =? 0) && negb (miss_num (cache_miss m) =? 0) then m <| cache_miss := cache_miss inst |>
        else m).

(** [malloc], fill in, [push_front_inst (trace_buffer, m_inst)]. *)
Definition push_front_new (s : TA) (m : Inst) : option TA :=
  let '(s, p) := malloc_inst m s in
  q ← push_front_inst (qm s) TRACE p;
  Some (s <| qm := q |>).

Definition convert_with (op : Inst → Z → option Inst) (s : TA) (p : ptr) : option TA :=
  inst ← get_inst s p;
  '(q, _) ← pop_front_inst (qm s) TRACE;
  m ← sp_update inst;
  s ← push_front_new (s <| qm := q |>) m;
  for_down (Z.to_nat (num_eff_addr inst)) (λ i s,
    m ← op inst i;
    s ← push_front_new s m;
    Some (s <| num_fetched_insts := num_fetched_insts s + 1 |>)) s.

Definition convert_push_microop : TA → ptr → option TA := convert_with push_op.
Definition convert_pop_microop : TA → ptr → option TA := convert_with pop_op.

Definition convert_microop (s : TA) (p : ptr) : option TA :=
  inst ← get_inst s p;
  match type inst with
  | Pop => s ← convert_pop_microop s p; free_inst s p
  | Push => s ← convert_push_microop s p; free_inst s p
  | _ => Some s
  end.

(** ** Dispatch *)

Definition dispatch_inst (s : TA) (p : ptr) : option TA :=
  let s := s <| num_dispatched_insts_cycle := num_dispatched_insts_cycle s + 1 |> in
  upd_inst s p (λ i, i <| state := Dispatch |>).

(** The instruction at the front of the trace buffer. *)
Definition front_inst (s : TA) : option (option ptr) :=
  match front_inst_elem (queue s TRACE) with
  | None => Some None
  | Some e => c ← elems (qm s) !! e; p ← elem_inst c; Some (Some p)
  end.

(** [push_back_inst (&q, inst)]; the element is recorded in the instruction by [f]. *)
Definition enqueue (s : TA) (q : qid) (p : ptr) (f : option ptr → Inst → Inst) : option TA :=
  '(m, e) ← push_back_inst (qm s) q p;
  upd_inst (s <| qm := m |>) p (f e).

(** An instruction that has room everywhere enters the reorder buffer and its queues. *)
Definition dispatch_one (s : TA) (p : ptr) : option TA :=
  '(r, h) ← rob_insert_inst (rob s) (insts s) p;
  let s := s <| rob := r |> <| insts := h |> in
  i ← get_inst s p;
  m ← clean_dependency (rob s) (dep_mat s) i;
  let s := s <| dep_mat := m |> in
  s ← enqueue s IQ p (λ e i, i <| iq_elem := e |>);
  s ← (if decide (type i = MemRead) then enqueue s LDQ p (λ e i, i <| ldq_elem := e |>) else Some s);
  s ← (if decide (type i = MemWrite) then enqueue s STQ p (λ e i, i <| stq_elem := e |>) else Some s);
  let s := s <| num_dispatched_insts := num_dispatched_insts s + 1 |> in
  s ← find_regs_dependency s p;
  s ← find_mems_dependency s p;
  s ← dispatch_inst s p;
  upd_inst s p (λ i, i <| dispatched_cycle := cur_cycle s |>).

(** Why dispatch stops, if it does; the event counters are updated. *)
Definition dispatch_stalls (s : TA) (i : Inst) : bool * TA :=
  let s := s <| rob_access_event := rob_access_event s + 1 |> in
  if is_rob_full (rob s) then (true, s <| rob_full_event := rob_full_event s + 1 |>)
  else if is_full_queue (queue s IQ) then (true, s <| iq_full_event := iq_full_event s + 1 |>)
  else if bool_decide (type i = MemRead) && is_full_queue (queue s LDQ) then
    (true, s <| ldq_full_event := ldq_full_event s + 1 |>)
  else if bool_decide (type i = MemWrite) && is_full_queue (queue s STQ) then
    (true, s <| stq_full_event := stq_full_event s + 1 |>)
  else (false, s).

Fixpoint dispatch_loop (fuel : nat) (w : Z) (s : TA) : option TA :=
  if w <=? 0 then Some s
  else
    match fuel with
    | O => None
    | S fuel =>
        f ← front_inst s;
        match f with
        | None => Some s
        | Some p =>
            i ← get_inst s p;
            i ← decode_inst shl_32 ctz_0 i;
            s ← upd_inst s p (λ _, i);
            s ← convert_microop s p;
            f ← front_inst s;
            p ← f;
            i ← get_inst s p;
            let '(stall, s) := dispatch_stalls s i in
            if stall then Some s
            else
              '(m, o) ← pop_front_inst (qm s) TRACE;
              p ← o;
              let s := s <| qm := m |> in
              i ← get_inst s p;
              if decide (type i = Unsupported) then
                let s := s <| num_dispatched_insts := num_dispatched_insts s + 1 |>
                           <| num_committed_insts := num_committed_insts s + 1 |> in
                s ← free_inst s p;
                dispatch_loop fuel w s
              else
                s ← dispatch_one s p;
                dispatch_loop fuel (w - 1) s
        end
    end.

(** Every iteration uses up a slot of the width or an instruction of the trace. *)
Definition dispatch_insts (s : TA) : option TA :=
  dispatch_loop (S (Z.to_nat (dispatch_width s) + Z.to_nat (queue_size (queue s TRACE))))
    (dispatch_width s) s.

(** ** Issue *)

Definition issue_one (s : TA) (e p : ptr) : option TA :=
  let s := if first_issue_cycle s =? 0 then s <| first_issue_cycle := cur_cycle s |> else s in
  m ← remove_from_list (qm s) IQ e true;
  let s := s <| qm := m |> in
  s ← upd_inst s p (λ i, i <| issued_cycle := cur_cycle s |> <| state := Issue |>
                           <| remaining_latency := type_latency (inst_type (type i)) |>);
  let s := s <| num_issued_insts := num_issued_insts s + 1 |>
             <| num_issued_insts_cycle := num_issued_insts_cycle s + 1 |> in
  '(m, _) ← push_back_inst (qm s) FUB p;
  Some (s <| qm := m |>).

(** [try_FU (&fu[t])]. *)
Definition try_unit (s : TA) (t : FUType) : option (bool * TA) :=
  f ← arr_get (fu s) (fu_num t);
  let '(ok, f) := try_FU f in
  l ← arr_set (fu s) (fu_num t) f;
  Some (ok, s <| fu := l |>).

Fixpoint issue_loop (fuel : nat) (w : Z) (elem : option ptr) (s : TA) : option TA :=
  if w <=? 0 then Some s
  else
    match elem with
    | None => Some s
    | Some e =>
        match fuel with
        | O => None
        | S fuel =>
            c ← elems (qm s) !! e;
            p ← elem_inst c;
            i ← get_inst s p;
            if decide (state i = Dispatch) then
              dep ← has_dependency s p;
              if dep : bool then issue_loop fuel w (next_inst_elem c) s
              else
                '(success, s) ← try_unit s (inst_type_fu_type_map (type i));
                if success : bool then
                  s ← issue_one s e p;
                  issue_loop fuel (w - 1) (next_inst_elem c) s
                else issue_loop fuel w (next_inst_elem c) s
            else issue_loop fuel w (next_inst_elem c) s
        end
    end.

Definition issue_insts (s : TA) : option TA :=
  if is_empty_queue (queue s IQ) then Some s
  else issue_loop (Z.to_nat (queue_size (queue s IQ))) (issue_width s) (front_inst_elem (queue s IQ)) s.

(** ** Execution *)

Definition set_writeback_latency (s : TA) (i : Inst) : Inst :=
  let latency := default_wb_latency in
  let latency := if decide (type i = MemRead) then
      (if negb (miss_num (cache_miss i) =? 0) then latency + latency_l1_miss s else latency) + 1
    else latency in
  i <| remaining_latency := latency |>.

(** [release_FU (&fu[t])]. *)
Definition release_unit (s : TA) (t : FUType) : option TA :=
  f ← arr_get (fu s) (fu_num t);
  l ← arr_set (fu s) (fu_num t) (release_FU f);
  Some (s <| fu := l |>).

(** The running average of the misprediction penalty. *)
Definition count_mispred (s : TA) (i : Inst) : TA :=
  let penalty := s32 (u64 (front_pipeline_depth + cur_cycle s - dispatched_cycle i)) in
  let penalty := if 40 <? penalty then 40 else penalty in
  let sum := dadd (dmul (avg_mispred_penalty s) (of_int (num_mispred_insts s))) (of_int penalty) in
  let n := num_mispred_insts s + 1 in
  s <| num_mispred_insts := n |> <| avg_mispred_penalty := ddiv sum (of_int n) |>.

Definition execute_inst (s : TA) (p : ptr) : option TA :=
  let s := s <| num_executed_insts_cycle := num_executed_insts_cycle s + 1 |> in
  s ← upd_inst s p (λ i, i <| remaining_latency := remaining_latency i - 1 |>);
  i ← get_inst s p;
  s ← (if remaining_latency i <=? 0 then
         s ← upd_inst s p (λ i, set_writeback_latency s
               (i <| state := Complete |> <| completed_cycle := cur_cycle s |>));
         release_unit s (inst_type_fu_type_map (type i))
       else Some s);
  i ← get_inst s p;
  if decide (type i = Branch ∧ state i = Complete ∧ bpred_mispred i = true)
  then Some (count_mispred s i) else Some s.

Fixpoint execute_loop (fuel : nat) (elem : option ptr) (s : TA) : option TA :=
  match elem with
  | None => Some s
  | Some e =>
      match fuel with
      | O => None
      | S fuel =>
          c ← elems (qm s) !! e;
          p ← elem_inst c;
          i ← get_inst s p;
          s ← (if decide (state i = Issue) then execute_inst s p else Some s);
          execute_loop fuel (next_inst_elem c) s
      end
  end.

Definition execute_insts (s : TA) : option TA :=
  execute_loop (Z.to_nat (queue_size (queue s FUB))) (oldest_inst_elem (queue s FUB)) s.

(** ** Write-back *)

Definition writeback_inst (s : TA) (p : ptr) : option TA :=
  i ← get_inst s p;
  if decide (state i = Complete)
  then upd_inst s p (λ i, i <| remaining_latency := remaining_latency i - 1 |>) else Some s.

Fixpoint writeback_loop (fuel : nat) (w : Z) (elem : option ptr) (s : TA) : option TA :=
  if w =? 0 then Some s
  else
    match elem with
    | None => Some s
    | Some e =>
        match fuel with
        | O => None
        | S fuel =>
            c ← elems (qm s) !! e;
            p ← elem_inst c;
            s ← writeback_inst s p;
            i ← get_inst s p;
            if decide (state i = Complete ∧ remaining_latency i = 0) then
              m ← remove_from_list (qm s) FUB e true;
              writeback_loop fuel (w - 1) (next_inst_elem c) (s <| qm := m |>)
            else writeback_loop fuel w (next_inst_elem c) s
        end
    end.

Definition writeback_insts (s : TA) : option TA :=
  writeback_loop (Z.to_nat (queue_size (queue s FUB))) (wb_width s) (oldest_inst_elem (queue s FUB)) s.

(** ** Commit *)

(** [if (elem) remove_from_list (&q, elem, true)]. *)
Definition dequeue (s : TA) (q : qid) (elem : option ptr) : option TA :=
  match elem with
  | Some e => m ← remove_from_list (qm s) q e true; Some (s <| qm := m |>)
  | None => Some s
  end.

Definition commit_one (s : TA) (p : ptr) : option TA :=
  s ← upd_inst s p (λ i, i <| committed_cycle := cur_cycle s |>);
  i ← get_inst s p;
  s ← dequeue s LDQ (ldq_elem i);
  s ← dequeue s STQ (stq_elem i);
  r ← rob_remove_inst (rob s);
  let s := s <| rob := r |> in
  n ← arr_get (num_inst_type s) (type_num (type i));
  l ← arr_set (num_inst_type s) (type_num (type i)) (n + 1);
  s ← free_inst (s <| num_inst_type := l |>) p;
  Some (s <| num_committed_insts := num_committed_insts s + 1 |>
          <| num_committed_insts_cycle := num_committed_insts_cycle s + 1 |>).

Fixpoint commit_loop (w : nat) (s : TA) : option TA :=
  match w with
  | O => Some s
  | S w =>
      if is_rob_empty (rob s) then Some s
      else
        o ← rob_get_oldest_inst (rob s);
        p ← o;
        i ← get_inst s p;
        if decide (state i = Complete ∧ remaining_latency i = 0) then
          s ← commit_one s p;
          commit_loop w s
        else Some s
  end.

Definition commit_insts (s : TA) : option TA := commit_loop (Z.to_nat (commit_width s)) s.

(** ** The main loop *)

(** The stages of one cycle, from the last one to the first. *)
Definition one_cycle (s : TA) : option TA :=
  s ← commit_insts s;
  s ← writeback_insts s;
  s ← execute_insts s;
  s ← issue_insts s;
  s ← dispatch_insts s;
  let s := reflesh_all_FUs s in
  Some (s <| cur_cycle := u64 (cur_cycle s + 1) |>).

Definition clear_cycle (s : TA) : TA :=
  s <| num_issued_insts_cycle := 0 |> <| num_dispatched_insts_cycle := 0 |>
    <| num_executed_insts_cycle := 0 |> <| num_committed_insts_cycle := 0 |>.

(** [while (true)]; [last] is [actual_last_cycle]. *)
Fixpoint analysis_loop (fuel : nat) (max_cycle cycle last : Z) (s : TA) : option (Z * TA) :=
  let s := clear_cycle s in
  if negb (max_cycle =? 0) && (max_cycle <=? cycle) then Some (last, s)
  else
    match fuel with
    | O => None
    | S fuel =>
        s ← one_cycle s;
        let last := if (last =? 0) && (num_dispatched_insts s =? num_fetched_insts s)
                    then cur_cycle s else last in
        if num_committed_insts s =? num_fetched_insts s then Some (last, s)
        else analysis_loop fuel max_cycle (cycle + 1) last s
    end.

(** The results are [*last_cycle] and [*bpred_penalty]. *)
Definition trace_analysis (fuel : nat) (s : TA) (max_cycle : Z) : option (Z * Z * TA) :=
  let s := init_trace_statistics s in
  let s := reset_all_FUs s in
  let s := s <| num_fetched_insts := get_current_queue_size (queue s TRACE) |> in
  '(last, s) ← analysis_loop fuel max_cycle 0 0 s;
  penalty ← to_int (avg_mispred_penalty s);
  Some (last, penalty, s).
End Pipeline.
