(* ===== verification/PipelineInv.v ===== *)
(** The invariant of the pipeline: what the queues, the reorder buffer, the functional units
    and the heap hold in terms of the instructions still in the trace ([tr]) and those in
    flight ([R], oldest first), and the work left. *)

From Stdlib Require Import ZArith Lia.
From stdpp Require Import base tactics functions option list gmap.
From S2P Require Import Prelude DList InstQueue InstQueueRep CacheSim Inst Rob TraceAnalyzer.

(** An instruction with its address. *)
Abbreviation pinst := (ptr * Inst)%type.

(** ** Single instructions *)

Definition plain (t : InstTypeName) : Prop := t ≠ Pop ∧ t ≠ Push.

(** The arrays have their 16 entries and the counts stay inside. *)
Record shaped (i : Inst) : Prop := {
  sh_src : length (src_reg i) = 16%nat;
  sh_dst : length (dst_reg i) = 16%nat;
  sh_addr : length (eff_addr i) = 16%nat;
  sh_nsrc : 0 ≤ num_src_reg i ≤ 16;
  sh_ndst : 0 ≤ num_dst_reg i ≤ 16;
  sh_naddr : 0 ≤ num_eff_addr i ≤ 16;
}.

Definition dispatched (x : pinst) : Prop := state x.2 = Dispatch.
Definition issued (x : pinst) : Prop := state x.2 = Issue.
Definition in_fu (x : pinst) : Prop :=
  state x.2 = Issue ∨ (state x.2 = Complete ∧ 0 < remaining_latency x.2).
Definition on_unit (t : FUType) (x : pinst) : Prop :=
  state x.2 = Issue ∧ inst_type_fu_type_map (type x.2) = t.

#[export] Instance dispatched_dec x : Decision (dispatched x).
Proof. unfold dispatched. apply _. Defined.
#[export] Instance issued_dec x : Decision (issued x).
Proof. unfold issued. apply _. Defined.
#[export] Instance in_fu_dec x : Decision (in_fu x).
Proof. unfold in_fu. apply _. Defined.
#[export] Instance on_unit_dec t x : Decision (on_unit t x).
Proof. unfold on_unit. apply _. Defined.

Section Inv.
Context (QV : QMem → view → tails → Prop).
(** The latency of a first-level miss, and what decoding needs. *)
Context (lat : Z) (decodes : Inst → Prop).

(** The longest write-back. *)
Definition wb_max : Z := 3 + lat.

(** In flight: dispatched and waiting, executing, or complete and being written back. *)
Definition flight_ok (i : Inst) : Prop :=
  shaped i ∧ plain (type i) ∧ type i ≠ Unsupported ∧
  match state i with
  | Dispatch => True
  | Issue => 1 ≤ remaining_latency i ≤ 20
  | Complete => 0 ≤ remaining_latency i ≤ wb_max
  | _ => False
  end.

(** In the trace: not in any other queue; decoded ones are no push or pop. *)
Definition trace_ok (i : Inst) : Prop :=
  shaped i ∧ ldq_elem i = None ∧ stq_elem i = None ∧
  if decoded i then plain (type i)
  else decodes i.

(** ** Work left *)

Definition w_wait : Z := wb_max + 22.
Definition flight_work (i : Inst) : Z :=
  match state i with
  | Complete => 1 + remaining_latency i
  | Issue => 1 + wb_max + remaining_latency i
  | _ => w_wait
  end.
Definition trace_work (i : Inst) : Z :=
  if decoded i then w_wait + 1 else 17 * (w_wait + 1).

Definition sum_of (f : Inst → Z) (l : list pinst) : Z := foldr (λ x n, f x.2 + n) 0 l.

Definition work (tr R : list pinst) : Z := sum_of trace_work tr + sum_of flight_work R.

(** ** The reorder buffer *)

(** The entries from [start_idx] on are the instructions in flight. *)
Record ring_ok (r : ROB) (R : list pinst) : Prop := {
  ring_cap : 1 ≤ rob_cap r ≤ 60;
  ring_start : 0 ≤ start_idx r < rob_cap r;
  ring_len : Z.of_nat (length R) ≤ rob_cap r;
  ring_count : rob_count r = Z.of_nat (length R);
  ring_end : end_idx r = (start_idx r + Z.of_nat (length R)) mod rob_cap r;
  ring_entries : length (entries r) = 60%nat;
  ring_at k x : R !! k = Some x →
    arr_get (entries r) ((start_idx r + Z.of_nat k) mod rob_cap r) = Some (Some x.1) ∧
    rob_idx x.2 = (start_idx r + Z.of_nat k) mod rob_cap r;
}.

Definition dep_ok (m : dep_t) : Prop :=
  length m = 60%nat ∧ Forall (λ row, length row = 60%nat) m.

(** Every unit exists, can be used, and counts the instructions executing on it. *)
Definition fu_ok (l : list FU) (R : list pinst) : Prop :=
  length l = 7%nat ∧
  ∀ t f, arr_get l (fu_num t) = Some f →
    1 ≤ fu_capacity f ∧ 1 ≤ num_stage f ∧
    num_active f = Z.of_nat (length (filter (on_unit t) R)).

(** The elements of a load or store queue are the ones the instructions point to. *)
Definition queued (f : Inst → option ptr) (x : pinst) : option (ptr * option ptr) :=
  (λ e, (e, Some x.1)) <$> f x.2.

(** ** The invariant *)

Record config_ok (s : TA) : Prop := {
  cfg_dispatch : 1 ≤ dispatch_width s;
  cfg_issue : 1 ≤ issue_width s;
  cfg_wb : 1 ≤ wb_width s;
  cfg_commit : 1 ≤ commit_width s;
  cfg_lat : latency_l1_miss s = lat;
  cfg_lat_pos : 0 ≤ lat;
  cfg_iq : 0 ≤ capacity (queue s IQ);
  cfg_ldq : 0 ≤ capacity (queue s LDQ);
  cfg_stq : 0 ≤ capacity (queue s STQ);
  cfg_fub : capacity (queue s FUB) = 0;
}.

(** The decoded part of the trace is in front, and there is room to expand one more
    instruction into micro-operations. *)
Definition trace_shape (s : TA) (tr : list pinst) : Prop :=
  ∃ pre suf, tr = pre ++ suf ∧ Forall (λ x, decoded x.2 = true) pre ∧
    Forall (λ x, decoded x.2 = false) suf ∧
    (capacity (queue s TRACE) = 0 ∨ Z.of_nat (length suf) + 16 ≤ capacity (queue s TRACE)).

Record Inv (s : TA) (V : view) (T : tails) (tr R : list pinst) : Prop := {
  inv_cfg : config_ok s;
  inv_qv : QV (qm s) V T;
  inv_tails q : q = IQ ∨ q = LDQ ∨ q = STQ ∨ q = FUB → T q = true;
  inv_trace : (V TRACE).*2 = Some <$> tr.*1;
  inv_iq : (V IQ).*2 ≡ₚ Some <$> (filter dispatched R).*1;
  inv_fub : (V FUB).*2 ≡ₚ Some <$> (filter in_fu R).*1;
  inv_ldq : V LDQ ≡ₚ omap (queued ldq_elem) R;
  inv_stq : V STQ ≡ₚ omap (queued stq_elem) R;
  inv_heap : insts s = list_to_map (tr ++ R);
  inv_nodup : NoDup (tr ++ R).*1;
  inv_brk p : p ∈ (tr ++ R).*1 → (p < ibrk s)%positive;
  inv_ring : ring_ok (rob s) R;
  inv_dep : dep_ok (dep_mat s);
  inv_fu : fu_ok (fu s) R;
  inv_flight : Forall (λ x, flight_ok x.2) R;
  inv_tr : Forall (λ x, trace_ok x.2) tr;
  inv_shape : trace_shape s tr;
  inv_fetched : num_fetched_insts s = num_committed_insts s + Z.of_nat (length tr + length R);
  inv_dispatched : num_fetched_insts s = num_dispatched_insts s + Z.of_nat (length tr);
  inv_types : length (num_inst_type s) = 13%nat;
}.

(** At the start of a cycle no unit has accepted an instruction yet. *)
Definition fresh_units (s : TA) : Prop := Forall (λ f, num_issue f = 0) (fu s).

(** ** Sums and heaps *)

Lemma sum_of_app f l1 l2 : sum_of f (l1 ++ l2) = sum_of f l1 + sum_of f l2.
Proof. induction l1 as [|x l1 IH]; simpl; [done|]. rewrite IH. lia. Qed.

Lemma sum_of_mid f l1 x l2 : sum_of f (l1 ++ x :: l2) = sum_of f (l1 ++ l2) + f x.2.
Proof. rewrite !sum_of_app. simpl. lia. Qed.

Lemma sum_of_nonneg f l : Forall (λ x : pinst, 0 ≤ f x.2) l → 0 ≤ sum_of f l.
Proof. induction 1; simpl; lia. Qed.
End Inv.

Section Heap.
Context {A : Type}.
Implicit Types l : list (ptr * A).

Lemma heap_lookup l p x : NoDup l.*1 → (p, x) ∈ l → (list_to_map l : gmap ptr A) !! p = Some x.
Proof. intros. by apply elem_of_list_to_map. Qed.

Lemma heap_update l1 p x y l2 :
  NoDup (l1 ++ (p, x) :: l2).*1 →
  <[p := y]> (list_to_map (l1 ++ (p, x) :: l2) : gmap ptr A) = list_to_map (l1 ++ (p, y) :: l2).
Proof.
  intros Hnd. apply NoDup_fst_middle in Hnd as [Hnd Hp]. simpl in Hp.
  rewrite !(list_to_map_app _ _ : _ = _). simpl.
  rewrite <-!insert_union_r by (apply not_elem_of_list_to_map_1; rewrite fmap_app in Hp; set_solver).
  by rewrite insert_insert_eq.
Qed.

Lemma heap_delete l1 p x l2 :
  NoDup (l1 ++ (p, x) :: l2).*1 →
  delete p (list_to_map (l1 ++ (p, x) :: l2) : gmap ptr A) = list_to_map (l1 ++ l2).
Proof.
  intros Hnd. apply NoDup_fst_middle in Hnd as [Hnd Hp]. simpl in Hp.
  rewrite !(list_to_map_app _ _ : _ = _). simpl.
  rewrite <-insert_union_r by (apply not_elem_of_list_to_map_1; rewrite fmap_app in Hp; set_solver).
  rewrite delete_insert_id; [done|]. rewrite <-(list_to_map_app _ _ : _ = _).
  by apply not_elem_of_list_to_map_1.
Qed.
End Heap.

(** Reads and writes of instructions through the list that represents the heap. *)

Lemma get_inst_at s l p i :
  insts s = list_to_map l → NoDup l.*1 → (p, i) ∈ l → get_inst s p = Some i.
Proof. intros Hl ??. unfold get_inst. rewrite Hl. by apply heap_lookup. Qed.

Lemma get_inst_mid s l1 p i l2 :
  insts s = list_to_map (l1 ++ (p, i) :: l2) → NoDup (l1 ++ (p, i) :: l2).*1 → get_inst s p = Some i.
Proof. intros Hl Hnd. eapply get_inst_at; [done|done|]. apply elem_of_app. right. by left. Qed.

Lemma upd_inst_at s l1 p i l2 f :
  insts s = list_to_map (l1 ++ (p, i) :: l2) → NoDup (l1 ++ (p, i) :: l2).*1 →
  upd_inst s p f = Some (s <| insts := list_to_map (l1 ++ (p, f i) :: l2) |>).
Proof.
  intros Hl Hnd. unfold upd_inst. rewrite (upd_Some _ _ i), Hl, heap_update; [done|done|].
  rewrite Hl. apply heap_lookup; [done|]. apply elem_of_app. right. by left.
Qed.

Lemma free_inst_at s l1 p i l2 :
  insts s = list_to_map (l1 ++ (p, i) :: l2) → NoDup (l1 ++ (p, i) :: l2).*1 →
  free_inst s p = Some (s <| insts := list_to_map (l1 ++ l2) |>).
Proof.
  intros Hl Hnd. unfold free_inst. rewrite Hl, heap_delete by done.
  by rewrite (heap_lookup _ p i); [|done|apply elem_of_app; right; left].
Qed.

Lemma nodup_replace (l1 : list pinst) p i j l2 :
  NoDup (l1 ++ (p, i) :: l2).*1 → NoDup (l1 ++ (p, j) :: l2).*1.
Proof. by rewrite !fmap_app. Qed.

Lemma fst_middle_weaken (l1 : list pinst) x l2 p : p ∈ (l1 ++ l2).*1 → p ∈ (l1 ++ x :: l2).*1.
Proof. rewrite !fmap_app. set_solver. Qed.

(** Unfolding one step of the monad. *)
Lemma bind_ret {A B} (x : A) (f : A → option B) : Some x ≫= f = f x.
Proof. done. Qed.

Ltac bs := rewrite ?bind_ret; cbv beta iota.
