(* ===== verification/PipelineTrace.v ===== *)
(** The front of the trace: decoding an instruction and expanding a push or pop into
    micro-operations. *)

From Stdlib Require Import ZArith Lia.
From stdpp Require Import base tactics functions option list gmap.
From S2P Require Import Prelude DList InstQueue InstQueueRep CacheSim DarmTbl Darm Inst Rob TraceAnalyzer PipelineInv.

(** ** Decoding *)

(** Decoding touches neither the addresses nor the queue elements. *)
Record kept (i j : Inst) : Prop := {
  kp_addr : eff_addr j = eff_addr i;
  kp_naddr : num_eff_addr j = num_eff_addr i;
  kp_ldq : ldq_elem j = ldq_elem i;
  kp_stq : stq_elem j = stq_elem i;
  kp_state : state j = state i;
  kp_disp : dispatched_cycle j = dispatched_cycle i;
}.

(** What adding registers to an instruction keeps. *)
Definition refines (i j : Inst) : Prop := (shaped i → shaped j) ∧ kept i j.

Lemma refines_refl i : refines i i.
Proof. done. Qed.
Lemma refines_trans i j k : refines i j → refines j k → refines i k.
Proof. intros [? []] [? []]. split; [auto|]. split; congruence. Qed.

Lemma arr_set_inv {A} (l l' : list A) i x :
  arr_set l i x = Some l' → 0 ≤ i < Z.of_nat (length l) ∧ length l' = length l.
Proof.
  unfold arr_set. destruct (Z.ltb_spec i 0), (Z.leb_spec (Z.of_nat (length l)) i); simpl; try done.
  intros [= <-]. by rewrite length_insert.
Qed.

Lemma add_src_reg_refines r i j : add_src_reg r i = Some j → refines i j.
Proof.
  unfold add_src_reg. destruct (arr_set _ _ _) as [a|] eqn:Ha; intros [= <-].
  apply arr_set_inv in Ha as [? Hl]. split; [|done]. intros []. split; simpl; lia.
Qed.

Lemma add_dst_reg_refines r i j : add_dst_reg r i = Some j → refines i j.
Proof.
  unfold add_dst_reg. destruct (arr_set _ _ _) as [a|] eqn:Ha; intros [= <-].
  apply arr_set_inv in Ha as [? Hl]. split; [|done]. intros []. split; simpl; lia.
Qed.

Section Adders.
Context (f : Z → Inst → option Inst) (Hf : ∀ r i j, f r i = Some j → refines i j).

Lemma if_reg_refines r i j : if_reg r f i = Some j → refines i j.
Proof. unfold if_reg. destruct (r =? R_INVLD); [intros [= <-]; apply refines_refl|apply Hf]. Qed.

Lemma add_regs_refines l i j : add_regs f l i = Some j → refines i j.
Proof.
  revert i. induction l as [|r l IH]; simpl; intros i; [intros [= <-]; apply refines_refl|].
  destruct (f r i) as [k|] eqn:Hk; [|done]. intros ?%IH. eapply refines_trans; [by eapply Hf|done].
Qed.
End Adders.

Create HintDb refine discriminated.
#[export] Hint Resolve refines_refl add_src_reg_refines add_dst_reg_refines if_reg_refines add_regs_refines : refine.

Lemma bind_refines (m : option Inst) (f : Inst → option Inst) i j :
  (∀ k, m = Some k → refines i k) → (∀ k, f k = Some j → refines k j) →
  (m ≫= f) = Some j → refines i j.
Proof.
  intros Hm Hf. destruct m as [k|]; [|done]. simpl. intros Hk.
  eapply refines_trans; [by apply Hm|by apply Hf].
Qed.

(** Walks down a sequence of register assignments. *)
Ltac refine_steps :=
  repeat match goal with
  | |- (if ?b then _ else _) = Some _ → _ => destruct b
  | |- _ ≫= _ = Some _ → _ => apply bind_refines; [intros ?|intros ?]
  | |- Some _ = Some _ → _ => intros [= <-]
  | |- _ = Some _ → refines _ _ => intros ?
  end; eauto with refine.

Section Decode.
Context (shl_32 : Z → Z) (ctz_0 : Z).

Lemma init_inst_src_dst_reg_refines i d j :
  init_inst_src_dst_reg ctz_0 i d = Some j → refines i j.
Proof.
  unfold init_inst_src_dst_reg. destruct (darm_reglist2 _ _) as [[n regs]|]; [|done].
  bs. destruct (16 <? _)%nat; [done|].
  set (i0 := i <| src_reg := replicate 16 (-1) |> <| dst_reg := replicate 16 (-1) |>). cbv zeta.
  assert (H0 : refines i i0) by (split; [by intros []|done]). intros H.
  eapply refines_trans; [exact H0|]. revert H. clearbody i0. destruct (type i0); refine_steps.
Qed.

Lemma classify_refines n i : refines i (classify n i).
Proof.
  unfold classify. cbv zeta. repeat case_match; (split; [by intros []|done]).
Qed.

Lemma decode_inst_ok i j :
  decoded i = false → decode_inst shl_32 ctz_0 i = Some j → refines i j ∧ decoded j = true.
Proof.
  intros Hd. unfold decode_inst. rewrite Hd.
  destruct (darm_armv7_disasm _ _) as [[n d]|]; [|done]. bs.
  set (i1 := i <| is_cond_inst := _ |>). set (i2 := if negb (d F_shift =? 0) then _ else _).
  set (i3 := if negb (d F_S =? B_INVLD) then _ else _). cbv zeta.
  assert (H1 : refines i i1) by (split; [by intros []|done]).
  assert (H2 : refines i1 i2).
  { unfold i2. clearbody i1. destruct (d F_shift =? 0); (split; [by intros []|done]). }
  assert (H3 : refines i2 i3).
  { unfold i3. clearbody i2. destruct (d F_S =? B_INVLD); (split; [by intros []|done]). }
  pose proof (classify_refines (d F_instr) i3) as H4. set (i4 := classify _ _) in *.
  intros H. destruct (if decide _ then _ else _) as [i5|] eqn:E5; [|done]. injection H as <-.
  assert (H5 : refines i4 i5).
  { case_decide; [injection E5 as <-; apply refines_refl|by eapply init_inst_src_dst_reg_refines]. }
  split; [|done]. repeat (eapply refines_trans; [eassumption|]). split; [by intros []|done].
Qed.
End Decode.

(** ** Micro-operations *)

Section Micro.
Context (junk : Inst).
Context (Hjs : length (src_reg junk) = 16%nat) (Hjd : length (dst_reg junk) = 16%nat)
  (Hja : length (eff_addr junk) = 16%nat).

(** Decoded, fits its arrays, is in no queue and needs no expansion. *)
Definition ready (m : Inst) : Prop :=
  shaped m ∧ ldq_elem m = None ∧ stq_elem m = None ∧ decoded m = true ∧ plain (type m).

Definition micro (m : Inst) : Prop := ready m ∧ type m ≠ Unsupported.

Lemma sp_update_ok i : ∃ m, sp_update junk i = Some m ∧ micro m.
Proof.
  unfold sp_update, add_dst_reg, add_src_reg. simpl. rewrite arr_set_Some by lia. simpl.
  rewrite arr_set_Some by lia. simpl. eexists. split; [done|].
  split; [split; [constructor; simpl; rewrite ?length_insert; lia|]|]; done.
Qed.

Lemma push_op_ok i k : shaped i → 0 ≤ k < num_eff_addr i → ∃ m, push_op junk i k = Some m ∧ micro m.
Proof.
  intros [] Hk. unfold push_op. cbv zeta.
  destruct (arr_get_is_Some (eff_addr i) k) as [a ->]; [lia|]. simpl. rewrite arr_set_Some by lia. simpl.
  destruct (arr_get_is_Some (src_reg i) k) as [r ->]; [lia|]. unfold add_src_reg. simpl.
  rewrite arr_set_Some by lia. simpl. rewrite andb_false_r. eexists. split; [done|].
  split; [split; [constructor; simpl; rewrite ?length_insert; lia|]|]; done.
Qed.

Lemma pop_op_ok i k : shaped i → 0 ≤ k < num_eff_addr i → ∃ m, pop_op junk i k = Some m ∧ micro m.
Proof.
  intros [] Hk. unfold pop_op. cbv zeta.
  destruct (arr_get_is_Some (eff_addr i) k) as [a ->]; [lia|]. simpl. rewrite arr_set_Some by lia. simpl.
  destruct (arr_get_is_Some (dst_reg i) k) as [r ->]; [lia|]. unfold add_src_reg, add_dst_reg. simpl.
  rewrite arr_set_Some by lia. simpl. rewrite arr_set_Some by lia. simpl. rewrite andb_false_r.
  eexists. split; [done|]. split; [split; [constructor; simpl; rewrite ?length_insert; lia|]|]; done.
Qed.
End Micro.
