(* ===== verification/PipelineStats.v ===== *)
(** The misprediction statistics: only the execution stage touches them, once for a
    mispredicted branch that completes, and the running average stays between 0 and 40. *)

From Stdlib Require Import ZArith Lia.
From Stdlib Require Import Floats.SpecFloat.
From stdpp Require Import base tactics functions option list gmap.
From S2P Require Import Prelude Double DoubleRange InstQueue Inst Rob TraceAnalyzer PipelineInv PipelineTrace.

Definition mis (s : TA) : Z * spec_float := (num_mispred_insts s, avg_mispred_penalty s).

(** An instruction that has been dispatched was so no later than in cycle [c]. *)
Definition timely (c : Z) (i : Inst) : Prop := state i ≠ Ready → 0 ≤ dispatched_cycle i ≤ c.

(** The statistics are [v], the clock shows [c], and no instruction comes from the future. *)
Definition calm (v : Z * spec_float) (c : Z) (s : TA) : Prop :=
  mis s = v ∧ cur_cycle s = c ∧ ∀ p i, insts s !! p = Some i → timely c i.

(** ** Partial correctness in the option monad *)

Definition ensures {S : Type} (P : S → Prop) (m : option S) : Prop := ∀ s, m = Some s → P s.

Section Ensures.
Context {S : Type} (P : S → Prop).

Lemma ensures_ret s : P s → ensures P (Some s).
Proof. by intros ? s' [= <-]. Qed.

Lemma ensures_none : ensures P None.
Proof. done. Qed.

Lemma ensures_bind {S'} (P' : S' → Prop) m f :
  ensures P' m → (∀ s, P' s → ensures P (f s)) → ensures P (m ≫= f).
Proof. intros Hm Hf s. destruct m as [s1|]; [|done]. simpl. apply Hf. by apply Hm. Qed.

Lemma ensures_any {A} (m : option A) f : (∀ x, m = Some x → ensures P (f x)) → ensures P (m ≫= f).
Proof. intros Hf. destruct m as [x|]; [by apply (Hf x)|apply ensures_none]. Qed.

Lemma ensures_for_up n i body s :
  (∀ i s, P s → ensures P (body i s)) → P s → ensures P (for_up n i body s).
Proof.
  intros Hb. revert i s. induction n as [|n IH]; intros i s Hs; simpl; [by apply ensures_ret|].
  eapply ensures_bind; [by apply Hb|]. intros s' Hs'. by apply IH.
Qed.

Lemma ensures_for_down n body s :
  (∀ i s, P s → ensures P (body i s)) → P s → ensures P (for_down n body s).
Proof.
  intros Hb. revert s. induction n as [|n IH]; intros s Hs; simpl; [by apply ensures_ret|].
  eapply ensures_bind; [by apply Hb|]. intros s' Hs'. by apply IH.
Qed.
End Ensures.

(** ** What keeps calm *)

Section Calm.
Context (v : Z * spec_float) (c : Z).
Local Abbreviation Calm := (calm v c).
Local Abbreviation Calm2 := (λ sc : TA * Z, calm v c sc.1).

(** Calm depends on the statistics, the clock and the heap only. *)
Lemma calm_same s s' : Calm s → mis s' = mis s → cur_cycle s' = cur_cycle s → insts s' = insts s → Calm s'.
Proof. intros (H1 & H2 & H3) E1 E2 E3. unfold calm. by rewrite E1, E2, E3. Qed.

Lemma calm_upd s p f h :
  Calm s → upd (insts s) p f = Some h → (∀ i, insts s !! p = Some i → timely c i → timely c (f i)) →
  ∀ s', mis s' = mis s → cur_cycle s' = cur_cycle s → insts s' = h → Calm s'.
Proof.
  intros (H1 & H2 & H3) E Hf s' E1 E2 E3. split; [by rewrite E1|]. split; [by rewrite E2|].
  intros q k. rewrite E3. unfold upd in E. destruct (insts s !! p) as [j|] eqn:Ep; [|done]. injection E as <-.
  destruct (decide (q = p)) as [->|Hne].
  - rewrite lookup_insert_eq. intros [= <-]. apply Hf; [done|]. by eapply H3.
  - rewrite lookup_insert_ne by done. apply H3.
Qed.

Lemma upd_inst_calm s p f :
  Calm s → (∀ i, insts s !! p = Some i → timely c i → timely c (f i)) → ensures Calm (upd_inst s p f).
Proof.
  intros Hs Hf s'. unfold upd_inst. destruct (upd _ _ _) as [h|] eqn:E; [|done]. intros [= <-].
  by eapply calm_upd.
Qed.

Lemma free_inst_calm s p : Calm s → ensures Calm (free_inst s p).
Proof.
  intros (H1 & H2 & H3) s'. unfold free_inst. destruct (insts s !! p); [|done]. intros [= <-].
  split; [done|]. split; [done|]. intros q k Hq. change (delete p (insts s) !! q = Some k) in Hq.
  apply lookup_delete_Some in Hq as [_ Hq]. by apply (H3 q).
Qed.

Lemma malloc_inst_calm s i : Calm s → state i = Ready → Calm (malloc_inst i s).1.
Proof.
  intros (H1 & H2 & H3) Hi. split; [done|]. split; [done|]. intros q j.
  change (insts (malloc_inst i s).1) with (<[ibrk s := i]> (insts s)). destruct (decide (q = ibrk s)) as [->|Hne].
  - rewrite lookup_insert_eq. by intros [= <-] ?.
  - rewrite lookup_insert_ne by done. apply H3.
Qed.
End Calm.

Create HintDb calm discriminated.
#[export] Hint Resolve ensures_ret ensures_none free_inst_calm : calm.
#[export] Hint Extern 1 (calm _ _ _) => (eapply calm_same; [eassumption|reflexivity..]) : calm.
#[export] Hint Extern 1 (ensures (calm _ _) (upd_inst _ _ _)) => (apply upd_inst_calm; [|by intros]) : calm.

(** Follows the structure of a computation; calls are left to the hints. *)
Ltac calm :=
  repeat first
    [ progress intros
    | progress (cbn beta iota zeta)
    | solve [eauto with calm]
    | match goal with
      | |- ensures (calm ?v ?c) (?m ≫= _) => apply (ensures_bind _ (calm v c)); [solve [eauto with calm]|]
      | |- ensures (λ _, calm ?v ?c _) (?m ≫= _) => apply (ensures_bind _ (calm v c)); [solve [eauto with calm]|]
      | |- ensures _ (match ?x with _ => _ end) => destruct x
      | |- ensures _ ((if ?x then _ else _) ≫= _) => destruct x
      end
    | apply ensures_any
    | apply ensures_ret; eauto with calm ].

(** ** The stages *)

Section Stages.
Context (v : Z * spec_float) (c : Z).
Local Abbreviation Calm := (calm v c).
Local Abbreviation Calm2 := (λ sc : TA * Z, calm v c sc.1).

Lemma dequeue_calm s q e : Calm s → ensures Calm (dequeue s q e).
Proof. intros H. unfold dequeue. calm. Qed.
#[local] Hint Resolve dequeue_calm : calm.

Lemma commit_one_calm s p : Calm s → ensures Calm (commit_one s p).
Proof. intros H. unfold commit_one. calm. Qed.
#[local] Hint Resolve commit_one_calm : calm.

Lemma commit_insts_calm s : Calm s → ensures Calm (commit_insts s).
Proof.
  unfold commit_insts. generalize (Z.to_nat (commit_width s)). intros w. revert s.
  induction w as [|w IH]; intros s Hs; simpl; calm.
Qed.

Lemma writeback_inst_calm s p : Calm s → ensures Calm (writeback_inst s p).
Proof. intros H. unfold writeback_inst. calm. Qed.
#[local] Hint Resolve writeback_inst_calm : calm.

Lemma writeback_insts_calm s : Calm s → ensures Calm (writeback_insts s).
Proof.
  unfold writeback_insts. generalize (Z.to_nat (queue_size (queue s FUB))), (wb_width s), (oldest_inst_elem (queue s FUB)).
  intros fuel. revert s. induction fuel as [|fuel IH]; intros s w e Hs; simpl; calm.
Qed.

Lemma try_unit_calm s t ok s' : Calm s → try_unit s t = Some (ok, s') → Calm s' ∧ insts s' = insts s.
Proof.
  intros Hs. unfold try_unit. destruct (arr_get _ _) as [f|]; [|done]. simpl. destruct (try_FU f) as [b f'].
  destruct (arr_set _ _ _); [|done]. intros [= _ <-]. split; [|done]. by eapply calm_same.
Qed.

(** Issuing an instruction that has been dispatched. *)
Lemma issue_one_calm s e p i :
  Calm s → insts s !! p = Some i → state i ≠ Ready → ensures Calm (issue_one s e p).
Proof.
  intros Hs Hp Hi. unfold issue_one. set (s0 := if first_issue_cycle s =? 0 then _ else s).
  assert (Hs0 : Calm s0 ∧ insts s0 = insts s) by (unfold s0; destruct (_ =? 0); split; eauto with calm).
  destruct Hs0 as [Hs0 E]. clearbody s0. apply ensures_any. intros m _. cbv zeta.
  apply (ensures_bind _ Calm); [|calm]. apply upd_inst_calm; [eauto with calm|].
  intros k Hk Ht. change (insts s0 !! p = Some k) in Hk. rewrite E, Hp in Hk. injection Hk as <-. intros _. by apply Ht.
Qed.

Lemma issue_loop_calm fuel w e s : Calm s → ensures Calm (issue_loop fuel w e s).
Proof.
  revert w e s. induction fuel as [|fuel IH]; intros w e s Hs; simpl; [calm|].
  destruct (w <=? 0); [calm|]. destruct e as [e|]; [|calm]. apply ensures_any. intros n _. apply ensures_any. intros p _.
  apply ensures_any. intros i Hi. case_decide as Hd; [|calm]. apply ensures_any. intros [] _; [calm|].
  apply ensures_any. intros [ok s1] E. apply try_unit_calm in E as [Hs1 E]; [|done]. destruct ok; [|calm].
  apply (ensures_bind _ Calm); [|calm]. apply (issue_one_calm _ _ _ i); [done|by rewrite E|by rewrite Hd].
Qed.

Lemma issue_insts_calm s : Calm s → ensures Calm (issue_insts s).
Proof. unfold issue_insts. intros Hs. destruct (is_empty_queue _); [calm|]. by apply issue_loop_calm. Qed.

Lemma enqueue_calm s q p f :
  Calm s → (∀ e i, timely c i → timely c (f e i)) → ensures Calm (enqueue s q p f).
Proof.
  intros H Hf. unfold enqueue. apply ensures_any. intros [m e] _. apply upd_inst_calm; [eauto with calm|]. auto.
Qed.

(** The search loops carry a counter along. *)
Lemma match_reg_calm sc pa pb i j : Calm2 sc → ensures Calm2 (match_reg pa pb i j sc).
Proof. destruct sc as [s n]. intros H. unfold match_reg. simpl in H. calm. Qed.

Lemma match_mem_calm sc pa pb i j : Calm2 sc → ensures Calm2 (match_mem pa pb i j sc).
Proof. destruct sc as [s n]. intros H. unfold match_mem. simpl in H. calm. Qed.

Lemma match_regs_calm sc pa pb : Calm2 sc → ensures Calm2 (match_regs pa pb sc).
Proof.
  intros H. unfold match_regs, for_lt. do 2 (apply ensures_any; intros ? _). apply ensures_for_up; [|done].
  intros i sc' H'. do 2 (apply ensures_any; intros ? _). case_match; [by apply ensures_ret|].
  apply ensures_for_up; [|done]. intros j sc'' H''. by apply match_reg_calm.
Qed.

Lemma match_mems_calm sc pa pb : Calm2 sc → ensures Calm2 (match_mems pa pb sc).
Proof.
  intros H. unfold match_mems, for_lt. do 2 (apply ensures_any; intros ? _). apply ensures_for_up; [|done].
  intros i sc' H'. do 2 (apply ensures_any; intros ? _). case_match; [by apply ensures_ret|].
  apply ensures_for_up; [|done]. intros j sc'' H''. by apply match_mem_calm.
Qed.

Lemma older_loop_calm body fuel idx sc :
  (∀ p sc, Calm2 sc → ensures Calm2 (body p sc)) → Calm2 sc → ensures Calm (older_loop body fuel idx sc).
Proof.
  intros Hb. revert idx sc. induction fuel as [|fuel IH]; intros idx sc Hs; simpl; [calm|].
  case_match; [calm|]. do 2 (apply ensures_any; intros ? _). apply (ensures_bind _ Calm2); [by apply Hb|]. calm.
Qed.

Lemma find_regs_calm s p : Calm s → ensures Calm (find_regs_dependency s p).
Proof.
  intros H. unfold find_regs_dependency. apply ensures_any. intros b _. case_match; [calm|].
  apply older_loop_calm; [|done]. intros. by apply match_regs_calm.
Qed.

Lemma find_mems_calm s p : Calm s → ensures Calm (find_mems_dependency s p).
Proof.
  intros H. unfold find_mems_dependency. apply ensures_any. intros b _. case_match; [calm|].
  apply older_loop_calm; [|done]. intros. by apply match_mems_calm.
Qed.
#[local] Hint Resolve find_regs_calm find_mems_calm : calm.

(** Between the two assignments the instruction is dispatched at an old time. *)
Lemma dispatch_inst_calm s p :
  0 ≤ c → Calm s → ensures Calm (s ← dispatch_inst s p; upd_inst s p (λ i, i <| dispatched_cycle := cur_cycle s |>)).
Proof.
  intros Hc (H1 & H2 & H3). unfold dispatch_inst, upd_inst. cbv zeta.
  match goal with |- context [upd ?h p ?f] => change h with (insts s); destruct (upd (insts s) p f) as [h1|] eqn:E1 end;
    [|apply ensures_none]. bs. intros s'.
  match goal with |- context [upd ?h p ?f] => change h with h1; destruct (upd h1 p f) as [h2|] eqn:E2 end; [|done].
  bs. intros [= <-]. split; [done|]. split; [done|]. intros q k Hk.
  change (h2 !! q = Some k) in Hk. unfold upd in E1, E2. destruct (insts s !! p) as [i|] eqn:Ep; [|done].
  injection E1 as <-. rewrite lookup_insert_eq in E2. injection E2 as <-. rewrite insert_insert_eq in Hk.
  destruct (decide (q = p)) as [->|Hne].
  - rewrite lookup_insert_eq in Hk. injection Hk as <-. intros _. simpl. lia.
  - rewrite lookup_insert_ne in Hk by done. by apply (H3 q).
Qed.

Lemma dispatch_one_calm s p : 0 ≤ c → Calm s → ensures Calm (dispatch_one s p).
Proof.
  intros Hc H. unfold dispatch_one. apply ensures_any. intros [r h] E.
  assert (Hr : Calm (s <| rob := r |> <| insts := h |>)).
  { unfold rob_insert_inst in E. destruct (arr_set _ _ _); [|done]. rewrite ?bind_ret in E; cbv beta iota in E.
    destruct (upd (insts s) p (λ i, i <| rob_idx := end_idx (rob s) |>)) as [h'|] eqn:Eu; [|done].
    rewrite ?bind_ret in E; cbv beta iota in E. destruct (ring _ _); [|done]. injection E as _ <-. by eapply calm_upd. }
  cbv zeta. apply ensures_any. intros i _. apply ensures_any. intros m _.
  apply (ensures_bind _ Calm); [apply enqueue_calm; [eauto with calm|done]|]. intros s1 H1.
  apply (ensures_bind _ Calm); [case_decide; [by apply enqueue_calm|calm]|]. intros s2 H2.
  apply (ensures_bind _ Calm); [case_decide; [by apply enqueue_calm|calm]|]. intros s3 H3.
  apply (ensures_bind _ Calm); [eauto with calm|]. intros s4 H4.
  apply (ensures_bind _ Calm); [eauto with calm|]. intros s5 H5. by apply dispatch_inst_calm.
Qed.

Lemma dispatch_stalls_calm s i : Calm s → Calm (dispatch_stalls s i).2.
Proof. intros H. unfold dispatch_stalls. repeat case_match; simpl; eauto with calm. Qed.
End Stages.

Section Dispatch.
Context (v : Z * spec_float) (c : Z) (Hc : 0 ≤ c) (junk : Inst) (shl_32 : Z → Z) (ctz_0 : Z).
Local Abbreviation Calm := (calm v c).

Lemma push_front_new_calm s m : Calm s → state m = Ready → ensures Calm (push_front_new s m).
Proof.
  intros H Hm. unfold push_front_new. pose proof (malloc_inst_calm v c s m H Hm) as H1.
  destruct (malloc_inst m s) as [s1 p]. simpl in H1. calm.
Qed.

(** The micro-operations are new instructions. *)
Lemma sp_update_ready i m : sp_update junk i = Some m → state m = Ready.
Proof.
  unfold sp_update. cbv zeta. destruct (add_dst_reg _ _) as [m1|] eqn:E1; [|done]. bs. intros E2.
  apply add_dst_reg_refines in E1 as [_ [_ _ _ _ E1 _]]. apply add_src_reg_refines in E2 as [_ [_ _ _ _ E2 _]].
  rewrite E2. exact E1.
Qed.

Lemma push_op_ready i k m : push_op junk i k = Some m → state m = Ready.
Proof.
  unfold push_op. cbv zeta. destruct (arr_get (eff_addr i) k) as [a|]; [|done]. bs.
  destruct (arr_set _ _ _) as [l|]; [|done]. bs. destruct (arr_get (src_reg i) k) as [r|]; [|done].
  bs. destruct (add_src_reg _ _) as [m1|] eqn:E1; [|done]. bs. intros [= <-].
  apply add_src_reg_refines in E1 as [_ [_ _ _ _ E1 _]]. destruct (_ && _); exact E1.
Qed.

Lemma pop_op_ready i k m : pop_op junk i k = Some m → state m = Ready.
Proof.
  unfold pop_op. cbv zeta. destruct (arr_get (eff_addr i) k) as [a|]; [|done]. bs.
  destruct (arr_set _ _ _) as [l|]; [|done]. bs. destruct (arr_get (dst_reg i) k) as [r|]; [|done].
  bs. destruct (add_dst_reg _ _) as [m1|] eqn:E1; [|done]. bs.
  destruct (add_src_reg _ _) as [m2|] eqn:E2; [|done]. bs. intros [= <-].
  apply add_dst_reg_refines in E1 as [_ [_ _ _ _ E1 _]]. apply add_src_reg_refines in E2 as [_ [_ _ _ _ E2 _]].
  rewrite <-E2 in E1. destruct (_ && _); exact E1.
Qed.

Lemma convert_with_calm op s p :
  (∀ i k m, op i k = Some m → state m = Ready) → Calm s → ensures Calm (convert_with junk op s p).
Proof.
  intros Hop H. unfold convert_with. apply ensures_any. intros i _. apply ensures_any. intros [q o] _.
  apply ensures_any. intros m Em. apply sp_update_ready in Em.
  apply (ensures_bind _ Calm); [apply push_front_new_calm; [eauto with calm|done]|]. intros s1 H1.
  apply ensures_for_down; [|done]. intros k s2 H2. apply ensures_any. intros m' Em'. apply Hop in Em'.
  apply (ensures_bind _ Calm); [by apply push_front_new_calm|]. calm.
Qed.

Lemma convert_microop_calm s p : Calm s → ensures Calm (convert_microop junk s p).
Proof.
  intros H. unfold convert_microop, convert_pop_microop, convert_push_microop. apply ensures_any. intros i _.
  destruct (type i); try (by apply ensures_ret).
  - apply (ensures_bind _ Calm); [|eauto with calm]. apply convert_with_calm; [apply pop_op_ready|done].
  - apply (ensures_bind _ Calm); [|eauto with calm]. apply convert_with_calm; [apply push_op_ready|done].
Qed.

Lemma decode_timely i j : decode_inst shl_32 ctz_0 i = Some j → timely c i → timely c j.
Proof.
  destruct (decoded i) eqn:Hd; [unfold decode_inst; rewrite Hd; by intros [= <-]|].
  intros E. apply decode_inst_ok in E as [[_ [_ _ _ _ E1 E2]] _]; [|done]. unfold timely. by rewrite E1, E2.
Qed.

Lemma dispatch_loop_calm fuel w s : Calm s → ensures Calm (dispatch_loop junk shl_32 ctz_0 fuel w s).
Proof.
  revert w s. induction fuel as [|fuel IH]; intros w s Hs; simpl; [calm|].
  destruct (w <=? 0); [calm|]. apply ensures_any. intros [p|] _; [|calm]. apply ensures_any. intros i Hi.
  apply ensures_any. intros j Ej.
  apply (ensures_bind _ Calm).
  { apply upd_inst_calm; [done|]. intros k Hk Ht. unfold get_inst in Hi. rewrite Hk in Hi. injection Hi as ->.
    by eapply decode_timely. }
  intros s1 H1. apply (ensures_bind _ Calm); [by apply convert_microop_calm|]. intros s2 H2.
  do 2 (apply ensures_any; intros ? _). apply ensures_any. intros k _. pose proof (dispatch_stalls_calm v c s2 k H2) as H3.
  destruct (dispatch_stalls s2 k) as [stall s3]. simpl in H3. destruct stall; [calm|].
  apply ensures_any. intros [m o] _. apply ensures_any. intros p' _. cbv zeta. apply ensures_any. intros i' _.
  case_decide; [calm|]. apply (ensures_bind _ Calm); [apply dispatch_one_calm; [done|eauto with calm]|]. auto.
Qed.

Lemma dispatch_insts_calm s : Calm s → ensures Calm (dispatch_insts junk shl_32 ctz_0 s).
Proof. apply dispatch_loop_calm. Qed.
End Dispatch.

(** ** Execution *)

(** A penalty was added to the average. *)
Definition counted (v v' : Z * spec_float) : Prop :=
  ∃ p, 0 ≤ p ≤ 40 ∧
    v' = (v.1 + 1, ddiv (dadd (dmul v.2 (of_int v.1)) (of_int p)) (of_int (v.1 + 1))).

Lemma count_mispred_counted s i :
  0 ≤ dispatched_cycle i ≤ cur_cycle s → cur_cycle s < 2 ^ 30 → counted (mis s) (mis (count_mispred s i)).
Proof.
  intros Hd Hc. unfold count_mispred. cbv zeta. set (q := s32 _). exists (if 40 <? q then 40 else q). split; [|done].
  destruct (Z.ltb_spec 40 q) as [|Hq]; [lia|]. split; [|done].
  set (d := front_pipeline_depth + cur_cycle s - dispatched_cycle i) in q.
  assert (Hdr : 12 ≤ d < 2 ^ 31) by (unfold d, front_pipeline_depth; lia). clearbody d.
  assert (E : u64 d = d) by (unfold u64, wrap; rewrite Z.mod_small; lia).
  unfold q. rewrite E. unfold s32, swrap. change (2 ^ (32 - 1)) with (2 ^ 31). rewrite Z.mod_small; lia.
Qed.

(** Executing an instruction that has been issued. *)
Lemma execute_inst_calm s p i s' v c :
  calm v c s → c < 2 ^ 30 → insts s !! p = Some i → state i ≠ Ready → execute_inst s p = Some s' →
  ∃ v', calm v' c s' ∧ (v' = v ∨ counted v v').
Proof.
  intros Hs Hc Hp Hi. unfold execute_inst. cbv zeta. set (s0 := s <| num_executed_insts_cycle := _ |>).
  assert (H0 : calm v c s0) by eauto with calm.
  set (i0 := i <| remaining_latency := remaining_latency i - 1 |>).
  assert (E0 : upd_inst s0 p (λ i, i <| remaining_latency := remaining_latency i - 1 |>) =
    Some (s0 <| insts := <[p := i0]> (insts s) |>)) by (unfold upd_inst; by rewrite (upd_Some _ _ i)).
  assert (H1 : calm v c (s0 <| insts := <[p := i0]> (insts s) |>)) by (eapply upd_inst_calm; [exact H0| |exact E0]; by intros).
  rewrite E0. bs. set (s1 := s0 <| insts := _ |>) in *.
  assert (Eg : get_inst s1 p = Some i0) by apply lookup_insert_eq. rewrite Eg. bs.
  assert (H2 : ensures (calm v c) (if remaining_latency i0 <=? 0 then
         s ← upd_inst s1 p (λ i, set_writeback_latency s1
               (i <| state := Complete |> <| completed_cycle := cur_cycle s1 |>));
         release_unit s (inst_type_fu_type_map (type i0)) else Some s1)).
  { destruct (_ <=? 0); [|calm]. apply (ensures_bind _ (calm v c)); [|unfold release_unit; calm].
    apply upd_inst_calm; [done|]. intros k Hk Ht. replace (insts s1 !! p) with (Some i0) in Hk by (symmetry; apply lookup_insert_eq).
    injection Hk as <-. intros _. by apply Ht. }
  destruct (if remaining_latency i0 <=? 0 then _ else _) as [s2|]; [|done]. specialize (H2 s2 eq_refl). bs.
  unfold get_inst. destruct (insts s2 !! p) as [j|] eqn:Ej; [|done]. bs. case_decide as Hd; intros [= <-]; [|exists v; auto].
  exists (mis (count_mispred s2 j)). destruct H2 as (H21 & H22 & H23). split; [split; [done|]; split; [done|exact H23]|]. right.
  rewrite <-H21. apply count_mispred_counted; rewrite H22; [|done]. apply (H23 p); [done|]. destruct Hd as (_ & -> & _). done.
Qed.

(** At most [n] penalties are added. *)
Inductive counted_upto : Z → Z * spec_float → Z * spec_float → Prop :=
  | upto_refl n v : 0 ≤ n → counted_upto n v v
  | upto_step n v v1 v' : counted v v1 → counted_upto n v1 v' → counted_upto (n + 1) v v'.

Lemma upto_weaken n m v v' : n ≤ m → counted_upto n v v' → counted_upto m v v'.
Proof.
  intros Hnm H. revert m Hnm. induction H as [n v|n v v1 v' Hc H IH]; intros m Hnm; [constructor; lia|].
  replace m with (m - 1 + 1) by lia. eapply upto_step; [done|]. apply IH. lia.
Qed.

(** The statistics are in range and leave room for [w] more penalties below [B]. *)
Definition mis_ok (B : Z) (v : Z * spec_float) (w : Z) : Prop :=
  0 ≤ v.1 ∧ v.1 + w ≤ B ∧ within 0 40 v.2.

Lemma upto_ok B n v v' w :
  B ≤ 2 ^ 31 → 0 ≤ w → counted_upto n v v' → mis_ok B v (w + n) → mis_ok B v' w.
Proof.
  intros HB Hw H. induction H as [n v|n v v1 v' (p & Hp & ->) H IH].
  - intros (? & ? & ?). split; [done|]. split; [lia|done].
  - intros (H0 & H1 & H2). apply IH. assert (0 ≤ n) by (clear -H; induction H; lia).
    split; [simpl; lia|]. split; [simpl; lia|]. apply running_average; [done|lia|done].
Qed.
