(* ===== verification/PipelineCommit.v ===== *)
(** Commit: the oldest instructions leave the reorder buffer in order. *)

From Stdlib Require Import ZArith Lia.
From stdpp Require Import base tactics functions option list gmap.
From S2P Require Import Prelude DList InstQueue InstQueueRep CacheSim Inst Rob TraceAnalyzer PipelineInv.

(** The configuration depends only on the widths, the latency and the capacities. *)
Lemma config_ok_same lat s s' :
  config_ok lat s → dispatch_width s' = dispatch_width s → issue_width s' = issue_width s →
  wb_width s' = wb_width s → commit_width s' = commit_width s →
  latency_l1_miss s' = latency_l1_miss s → same_caps (qm s) (qm s') → config_ok lat s'.
Proof.
  intros [] Hd Hi Hw Hc Hl Hq. unfold queue in *.
  constructor; unfold queue; rewrite ?Hq; congruence || lia.
Qed.

Lemma trace_shape_same s s' tr :
  trace_shape s tr → same_caps (qm s) (qm s') → trace_shape s' tr.
Proof. intros (pre & suf & H) Hq. exists pre, suf. unfold queue in *. by rewrite Hq. Qed.

Section Commit.
Context {QV : QMem → view → tails → Prop} {QL : QueueLaws QV}.
Context (lat : Z) (decodes : Inst → Prop).
Local Abbreviation Inv := (Inv QV lat decodes).

Lemma dequeue_rep s V T q f x R :
  QV (qm s) V T → V q ≡ₚ omap (queued f) (x :: R) →
  ∃ m' V', dequeue s q (f x.2) = Some (s <| qm := m' |>) ∧ QV m' V' T ∧ same_caps (qm s) m' ∧
    V' q ≡ₚ omap (queued f) R ∧ (∀ q', q' ≠ q → V' q' = V q').
Proof.
  intros HQ HV. csimpl in HV. unfold queued in HV at 1. destruct (f x.2) as [e|] eqn:Hf; simpl in HV |- *.
  - assert (Hin : (e, Some x.1) ∈ V q) by (rewrite HV; left).
    apply list_elem_of_split in Hin as (xs & ys & Hs).
    destruct (law_remove _ _ _ q xs (e, Some x.1) ys true HQ Hs) as (m' & He & HQ' & Hc).
    simpl in He. rewrite He. csimpl. exists m', (<[q := xs ++ ys]> V). split; [done|].
    split; [done|]. split; [done|]. split.
    + rewrite fn_insert_same. rewrite Hs, <-Permutation_middle in HV. by apply Permutation_cons_inv in HV.
    + intros q' Hq'. by rewrite fn_insert_other.
  - exists (qm s), V. split; [by destruct s|]. done.
Qed.

Lemma ring_remove r x R :
  ring_ok r (x :: R) →
  ∃ r', rob_remove_inst r = Some r' ∧ ring_ok r' R ∧ rob_cap r' = rob_cap r.
Proof.
  intros [Hcap Hst Hlen Hcnt Hend Hent Hat]. unfold rob_remove_inst, ring.
  destruct (Z.eqb_spec (rob_cap r) 0); [lia|]. csimpl. eexists. split; [done|].
  split; [|done]. simpl in Hlen, Hcnt, Hend.
  assert (Hmod : Z.rem (start_idx r + 1) (rob_cap r) = (start_idx r + 1) mod rob_cap r).
  { apply Z.rem_mod_nonneg; lia. }
  constructor; simpl; rewrite ?Hmod; try done; try lia.
  - apply Z.mod_pos_bound. lia.
  - rewrite Hend, Zplus_mod_idemp_l. f_equal. lia.
  - intros k y Hk. rewrite Zplus_mod_idemp_l.
    replace (start_idx r + 1 + Z.of_nat k) with (start_idx r + Z.of_nat (S k)) by lia. by apply Hat.
Qed.

Lemma type_num_lt t : 0 ≤ type_num t < 13.
Proof. destruct t; simpl; lia. Qed.

(** Committing the oldest instruction. *)
Lemma commit_one_inv s V T tr p i R :
  Inv s V T tr ((p, i) :: R) → state i = Complete → remaining_latency i = 0 →
  ∃ s' V', commit_one s p = Some s' ∧ Inv s' V' T tr R ∧ fu s' = fu s ∧ cur_cycle s' = cur_cycle s ∧
    num_committed_insts s' = num_committed_insts s + 1.
Proof.
  intros HI Hst Hrl. pose proof HI as [Hcfg HQ HT Htr Hiq Hfub Hldq Hstq Hheap Hnd Hbrk Hring Hdep Hfu
    Hfl Htro Hsh Hfe Hdi Hty].
  set (i1 := i <| committed_cycle := cur_cycle s |>).
  pose proof (nodup_replace _ _ _ i1 _ Hnd) as Hnd1.
  unfold commit_one. rewrite (upd_inst_at _ _ _ _ _ _ Hheap Hnd). fold i1. bs.
  set (s1 := s <| insts := _ |>).
  rewrite (get_inst_at s1 _ p i1 eq_refl Hnd1) by set_solver. bs.
  destruct (dequeue_rep s1 V T LDQ ldq_elem (p, i) R HQ Hldq) as (m2 & V2 & E2 & HQ2 & Hc2 & Hl2 & Ho2).
  change (dequeue s1 LDQ (ldq_elem i1)) with (dequeue s1 LDQ (ldq_elem i)). cbn [snd] in E2. rewrite E2. bs. set (s2 := s1 <| qm := m2 |>).
  rewrite <-(Ho2 STQ) in Hstq by done.
  destruct (dequeue_rep s2 V2 T STQ stq_elem (p, i) R HQ2 Hstq)
    as (m3 & V3 & E3 & HQ3 & Hc3 & Hs3 & Ho3).
  change (stq_elem i1) with (stq_elem i). cbn [snd] in E3. rewrite E3. bs.
  destruct (ring_remove _ _ _ Hring) as (r' & Er & Hring' & Hcap').
  change (rob (s2 <| qm := m3 |>)) with (rob s). rewrite Er. bs.
  destruct (arr_get_is_Some (num_inst_type s) (type_num (type i))) as [n Hn].
  { rewrite Hty. apply type_num_lt. }
  change (arr_get _ _) with (arr_get (num_inst_type s) (type_num (type i))). rewrite Hn. bs.
  rewrite arr_set_Some by (simpl; rewrite Hty; apply type_num_lt). bs.
  rewrite (free_inst_at _ tr p i1 R) by (reflexivity || exact Hnd1). bs.
  assert (Hcs : same_caps (qm s) m3) by (eapply same_caps_trans; [apply Hc2|apply Hc3]).
  eexists _, V3. split; [done|]. split; [|done]. clear E2 E3. apply Forall_cons in Hfl as [_ Hfl'].
  assert (Hnd' : ∀ q, q ≠ LDQ → q ≠ STQ → V3 q = V q) by (intros q ? ?; by rewrite Ho3, Ho2).
  constructor; simpl; try done.
  - by eapply config_ok_same.
  - by rewrite Hnd'.
  - rewrite Hnd' by done. rewrite filter_cons, decide_False in Hiq; [done|]. unfold dispatched. simpl. congruence.
  - rewrite Hnd' by done. rewrite filter_cons, decide_False in Hfub; [done|].
    unfold in_fu. simpl. rewrite Hst, Hrl. intros [|[_ ?]]; [done|lia].
  - by rewrite Ho3.
  - by apply NoDup_fst_middle in Hnd as [? _].
  - intros q Hq. apply Hbrk. rewrite fmap_app in *. simpl. set_solver.
  - destruct Hfu as [Hfl7 Hfu]. split; [done|]. intros t f Hf. destruct (Hfu t f Hf) as (? & ? & Ha).
    split_and!; try done. rewrite filter_cons, decide_False in Ha; [done|].
    unfold on_unit. simpl. rewrite Hst. intros [? _]. done.
  - by eapply trace_shape_same.
  - simpl in Hfe. lia.
  - by rewrite length_insert.
Qed.

(** The oldest instruction is at [start_idx]. *)
Lemma ring_oldest r x R : ring_ok r (x :: R) → rob_get_oldest_inst r = Some (Some x.1).
Proof.
  intros Hr. unfold rob_get_oldest_inst. destruct (ring_at _ _ Hr 0%nat x eq_refl) as [H _]. destruct Hr.
  rewrite Z.add_0_r, Z.mod_small in H by lia. done.
Qed.

Definition retired (x : pinst) : Prop := state x.2 = Complete ∧ remaining_latency x.2 = 0.

(** Commit retires a prefix of the instructions in flight, all of them complete, at most
    [w]; it stops early only at an instruction that is not; if it retires none, the state is
    unchanged. *)
Lemma commit_loop_inv w s V T tr R :
  Inv s V T tr R →
  ∃ s' V' n, commit_loop w s = Some s' ∧ Inv s' V' T tr (drop n R) ∧ (n ≤ w)%nat ∧ (n ≤ length R)%nat ∧
    Forall retired (take n R) ∧ fu s' = fu s ∧ cur_cycle s' = cur_cycle s ∧
    num_committed_insts s' = num_committed_insts s + Z.of_nat n ∧
    (n = 0%nat → s' = s ∧ V' = V) ∧ ((n < w)%nat → ∀ x R', drop n R = x :: R' → ¬ retired x).
Proof.
  revert s V R. induction w as [|w IH]; intros s V R HI.
  { exists s, V, 0%nat. rewrite drop_0. simpl. split_and!; try done; [lia|lia|lia]. }
  pose proof (inv_ring _ _ _ _ _ _ _ _ HI) as Hring. simpl. unfold is_rob_empty.
  rewrite (ring_count _ _ Hring). destruct R as [|[p i] R]; simpl.
  { exists s, V, 0%nat. rewrite drop_0. simpl. split_and!; try done; lia. }
  rewrite (ring_oldest _ _ _ Hring). csimpl. unfold get_inst.
  rewrite (inv_heap _ _ _ _ _ _ _ _ HI), (heap_lookup _ p i); [|apply HI|set_solver]. csimpl.
  case_decide as Hc.
  - destruct (commit_one_inv _ _ _ _ _ _ _ HI (proj1 Hc) (proj2 Hc)) as (s1 & V1 & He1 & HI1 & Hf1 & Hcy1 & Hn1).
    rewrite He1. csimpl. destruct (IH s1 V1 R HI1) as (s' & V' & n & He & HI' & Hn & Hl & Hr & Hf & Hcy & Hc' & _ & Hmax).
    exists s', V', (S n). simpl. split_and!; first [done | lia | congruence | by constructor | idtac].
    intros Hlt. apply Hmax. lia.
  - exists s, V, 0%nat. rewrite drop_0. simpl. split_and!; try done; try lia.
    by intros _ x R' [= <- <-].
Qed.
End Commit.
