(* ===== verification/PipelineExec.v ===== *)
(** Execution and write-back: the instructions in the functional-unit buffer advance. *)

From Stdlib Require Import ZArith Lia.
From stdpp Require Import base tactics functions option list gmap.
From S2P Require Import Prelude DList InstQueue InstQueueRep CacheSim Inst Rob TraceAnalyzer PipelineInv PipelineStats PipelineCommit.

(** ** Changing one instruction in flight *)

(** The parts of the state that execution, write-back and issue leave alone. *)
Record frame (s s' : TA) : Prop := {
  fr_caps : same_caps (qm s) (qm s');
  fr_brk : ibrk s' = ibrk s;
  fr_cycle : cur_cycle s' = cur_cycle s;
  fr_rob : rob s' = rob s;
  fr_dep : dep_mat s' = dep_mat s;
  fr_dw : dispatch_width s' = dispatch_width s;
  fr_iw : issue_width s' = issue_width s;
  fr_ww : wb_width s' = wb_width s;
  fr_cw : commit_width s' = commit_width s;
  fr_lat : latency_l1_miss s' = latency_l1_miss s;
  fr_types : num_inst_type s' = num_inst_type s;
  fr_fetched : num_fetched_insts s' = num_fetched_insts s;
  fr_committed : num_committed_insts s' = num_committed_insts s;
  fr_dispatched : num_dispatched_insts s' = num_dispatched_insts s;
}.

Lemma frame_refl s : frame s s.
Proof. done. Qed.

Lemma frame_trans s1 s2 s3 : frame s1 s2 → frame s2 s3 → frame s1 s3.
Proof. intros [] []. split; congruence || by eapply same_caps_trans. Qed.

#[export] Hint Resolve frame_refl : core.

Section Filters.
Context (P : pinst → Prop) `{∀ x, Decision (P x)}.

Lemma filter_keep R1 p i j R2 :
  (P (p, i) ↔ P (p, j)) →
  (filter P (R1 ++ (p, j) :: R2)).*1 = (filter P (R1 ++ (p, i) :: R2)).*1.
Proof.
  intros Hij. rewrite !filter_app, !fmap_app, !filter_cons. f_equal.
  repeat case_decide; naive_solver.
Qed.

Lemma filter_leave R1 p i j R2 :
  P (p, i) → ¬ P (p, j) →
  (filter P (R1 ++ (p, i) :: R2)).*1 ≡ₚ p :: (filter P (R1 ++ (p, j) :: R2)).*1.
Proof.
  intros Hi Hj. rewrite !filter_app, !fmap_app, !filter_cons.
  rewrite (decide_True (P := P (p, i))), (decide_False (P := P (p, j))) by done. simpl.
  by rewrite Permutation_middle.
Qed.
End Filters.

(** The units count the same instructions. *)
Lemma fu_ok_keep l R1 p i j R2 :
  fu_ok l (R1 ++ (p, i) :: R2) → (∀ t, on_unit t (p, i) ↔ on_unit t (p, j)) →
  fu_ok l (R1 ++ (p, j) :: R2).
Proof.
  intros [Hl Hf] Hij. split; [done|]. intros t f Ht. destruct (Hf t f Ht) as (? & ? & Ha).
  split_and!; try done. rewrite Ha, <-!(length_fmap fst).
  by rewrite (filter_keep _ R1 p i j R2 (Hij t)).
Qed.

Lemma fu_num_range t : 0 ≤ fu_num t < 7.
Proof. destruct t; simpl; lia. Qed.

Lemma fu_num_inj t t' : fu_num t = fu_num t' → t = t'.
Proof. by destruct t, t'. Qed.

Lemma fu_num_surj k : (k < 7)%nat → ∃ t, fu_num t = Z.of_nat k.
Proof.
  intros Hk. destruct k as [|[|[|[|[|[|[|k]]]]]]]; [by exists SimpleALU|by exists ComplexALU|by exists FPUnit|
    by exists LoadUnit|by exists StoreUnit|by exists BranchUnit|by exists EtcUnit|lia].
Qed.

Lemma filter_length_keep t R1 p i j R2 :
  (on_unit t (p, i) ↔ on_unit t (p, j)) →
  length (filter (on_unit t) (R1 ++ (p, j) :: R2)) = length (filter (on_unit t) (R1 ++ (p, i) :: R2)).
Proof. intros Hij. rewrite <-!(length_fmap fst). by rewrite (filter_keep _ R1 p i j R2 Hij). Qed.

(** One unit changes its counters, as the instructions on it change. *)
Lemma fu_ok_set l R R' t f f' :
  fu_ok l R → arr_get l (fu_num t) = Some f →
  fu_capacity f' = fu_capacity f → num_stage f' = num_stage f →
  num_active f' = Z.of_nat (length (filter (on_unit t) R')) →
  (∀ t', t' ≠ t → length (filter (on_unit t') R') = length (filter (on_unit t') R)) →
  fu_ok (<[Z.to_nat (fu_num t) := f']> l) R'.
Proof.
  intros [Hl Hfu] Hf Hc Hs Ha Ho. split; [by rewrite length_insert|]. intros t' g Hg.
  apply arr_get_Some in Hg as [_ Hg]. pose proof (fu_num_range t). pose proof (fu_num_range t').
  destruct (decide (t' = t)) as [->|Hne].
  - rewrite list_lookup_insert_eq in Hg by lia. injection Hg as <-.
    destruct (Hfu t f Hf) as (? & ? & _). rewrite Hc, Hs. done.
  - rewrite list_lookup_insert_ne in Hg by (intros He; apply Hne, fu_num_inj; lia).
    rewrite Ho by done. apply Hfu. apply arr_get_Some. split; [lia|done].
Qed.

Section Exec.
Context {QV : QMem → view → tails → Prop} {QL : QueueLaws QV}.
Context (lat : Z) (decodes : Inst → Prop).
Local Abbreviation Inv := (Inv QV lat decodes).

(** Replacing an instruction in flight by one that has the same place in the reorder buffer
    and in the load and store queues. *)
Lemma inv_replace s V T tr R1 p i R2 s' V' j :
  Inv s V T tr (R1 ++ (p, i) :: R2) → frame s s' →
  insts s' = list_to_map (tr ++ R1 ++ (p, j) :: R2) → QV (qm s') V' T →
  (∀ q, q = TRACE ∨ q = LDQ ∨ q = STQ → V' q = V q) →
  (V' IQ).*2 ≡ₚ Some <$> (filter dispatched (R1 ++ (p, j) :: R2)).*1 →
  (V' FUB).*2 ≡ₚ Some <$> (filter in_fu (R1 ++ (p, j) :: R2)).*1 →
  fu_ok (fu s') (R1 ++ (p, j) :: R2) →
  rob_idx j = rob_idx i → ldq_elem j = ldq_elem i → stq_elem j = stq_elem i → flight_ok lat j →
  Inv s' V' T tr (R1 ++ (p, j) :: R2).
Proof.
  intros [Hcfg HQ HT Htr Hiq Hfub Hldq Hstq Hheap Hnd Hbrk Hring Hdep Hfu Hfl Htro Hsh Hfe Hdi Hty]
    Hfr Hh HQ' HV' Hiq' Hfub' Hfu' Hrob Hl Hs Hok.
  destruct Hfr as [Hcaps Eb _ Er Ed ? ? ? ? ? Et Ef Ec Edi].
  assert (Hlen : length (R1 ++ (p, j) :: R2) = length (R1 ++ (p, i) :: R2)) by (by rewrite !length_app).
  assert (Hk : ∀ k y, (R1 ++ (p, j) :: R2) !! k = Some y →
    ∃ x, (R1 ++ (p, i) :: R2) !! k = Some x ∧ y.1 = x.1 ∧ rob_idx y.2 = rob_idx x.2).
  { intros k y Hy. destruct (decide (k < length R1)%nat) as [Hlt|Hge].
    - rewrite lookup_app_l in Hy |- * by done. by exists y.
    - rewrite lookup_app_r in Hy |- * by lia. destruct (k - length R1)%nat; simpl in *.
      + injection Hy as <-. by exists (p, i).
      + by exists y. }
  constructor; rewrite ?Eb, ?Ed, ?Et, ?Ef, ?Ec, ?Edi; try done.
  - by eapply config_ok_same.
  - by rewrite HV' by auto.
  - rewrite HV' by auto. rewrite Hldq, !omap_app. simpl. unfold queued. simpl. by rewrite Hl.
  - rewrite HV' by auto. rewrite Hstq, !omap_app. simpl. unfold queued. simpl. by rewrite Hs.
  - rewrite !fmap_app in *. done.
  - intros q Hq. apply Hbrk. rewrite !fmap_app in *. done.
  - rewrite Er. destruct Hring as [? ? ? ? ? ? Hat]. constructor; rewrite ?Hlen; try done.
    intros k y Hy. destruct (Hk k y Hy) as (x & Hx & -> & ->). by apply Hat.
  - apply Forall_app in Hfl as [? Hfl]. apply Forall_cons in Hfl as [_ ?].
    apply Forall_app. split; [done|]. by constructor.
  - by eapply trace_shape_same.
  - by rewrite Hlen.
Qed.

(** An element of the functional-unit buffer is an instruction in flight. *)
Lemma fub_split s V T tr R xs x ys :
  Inv s V T tr R → V FUB = xs ++ x :: ys →
  ∃ p i R1 R2, x.2 = Some p ∧ R = R1 ++ (p, i) :: R2 ∧ in_fu (p, i).
Proof.
  intros HI HV. pose proof (inv_fub _ _ _ _ _ _ _ _ HI) as Hf. rewrite HV in Hf.
  assert (Hin : x.2 ∈ Some <$> (filter in_fu R).*1) by (rewrite <-Hf, fmap_app; set_solver).
  apply list_elem_of_fmap in Hin as (p & Hx & Hp). apply list_elem_of_fmap in Hp as ([p' i] & -> & Hi).
  apply list_elem_of_filter in Hi as [Hfu Hi]. apply list_elem_of_split in Hi as (R1 & R2 & HR).
  by exists p', i, R1, R2.
Qed.

Lemma inv_split_ok s V T tr R1 p i R2 :
  Inv s V T tr (R1 ++ (p, i) :: R2) → flight_ok lat i ∧
  insts s = list_to_map ((tr ++ R1) ++ (p, i) :: R2) ∧ NoDup ((tr ++ R1) ++ (p, i) :: R2).*1.
Proof.
  intros HI. rewrite <-app_assoc. split_and!; try apply HI.
  pose proof (inv_flight _ _ _ _ _ _ _ _ HI) as Hf. apply Forall_app in Hf as [_ Hf].
  by apply Forall_cons in Hf as [? _].
Qed.

(** ** Write-back *)

(** No instruction of the list is in state [st]. *)
Definition none_in (st : InstState) (R : list pinst) (l : list (ptr * option ptr)) : Prop :=
  ∀ p i, (p, i) ∈ R → Some p ∈ l.*2 → state i ≠ st.

Lemma work_mid R1 p i j R2 :
  flight_work lat j < flight_work lat i →
  sum_of (flight_work lat) (R1 ++ (p, j) :: R2) < sum_of (flight_work lat) (R1 ++ (p, i) :: R2).
Proof. intros. rewrite !sum_of_mid. simpl. lia. Qed.

(** One instruction of the buffer: a complete one comes one cycle closer to its commit, and
    leaves the buffer when it is there. *)
Lemma writeback_step s V T tr R1 p i R2 pre e suf :
  Inv s V T tr (R1 ++ (p, i) :: R2) → V FUB = pre ++ (e, Some p) :: suf →
  state i = Complete → 0 < remaining_latency i →
  let j := i <| remaining_latency := remaining_latency i - 1 |> in
  let s1 := s <| insts := list_to_map (tr ++ R1 ++ (p, j) :: R2) |> in
  writeback_inst s p = Some s1 ∧ get_inst s1 p = Some j ∧
  flight_work lat j < flight_work lat i ∧
  if decide (remaining_latency j = 0) then
    ∃ m, remove_from_list (qm s1) FUB e true = Some m ∧ same_caps (qm s) m ∧
      Inv (s1 <| qm := m |>) (<[FUB := pre ++ suf]> V) T tr (R1 ++ (p, j) :: R2)
  else Inv s1 V T tr (R1 ++ (p, j) :: R2).
Proof.
  intros HI HV Hc Hrl j s1. pose proof (inv_split_ok _ _ _ _ _ _ _ _ HI) as (Hok & Hheap & Hnd).
  assert (Hokj : flight_ok lat j).
  { destruct Hok as ([] & ? & ? & Hr). split; [done|]. split; [done|]. split; [done|].
    simpl. rewrite Hc in Hr |- *. lia. }
  assert (Hdis : dispatched (p, i) ↔ dispatched (p, j)) by done.
  assert (Hun : ∀ t, on_unit t (p, i) ↔ on_unit t (p, j)) by done.
  assert (Hwb : writeback_inst s p = Some s1).
  { unfold writeback_inst. rewrite (get_inst_mid _ _ _ _ _ Hheap Hnd). bs.
    rewrite decide_True by done. rewrite (upd_inst_at _ _ _ _ _ _ Hheap Hnd). by rewrite <-app_assoc. }
  split; [done|]. split.
  { apply (get_inst_mid _ (tr ++ R1) p j R2); [by rewrite <-app_assoc|by eapply nodup_replace]. }
  split; [unfold flight_work; simpl; rewrite Hc; lia|].
  assert (Hiq' : (V IQ).*2 ≡ₚ Some <$> (filter dispatched (R1 ++ (p, j) :: R2)).*1).
  { by rewrite (filter_keep _ R1 p i j R2 Hdis), (inv_iq _ _ _ _ _ _ _ _ HI). }
  assert (Hfu' : fu_ok (fu s) (R1 ++ (p, j) :: R2)).
  { eapply fu_ok_keep; [apply HI|done]. }
  pose proof (inv_fub _ _ _ _ _ _ _ _ HI) as Hfub.
  case_decide as Hz.
  - destruct (law_remove _ _ _ FUB pre (e, Some p) suf true (inv_qv _ _ _ _ _ _ _ _ HI) HV)
      as (m & Hm & HQ & Hcaps).
    exists m. split; [done|]. split; [done|]. eapply inv_replace; try done; simpl.
    + intros q [->|[->| ->]]; by rewrite fn_insert_other.
    + rewrite HV, (filter_leave _ R1 p i j R2) in Hfub; [|right; done|].
      2:{ intros [H|[_ H]]; simpl in H, Hz; [congruence|lia]. }
      rewrite fn_insert_same. rewrite fmap_app in *. simpl in Hfub.
      rewrite <-Permutation_middle in Hfub. by apply Permutation_cons_inv in Hfub.
  - eapply inv_replace; try done; simpl; [apply HI|].
    rewrite (filter_keep _ R1 p i j R2); [done|]. unfold in_fu. simpl in *. rewrite Hc.
    destruct Hokj as (_ & _ & _ & Hr). simpl in Hr. rewrite Hc in Hr. intuition lia.
Qed.

Lemma inv_unique s V T tr R p i j :
  Inv s V T tr R → (p, i) ∈ R → (p, j) ∈ R → i = j.
Proof.
  intros HI Hi Hj. pose proof (inv_nodup _ _ _ _ _ _ _ _ HI) as Hnd.
  assert (H : (list_to_map (tr ++ R) : gmap ptr Inst) !! p = Some i) by (apply heap_lookup; set_solver).
  rewrite (heap_lookup _ p j) in H; [by injection H|done|set_solver].
Qed.

(** The state after a stage went over (part of) the functional-unit buffer: less work, or
    nothing happened and then [why]. *)
Definition less_or_same (s s' : TA) (V V' : view) (R R' : list pinst) (why : Prop) : Prop :=
  sum_of (flight_work lat) R' < sum_of (flight_work lat) R ∨ (s' = s ∧ V' = V ∧ R' = R ∧ why).

Lemma fub_node s V T tr R pre e v suf :
  Inv s V T tr R → V FUB = pre ++ (e, v) :: suf →
  ∃ c p i R1 R2, elems (qm s) !! e = Some c ∧ elem_inst c = Some p ∧
    next_inst_elem c = first_ptr suf None ∧ v = Some p ∧ R = R1 ++ (p, i) :: R2 ∧ in_fu (p, i).
Proof.
  intros HI HV. destruct (fub_split _ _ _ _ _ _ _ _ HI HV) as (p & i & R1 & R2 & Hp & -> & Hin).
  destruct (law_node _ _ _ FUB pre (e, v) suf (inv_qv _ _ _ _ _ _ _ _ HI) HV) as (c & Hc & Hv & Hnx).
  simpl in *. subst v. by exists c, p, i, R1, R2.
Qed.

(** One iteration on a complete instruction. *)
Lemma writeback_iter fuel w s V T tr R1 p i R2 pre e suf c :
  Inv s V T tr (R1 ++ (p, i) :: R2) → V FUB = pre ++ (e, Some p) :: suf →
  elems (qm s) !! e = Some c → elem_inst c = Some p → 0 < w →
  state i = Complete → 0 < remaining_latency i →
  ∃ s1 V1 j w1 pre1, writeback_loop (S fuel) w (Some e) s = writeback_loop fuel w1 (next_inst_elem c) s1 ∧
    Inv s1 V1 T tr (R1 ++ (p, j) :: R2) ∧ V1 FUB = pre1 ++ suf ∧ 0 ≤ w1 ∧ frame s s1 ∧ fu s1 = fu s ∧
    flight_work lat j < flight_work lat i.
Proof.
  intros HI HV Hc Hp Hw Hst Hrl.
  destruct (writeback_step _ _ _ _ _ _ _ _ _ _ _ HI HV Hst Hrl) as (Hwb & Hg & Hwk & Hj).
  set (j := i <| remaining_latency := remaining_latency i - 1 |>) in *.
  set (s1 := s <| insts := list_to_map (tr ++ R1 ++ (p, j) :: R2) |>) in *.
  cbn [writeback_loop]. rewrite (proj2 (Z.eqb_neq w 0)), Hc by lia. bs. rewrite Hp. bs.
  rewrite Hwb. bs. rewrite Hg. bs. case_decide as Hz.
  - destruct Hj as (m & Hm & Hcaps & HI1). rewrite decide_True by done. rewrite Hm. bs.
    exists (s1 <| qm := m |>), (<[FUB := pre ++ suf]> V), j, (w - 1), pre.
    split_and!; try done; lia.
  - rewrite decide_False by tauto. exists s1, V, j, w, (pre ++ [(e, Some p)]).
    split_and!; try done; [by rewrite <-app_assoc|lia].
Qed.

Lemma none_in_cons st s V T tr R p i e suf :
  Inv s V T tr R → (p, i) ∈ R → state i ≠ st → none_in st R suf →
  none_in st R ((e, Some p) :: suf).
Proof.
  intros HI Hi Hc Hn p' i' Hi' Hs. apply elem_of_cons in Hs as [[= ->]|Hs]; [|by eapply Hn].
  by rewrite (inv_unique _ _ _ _ _ _ _ _ HI Hi' Hi).
Qed.

Lemma writeback_loop_inv suf fuel w s V T tr R pre :
  (length suf ≤ fuel)%nat → 0 ≤ w → Inv s V T tr R → V FUB = pre ++ suf →
  ∃ s' V' R', writeback_loop fuel w (first_ptr suf None) s = Some s' ∧ Inv s' V' T tr R' ∧
    frame s s' ∧ fu s' = fu s ∧ R'.*1 = R.*1 ∧
    less_or_same s s' V V' R R' (w = 0 ∨ none_in Complete R suf).
Proof.
  revert fuel w s V R pre. induction suf as [|[e v] suf IH]; intros fuel w s V R pre Hf Hw HI HV.
  { exists s, V, R. destruct fuel; simpl; (split; [by destruct (w =? 0)|]); split_and!; try done;
      right; split_and!; try done; right; intros ????; set_solver. }
  destruct fuel as [|fuel]; simpl in Hf; [lia|].
  destruct (decide (w = 0)) as [->|Hw0].
  { exists s, V, R. split_and!; try done. right. auto. }
  destruct (fub_node _ _ _ _ _ _ _ _ _ HI HV) as (c & p & i & R1 & R2 & Hc & Hp & Hnx & -> & -> & Hin).
  change (first_ptr _ None) with (Some e). destruct Hin as [Hi|[Hst Hrl]].
  - simpl in Hi. cbn [writeback_loop]. pose proof (inv_split_ok _ _ _ _ _ _ _ _ HI) as (_ & Hheap & Hnd).
    rewrite (proj2 (Z.eqb_neq w 0)), Hc by done. bs. rewrite Hp, Hnx. bs.
    unfold writeback_inst. rewrite (get_inst_mid _ _ _ _ _ Hheap Hnd). bs.
    rewrite decide_False by congruence. bs. rewrite (get_inst_mid _ _ _ _ _ Hheap Hnd). bs.
    rewrite decide_False by (intros []; congruence).
    destruct (IH fuel w s V _ (pre ++ [(e, Some p)]) ltac:(lia) Hw HI)
      as (s' & V' & R' & He & HI' & Hfr & Hfu & Hp' & Hl); [by rewrite <-app_assoc|].
    exists s', V', R'. split_and!; try done. destruct Hl as [?|(-> & -> & -> & Hl)]; [by left|].
    right. split_and!; try done. destruct Hl as [?|Hl]; [by left|right].
    eapply none_in_cons; [done|apply elem_of_app; right; left|congruence|done].
  - destruct (writeback_iter fuel w _ _ _ _ _ _ _ _ _ _ _ _ HI HV Hc Hp ltac:(lia) Hst Hrl)
      as (s1 & V1 & j & w1 & pre1 & Ew & HI1 & HV1 & Hw1 & Hfr1 & Hfu1 & Hwk).
    rewrite Ew, Hnx. pose proof (work_mid R1 p _ _ R2 Hwk) as Hwk'.
    destruct (IH fuel w1 s1 _ _ pre1 ltac:(lia) Hw1 HI1 HV1)
      as (s' & V' & R' & He & HI' & Hfr & Hfu & Hp' & Hl).
    exists s', V', R'. split; [done|]. split; [done|]. split; [by eapply frame_trans|].
    split_and!; [congruence|by rewrite Hp', !fmap_app|]. left. destruct Hl as [?|(_ & _ & -> & _)]; lia.
Qed.

Lemma writeback_insts_inv s V T tr R :
  Inv s V T tr R →
  ∃ s' V' R', writeback_insts s = Some s' ∧ Inv s' V' T tr R' ∧ frame s s' ∧ fu s' = fu s ∧
    R'.*1 = R.*1 ∧ less_or_same s s' V V' R R' (none_in Complete R (V FUB)).
Proof.
  intros HI. unfold writeback_insts, queue. pose proof (inv_qv _ _ _ _ _ _ _ _ HI) as HQ.
  pose proof (cfg_wb _ _ (inv_cfg _ _ _ _ _ _ _ _ HI)) as Hw.
  rewrite (law_front _ _ _ FUB HQ), (law_size _ _ _ FUB HQ), Nat2Z.id.
  destruct (writeback_loop_inv (V FUB) (length (V FUB)) (wb_width s) s V T tr R [])
    as (s' & V' & R' & ? & ? & ? & ? & ? & Hl); try done; [lia|].
  exists s', V', R'. split_and!; try done. destruct Hl as [?|(? & ? & ? & [?|?])]; [by left|lia|by right].
Qed.

(** ** Execution *)

(** Whether or not a misprediction is counted, nothing the invariant mentions changes. *)
Lemma count_mispred_frame P `{Decision P} s i :
  ∃ s', (if decide P then Some (count_mispred s i) else Some s) = Some s' ∧ frame s s' ∧
    insts s' = insts s ∧ qm s' = qm s ∧ fu s' = fu s.
Proof. case_decide; eexists; (split; [done|]); by split_and!. Qed.

Lemma set_writeback_latency_ok s i :
  latency_l1_miss s = lat → 0 ≤ lat → 2 ≤ remaining_latency (set_writeback_latency s i) ≤ wb_max lat.
Proof.
  intros Hl Hlat. unfold set_writeback_latency, default_wb_latency, wb_max. rewrite Hl. simpl.
  case_decide; [destruct (negb _)|]; lia.
Qed.

(** The units accept as many more instructions this cycle as before. *)
Definition same_issue (s s' : TA) : Prop := num_issue <$> fu s' = num_issue <$> fu s.

(** Releasing the unit of an instruction that completes. *)
Lemma release_unit_ok s R1 p i j R2 :
  let t := inst_type_fu_type_map (type i) in
  fu_ok (fu s) (R1 ++ (p, i) :: R2) → state i = Issue → state j ≠ Issue →
  ∃ l, release_unit s t = Some (s <| fu := l |>) ∧ num_issue <$> l = num_issue <$> fu s ∧
    fu_ok l (R1 ++ (p, j) :: R2).
Proof.
  intros t Hok Hi Hj. pose proof (fu_num_range t) as Ht. pose proof (proj1 Hok) as Hl.
  destruct (arr_get_is_Some (fu s) (fu_num t)) as [f Hf]; [lia|]. unfold release_unit.
  rewrite Hf. bs. rewrite arr_set_Some by lia. bs. eexists. split; [done|]. split.
  - rewrite list_fmap_insert. apply list_insert_id. apply arr_get_Some in Hf as [_ Hf].
    by rewrite list_lookup_fmap, Hf.
  - apply (fu_ok_set _ (R1 ++ (p, i) :: R2) _ _ f); try done.
    + pose proof (proj2 Hok t f Hf) as (_ & _ & Ha). simpl. rewrite Ha.
      pose proof (filter_leave (on_unit t) R1 p i j R2 ltac:(done) ltac:(by intros [? _])) as Hp.
      apply Permutation_length in Hp. simpl in Hp. rewrite !length_fmap in Hp. lia.
    + intros t' Hne. apply filter_length_keep. split; intros [Hs Ht']; simpl in *; [|done].
      by destruct Hne.
Qed.

Lemma execute_inst_inv s V T tr R1 p i R2 :
  Inv s V T tr (R1 ++ (p, i) :: R2) → state i = Issue →
  ∃ s' j, execute_inst s p = Some s' ∧ Inv s' V T tr (R1 ++ (p, j) :: R2) ∧ frame s s' ∧
    same_issue s s' ∧ qm s' = qm s ∧ flight_work lat j < flight_work lat i.
Proof.
  intros HI Hi. pose proof (inv_split_ok _ _ _ _ _ _ _ _ HI) as (Hok & Hheap & Hnd).
  pose proof (inv_cfg _ _ _ _ _ _ _ _ HI) as Hcfg.
  set (j0 := i <| remaining_latency := remaining_latency i - 1 |>).
  pose proof (nodup_replace _ p i j0 _ Hnd) as Hnd0. unfold execute_inst.
  set (s0 := s <| num_executed_insts_cycle := _ |>). cbv zeta. rewrite (upd_inst_at s0 _ p i R2 _ Hheap Hnd). fold j0. bs.
  set (s1 := s0 <| insts := _ |>). rewrite (get_inst_mid s1 (tr ++ R1) p j0 R2 eq_refl Hnd0). bs.
  destruct Hok as (Hsh & Hpl & Hun & Hr). rewrite Hi in Hr.
  destruct (Z.leb_spec (remaining_latency j0) 0) as [Hle|Hgt].
  - set (j := set_writeback_latency s1 (j0 <| state := Complete |> <| completed_cycle := cur_cycle s1 |>)).
    pose proof (set_writeback_latency_ok s1 (j0 <| state := Complete |> <| completed_cycle := cur_cycle s1 |>)
      (cfg_lat _ _ Hcfg) (cfg_lat_pos _ _ Hcfg)) as Hj. fold j in Hj.
    pose proof (nodup_replace _ p i j _ Hnd) as Hndj.
    rewrite (upd_inst_at s1 _ p j0 R2 _ eq_refl Hnd0). fold j. bs. set (s2 := s1 <| insts := _ |>).
    destruct (release_unit_ok s2 R1 p i j R2 (inv_fu _ _ _ _ _ _ _ _ HI) Hi ltac:(done)) as (l & El & Hil & Hfl).
    change (type j0) with (type i). rewrite El. bs. set (s3 := s2 <| fu := l |>).
    rewrite (get_inst_mid s3 (tr ++ R1) p j R2 eq_refl Hndj). bs.
    destruct (count_mispred_frame (type j = Branch ∧ state j = Complete ∧ bpred_mispred j = true) s3 j)
      as (s4 & -> & Hfr & Eh & Eq & Ef).
    exists s4, j. split; [done|]. split_and!.
    + eapply (inv_replace s V); try done.
      * eapply frame_trans; [|exact Hfr]. done.
      * by rewrite Eh, app_assoc.
      * rewrite Eq. apply HI.
      * rewrite (filter_keep _ R1 p i j R2); [apply HI|]. unfold dispatched. simpl. by rewrite Hi.
      * rewrite (filter_keep _ R1 p i j R2); [apply HI|]. split; intros _; [|by left].
        right. split; [done|]. cbn [snd]. lia.
      * by rewrite Ef.
      * split; [by destruct Hsh|]. do 2 (split; [done|]). change (0 ≤ remaining_latency j ≤ wb_max lat). lia.
    + eapply frame_trans; [|exact Hfr]. done.
    + unfold same_issue. by rewrite Ef.
    + by rewrite Eq.
    + unfold flight_work. change (state j) with Complete. rewrite Hi. lia.
  - bs. rewrite (get_inst_mid s1 (tr ++ R1) p j0 R2 eq_refl Hnd0). bs.
    rewrite decide_False by (intros (_ & Hc & _); change (state j0) with (state i) in Hc; congruence).
    exists s1, j0. split; [done|]. split_and!; try done.
    + eapply (inv_replace s V); try done.
      * unfold s1. simpl. by rewrite <-app_assoc.
      * apply HI.
      * rewrite (filter_keep _ R1 p i j0 R2); [apply HI|done].
      * rewrite (filter_keep _ R1 p i j0 R2); [apply HI|]. unfold in_fu. simpl. rewrite Hi. intuition done.
      * eapply fu_ok_keep; [apply HI|done].
      * split; [by destruct Hsh|]. do 2 (split; [done|]). change (state j0) with (state i). rewrite Hi. simpl in *. lia.
    + unfold flight_work. change (state j0) with (state i). rewrite Hi. simpl. lia.
Qed.

Lemma execute_loop_inv suf fuel s V T tr R pre :
  (length suf ≤ fuel)%nat → Inv s V T tr R → V FUB = pre ++ suf →
  ∃ s' R', execute_loop fuel (first_ptr suf None) s = Some s' ∧ Inv s' V T tr R' ∧
    frame s s' ∧ same_issue s s' ∧ R'.*1 = R.*1 ∧ less_or_same s s' V V R R' (none_in Issue R suf) ∧
    (∀ v c, calm v c s → c < 2 ^ 30 →
      ∃ v', calm v' c s' ∧ counted_upto (sum_of (flight_work lat) R - sum_of (flight_work lat) R') v v').
Proof.
  revert fuel s R pre. induction suf as [|[e v] suf IH]; intros fuel s R pre Hf HI HV.
  { exists s, R. destruct fuel; simpl; (split; [done|]); split_and!; try done; try (intros v c ? _; exists v; split; [done|]; constructor; lia);
      right; split_and!; try done; intros ????; set_solver. }
  destruct fuel as [|fuel]; simpl in Hf; [lia|].
  destruct (fub_node _ _ _ _ _ _ _ _ _ HI HV) as (c & p & i & R1 & R2 & Hc & Hp & Hnx & -> & -> & Hin).
  change (first_ptr _ None) with (Some e). cbn [execute_loop]. rewrite Hc. bs. rewrite Hp, Hnx. bs.
  pose proof (inv_split_ok _ _ _ _ _ _ _ _ HI) as (_ & Hheap & Hnd).
  rewrite (get_inst_mid _ _ _ _ _ Hheap Hnd). bs. case_decide as Hi.
  - destruct (execute_inst_inv _ _ _ _ _ _ _ _ HI Hi) as (s1 & j & Hx & HI1 & Hfr1 & Hsi1 & _ & Hwk).
    pose proof (get_inst_mid _ _ _ _ _ Hheap Hnd) as Hgi. rewrite Hx. bs.
    pose proof (work_mid R1 p _ _ R2 Hwk) as Hwk'.
    destruct (IH fuel s1 _ (pre ++ [(e, Some p)]) ltac:(lia) HI1) as (s' & R' & He & HI' & Hfr & Hsi & Hp' & Hl & Hcnt).
    { by rewrite <-app_assoc. }
    exists s', R'. split; [done|]. split; [done|]. split; [by eapply frame_trans|].
    split; [by unfold same_issue in *; congruence|].
    split; [by rewrite Hp', !fmap_app|]. split; [left; destruct Hl as [?|(_ & _ & -> & _)]; lia|].
    intros v t Hcalm Ht. destruct (execute_inst_calm s p i s1 v t Hcalm Ht Hgi ltac:(by rewrite Hi) Hx) as (v1 & Hc1 & Hv1).
    destruct (Hcnt v1 t Hc1 Ht) as (v' & Hc' & Hu). exists v'. split; [done|].
    destruct Hv1 as [->|Hv1]; [eapply upto_weaken; [|done]; lia|]. eapply upto_weaken; [|by eapply upto_step]. lia.
  - bs. destruct (IH fuel s _ (pre ++ [(e, Some p)]) ltac:(lia) HI) as (s' & R' & He & HI' & Hfr & Hsi & Hp' & Hl & Hcnt).
    { by rewrite <-app_assoc. }
    exists s', R'. split_and!; try done. destruct Hl as [?|(-> & _ & -> & Hl)]; [by left|].
    right. split_and!; try done. eapply none_in_cons; [done|apply elem_of_app; right; left|done|done].
Qed.

Lemma execute_insts_inv s V T tr R :
  Inv s V T tr R →
  ∃ s' R', execute_insts s = Some s' ∧ Inv s' V T tr R' ∧ frame s s' ∧ same_issue s s' ∧
    R'.*1 = R.*1 ∧ less_or_same s s' V V R R' (none_in Issue R (V FUB)) ∧
    (∀ v c, calm v c s → c < 2 ^ 30 →
      ∃ v', calm v' c s' ∧ counted_upto (sum_of (flight_work lat) R - sum_of (flight_work lat) R') v v').
Proof.
  intros HI. unfold execute_insts, queue. pose proof (inv_qv _ _ _ _ _ _ _ _ HI) as HQ.
  rewrite (law_front _ _ _ FUB HQ), (law_size _ _ _ FUB HQ), Nat2Z.id.
  by apply (execute_loop_inv (V FUB) (length (V FUB)) s V T tr R []).
Qed.
End Exec.
