(* ===== verification/PipelineRing.v ===== *)
(** The reorder buffer as a ring: who is older than whom, and what an instruction waits for. *)

From Stdlib Require Import ZArith Lia.
From stdpp Require Import base tactics functions option list gmap.
From S2P Require Import Prelude DList InstQueue InstQueueRep CacheSim Inst Rob TraceAnalyzer PipelineInv PipelineCommit PipelineExec.

(** ** Positions *)

(** The entry [k] places after [start]. *)
Definition slot (r : ROB) (k : nat) : Z := (start_idx r + Z.of_nat k) mod rob_cap r.

Section Ring.
Context (r : ROB) (Hs : 0 ≤ start_idx r < rob_cap r).

Lemma slot_cases k :
  Z.of_nat k < rob_cap r →
  slot r k = if decide (start_idx r + Z.of_nat k < rob_cap r) then start_idx r + Z.of_nat k
             else start_idx r + Z.of_nat k - rob_cap r.
Proof.
  intros Hk. unfold slot. case_decide; [by apply Z.mod_small; lia|].
  symmetry. apply Zmod_unique with 1; lia.
Qed.

Lemma slot_range k : 0 ≤ slot r k < rob_cap r.
Proof. apply Z.mod_pos_bound. lia. Qed.

Lemma slot_inj k k' :
  Z.of_nat k < rob_cap r → Z.of_nat k' < rob_cap r → slot r k = slot r k' → k = k'.
Proof. intros Hk Hk'. rewrite !slot_cases by done. repeat case_decide; lia. Qed.

Lemma slot_start k : Z.of_nat k < rob_cap r → (slot r k =? start_idx r) = bool_decide (k = 0)%nat.
Proof.
  intros Hk. apply eq_bool_prop_intro. rewrite Is_true_true, Z.eqb_eq, bool_decide_spec, slot_cases by done.
  case_decide; lia.
Qed.

(** On an older and a younger instruction [in_order] compares the slots as numbers: it holds
    exactly when the ring does not wrap around between them. *)
Lemma in_order_slots k k' :
  (k < k')%nat → Z.of_nat k' < rob_cap r →
  in_order (start_idx r) (slot r k) (slot r k') = (slot r k <? slot r k').
Proof.
  intros Hk Hk'. rewrite !slot_cases by lia. unfold in_order.
  repeat case_decide; repeat case_match; lia.
Qed.

Lemma ring_older k :
  Z.of_nat (S k) < rob_cap r → ring r (slot r (S k) - 1 + rob_cap r) = Some (slot r k).
Proof.
  intros Hk. pose proof (slot_range (S k)). unfold ring. destruct (Z.eqb_spec (rob_cap r) 0); [lia|].
  f_equal. rewrite Z.rem_mod_nonneg by lia.
  rewrite (slot_cases k), (slot_cases (S k)) by lia.
  repeat case_decide; symmetry; first [apply Zmod_unique with 1; lia | apply Zmod_unique with 0; lia].
Qed.
End Ring.

(** ** What an instruction waits for *)

Definition dep_entry (m : dep_t) (b a : Z) : bool :=
  default false (row ← arr_get m b; arr_get row a).

(** The older instruction [x] holds [b] back. *)
Definition blocks (s : TA) (b : Inst) (x : pinst) : bool :=
  (rob_idx x.2 <? rob_idx b) && dep_entry (dep_mat s) (rob_idx b) (rob_idx x.2) &&
  negb (can_forward x.2).

Section Waits.
Context (s : TA) (R : list pinst).
Context (Hring : ring_ok (rob s) R) (Hdep : dep_ok (dep_mat s)).
Context (Hget : ∀ x, x ∈ R → get_inst s x.1 = Some x.2).

Lemma ring_slot k x :
  R !! k = Some x → rob_idx x.2 = slot (rob s) k ∧ rob_at s (slot (rob s) k) = Some x.1.
Proof.
  intros Hk. destruct (ring_at _ _ Hring k x Hk) as [H1 H2]. split; [done|].
  unfold rob_at, rob_get_inst, slot. by rewrite H1.
Qed.

Lemma ring_lt k x : R !! k = Some x → Z.of_nat k < rob_cap (rob s).
Proof. intros ?%lookup_lt_Some. pose proof (ring_len _ _ Hring). lia. Qed.

Lemma dep_get b a :
  0 ≤ b < 60 → 0 ≤ a < 60 →
  (row ← arr_get (dep_mat s) b; arr_get row a) = Some (dep_entry (dep_mat s) b a).
Proof.
  intros Hb Ha. destruct Hdep as [Hl Hr]. unfold dep_entry.
  destruct (arr_get_is_Some (dep_mat s) b) as [row Hrow]; [lia|]. rewrite Hrow. simpl.
  apply arr_get_Some in Hrow as [_ Hrow]. pose proof (Forall_lookup_1 _ _ _ _ Hr Hrow) as Hlr.
  simpl in Hlr. destruct (arr_get_is_Some row a) as [v Hv]; [lia|]. by rewrite Hv.
Qed.

Lemma is_dependent_older k k' a b :
  R !! k = Some a → R !! k' = Some b → (k < k')%nat →
  is_dependent (rob s) (dep_mat s) a.2 b.2 =
    Some ((rob_idx a.2 <? rob_idx b.2) && dep_entry (dep_mat s) (rob_idx b.2) (rob_idx a.2)).
Proof.
  intros Ha Hb Hlt. destruct (ring_slot _ _ Ha) as [Ea _]. destruct (ring_slot _ _ Hb) as [Eb _].
  pose proof (ring_start _ _ Hring). pose proof (ring_lt _ _ Hb). pose proof (ring_cap _ _ Hring).
  pose proof (slot_range (rob s) ltac:(done) k). pose proof (slot_range (rob s) ltac:(done) k').
  unfold is_dependent. rewrite Ea, Eb, in_order_slots by done.
  case_match; simpl; [|done]. apply dep_get; lia.
Qed.

Lemma older_slot k : Z.of_nat (S k) < rob_cap (rob s) → older_idx s (slot (rob s) (S k)) = Some (slot (rob s) k).
Proof. intros. apply ring_older; [apply Hring|done]. Qed.

Lemma dependency_loop_spec fuel m k b :
  R !! k = Some b → (m < k)%nat → (m < fuel)%nat →
  dependency_loop fuel s b.2 (slot (rob s) (S m)) = Some (existsb (blocks s b.2) (take (S m) R)).
Proof.
  intros Hb. pose proof (ring_lt _ _ Hb) as Hk. revert fuel.
  induction m as [|m IH]; intros [|fuel] Hm Hf; try lia; cbn [dependency_loop];
    rewrite older_slot by lia; bs.
  all: match goal with |- context [rob_at s (slot (rob s) ?n)] =>
      destruct (lookup_lt_is_Some_2 R n) as [a Ha]; [apply lookup_lt_Some in Hb; lia|];
      destruct (ring_slot n a Ha) as [Ea ->]; bs;
      rewrite (Hget a (list_elem_of_lookup_2 _ _ _ Ha)); bs;
      rewrite (is_dependent_older n k a b Ha Hb) by lia; bs;
      rewrite (take_S_r _ _ _ Ha), existsb_app; cbn [existsb]; rewrite orb_false_r;
      fold (blocks s b.2 a); rewrite slot_start by (apply Hring || lia)
  end.
  - by destruct (blocks s b.2 a).
  - rewrite bool_decide_eq_false_2 by done. rewrite IH by lia.
    destruct (blocks s b.2 a); [by rewrite orb_true_r|by rewrite orb_false_r].
Qed.

(** An instruction waits exactly for the older instructions that block it. *)
Lemma has_dependency_spec k b :
  R !! k = Some b → has_dependency s b.1 = Some (existsb (blocks s b.2) (take k R)).
Proof.
  intros Hb. unfold has_dependency. rewrite (Hget b (list_elem_of_lookup_2 _ _ _ Hb)). bs.
  pose proof (ring_lt _ _ Hb) as Hk. destruct (ring_slot k b Hb) as [-> _].
  rewrite slot_start by (apply Hring || lia). case_bool_decide as Hz; [by subst|].
  destruct k as [|k]; [done|]. apply (dependency_loop_spec _ _ _ _ Hb); lia.
Qed.
End Waits.
