(* ===== verification/PipelineIssue.v ===== *)
(** Issue: instructions whose operands are ready leave the issue queue for a functional unit. *)

From Stdlib Require Import ZArith Lia.
From stdpp Require Import base tactics functions option list gmap.
From S2P Require Import Prelude DList InstQueue InstQueueRep CacheSim Inst Rob TraceAnalyzer PipelineInv PipelineCommit PipelineExec PipelineRing.

(** No unit holds an instruction or has accepted one in this cycle. *)
Definition idle (l : list FU) : Prop := Forall (λ f, num_issue f = 0 ∧ num_active f = 0) l.

Section Issue.
Context {QV : QMem → view → tails → Prop} {QL : QueueLaws QV}.
Context (lat : Z) (decodes : Inst → Prop).
Local Abbreviation Inv := (Inv QV lat decodes).
Local Abbreviation total := (sum_of (flight_work lat)).

Lemma inv_get s V T tr R x : Inv s V T tr R → x ∈ R → get_inst s x.1 = Some x.2.
Proof.
  intros HI Hx. destruct x as [p i]. eapply get_inst_at; [apply HI|apply HI|]. apply elem_of_app. by right.
Qed.

(** The instruction as issue leaves it. *)
Definition issued_inst (cycle : Z) (i : Inst) : Inst :=
  i <| issued_cycle := cycle |> <| state := Issue |>
    <| remaining_latency := type_latency (inst_type (type i)) |>.

Lemma issued_inst_ok cycle i :
  flight_ok lat i → flight_ok lat (issued_inst cycle i) ∧
  flight_work lat (issued_inst cycle i) < w_wait lat.
Proof.
  intros ([] & [? ?] & ? & _). split.
  - split; [done|]. split; [done|]. split; [done|]. simpl. destruct (type i); simpl; try done; lia.
  - unfold flight_work, w_wait. simpl. destruct (type i); simpl; lia.
Qed.

Lemma iq_node s V T tr R pre e v suf :
  Inv s V T tr R → V IQ = pre ++ (e, v) :: suf →
  ∃ c p i R1 R2, elems (qm s) !! e = Some c ∧ elem_inst c = Some p ∧
    next_inst_elem c = first_ptr suf None ∧ v = Some p ∧ R = R1 ++ (p, i) :: R2 ∧ state i = Dispatch.
Proof.
  intros HI HV. pose proof (inv_iq _ _ _ _ _ _ _ _ HI) as Hf. rewrite HV in Hf.
  assert (Hin : v ∈ Some <$> (filter dispatched R).*1) by (rewrite <-Hf, fmap_app; set_solver).
  apply list_elem_of_fmap in Hin as (p & Hx & Hp). apply list_elem_of_fmap in Hp as ([p' i] & -> & Hi).
  apply list_elem_of_filter in Hi as [Hd Hi]. apply list_elem_of_split in Hi as (R1 & R2 & HR).
  destruct (law_node _ _ _ IQ pre (e, v) suf (inv_qv _ _ _ _ _ _ _ _ HI) HV) as (c & Hc & Hv & Hnx).
  simpl in *. subst v. by exists c, p', i, R1, R2.
Qed.

(** Taking a unit for an instruction. *)
Lemma try_unit_ok s R1 p i j R2 :
  let t := inst_type_fu_type_map (type i) in
  fu_ok (fu s) (R1 ++ (p, i) :: R2) → state i ≠ Issue → state j = Issue → type j = type i →
  ∃ ok l, try_unit s t = Some (ok, s <| fu := l |>) ∧ (idle (fu s) → ok = true) ∧
    fu_ok l (if ok then R1 ++ (p, j) :: R2 else R1 ++ (p, i) :: R2).
Proof.
  intros t Hok Hi Hj Hty. pose proof (fu_num_range t) as Ht. pose proof (proj1 Hok) as Hl.
  destruct (arr_get_is_Some (fu s) (fu_num t)) as [f Hf]; [lia|]. unfold try_unit. rewrite Hf. bs.
  destruct (proj2 Hok t f Hf) as (Hcap & Hstg & Ha). unfold try_FU. simpl.
  destruct (_ && _) eqn:Eok; simpl; rewrite arr_set_Some by lia; simpl.
  - eexists true, _. split; [done|]. split; [done|].
    apply (fu_ok_set _ (R1 ++ (p, i) :: R2) _ _ f); try done.
    + simpl. rewrite Ha. pose proof (filter_leave (on_unit t) R1 p j i R2) as Hp.
      rewrite <-!(length_fmap fst). rewrite Hp; simpl; [lia| |by intros [? _]].
      split; [done|]. simpl. by rewrite Hty.
    + intros t' Hne. apply filter_length_keep. split; intros [Hs Ht']; simpl in *; [done|].
      destruct Hne. by rewrite <-Ht', Hty.
  - eexists false, _. split; [done|]. split.
    + intros Hid. apply arr_get_Some in Hf as [_ Hf].
      destruct (Forall_lookup_1 _ _ _ _ Hid Hf) as [Hni Hna]. simpl in Hni, Hna. rewrite Hni, Hna in Eok.
      apply andb_false_iff in Eok as [?%Z.ltb_ge|?%Z.ltb_ge]; lia.
    + by apply (fu_ok_set _ (R1 ++ (p, i) :: R2) _ _ f).
Qed.

Lemma issue_one_inv s V T tr R1 p i R2 pre e suf l :
  Inv s V T tr (R1 ++ (p, i) :: R2) → V IQ = pre ++ (e, Some p) :: suf → state i = Dispatch →
  fu_ok l (R1 ++ (p, issued_inst (cur_cycle s) i) :: R2) →
  ∃ s' V', issue_one (s <| fu := l |>) e p = Some s' ∧
    Inv s' V' T tr (R1 ++ (p, issued_inst (cur_cycle s) i) :: R2) ∧ V' IQ = pre ++ suf ∧ frame s s'.
Proof.
  intros HI HV Hi Hl. set (j := issued_inst (cur_cycle s) i) in *.
  pose proof (inv_split_ok _ _ _ _ _ _ _ _ _ _ HI) as (Hok & Hheap & Hnd).
  destruct (issued_inst_ok (cur_cycle s) i Hok) as [Hokj _]. fold j in Hokj.
  unfold issue_one. set (s0 := if _ =? 0 then _ else _).
  assert (Hs0 : frame s s0 ∧ insts s0 = insts s ∧ qm s0 = qm s ∧ fu s0 = l ∧ cur_cycle s0 = cur_cycle s).
  { unfold s0. destruct (_ =? 0); by split_and!. }
  destruct Hs0 as (Hfr0 & Eh0 & Eq0 & Ef0 & Ec0). clearbody s0. cbv zeta.
  destruct (law_remove _ _ _ IQ pre (e, Some p) suf true (inv_qv _ _ _ _ _ _ _ _ HI) HV) as (m1 & Em1 & HQ1 & Hc1).
  simpl in Em1. rewrite Eq0, Em1. bs. set (s1 := s0 <| qm := m1 |>).
  rewrite (upd_inst_at s1 (tr ++ R1) p i R2) by (try done; unfold s1; simpl; by rewrite Eh0). bs.
  change (cur_cycle s1) with (cur_cycle s0). rewrite Ec0. fold (issued_inst (cur_cycle s) i). fold j.
  set (V1 := <[IQ := pre ++ suf]> V) in *. set (s2 := s1 <| insts := _ |>).
  destruct (law_push_back m1 V1 T FUB p) as (m2 & e2 & Em2 & HQ2 & Hc2 & _); try done.
  { apply HI. auto. }
  { left. rewrite Hc1. apply (cfg_fub _ _ (inv_cfg _ _ _ _ _ _ _ _ HI)). }
  change (push_back_inst _ FUB p) with (push_back_inst m1 FUB p). rewrite Em2. bs. eexists _, _. split; [done|].
  assert (Hcaps : same_caps (qm s) m2) by (by eapply same_caps_trans).
  assert (Hfr : frame s s0) by done. split_and!.
  - eapply (inv_replace _ _ s V); try exact HQ2; try done; simpl.
    + destruct Hfr. by split.
    + by rewrite <-app_assoc.
    + intros q [->|[->| ->]]; unfold V1; by rewrite !fn_insert_other by done.
    + rewrite !fn_insert_other by done. unfold V1. rewrite fn_insert_same.
      pose proof (inv_iq _ _ _ _ _ _ _ _ HI) as Hiq. rewrite HV, (filter_leave _ R1 p i j R2) in Hiq; [|done|done].
      rewrite fmap_app in *. simpl in Hiq. rewrite <-Permutation_middle in Hiq. by apply Permutation_cons_inv in Hiq.
    + rewrite fn_insert_same. unfold V1. rewrite fn_insert_other by done.
      rewrite fmap_app, (inv_fub _ _ _ _ _ _ _ _ HI), (filter_leave _ R1 p j i R2); [|by left|].
      * simpl. by rewrite <-Permutation_cons_append.
      * intros [?|[? _]]; simpl in *; congruence.
    + by rewrite Ef0.
  - rewrite !fn_insert_other by done. unfold V1. by rewrite fn_insert_same.
  - destruct Hfr. by split.
Qed.

(** One element of the issue queue: it is held back, finds no unit, or is issued. *)
Lemma issue_iter fuel w s V T tr R pre e v suf :
  Inv s V T tr R → V IQ = pre ++ (e, v) :: suf → 0 < w →
  ∃ s1 V1 R1 w1 pre1, issue_loop (S fuel) w (Some e) s = issue_loop fuel w1 (first_ptr suf None) s1 ∧
    Inv s1 V1 T tr R1 ∧ V1 IQ = pre1 ++ suf ∧ frame s s1 ∧ R1.*1 = R.*1 ∧
    (total R1 < total R ∨
     (R1 = R ∧ w1 = w ∧ (idle (fu s) → fu s1 = fu s ∧ ∀ x R', R = x :: R' → v ≠ Some x.1))).
Proof.
  intros HI HV Hw.
  destruct (iq_node _ _ _ _ _ _ _ _ _ HI HV) as (c & p & i & R1 & R2 & Hc & Hp & Hnx & -> & HR & Hi).
  cbn [issue_loop]. rewrite (proj2 (Z.leb_gt w 0) Hw), Hc. bs. rewrite Hp, Hnx. bs.
  assert (Hk : R !! length R1 = Some (p, i)) by (rewrite HR; by apply list_lookup_middle).
  pose proof (inv_get _ _ _ _ _ (p, i) HI (list_elem_of_lookup_2 _ _ _ Hk)) as Hg.
  cbn [fst snd] in Hg. rewrite Hg. bs. rewrite decide_True by done.
  pose proof (has_dependency_spec s R (inv_ring _ _ _ _ _ _ _ _ HI) (inv_dep _ _ _ _ _ _ _ _ HI)
    (λ x, inv_get _ _ _ _ _ x HI) _ _ Hk) as Hd. cbn [fst snd] in Hd. rewrite Hd. bs.
  destruct (existsb _ _) eqn:Edep.
  { exists s, V, R, w, (pre ++ [(e, Some p)]). split; [done|]. split_and!; try done; [by rewrite <-app_assoc|].
    right. split_and!; try done. intros _. split; [done|]. intros x R' ->. intros [= ->].
    destruct R1 as [|y R1]; [by simpl in Edep|]. injection HR as -> HR.
    pose proof (inv_nodup _ _ _ _ _ _ _ _ HI) as Hnd. rewrite fmap_app in Hnd. apply NoDup_app in Hnd as (_ & _ & Hnd).
    simpl in Hnd. apply NoDup_cons in Hnd as [Hnd _]. apply Hnd. rewrite HR, fmap_app. set_solver. }
  subst R. pose proof (inv_split_ok _ _ _ _ _ _ _ _ _ _ HI) as (Hok & _ & _).
  destruct (try_unit_ok s R1 p i (issued_inst (cur_cycle s) i) R2 (inv_fu _ _ _ _ _ _ _ _ HI))
    as (ok & l & -> & Hidle & Hl); [congruence|done|done|]. bs. destruct ok.
  - destruct (issue_one_inv _ _ _ _ _ _ _ _ _ _ _ _ HI HV Hi Hl) as (s1 & V1 & -> & HI1 & HV1 & Hfr). bs.
    eexists s1, V1, _, (w - 1), pre. split; [done|]. split; [done|]. split_and!; try done; [by rewrite !fmap_app|].
    left. apply work_mid. destruct (issued_inst_ok (cur_cycle s) i Hok) as [_ H].
    unfold flight_work at 2. by rewrite Hi.
  - eexists (s <| fu := l |>), V, (R1 ++ (p, i) :: R2), w, (pre ++ [(e, Some p)]). split; [done|].
    split_and!; try done; [|by rewrite <-app_assoc|].
    + eapply (inv_replace _ _ s V); try done; apply HI.
    + right. split_and!; try done. intros Hid. by specialize (Hidle Hid).
Qed.

Lemma issue_loop_inv suf fuel w s V T tr R pre :
  (length suf ≤ fuel)%nat → Inv s V T tr R → V IQ = pre ++ suf →
  ∃ s' V' R', issue_loop fuel w (first_ptr suf None) s = Some s' ∧ Inv s' V' T tr R' ∧
    frame s s' ∧ R'.*1 = R.*1 ∧ total R' ≤ total R ∧
    (idle (fu s) → 0 < w → ∀ x R0, R = x :: R0 → Some x.1 ∈ suf.*2 → total R' < total R).
Proof.
  revert fuel w s V R pre. induction suf as [|[e v] suf IH]; intros fuel w s V R pre Hf HI HV.
  { exists s, V, R. split; [by destruct fuel; simpl; destruct (w <=? 0)|]. split_and!; try done.
    intros _ _ x R0 _. simpl. set_solver. }
  destruct fuel as [|fuel]; simpl in Hf; [lia|].
  destruct (decide (0 < w)) as [Hw|Hw].
  2:{ exists s, V, R. simpl. rewrite (proj2 (Z.leb_le w 0)) by lia. split_and!; try done. }
  change (first_ptr _ None) with (Some e).
  destruct (issue_iter fuel w _ _ _ _ _ _ _ _ _ HI HV Hw)
    as (s1 & V1 & R1 & w1 & pre1 & -> & HI1 & HV1 & Hfr1 & Hp1 & Hcase).
  destruct (IH fuel w1 s1 V1 R1 pre1 ltac:(lia) HI1 HV1) as (s' & V' & R' & He & HI' & Hfr & Hp' & Hle & Hlt).
  exists s', V', R'. split; [done|]. split; [done|]. split; [by eapply frame_trans|]. split; [congruence|].
  destruct Hcase as [Hl|(-> & -> & Hid)]; [split; [lia|]; intros; lia|].
  split; [done|]. intros Hidle _ x R0 -> Hx. destruct (Hid Hidle) as [Ef Hne].
  rewrite <-Ef in Hidle. apply (Hlt Hidle Hw x R0 eq_refl). apply elem_of_cons in Hx as [Hx|?]; [|done].
  destruct (Hne x R0 eq_refl). by simpl in Hx.
Qed.

Lemma issue_insts_inv s V T tr R :
  Inv s V T tr R →
  ∃ s' V' R', issue_insts s = Some s' ∧ Inv s' V' T tr R' ∧ frame s s' ∧ R'.*1 = R.*1 ∧
    total R' ≤ total R ∧
    (idle (fu s) → ∀ x R0, R = x :: R0 → state x.2 = Dispatch → total R' < total R).
Proof.
  intros HI. unfold issue_insts, is_empty_queue, front_inst_elem, queue. pose proof (inv_qv _ _ _ _ _ _ _ _ HI) as HQ.
  pose proof (cfg_issue _ _ (inv_cfg _ _ _ _ _ _ _ _ HI)) as Hw.
  pose proof (inv_iq _ _ _ _ _ _ _ _ HI) as Hiq.
  rewrite (law_front _ _ _ IQ HQ), (law_size _ _ _ IQ HQ), Nat2Z.id.
  destruct (issue_loop_inv (V IQ) (length (V IQ)) (issue_width s) s V T tr R [])
    as (s' & V' & R' & He & ? & ? & ? & ? & Hlt); try done.
  assert (Hx : ∀ x R0, R = x :: R0 → state x.2 = Dispatch → Some x.1 ∈ (V IQ).*2).
  { intros x R0 -> Hx. rewrite Hiq, filter_cons, decide_True by done. simpl. left. }
  destruct (Z.eqb_spec (Z.of_nat (length (V IQ))) 0) as [Hz|Hz].
  - exists s, V, R. split_and!; try done. intros _ x R0 HR Hd. specialize (Hx x R0 HR Hd).
    destruct (V IQ); [by apply elem_of_nil in Hx|done].
  - exists s', V', R'. split_and!; try done. intros Hid x R0 HR Hd. apply (Hlt Hid ltac:(lia) x R0 HR). eauto.
Qed.
End Issue.
