(* ===== verification/PipelineExpand.v ===== *)
(** Expanding the instruction at the front of the trace keeps the invariant. *)

From Stdlib Require Import ZArith Lia.
From stdpp Require Import base tactics functions option list gmap.
From S2P Require Import Prelude DList InstQueue InstQueueRep CacheSim DarmTbl Darm Inst Rob TraceAnalyzer PipelineInv PipelineCommit PipelineExec PipelineTrace.

(** What work on the trace leaves alone. *)
Record tframe (s s' : TA) : Prop := {
  tf_caps : same_caps (qm s) (qm s');
  tf_cycle : cur_cycle s' = cur_cycle s;
  tf_rob : rob s' = rob s;
  tf_dep : dep_mat s' = dep_mat s;
  tf_fu : fu s' = fu s;
  tf_dw : dispatch_width s' = dispatch_width s;
  tf_iw : issue_width s' = issue_width s;
  tf_ww : wb_width s' = wb_width s;
  tf_cw : commit_width s' = commit_width s;
  tf_lat : latency_l1_miss s' = latency_l1_miss s;
  tf_types : num_inst_type s' = num_inst_type s;
  tf_committed : num_committed_insts s' = num_committed_insts s;
  tf_dispatched : num_dispatched_insts s' = num_dispatched_insts s;
}.

Lemma tframe_refl s : tframe s s.
Proof. done. Qed.
Lemma tframe_trans s1 s2 s3 : tframe s1 s2 → tframe s2 s3 → tframe s1 s3.
Proof. intros [] []. split; congruence || by eapply same_caps_trans. Qed.

(** The queues that hold instructions in flight. *)
Definition backend (q : qid) : Prop := q = IQ ∨ q = LDQ ∨ q = STQ ∨ q = FUB.

Definition same_backend (V V' : view) (T T' : tails) : Prop :=
  ∀ q, backend q → V' q = V q ∧ T' q = T q.

Lemma same_backend_trans V1 V2 V3 T1 T2 T3 :
  same_backend V1 V2 T1 T2 → same_backend V2 V3 T2 T3 → same_backend V1 V3 T1 T3.
Proof. intros H1 H2 q Hq. destruct (H1 q Hq), (H2 q Hq). split; congruence. Qed.

Section Expand.
Context {QV : QMem → view → tails → Prop} {QL : QueueLaws QV}.
Context (lat : Z) (decodes : Inst → Prop).
Local Abbreviation Inv := (Inv QV lat decodes).

(** Replacing the trace. *)
Lemma inv_retrace s V T tr R s' V' T' tr' :
  Inv s V T tr R → tframe s s' → same_backend V V' T T' → QV (qm s') V' T' →
  (V' TRACE).*2 = Some <$> tr'.*1 → insts s' = list_to_map (tr' ++ R) → NoDup (tr' ++ R).*1 →
  (∀ p, p ∈ (tr' ++ R).*1 → (p < ibrk s')%positive) → Forall (λ x, trace_ok decodes x.2) tr' →
  trace_shape s' tr' →
  num_fetched_insts s' = num_fetched_insts s + Z.of_nat (length tr') - Z.of_nat (length tr) →
  Inv s' V' T' tr' R.
Proof.
  intros [Hcfg HQ HT Htr Hiq Hfub Hldq Hstq Hheap Hnd Hbrk Hring Hdep Hfu Hfl Htro Hsh Hfe Hdi Hty]
    [] Hbe HQ' Htr' Hh' Hnd' Hbrk' Htro' Hsh' Hfe'.
  assert (HV : ∀ q, backend q → V' q = V q) by (intros; by apply Hbe).
  constructor; try done; try congruence; rewrite ?HV by (unfold backend; auto); try done; try lia.
  - by eapply config_ok_same.
  - intros q Hq. destruct (Hbe q Hq) as [_ ->]. by apply HT.
Qed.

(** Statistics play no role. *)
Lemma inv_same s V T tr R s' :
  Inv s V T tr R → tframe s s' → qm s' = qm s → insts s' = insts s → ibrk s' = ibrk s →
  num_fetched_insts s' = num_fetched_insts s → Inv s' V T tr R.
Proof.
  intros HI Hf Eq Eh Eb En. eapply inv_retrace; try done; rewrite ?Eq, ?Eh, ?Eb, ?En; try apply HI; try lia.
  eapply trace_shape_same; [apply HI|apply Hf].
Qed.

(** The trace queue holds [tl] and the heap the instructions of [l]. *)
Record tracing (s : TA) (V : view) (T : tails) (l : list pinst) (tl : list (option ptr)) : Prop := {
  tc_qv : QV (qm s) V T;
  tc_heap : insts s = list_to_map l;
  tc_nodup : NoDup l.*1;
  tc_brk p : p ∈ l.*1 → (p < ibrk s)%positive;
  tc_trace : (V TRACE).*2 = tl;
}.

Definition fits (s : TA) (n : nat) : Prop :=
  capacity (queue s TRACE) = 0 ∨ Z.of_nat n ≤ capacity (queue s TRACE).

(** [malloc] and [push_front_inst]. *)
Lemma push_front_new_spec s V T l tl m :
  tracing s V T l tl → fits s (S (length tl)) →
  ∃ s' V' T' p, push_front_new s m = Some s' ∧ tracing s' V' T' ((p, m) :: l) (Some p :: tl) ∧
    same_backend V V' T T' ∧ tframe s s' ∧ num_fetched_insts s' = num_fetched_insts s.
Proof.
  intros [HQ Hl Hnd Hb <-] Hr. set (p := ibrk s). rewrite length_fmap in Hr.
  destruct (law_push_front _ _ _ TRACE p HQ ltac:(done)) as (q' & e & Hq' & HQ' & Hc).
  { unfold room. unfold fits, queue in Hr. destruct Hr; [by left|right; lia]. }
  eexists _, (<[TRACE := (e, Some p) :: V TRACE]> (<[POOL := tail (V POOL)]> V)), (<[TRACE := false]> T), p.
  unfold push_front_new, malloc_inst.
  change (push_front_inst _ TRACE _) with (push_front_inst (qm s) TRACE p). rewrite Hq'. bs.
  split; [done|]. split_and!; try done.
  - constructor; [exact HQ'|simpl; by rewrite Hl|..].
    + simpl. constructor; [|done]. intros ?%Hb. lia.
    + simpl. intros p' Hp'. apply elem_of_cons in Hp' as [->|?%Hb]; lia.
    + by rewrite fn_insert_same.
  - intros q Hq. assert (q ≠ TRACE ∧ q ≠ POOL) as [??] by (by destruct Hq as [->|[->|[->| ->]]]).
    by rewrite !fn_insert_other by done.
Qed.

Lemma fits_frame s s' n : tframe s s' → fits s n → fits s' n.
Proof. intros []. unfold fits, queue. by rewrite tf_caps0. Qed.

Lemma fits_le s n n' : (n ≤ n')%nat → fits s n' → fits s n.
Proof. unfold fits. intros ? [?|?]; [by left|right; lia]. Qed.

(** The loop of a conversion. *)
Lemma micro_loop (op : Inst → Z → option Inst) inst n s V T l tl :
  (∀ k, 0 ≤ k < Z.of_nat n → ∃ m, op inst k = Some m ∧ micro m) →
  tracing s V T l tl → fits s (n + length tl) →
  ∃ s' V' T' ms, for_down n (λ i s, m ← op inst i; s ← push_front_new s m;
      Some (s <| num_fetched_insts := num_fetched_insts s + 1 |>)) s = Some s' ∧
    tracing s' V' T' (ms ++ l) ((Some <$> ms.*1) ++ tl) ∧ length ms = n ∧ Forall (λ x, micro x.2) ms ∧
    same_backend V V' T T' ∧ tframe s s' ∧
    num_fetched_insts s' = num_fetched_insts s + Z.of_nat n.
Proof.
  intros Hop. revert s V T l tl. induction n as [|n IH]; intros s V T l tl Ht Hf.
  { exists s, V, T, []. split_and!; try done. simpl. lia. }
  destruct (Hop (Z.of_nat n)) as (m & Hm & Hmi); [lia|]. cbn [for_down]. rewrite Hm. bs.
  destruct (push_front_new_spec s V T l tl m Ht) as (s1 & V1 & T1 & p & -> & Ht1 & Hb1 & Hf1 & Hn1).
  { eapply fits_le; [|done]. lia. }
  bs. set (s2 := s1 <| num_fetched_insts := _ |>).
  destruct (IH ltac:(intros; apply Hop; lia) s2 V1 T1 ((p, m) :: l) (Some p :: tl))
    as (s' & V' & T' & ms & He & Ht' & Hlen & Hms & Hb & Hfr & Hn).
  { destruct Ht1. by split. }
  { apply (fits_frame s); [by destruct Hf1|]. simpl. eapply fits_le; [|done]. lia. }
  exists s', V', T', (ms ++ [(p, m)]). split; [done|].
  rewrite fmap_app, fmap_app, <-!app_assoc. split_and!; try done.
  - rewrite length_app. simpl. lia.
  - apply Forall_app. split; [done|]. by constructor.
  - by eapply same_backend_trans.
  - eapply tframe_trans; [exact Hf1|]. eapply tframe_trans; [|exact Hfr]. done.
  - rewrite Hn. simpl. lia.
Qed.

Context (junk : Inst).
Context (Hjs : length (src_reg junk) = 16%nat) (Hjd : length (dst_reg junk) = 16%nat)
  (Hja : length (eff_addr junk) = 16%nat).

(** The instruction at the front leaves the queue, but not yet the heap. *)
Lemma pop_trace s V T p l tl :
  tracing s V T l (Some p :: tl) →
  ∃ q1 V1, pop_front_inst (qm s) TRACE = Some (q1, Some p) ∧ tracing (s <| qm := q1 |>) V1 T l tl ∧
    same_backend V V1 T T ∧ same_caps (qm s) q1.
Proof.
  intros [HQ Hh Hnd Hb Htl].
  destruct (V TRACE) as [|[e v] xs] eqn:EV; [done|]. simpl in Htl. injection Htl as -> Htl.
  destruct (law_pop _ _ _ TRACE (e, Some p) xs HQ EV) as (q1 & Eq & HQ1 & Hc1).
  exists q1, (<[TRACE := xs]> V). split; [done|]. split; [|split; [|done]].
  - constructor; [exact HQ1|exact Hh|exact Hnd|exact Hb|]. rewrite fn_insert_same. exact Htl.
  - intros q Hq. assert (q ≠ TRACE) by (by destruct Hq as [->|[->|[->| ->]]]). by rewrite fn_insert_other.
Qed.

Lemma free_traced s V T l1 p i l2 tl :
  tracing s V T (l1 ++ (p, i) :: l2) tl →
  ∃ s', free_inst s p = Some s' ∧ tracing s' V T (l1 ++ l2) tl ∧ tframe s s' ∧
    num_fetched_insts s' = num_fetched_insts s.
Proof.
  intros [HQ Hh Hnd Hb Htl]. rewrite (free_inst_at _ _ _ _ _ Hh Hnd). eexists. split; [done|].
  split; [|done]. constructor; [exact HQ|done| | |exact Htl].
  - by apply NoDup_fst_middle in Hnd as [? _].
  - intros p' Hp'. apply Hb. by apply fst_middle_weaken.
Qed.

(** A whole conversion: the instruction at the front is replaced by its micro-operations. *)
Lemma convert_with_spec (op : Inst → Z → option Inst) s V T p i l tl :
  tracing s V T ((p, i) :: l) (Some p :: tl) → shaped i →
  (∀ k, 0 ≤ k < num_eff_addr i → ∃ m, op i k = Some m ∧ micro m) →
  fits s (17 + length tl) →
  ∃ s' V' T' ms, (s ← convert_with junk op s p; free_inst s p) = Some s' ∧
    tracing s' V' T' (ms ++ l) ((Some <$> ms.*1) ++ tl) ∧ (1 ≤ length ms ≤ 17)%nat ∧
    Forall (λ x, micro x.2) ms ∧ same_backend V V' T T' ∧ tframe s s' ∧
    num_fetched_insts s' = num_fetched_insts s + Z.of_nat (length ms) - 1.
Proof.
  intros Ht [_ _ _ _ _ Hn] Hop Hf. unfold convert_with.
  rewrite (get_inst_mid s [] p i l (tc_heap _ _ _ _ _ Ht) (tc_nodup _ _ _ _ _ Ht)). bs.
  destruct (pop_trace _ _ _ _ _ _ Ht) as (q1 & V1 & -> & Ht1 & Hb1 & Hc1). bs.
  destruct (sp_update_ok junk Hjs Hjd Hja i) as (sp & -> & Hsp). bs. set (s1 := s <| qm := q1 |>) in *.
  assert (Hf1 : tframe s s1) by done. assert (Hn1 : num_fetched_insts s1 = num_fetched_insts s) by done.
  clearbody s1.
  destruct (push_front_new_spec s1 _ _ _ _ sp Ht1) as (s2 & V2 & T2 & ps & -> & Ht2 & Hb2 & Hf2 & Hn2).
  { apply (fits_frame s); [done|]. eapply fits_le; [|exact Hf]. lia. }
  pose proof (tframe_trans _ _ _ Hf1 Hf2) as Hf12.
  bs. destruct (micro_loop op i (Z.to_nat (num_eff_addr i)) s2 V2 T2 _ _ ltac:(intros; apply Hop; lia) Ht2)
    as (s3 & V3 & T3 & ms & -> & Ht3 & Hlen & Hms & Hb3 & Hf3 & Hn3).
  { apply (fits_frame s); [done|]. simpl. eapply fits_le; [|exact Hf]. lia. }
  bs. assert (El : ms ++ (ps, sp) :: (p, i) :: l = (ms ++ [(ps, sp)]) ++ (p, i) :: l) by (by rewrite <-app_assoc).
  rewrite El in Ht3. destruct (free_traced _ _ _ _ _ _ _ _ Ht3) as (s4 & -> & Ht4 & Hf4 & Hn4).
  exists s4, V3, T3, (ms ++ [(ps, sp)]). split; [done|].
  rewrite length_app, !fmap_app, <-(app_assoc (Some <$> _)). cbn [length]. split; [exact Ht4|].
  split; [lia|]. split; [apply Forall_app; split; [done|by constructor]|].
  split; [|split].
  - eapply same_backend_trans; [exact Hb1|]. by eapply same_backend_trans.
  - eapply tframe_trans; [exact Hf12|]. by eapply tframe_trans.
  - lia.
Qed.
End Expand.

(** ** The instruction at the front made ready for dispatch *)

Section Prepare.
Context {QV : QMem → view → tails → Prop} {QL : QueueLaws QV}.
Context (lat : Z) (junk : Inst) (shl_32 : Z → Z) (ctz_0 : Z).
Context (Hjs : length (src_reg junk) = 16%nat) (Hjd : length (dst_reg junk) = 16%nat)
  (Hja : length (eff_addr junk) = 16%nat).

Definition decodable (i : Inst) : Prop := is_Some (decode_inst shl_32 ctz_0 i).

Local Abbreviation Inv := (Inv QV lat decodable).
Local Abbreviation tracing := (tracing (QV := QV)).
Local Abbreviation todo := (sum_of (trace_work lat)).

Lemma inv_tracing s V T tr R : Inv s V T tr R → tracing s V T (tr ++ R) (Some <$> tr.*1).
Proof. intros []. by split. Qed.

(** Replacing the front of the trace by decoded instructions. *)
Lemma inv_front s V T p i tr R s' V' T' ms :
  Inv s V T ((p, i) :: tr) R → decoded i = false → tframe s s' → same_backend V V' T T' →
  tracing s' V' T' (ms ++ tr ++ R) ((Some <$> ms.*1) ++ (Some <$> tr.*1)) →
  Forall (λ x, ready x.2) ms →
  num_fetched_insts s' = num_fetched_insts s + Z.of_nat (length ms) - 1 →
  Inv s' V' T' (ms ++ tr) R.
Proof.
  intros HI Hd Hf Hb [HQ Hh Hnd Hbr Htl] Hms Hn. rewrite app_assoc in Hh, Hnd, Hbr.
  pose proof (inv_tr _ _ _ _ _ _ _ _ HI) as Htro. apply Forall_cons in Htro as [_ Htro].
  eapply inv_retrace; try done.
  - by rewrite Htl, !fmap_app.
  - apply Forall_app. split; [|done]. eapply Forall_impl; [done|]. intros x (? & ? & ? & Hdx & ?).
    unfold trace_ok. by rewrite Hdx.
  - destruct (inv_shape _ _ _ _ _ _ _ _ HI) as (pre & suf & E & Hp & Hs & Hc).
    destruct pre as [|y pre]; simpl in E.
    2:{ injection E as <- E. apply Forall_cons in Hp as [Hp _]. simpl in Hp. congruence. }
    subst suf. apply Forall_cons in Hs as [_ Hs]. exists ms, tr. split; [done|].
    split; [|split; [done|]].
    + eapply Forall_impl; [done|]. by intros x (_ & _ & _ & ? & _).
    + unfold queue in *. rewrite (tf_caps _ _ Hf). simpl in Hc. destruct Hc; [by left|right; lia].
  - rewrite Hn, length_app. simpl. lia.
Qed.

Lemma todo_ready ms : Forall (λ x, ready x.2) ms → todo ms = Z.of_nat (length ms) * (w_wait lat + 1).
Proof.
  induction 1 as [|x ms (_ & _ & _ & Hd & _) _ IH]; simpl; [done|]. rewrite IH. unfold trace_work. rewrite Hd. lia.
Qed.

(** The instruction decoded in place. *)
Lemma tracing_decoded s V T p i j l tl :
  tracing s V T ((p, i) :: l) tl →
  ∃ s1, upd_inst s p (λ _, j) = Some s1 ∧ tracing s1 V T ((p, j) :: l) tl ∧ tframe s s1 ∧
    num_fetched_insts s1 = num_fetched_insts s.
Proof.
  intros [HQ Hh Hnd Hb Htl]. rewrite (upd_inst_at s [] p i l _ Hh Hnd). eexists. split; [done|].
  split; [|done]. by constructor.
Qed.

(** Instructions that may turn out to be unsupported. *)
Definition cand (x : pinst) : Prop := decoded x.2 = false ∨ type x.2 = Unsupported.
#[export] Instance cand_dec x : Decision (cand x).
Proof. unfold cand. apply _. Defined.
Definition cands (l : list pinst) : nat := length (filter cand l).

Lemma cands_micro ms : Forall (λ x, micro x.2) ms → cands ms = 0%nat.
Proof.
  induction 1 as [|x ms [(_ & _ & _ & Hd & _) Hu] _ IH]; [done|]. unfold cands. rewrite filter_cons_False; [done|].
  intros [?|?]; congruence.
Qed.

Lemma prepare_undecoded s V T p i tr R :
  Inv s V T ((p, i) :: tr) R → decoded i = false →
  ∃ j s1 s2 V2 T2 ms, decode_inst shl_32 ctz_0 i = Some j ∧ upd_inst s p (λ _, j) = Some s1 ∧
    convert_microop junk s1 p = Some s2 ∧ Inv s2 V2 T2 (ms ++ tr) R ∧ tframe s s2 ∧
    Forall (λ x, ready x.2) ms ∧ (1 ≤ length ms ≤ 17)%nat ∧ (cands ms ≤ 1)%nat.
Proof.
  intros HI Hd. pose proof (inv_tr _ _ _ _ _ _ _ _ HI) as Htro. apply Forall_cons in Htro as [Hok _].
  destruct Hok as (Hsh & Hl & Hs & Hdec). simpl in *. rewrite Hd in Hdec. destruct Hdec as [j Hj].
  destruct (decode_inst_ok _ _ _ _ Hd Hj) as [[Hshj Hk] Hdj]. specialize (Hshj Hsh).
  destruct (tracing_decoded _ _ _ _ _ j _ _ (inv_tracing _ _ _ _ _ HI)) as (s1 & Hs1 & Ht1 & Hf1 & Hn1).
  exists j, s1. unfold convert_microop.
  rewrite (get_inst_mid s1 [] p j _ (tc_heap _ _ _ _ _ Ht1) (tc_nodup _ _ _ _ _ Ht1)). bs.
  assert (Hfits : fits s1 (17 + length (Some <$> tr.*1))).
  { apply (fits_frame s); [done|]. rewrite !length_fmap.
    destruct (inv_shape _ _ _ _ _ _ _ _ HI) as (pre & suf & E & Hp & _ & Hc). unfold fits.
    destruct pre as [|y pre]; simpl in E.
    2:{ injection E as <- E. apply Forall_cons in Hp as [Hp _]. simpl in Hp. congruence. }
    subst suf. simpl in Hc. destruct Hc; [by left|right; lia]. }
  assert (Hplain : plain (type j) → ∃ s2 V2 T2 ms, Some s1 = Some s2 ∧ Inv s2 V2 T2 (ms ++ tr) R ∧
    tframe s s2 ∧ Forall (λ x, ready x.2) ms ∧ (1 ≤ length ms ≤ 17)%nat ∧ (cands ms ≤ 1)%nat).
  { intros Hpl. exists s1, V, T, [(p, j)]. split; [done|].
    assert (Hms : Forall (λ x : pinst, ready x.2) [(p, j)]).
    { constructor; [|done]. destruct Hk. by split_and!; simpl; congruence || done. }
    split; [|split_and!; simpl; try done; try lia; apply length_filter].
    eapply inv_front; try done. simpl. lia. }
  assert (Hconv : ∀ op, (∀ k, 0 ≤ k < num_eff_addr j → ∃ m, op j k = Some m ∧ micro m) →
    ∃ s2 V2 T2 ms, (s ← convert_with junk op s1 p; free_inst s p) = Some s2 ∧
      Inv s2 V2 T2 (ms ++ tr) R ∧ tframe s s2 ∧ Forall (λ x, ready x.2) ms ∧ (1 ≤ length ms ≤ 17)%nat ∧ (cands ms ≤ 1)%nat).
  { intros op Hop.
    destruct (convert_with_spec junk Hjs Hjd Hja op _ _ _ _ _ _ _ Ht1 Hshj Hop Hfits)
      as (s2 & V2 & T2 & ms & He & Ht2 & Hlen & Hms & Hb & Hf2 & Hn2).
    exists s2, V2, T2, ms. split; [done|]. pose proof (tframe_trans _ _ _ Hf1 Hf2) as Hf.
    pose proof (Forall_impl _ (λ x : pinst, ready x.2) _ Hms (λ x, @proj1 _ _)) as Hready.
    split; [eapply inv_front; try done; lia|]. split; [done|]. split; [done|]. split; [done|].
    rewrite (cands_micro _ Hms). lia. }
  destruct (type j) eqn:Et; try (destruct Hplain as (s2 & V2 & T2 & ms & ? & ?); [by split|];
    by exists s2, V2, T2, ms).
  - destruct (Hconv (pop_op junk)) as (s2 & V2 & T2 & ms & He & H); [intros; by apply pop_op_ok|].
    exists s2, V2, T2, ms. exact (conj Hj (conj Hs1 (conj He H))).
  - destruct (Hconv (push_op junk)) as (s2 & V2 & T2 & ms & He & H); [intros; by apply push_op_ok|].
    exists s2, V2, T2, ms. exact (conj Hj (conj Hs1 (conj He H))).
Qed.

Lemma prepare_decoded s V T p i tr R :
  Inv s V T ((p, i) :: tr) R → decoded i = true →
  ∃ s1, decode_inst shl_32 ctz_0 i = Some i ∧ upd_inst s p (λ _, i) = Some s1 ∧
    convert_microop junk s1 p = Some s1 ∧ Inv s1 V T ((p, i) :: tr) R ∧ tframe s s1.
Proof.
  intros HI Hd. destruct (tracing_decoded _ _ _ _ _ i _ _ (inv_tracing _ _ _ _ _ HI)) as (s1 & Hs1 & Ht1 & Hf1 & Hn1).
  exists s1. unfold decode_inst. rewrite Hd. split; [done|]. split; [done|]. split.
  - unfold convert_microop. rewrite (get_inst_mid s1 [] p i _ (tc_heap _ _ _ _ _ Ht1) (tc_nodup _ _ _ _ _ Ht1)). bs.
    pose proof (inv_tr _ _ _ _ _ _ _ _ HI) as Htro. apply Forall_cons in Htro as [(_ & _ & _ & Hp) _].
    simpl in Hp. rewrite Hd in Hp. destruct Hp. by destruct (type i).
  - split; [|done]. destruct Ht1 as [HQ Hh Hnd Hb Htl].
    eapply inv_retrace; try done; [apply HI| |lia]. eapply trace_shape_same; [apply HI|apply Hf1].
Qed.

(** Decoding and conversion leave a decoded instruction in front, and no more work. *)
Lemma prepare_inv s V T p i tr R :
  Inv s V T ((p, i) :: tr) R →
  ∃ j s1 s2 V2 T2 p2 i2 tr2, decode_inst shl_32 ctz_0 i = Some j ∧ upd_inst s p (λ _, j) = Some s1 ∧
    convert_microop junk s1 p = Some s2 ∧ Inv s2 V2 T2 ((p2, i2) :: tr2) R ∧ tframe s s2 ∧
    decoded i2 = true ∧ todo ((p2, i2) :: tr2) ≤ todo ((p, i) :: tr) ∧
    (cands ((p2, i2) :: tr2) ≤ cands ((p, i) :: tr))%nat.
Proof.
  intros HI. destruct (decoded i) eqn:Hd.
  - destruct (prepare_decoded _ _ _ _ _ _ _ HI Hd) as (s1 & ? & ? & ? & ? & ?).
    exists i, s1, s1, V, T, p, i, tr. by split_and!.
  - destruct (prepare_undecoded _ _ _ _ _ _ _ HI Hd) as (j & s1 & s2 & V2 & T2 & ms & ? & ? & ? & HI2 & ? & Hms & Hlen & Hc).
    destruct ms as [|[p2 i2] ms]; simpl in Hlen; [lia|]. exists j, s1, s2, V2, T2, p2, i2, (ms ++ tr).
    do 5 (split; [done|]). pose proof (proj1 (Forall_cons _ _ _) Hms) as [(_ & _ & _ & Hd2 & _) _].
    split; [done|]. pose proof (cfg_lat_pos _ _ (inv_cfg _ _ _ _ _ _ _ _ HI)) as Hlat. split.
    + change (todo (((p2, i2) :: ms) ++ tr) ≤ todo ((p, i) :: tr)). rewrite sum_of_app, todo_ready by done.
      simpl length. change (todo ((p, i) :: tr)) with (trace_work lat i + todo tr). unfold trace_work at 2.
      rewrite Hd. unfold w_wait, wb_max. nia.
    + change (cands (((p2, i2) :: ms) ++ tr) ≤ cands ((p, i) :: tr))%nat. unfold cands in *.
      rewrite filter_app, length_app, (filter_cons_True _ (p, i)) by (by left). simpl. lia.
Qed.
End Prepare.
