(* ===== verification/PipelineDeps.v ===== *)
(** Finding the dependencies of a new instruction: the search stays inside its arrays and
    changes only the dependency matrix and the new instruction. *)

From Stdlib Require Import ZArith Lia.
From stdpp Require Import base tactics functions option list gmap.
From S2P Require Import Prelude DList InstQueue InstQueueRep CacheSim Inst Rob TraceAnalyzer PipelineInv PipelineCommit PipelineExec PipelineRing.

Section Deps.
(** The new instruction [b] at [pb], after the older ones [R]; [tr] is the rest of the heap. *)
Context (s : TA) (tr R : list pinst) (pb : ptr) (b : Inst).
Context (Hring : ring_ok (rob s) (R ++ [(pb, b)])).
Context (Hnd : NoDup ((tr ++ R) ++ [(pb, b)]).*1).
Context (Hshb : shaped b) (Hsh : Forall (λ x, shaped x.2) R).

(** [b] with some sources and addresses cleared. *)
Definition cleared (src addrs : list Z) : Inst := b <| src_reg := src |> <| eff_addr := addrs |>.

(** The state during the search. *)
Definition searching (st : TA) : Prop :=
  ∃ m src addrs, dep_ok m ∧ length src = 16%nat ∧ length addrs = 16%nat ∧
    st = s <| dep_mat := m |> <| insts := list_to_map ((tr ++ R) ++ [(pb, cleared src addrs)]) |>.

Lemma search_get_b m src addrs :
  get_inst (s <| dep_mat := m |> <| insts := list_to_map ((tr ++ R) ++ [(pb, cleared src addrs)]) |>) pb =
    Some (cleared src addrs).
Proof. eapply get_inst_mid; [done|]. by eapply nodup_replace. Qed.

Lemma search_get_a m src addrs a :
  a ∈ R →
  get_inst (s <| dep_mat := m |> <| insts := list_to_map ((tr ++ R) ++ [(pb, cleared src addrs)]) |>) a.1 = Some a.2.
Proof.
  intros Ha. destruct a as [pa a]. eapply get_inst_at; [done|by eapply nodup_replace|]. set_solver.
Qed.

Lemma dep_ok_set m a :
  dep_ok m → 0 ≤ rob_idx a < 60 → ∀ c, 0 ≤ rob_idx c < 60 →
  ∃ m', set_dependency m a c = Some m' ∧ dep_ok m'.
Proof.
  intros [Hl Hr] Ha c Hc. unfold set_dependency.
  destruct (arr_get_is_Some m (rob_idx c)) as [row Hrow]; [lia|]. rewrite Hrow. bs.
  apply arr_get_Some in Hrow as [_ Hrow]. pose proof (Forall_lookup_1 _ _ _ _ Hr Hrow) as Hlr.
  simpl in Hlr. rewrite arr_set_Some by lia. bs. rewrite arr_set_Some by lia. eexists. split; [done|].
  split; [by rewrite length_insert|]. apply Forall_insert; [done|]. by rewrite length_insert.
Qed.

Lemma rob_idx_bound x : x ∈ R ++ [(pb, b)] → 0 ≤ rob_idx x.2 < 60.
Proof.
  intros [k Hk]%list_elem_of_lookup. destruct (ring_at _ _ Hring k x Hk) as [_ ->].
  pose proof (ring_cap _ _ Hring). pose proof (Z.mod_pos_bound (start_idx (rob s) + Z.of_nat k) (rob_cap (rob s))). lia.
Qed.

(** ** Registers *)

Lemma match_reg_ok a i j sc :
  a ∈ R → 0 ≤ i < 16 → 0 ≤ j < num_dst_reg a.2 → searching sc.1 →
  ∃ sc', match_reg a.1 pb i j sc = Some sc' ∧ searching sc'.1.
Proof.
  intros Ha Hi Hj. destruct sc as [st count]. intros (m & src & addrs & Hm & Hls & Hla & E). cbn [fst] in E. subst st.
  unfold match_reg. rewrite search_get_b. bs. rewrite (search_get_a _ _ _ a Ha). bs.
  pose proof (proj1 (Forall_forall _ _) Hsh a Ha) as [_ Hd _ _ Hnd' _].
  change (src_reg (cleared src addrs)) with src.
  destruct (arr_get_is_Some src i) as [x ->]; [lia|]. bs.
  destruct (arr_get_is_Some (dst_reg a.2) j) as [y ->]; [lia|]. bs.
  destruct (x =? y); [|eexists; split; [done|]; by exists m, src, addrs].
  destruct (dep_ok_set m a.2 Hm (rob_idx_bound a ltac:(set_solver)) (cleared src addrs)) as (m' & Em & Hm').
  { apply (rob_idx_bound (pb, b)). set_solver. }
  change (set_dependency _ a.2 (cleared src addrs)) with (set_dependency m a.2 (cleared src addrs)). rewrite Em. bs. rewrite arr_set_Some by lia. bs.
  erewrite upd_inst_at; [|done|by eapply nodup_replace]. bs. eexists. split; [done|]. simpl.
  eexists m', (<[Z.to_nat i := -1]> src), addrs. by rewrite length_insert.
Qed.

Lemma match_regs_ok a sc :
  a ∈ R → searching sc.1 → ∃ sc', match_regs a.1 pb sc = Some sc' ∧ searching sc'.1.
Proof.
  intros Ha Hs. unfold match_regs. destruct Hs as (m & src & addrs & Hm & Hls & Hla & E).
  assert (Hs : searching sc.1) by (by exists m, src, addrs). rewrite E.
  rewrite search_get_b. bs. rewrite (search_get_a _ _ _ a Ha). bs. destruct Hshb.
  apply (for_lt_inv (λ sc, searching sc.1)); [|done].
  change (num_src_reg (cleared _ _)) with (num_src_reg b). clear m src addrs Hm Hls Hla E Hs.
  intros i [st count] Hi (m & src & addrs & Hm & Hls & Hla & E). cbn [fst] in E. subst st. cbn [fst].
  rewrite search_get_b. bs. change (src_reg (cleared src addrs)) with src.
  destruct (arr_get_is_Some src i) as [x ->]; [lia|]. bs.
  assert (Hs : searching (s <| dep_mat := m |> <| insts := list_to_map ((tr ++ R) ++ [(pb, cleared src addrs)]) |>)).
  { by exists m, src, addrs. }
  destruct (x =? -1); [by eexists|].
  apply (for_lt_inv (λ sc, searching sc.1)); [|done]. intros j sc' Hj Hs'. apply match_reg_ok; done || lia.
Qed.

(** ** Addresses *)

Lemma match_mem_ok a i j sc :
  a ∈ R → 0 ≤ i < 16 → 0 ≤ j < num_eff_addr a.2 → searching sc.1 →
  ∃ sc', match_mem a.1 pb i j sc = Some sc' ∧ searching sc'.1.
Proof.
  intros Ha Hi Hj. destruct sc as [st count]. intros (m & src & addrs & Hm & Hls & Hla & E). cbn [fst] in E. subst st.
  unfold match_mem. rewrite search_get_b. bs. rewrite (search_get_a _ _ _ a Ha). bs.
  pose proof (proj1 (Forall_forall _ _) Hsh a Ha) as [_ _ Hd _ _ Hnd'].
  change (eff_addr (cleared src addrs)) with addrs.
  destruct (arr_get_is_Some addrs i) as [x ->]; [lia|]. bs.
  destruct (arr_get_is_Some (eff_addr a.2) j) as [y ->]; [lia|]. bs.
  destruct (x =? y); [|eexists; split; [done|]; by exists m, src, addrs].
  destruct (dep_ok_set m a.2 Hm (rob_idx_bound a ltac:(set_solver)) (cleared src addrs)) as (m' & Em & Hm').
  { apply (rob_idx_bound (pb, b)). set_solver. }
  rewrite arr_set_Some by lia. bs.
  change (set_dependency _ a.2 (cleared src addrs)) with (set_dependency m a.2 (cleared src addrs)). rewrite Em. bs.
  erewrite upd_inst_at; [|done|by eapply nodup_replace]. bs. eexists. split; [done|]. simpl.
  eexists m', src, (<[Z.to_nat i := 0]> addrs). by rewrite length_insert.
Qed.

Lemma match_mems_ok a sc :
  a ∈ R → searching sc.1 → ∃ sc', match_mems a.1 pb sc = Some sc' ∧ searching sc'.1.
Proof.
  intros Ha Hs. unfold match_mems. destruct Hs as (m & src & addrs & Hm & Hls & Hla & E).
  assert (Hs : searching sc.1) by (by exists m, src, addrs). rewrite E.
  rewrite search_get_b. bs. rewrite (search_get_a _ _ _ a Ha). bs. destruct Hshb.
  apply (for_lt_inv (λ sc, searching sc.1)); [|done].
  change (num_eff_addr (cleared _ _)) with (num_eff_addr b). clear m src addrs Hm Hls Hla E Hs.
  intros i [st count] Hi (m & src & addrs & Hm & Hls & Hla & E). cbn [fst] in E. subst st. cbn [fst].
  rewrite search_get_b. bs. change (eff_addr (cleared src addrs)) with addrs.
  destruct (arr_get_is_Some addrs i) as [x ->]; [lia|]. bs.
  assert (Hs : searching (s <| dep_mat := m |> <| insts := list_to_map ((tr ++ R) ++ [(pb, cleared src addrs)]) |>)).
  { by exists m, src, addrs. }
  destruct (x =? 0); [by eexists|].
  apply (for_lt_inv (λ sc, searching sc.1)); [|done]. intros j sc' Hj Hs'. apply match_mem_ok; done || lia.
Qed.

(** ** The loop over the older instructions *)

Lemma searching_rob st : searching st → rob st = rob s.
Proof. by intros (m & src & addrs & _ & _ & _ & ->). Qed.

Lemma older_loop_ok body fuel m sc :
  (∀ a sc, a ∈ R → searching sc.1 → ∃ sc', body a.1 sc = Some sc' ∧ searching sc'.1) →
  (m < length R)%nat → (m < fuel)%nat → searching sc.1 →
  ∃ st, older_loop body fuel (slot (rob s) (S m)) sc = Some st ∧ searching st.
Proof.
  intros Hbody. pose proof (ring_len _ _ Hring) as Hlen. rewrite length_app in Hlen. simpl in Hlen.
  revert fuel sc. induction m as [|m IH]; intros [|fuel] sc Hm Hf Hs; try lia; cbn [older_loop];
    (destruct (sc.2 =? 0); [by eexists|]);
    unfold older_idx, rob_at; rewrite (searching_rob _ Hs);
    rewrite (ring_older (rob s) (ring_start _ _ Hring)) by lia; bs.
  all: match goal with |- context [rob_get_inst _ (slot _ ?n)] =>
      destruct (lookup_lt_is_Some_2 R n) as [a Ha]; [lia|];
      destruct (ring_at _ _ Hring n a) as [Hat _]; [by rewrite lookup_app_l|];
      unfold rob_get_inst, slot; rewrite Hat; bs; fold (slot (rob s) n);
      destruct (Hbody a sc (list_elem_of_lookup_2 _ _ _ Ha) Hs) as (sc' & -> & Hs'); bs;
      rewrite (searching_rob _ Hs'), (slot_start (rob s) (ring_start _ _ Hring)) by lia
  end.
  - by eexists.
  - rewrite bool_decide_eq_false_2 by done. apply IH; done || lia.
Qed.

Lemma new_slot : rob_idx b = slot (rob s) (length R).
Proof.
  destruct (ring_at _ _ Hring (length R) (pb, b)) as [_ H]; [by apply list_lookup_middle|done].
Qed.

(** Both searches start at the new instruction. *)
Lemma find_older_ok (body : ptr → TA * Z → option (TA * Z)) (count : Inst → Z) st :
  (∀ a sc, a ∈ R → searching sc.1 → ∃ sc', body a.1 sc = Some sc' ∧ searching sc'.1) →
  searching st →
  ∃ st', (c ← get_inst st pb;
    if rob_idx c =? start_idx (rob st) then Some st
    else older_loop body (Z.to_nat (rob_cap (rob st))) (rob_idx c) (st, count c)) = Some st' ∧ searching st'.
Proof.
  intros Hbody Hs. pose proof (searching_rob _ Hs) as Er. pose proof (ring_len _ _ Hring) as Hlen.
  rewrite length_app in Hlen. simpl in Hlen.
  assert (Hg : ∃ src addrs, get_inst st pb = Some (cleared src addrs)).
  { destruct Hs as (m & src & addrs & _ & _ & _ & ->). eexists _, _. apply search_get_b. }
  destruct Hg as (src & addrs & ->). bs. change (rob_idx (cleared src addrs)) with (rob_idx b).
  rewrite Er, new_slot, (slot_start (rob s) (ring_start _ _ Hring)) by lia. case_bool_decide as Hz; [by eexists|].
  replace (length R) with (S (length R - 1)) by lia. apply older_loop_ok; done || lia.
Qed.

Lemma find_dependencies_ok st :
  searching st →
  ∃ st1 st2, find_regs_dependency st pb = Some st1 ∧ find_mems_dependency st1 pb = Some st2 ∧ searching st2.
Proof.
  intros Hs.
  destruct (find_older_ok (λ pa, match_regs pa pb) num_src_reg st) as (st1 & H1 & Hs1); [apply match_regs_ok|done|].
  destruct (find_older_ok (λ pa, match_mems pa pb) num_eff_addr st1) as (st2 & H2 & Hs2); [apply match_mems_ok|done|].
  by exists st1, st2.
Qed.
End Deps.
