(* ===== verification/PipelineDispatch.v ===== *)
(** Dispatch: instructions enter the reorder buffer and the queues. *)

From Stdlib Require Import ZArith Lia.
From stdpp Require Import base tactics functions option list gmap.
From S2P Require Import Prelude DList InstQueue InstQueueRep CacheSim Inst Rob TraceAnalyzer PipelineInv PipelineCommit PipelineExec PipelineRing PipelineTrace PipelineExpand PipelineDeps.

(** ** Entering the reorder buffer *)

Lemma ring_insert r R p l i :
  ring_ok r R → rob_count r ≠ rob_cap r → NoDup (l ++ [(p, i)]).*1 →
  ∃ r', rob_insert_inst r (list_to_map (l ++ [(p, i)])) p =
      Some (r', list_to_map (l ++ [(p, i <| rob_idx := slot r (length R) |>)])) ∧
    rob_cap r' = rob_cap r ∧ ∀ j, rob_idx j = slot r (length R) → ring_ok r' (R ++ [(p, j)]).
Proof.
  intros [Hcap Hst Hlen Hcnt Hend Hent Hat] Hfull Hnd. fold (slot r (length R)) in Hend.
  pose proof (slot_range r Hst (length R)) as Hsl. unfold rob_insert_inst. rewrite Hend.
  rewrite arr_set_Some by lia. bs. rewrite (upd_Some _ _ i).
  2:{ apply heap_lookup; [done|]. apply elem_of_app. right. by left. }
  bs. rewrite heap_update by done. unfold ring. destruct (Z.eqb_spec (rob_cap r) 0); [lia|]. bs.
  eexists. split; [done|]. split; [done|]. intros j Hj.
  constructor; simpl; rewrite ?length_app, ?length_insert; simpl; try done; try lia.
  - rewrite Z.rem_mod_nonneg by lia. unfold slot. rewrite Zplus_mod_idemp_l. f_equal. lia.
  - intros k x Hk. fold (slot r k). destruct (decide (k < length R)%nat) as [Hlt|Hge].
    + rewrite lookup_app_l in Hk by done. destruct (Hat k x Hk) as [H1 H2]. split; [|done].
      apply arr_get_Some in H1 as [? H1]. apply arr_get_Some. split; [done|].
      pose proof (slot_range r Hst k). rewrite list_lookup_insert_ne; [done|].
      intros He. apply Z2Nat.inj in He; [|lia..]. apply (slot_inj r Hst) in He; lia.
    + rewrite lookup_app_r in Hk by lia. apply list_lookup_singleton_Some in Hk as [Hk <-].
      replace k with (length R) by lia. split; [|done].
      apply arr_get_Some. split; [lia|]. apply list_lookup_insert_eq. lia.
Qed.

Lemma clean_dependency_ok r m i :
  dep_ok m → 0 ≤ rob_cap r ≤ 60 → 0 ≤ rob_idx i < 60 →
  ∃ m', clean_dependency r m i = Some m' ∧ dep_ok m'.
Proof.
  intros [Hl Hr] Hc Hi. unfold clean_dependency.
  destruct (arr_get_is_Some m (rob_idx i)) as [row Hrow]; [lia|]. rewrite Hrow. bs.
  apply arr_get_Some in Hrow as [_ Hrow]. pose proof (Forall_lookup_1 _ _ _ _ Hr Hrow) as Hlr. simpl in Hlr.
  unfold clear_row. destruct (Z.ltb_spec (rob_cap r) 0), (Z.ltb_spec (Z.of_nat (length row)) (rob_cap r)); simpl; try lia.
  rewrite arr_set_Some by lia. eexists. split; [done|]. split; [by rewrite length_insert|].
  apply Forall_insert; [done|]. rewrite length_app, length_replicate, length_drop. lia.
Qed.

(** What dispatching an instruction leaves alone. *)
Record dframe (s s' : TA) : Prop := {
  df_caps : same_caps (qm s) (qm s');
  df_brk : ibrk s' = ibrk s;
  df_cycle : cur_cycle s' = cur_cycle s;
  df_fu : fu s' = fu s;
  df_dw : dispatch_width s' = dispatch_width s;
  df_iw : issue_width s' = issue_width s;
  df_ww : wb_width s' = wb_width s;
  df_cw : commit_width s' = commit_width s;
  df_lat : latency_l1_miss s' = latency_l1_miss s;
  df_types : num_inst_type s' = num_inst_type s;
  df_fetched : num_fetched_insts s' = num_fetched_insts s;
  df_committed : num_committed_insts s' = num_committed_insts s;
}.

Lemma dframe_trans s1 s2 s3 : dframe s1 s2 → dframe s2 s3 → dframe s1 s3.
Proof. intros [] []. split; congruence || by eapply same_caps_trans. Qed.

Section Dispatch.
Context {QV : QMem → view → tails → Prop} {QL : QueueLaws QV}.

(** ** Entering a queue *)

Definition new_elem (o : option ptr) (p : ptr) : list (ptr * option ptr) :=
  match o with Some e => [(e, Some p)] | None => [] end.

Lemma enqueue_ok s V T q p f l i :
  QV (qm s) V T → q ≠ POOL → T q = true → room (qm s) q (V q) →
  insts s = list_to_map (l ++ [(p, i)]) → NoDup (l ++ [(p, i)]).*1 →
  ∃ m' V' e, enqueue s q p f = Some (s <| qm := m' |> <| insts := list_to_map (l ++ [(p, f (Some e) i)]) |>) ∧
    QV m' V' T ∧ same_caps (qm s) m' ∧ V' q = V q ++ new_elem (Some e) p ∧
    (∀ q', q' ≠ POOL → q' ≠ q → V' q' = V q').
Proof.
  intros HQ Hq HT Hr Hh Hnd. destruct (law_push_back _ _ _ q p HQ Hq HT Hr) as (m' & e & He & HQ' & Hc & _).
  unfold enqueue. rewrite He. bs. set (s1 := s <| qm := m' |>).
  rewrite (upd_inst_at s1 l p i [] _ Hh Hnd).
  eexists m', _, e. split; [done|]. split; [exact HQ'|]. split; [done|]. split; [apply fn_insert_same|].
  intros q' H1 H2. by rewrite !fn_insert_other by done.
Qed.

(** The load and store queues, which only their instructions enter. *)
Lemma enqueue_if_ok P `{Decision P} s V T q p f l i :
  QV (qm s) V T → q ≠ POOL → T q = true → (P → room (qm s) q (V q)) →
  insts s = list_to_map (l ++ [(p, i)]) → NoDup (l ++ [(p, i)]).*1 → f None i = i →
  ∃ m' V' o, (if decide P then enqueue s q p f else Some s) =
      Some (s <| qm := m' |> <| insts := list_to_map (l ++ [(p, f o i)]) |>) ∧
    QV m' V' T ∧ same_caps (qm s) m' ∧ V' q = V q ++ new_elem o p ∧
    (∀ q', q' ≠ POOL → q' ≠ q → V' q' = V q').
Proof.
  intros HQ Hq HT Hr Hh Hnd Hf. case_decide as HP.
  - destruct (enqueue_ok s V T q p f l i) as (m' & V' & e & ?); auto. by exists m', V', (Some e).
  - exists (qm s), V, None. rewrite Hf, <-Hh. split; [by destruct s|]. split_and!; try done.
    by rewrite app_nil_r.
Qed.

Lemma ldq_elem_none i : ldq_elem i = None → i <| ldq_elem := None |> = i.
Proof. destruct i. simpl. by intros ->. Qed.
Lemma stq_elem_none i : stq_elem i = None → i <| stq_elem := None |> = i.
Proof. destruct i. simpl. by intros ->. Qed.

(** The three queues together. *)
Lemma enqueue_all_ok s V T p l i0 i :
  QV (qm s) V T → (∀ q, backend q → T q = true) → room (qm s) IQ (V IQ) →
  (type i0 = MemRead → room (qm s) LDQ (V LDQ)) → (type i0 = MemWrite → room (qm s) STQ (V STQ)) →
  insts s = list_to_map (l ++ [(p, i)]) → NoDup (l ++ [(p, i)]).*1 →
  ldq_elem i = None → stq_elem i = None →
  ∃ s' V' e o1 o2,
    (s ← enqueue s IQ p (λ e i, i <| iq_elem := e |>);
     s ← (if decide (type i0 = MemRead) then enqueue s LDQ p (λ e i, i <| ldq_elem := e |>) else Some s);
     if decide (type i0 = MemWrite) then enqueue s STQ p (λ e i, i <| stq_elem := e |>) else Some s) = Some s' ∧
    QV (qm s') V' T ∧ dframe s s' ∧ rob s' = rob s ∧ dep_mat s' = dep_mat s ∧ cur_cycle s' = cur_cycle s ∧
    num_dispatched_insts s' = num_dispatched_insts s ∧
    insts s' = list_to_map (l ++ [(p, i <| iq_elem := Some e |> <| ldq_elem := o1 |> <| stq_elem := o2 |>)]) ∧
    V' IQ = V IQ ++ new_elem (Some e) p ∧ V' LDQ = V LDQ ++ new_elem o1 p ∧
    V' STQ = V STQ ++ new_elem o2 p ∧ V' FUB = V FUB ∧ V' TRACE = V TRACE.
Proof.
  intros HQ HT Hr1 Hr2 Hr3 Hh Hnd Hl Hs.
  destruct (enqueue_ok s V T IQ p (λ e i, i <| iq_elem := e |>) l i HQ ltac:(done) ltac:(apply HT; unfold backend; auto) Hr1 Hh Hnd)
    as (m1 & V1 & e & -> & HQ1 & Hc1 & Hv1 & Ho1). bs.
  set (i1 := i <| iq_elem := Some e |>). set (s1 := s <| qm := m1 |> <| insts := _ |>).
  destruct (enqueue_if_ok (type i0 = MemRead) s1 V1 T LDQ p (λ e i, i <| ldq_elem := e |>) l i1)
    as (m2 & V2 & o1 & -> & HQ2 & Hc2 & Hv2 & Ho2); try done.
  { apply HT. unfold backend. auto. }
  { intros Ht. rewrite Ho1 by done. eapply same_caps_room; [exact Hc1|auto]. }
  { by eapply nodup_replace. }
  { exact (ldq_elem_none i1 Hl). }
  bs. set (i2 := i1 <| ldq_elem := o1 |>). set (s2 := s1 <| qm := m2 |> <| insts := _ |>).
  destruct (enqueue_if_ok (type i0 = MemWrite) s2 V2 T STQ p (λ e i, i <| stq_elem := e |>) l i2)
    as (m3 & V3 & o2 & -> & HQ3 & Hc3 & Hv3 & Ho3); try done.
  { apply HT. unfold backend. auto. }
  { intros Ht. rewrite Ho2, Ho1 by done. eapply same_caps_room; [exact Hc2|].
    eapply same_caps_room; [exact Hc1|auto]. }
  { by eapply nodup_replace. }
  { exact (stq_elem_none i2 Hs). }
  eexists _, V3, e, o1, o2. split; [done|]. split; [exact HQ3|]. split.
  { split; try done. eapply same_caps_trans; [exact Hc1|]. eapply same_caps_trans; [exact Hc2|exact Hc3]. }
  do 5 (split; [done|]). split_and!.
  - by rewrite Ho3, Ho2 by done.
  - rewrite Ho3, Hv2 by done. f_equal. by apply Ho1.
  - rewrite Hv3. f_equal. by rewrite Ho2, Ho1 by done.
  - by rewrite Ho3, Ho2, Ho1 by done.
  - by rewrite Ho3, Ho2, Ho1 by done.
Qed.

(** ** The invariant *)

Context (lat : Z) (decodes : Inst → Prop).
Local Abbreviation Inv := (Inv QV lat decodes).

Lemma omap_new R p j f :
  omap (queued f) (R ++ [(p, j)]) = omap (queued f) R ++ new_elem (f j) p.
Proof. rewrite omap_app. unfold queued at 2. simpl. by destruct (f j). Qed.

Lemma fu_ok_new l R p j : fu_ok l R → state j ≠ Issue → fu_ok l (R ++ [(p, j)]).
Proof.
  intros [Hl Hf] Hj. split; [done|]. intros t f Ht. destruct (Hf t f Ht) as (? & ? & Ha).
  split_and!; try done. rewrite filter_app, filter_cons_False; [|by intros [? _]]. simpl. by rewrite app_nil_r.
Qed.

(** The front of the trace has become the youngest instruction in flight. *)
Lemma inv_enter s V T p i tr R s' V' j e xs :
  Inv s V T ((p, i) :: tr) R → dframe s s' → QV (qm s') V' T →
  V TRACE = (e, Some p) :: xs → V' TRACE = xs →
  (∃ e', V' IQ = V IQ ++ new_elem (Some e') p) → V' LDQ = V LDQ ++ new_elem (ldq_elem j) p →
  V' STQ = V STQ ++ new_elem (stq_elem j) p → V' FUB = V FUB →
  insts s' = list_to_map ((tr ++ R) ++ [(p, j)]) → ring_ok (rob s') (R ++ [(p, j)]) →
  dep_ok (dep_mat s') → flight_ok lat j → state j = Dispatch →
  num_dispatched_insts s' = num_dispatched_insts s + 1 →
  Inv s' V' T tr (R ++ [(p, j)]).
Proof.
  intros [Hcfg HQ HT Htr Hiq Hfub Hldq Hstq Hheap Hnd Hbrk Hring Hdep Hfu Hfl Htro Hsh Hfe Hdi Hty] []
    HQ' HV1 HV2 [e' Hiq'] Hl' Hs' Hf' Hh Hr Hd Hok Hst Hn.
  assert (Hperm : ∀ j, ((tr ++ R) ++ [(p, j)]).*1 ≡ₚ (((p, i) :: tr) ++ R).*1).
  { intros k. rewrite !fmap_app. simpl. by rewrite <-Permutation_cons_append. }
  rewrite HV1 in Htr. simpl in Htr. injection Htr as Htr.
  constructor; rewrite ?df_brk0, ?df_fu0, ?df_types0; try done.
  - by eapply config_ok_same.
  - by rewrite HV2.
  - rewrite Hiq', fmap_app, filter_app, fmap_app, fmap_app, Hiq, filter_cons_True by done. done.
  - rewrite Hf', Hfub, filter_app, filter_cons_False; [by rewrite app_nil_r|].
    intros [H|[H _]]; simpl in H; congruence.
  - by rewrite Hl', Hldq, omap_new.
  - by rewrite Hs', Hstq, omap_new.
  - by rewrite Hh, app_assoc.
  - rewrite app_assoc, Hperm. done.
  - intros q Hq. apply Hbrk. rewrite app_assoc, Hperm in Hq. done.
  - apply fu_ok_new; [done|congruence].
  - apply Forall_app. split; [done|]. by constructor.
  - by apply Forall_cons in Htro as [_ ?].
  - destruct Hsh as (pre & suf & E & Hp & Hs & Hc). unfold trace_shape, queue in *. rewrite df_caps0.
    destruct pre as [|y pre]; simpl in E.
    + subst suf. exists [], tr. apply Forall_cons in Hs as [_ ?]. split_and!; try done. simpl in Hc.
      destruct Hc; [by left|right; lia].
    + injection E as <- ->. exists pre, suf. by apply Forall_cons in Hp as [_ ?].
  - rewrite df_fetched0, df_committed0, Hfe, length_app. simpl. lia.
  - rewrite df_fetched0, Hdi, Hn. simpl. lia.
Qed.

Lemma searching_start s tr R p b :
  dep_ok (dep_mat s) → shaped b → insts s = list_to_map ((tr ++ R) ++ [(p, b)]) → searching s tr R p b s.
Proof.
  intros Hd [] Hh. exists (dep_mat s), (src_reg b), (eff_addr b). split_and!; try done.
  assert (Hb : cleared b (src_reg b) (eff_addr b) = b) by (by destruct b). rewrite Hb, <-Hh. by destruct s.
Qed.

(** The first half: reorder buffer, dependency row and queues. *)
Lemma dispatch_enter s V T p i tr R m e xs :
  Inv s V T ((p, i) :: tr) R → V TRACE = (e, Some p) :: xs →
  QV m (<[TRACE := xs]> V) T → same_caps (qm s) m → rob_count (rob s) ≠ rob_cap (rob s) →
  room (qm s) IQ (V IQ) → (type i = MemRead → room (qm s) LDQ (V LDQ)) →
  (type i = MemWrite → room (qm s) STQ (V STQ)) →
  let enter := (* the statements before the search *)
    λ k : TA → option TA,
    ('(r, h) ← rob_insert_inst (rob s) (insts s) p;
     let s := s <| qm := m |> <| rob := r |> <| insts := h |> in
     i ← get_inst s p;
     m ← clean_dependency (rob s) (dep_mat s) i;
     let s := s <| dep_mat := m |> in
     s ← enqueue s IQ p (λ e i, i <| iq_elem := e |>);
     s ← (if decide (type i = MemRead) then enqueue s LDQ p (λ e i, i <| ldq_elem := e |>) else Some s);
     s ← (if decide (type i = MemWrite) then enqueue s STQ p (λ e i, i <| stq_elem := e |>) else Some s);
     k s) in
  ∃ s' V' e' b, (∀ k, enter k = k s') ∧ QV (qm s') V' T ∧ dframe s s' ∧
    (∀ j, rob_idx j = rob_idx b → ring_ok (rob s') (R ++ [(p, j)])) ∧ dep_ok (dep_mat s') ∧
    num_dispatched_insts s' = num_dispatched_insts s ∧ insts s' = list_to_map ((tr ++ R) ++ [(p, b)]) ∧
    NoDup ((tr ++ R) ++ [(p, b)]).*1 ∧ shaped b ∧ type b = type i ∧
    V' TRACE = xs ∧ V' IQ = V IQ ++ new_elem (Some e') p ∧ V' LDQ = V LDQ ++ new_elem (ldq_elem b) p ∧
    V' STQ = V STQ ++ new_elem (stq_elem b) p ∧ V' FUB = V FUB.
Proof.
  intros HI HV HQ Hc Hfull Hr1 Hr2 Hr3 enter.
  destruct (proj1 (Forall_cons _ _ _) (inv_tr _ _ _ _ _ _ _ _ HI)) as [(Hshi & Hl & Hs & _) _].
  cbn [snd] in Hshi, Hl, Hs. pose proof (inv_nodup _ _ _ _ _ _ _ _ HI) as Hnd0.
  assert (Hperm : ((p, i) :: tr) ++ R ≡ₚ (tr ++ R) ++ [(p, i)]) by (by rewrite <-Permutation_cons_append).
  assert (Hnd : NoDup ((tr ++ R) ++ [(p, i)]).*1) by (by rewrite <-Hperm).
  assert (Hh : insts s = list_to_map ((tr ++ R) ++ [(p, i)])).
  { rewrite (inv_heap _ _ _ _ _ _ _ _ HI). by apply list_to_map_proper. }
  pose proof (inv_ring _ _ _ _ _ _ _ _ HI) as Hring.
  destruct (ring_insert _ _ p (tr ++ R) i Hring Hfull Hnd) as (r & Er & Hcap & Hr').
  set (i1 := i <| rob_idx := slot (rob s) (length R) |>) in *.
  set (s1 := s <| qm := m |> <| rob := r |> <| insts := list_to_map ((tr ++ R) ++ [(p, i1)]) |>).
  pose proof (nodup_replace _ p i i1 _ Hnd) as Hnd1. pose proof (ring_cap _ _ Hring) as Hcap60.
  pose proof (slot_range (rob s) (ring_start _ _ Hring) (length R)) as Hsl.
  destruct (clean_dependency_ok r (dep_mat s) i1 (inv_dep _ _ _ _ _ _ _ _ HI)) as (m1 & Em1 & Hm1); [lia|simpl; lia|].
  set (s2 := s1 <| dep_mat := m1 |>).
  destruct (enqueue_all_ok s2 (<[TRACE := xs]> V) T p (tr ++ R) i1 i1)
    as (s3 & V3 & e' & o1 & o2 & E3 & HQ3 & Hf3 & Hrob3 & Hdep3 & _ & Hnd3 & Hh3 & Hiq & Hldq & Hstq & Hfub & Htr);
    try done.
  { apply (inv_tails _ _ _ _ _ _ _ _ HI). }
  { eapply same_caps_room; [exact Hc|exact Hr1]. }
  { intros ?. eapply same_caps_room; [exact Hc|auto]. }
  { intros ?. eapply same_caps_room; [exact Hc|auto]. }
  apply bind_Some in E3 as (a1 & E31 & E3). apply bind_Some in E3 as (a2 & E32 & E33).
  exists s3, V3, e', (i1 <| iq_elem := Some e' |> <| ldq_elem := o1 |> <| stq_elem := o2 |>). split.
  { intros k. unfold enter. rewrite Hh, Er. bs. fold s1.
    rewrite (get_inst_mid s1 (tr ++ R) p i1 [] eq_refl Hnd1). bs.
    change (clean_dependency _ _ i1) with (clean_dependency r (dep_mat s) i1). rewrite Em1. bs. fold s2.
    rewrite E31. bs. rewrite E32. bs. by rewrite E33. }
  split; [exact HQ3|]. split.
  { eapply dframe_trans; [|exact Hf3]. by split. }
  split; [rewrite Hrob3; intros j Hj; by apply Hr'|]. rewrite Hdep3.
  split; [exact Hm1|]. split; [exact Hnd3|]. split; [exact Hh3|]. split; [by eapply nodup_replace|].
  split; [by destruct Hshi|]. by split_and!.
Qed.

Lemma dispatch_one_inv s V T p i tr R m e xs :
  Inv s V T ((p, i) :: tr) R → decoded i = true → type i ≠ Unsupported →
  V TRACE = (e, Some p) :: xs → QV m (<[TRACE := xs]> V) T → same_caps (qm s) m →
  rob_count (rob s) ≠ rob_cap (rob s) → room (qm s) IQ (V IQ) →
  (type i = MemRead → room (qm s) LDQ (V LDQ)) → (type i = MemWrite → room (qm s) STQ (V STQ)) →
  ∃ s' V' j, dispatch_one (s <| qm := m |>) p = Some s' ∧ Inv s' V' T tr (R ++ [(p, j)]) ∧ dframe s s' ∧
    flight_work lat j = w_wait lat.
Proof.
  intros HI Hd Ht HV HQ Hc Hfull Hr1 Hr2 Hr3.
  destruct (proj1 (Forall_cons _ _ _) (inv_tr _ _ _ _ _ _ _ _ HI)) as [(_ & _ & _ & Hpl) _].
  cbn [snd] in Hpl. rewrite Hd in Hpl.
  destruct (dispatch_enter _ _ _ _ _ _ _ _ _ _ HI HV HQ Hc Hfull Hr1 Hr2 Hr3)
    as (s1 & V1 & e' & b & Hent & HQ1 & Hf1 & Hring & Hdep & Hn & Hh & Hnd & Hsh & Hty & Htr & Hiq & Hldq & Hstq & Hfub).
  set (k := λ s, let s := s <| num_dispatched_insts := num_dispatched_insts s + 1 |> in
    s ← find_regs_dependency s p; s ← find_mems_dependency s p; s ← dispatch_inst s p;
    upd_inst s p (λ i, i <| dispatched_cycle := cur_cycle s |>)).
  assert (Hone : dispatch_one (s <| qm := m |>) p = k s1) by (rewrite <-(Hent k); reflexivity).
  rewrite Hone. clear Hone Hent. unfold k. set (s2 := s1 <| num_dispatched_insts := _ |>). cbv zeta.
  pose proof (Forall_impl _ (λ x : pinst, shaped x.2) _ (inv_flight _ _ _ _ _ _ _ _ HI)
    (λ x (H : flight_ok lat x.2), proj1 H)) as Hshr.
  destruct (find_dependencies_ok s2 tr R p b (Hring b eq_refl) Hnd Hsh Hshr s2)
    as (st1 & st2 & -> & E2 & Hsearch); [by apply searching_start|]. bs. rewrite E2. bs. clear E2.
  destruct Hsearch as (md & src & addrs & Hmd & Hsrc & Haddrs & ->). unfold dispatch_inst.
  set (b1 := cleared b src addrs). set (s3 := _ <| num_dispatched_insts_cycle := _ |>). cbv zeta.
  pose proof (nodup_replace _ p b b1 _ Hnd) as Hnd1.
  rewrite (upd_inst_at s3 (tr ++ R) p b1 [] _ eq_refl Hnd1). bs. set (b2 := b1 <| state := Dispatch |>).
  set (s4 := s3 <| insts := _ |>). pose proof (nodup_replace _ p b b2 _ Hnd) as Hnd2.
  rewrite (upd_inst_at s4 (tr ++ R) p b2 [] _ eq_refl Hnd2).
  eexists _, V1, (b2 <| dispatched_cycle := cur_cycle s4 |>). split; [done|]. split; [|split].
  - eapply (inv_enter s V T p i); try exact HQ1; try exact HV; try done.
    + eapply dframe_trans; [exact Hf1|]. by split.
    + by exists e'.
    + apply Hring. done.
    + split; [destruct Hsh; by split|]. simpl. by rewrite Hty.
    + simpl. by rewrite Hn.
  - eapply dframe_trans; [exact Hf1|]. by split.
  - done.
Qed.
End Dispatch.

(** ** The loop *)

Section Loop.
Context {QV : QMem → view → tails → Prop} {QL : QueueLaws QV}.
Context (lat : Z) (junk : Inst) (shl_32 : Z → Z) (ctz_0 : Z).
Context (Hjs : length (src_reg junk) = 16%nat) (Hjd : length (dst_reg junk) = 16%nat)
  (Hja : length (eff_addr junk) = 16%nat).
Local Abbreviation Inv := (Inv QV lat (decodable shl_32 ctz_0)).
Local Abbreviation work := (work lat).

Lemma front_inst_ok s V T tr R : Inv s V T tr R → front_inst s = Some (head tr.*1).
Proof.
  intros HI. unfold front_inst, front_inst_elem, queue. pose proof (inv_qv _ _ _ _ _ _ _ _ HI) as HQ.
  pose proof (inv_trace _ _ _ _ _ _ _ _ HI) as Htr. rewrite (law_front _ _ _ TRACE HQ).
  destruct (V TRACE) as [|[e v] xs] eqn:EV; destruct tr as [|[p i] tr]; simpl in *; try done.
  injection Htr as -> _. destruct (law_node _ _ _ TRACE [] (e, Some p) xs HQ EV) as (c & Hc & Hi & _).
  simpl in *. rewrite Hc. bs. by rewrite Hi.
Qed.

(** Room in the reorder buffer and in the queues the instruction needs. *)
Definition has_place (s : TA) (V : view) (i : Inst) : Prop :=
  rob_count (rob s) ≠ rob_cap (rob s) ∧ room (qm s) IQ (V IQ) ∧
  (type i = MemRead → room (qm s) LDQ (V LDQ)) ∧ (type i = MemWrite → room (qm s) STQ (V STQ)).

Lemma is_full_empty s V T q :
  QV (qm s) V T → V q = [] → 0 ≤ capacity (queue s q) → is_full_queue (queue s q) = false.
Proof.
  intros HQ HV Hc. unfold is_full_queue. unfold queue in *. rewrite (law_size _ _ _ q HQ), HV. simpl.
  destruct (Z.eqb_spec (capacity (queues (qm s) q)) 0); [done|]. apply Z.leb_gt. lia.
Qed.

(** Dispatch stalls only when something is full, and never on an empty machine. *)
Lemma dispatch_stalls_ok s V T tr R i :
  Inv s V T tr R →
  ∃ b s', dispatch_stalls s i = (b, s') ∧ Inv s' V T tr R ∧ tframe s s' ∧ qm s' = qm s ∧
    (b = false → has_place s' V i) ∧ (R = [] → b = false).
Proof.
  intros HI. pose proof (inv_qv _ _ _ _ _ _ _ _ HI) as HQ. pose proof (inv_ring _ _ _ _ _ _ _ _ HI) as Hring.
  assert (Hempty : R = [] → is_rob_full (rob s) = false ∧ ∀ q, q = IQ ∨ q = LDQ ∨ q = STQ → is_full_queue (queue s q) = false).
  { intros ->. split.
    - unfold is_rob_full. rewrite (ring_count _ _ Hring). pose proof (ring_cap _ _ Hring). apply Z.eqb_neq. simpl. lia.
    - destruct (inv_cfg _ _ _ _ _ _ _ _ HI).
      intros q Hq. eapply is_full_empty; [done| |by destruct Hq as [->|[->| ->]]].
      destruct Hq as [->|[->| ->]].
      + pose proof (inv_iq _ _ _ _ _ _ _ _ HI) as H. apply Permutation_nil_r in H. by destruct (V IQ).
      + pose proof (inv_ldq _ _ _ _ _ _ _ _ HI) as H. by apply Permutation_nil_r in H.
      + pose proof (inv_stq _ _ _ _ _ _ _ _ HI) as H. by apply Permutation_nil_r in H. }
  unfold dispatch_stalls. set (s0 := s <| rob_access_event := _ |>). cbv zeta.
  change (rob s0) with (rob s). change (queue s0) with (queue s).
  destruct (is_rob_full (rob s)) eqn:E1; [|destruct (is_full_queue (queue s IQ)) eqn:E2;
    [|destruct (bool_decide (type i = MemRead) && is_full_queue (queue s LDQ)) eqn:E3;
      [|destruct (bool_decide (type i = MemWrite) && is_full_queue (queue s STQ)) eqn:E4]]].
  1-4: eexists true, _; split; [done|]; split; [by eapply inv_same|]; split_and!; try done;
    intros HR; exfalso; destruct (Hempty HR) as [? Hq]; rewrite ?Hq, ?andb_false_r in * by auto; done.
  eexists false, _. split; [done|]. split; [by eapply inv_same|]. split_and!; try done. intros _.
  split_and!.
  - unfold is_rob_full in E1. by apply Z.eqb_neq in E1.
  - by eapply law_full.
  - intros Ht. rewrite bool_decide_eq_true_2 in E3 by done. by eapply law_full.
  - intros Ht. rewrite bool_decide_eq_true_2 in E4 by done. by eapply law_full.
Qed.

(** An unsupported instruction is dropped. *)
Lemma dispatch_drop s V T p i tr R m e xs :
  Inv s V T ((p, i) :: tr) R → V TRACE = (e, Some p) :: xs → QV m (<[TRACE := xs]> V) T → same_caps (qm s) m →
  let s1 := s <| qm := m |> in
  let s2 := s1 <| num_dispatched_insts := num_dispatched_insts s1 + 1 |>
               <| num_committed_insts := num_committed_insts s1 + 1 |> in
  ∃ s', free_inst s2 p = Some s' ∧ Inv s' (<[TRACE := xs]> V) T tr R ∧ fu s' = fu s ∧
    cur_cycle s' = cur_cycle s.
Proof.
  intros [Hcfg HQ HT Htr Hiq Hfub Hldq Hstq Hheap Hnd Hbrk Hring Hdep Hfu Hfl Htro Hsh Hfe Hdi Hty] HV HQm Hc s1 s2.
  rewrite (free_inst_at s2 [] p i (tr ++ R) Hheap Hnd). eexists. split; [done|]. split; [|done].
  rewrite HV in Htr. simpl in Htr. injection Htr as Htr.
  constructor; try done; rewrite ?fn_insert_same; simpl; try done.
  - by eapply config_ok_same.
  - apply NoDup_cons in Hnd as [_ ?]. done.
  - intros q Hq. apply Hbrk. simpl. by right.
  - by apply Forall_cons in Htro as [_ ?].
  - destruct Hsh as (pre & suf & E & Hp & Hs & Hcp). unfold trace_shape, queue in *. simpl. rewrite Hc.
    destruct pre as [|y pre]; simpl in E.
    + subst suf. exists [], tr. apply Forall_cons in Hs as [_ ?]. split_and!; try done. simpl in Hcp.
      destruct Hcp; [by left|right; lia].
    + injection E as <- ->. exists pre, suf. by apply Forall_cons in Hp as [_ ?].
  - rewrite Hfe. simpl. lia.
  - rewrite Hdi. simpl. lia.
Qed.

(** One iteration: the loop stops because something is full, or an instruction leaves the
    trace. *)
Lemma dispatch_iter fuel w s V T p i tr R :
  Inv s V T ((p, i) :: tr) R → 0 < w →
  ∃ s' V' T' tr' R', Inv s' V' T' tr' R' ∧ fu s' = fu s ∧ cur_cycle s' = cur_cycle s ∧
    ((dispatch_loop junk shl_32 ctz_0 (S fuel) w s = Some s' ∧ R' = R ∧ R ≠ [] ∧
      work tr' R' ≤ work ((p, i) :: tr) R) ∨
     (∃ w', dispatch_loop junk shl_32 ctz_0 (S fuel) w s = dispatch_loop junk shl_32 ctz_0 fuel w' s' ∧
      work tr' R' < work ((p, i) :: tr) R ∧
      (Z.to_nat w' + cands tr' < Z.to_nat w + cands ((p, i) :: tr))%nat)).
Proof.
  intros HI Hw. cbn [dispatch_loop]. rewrite (proj2 (Z.leb_gt w 0) Hw), (front_inst_ok _ _ _ _ _ HI). bs.
  cbn [fmap list_fmap head fst].
  rewrite (get_inst_mid s [] p i (tr ++ R) (inv_heap _ _ _ _ _ _ _ _ HI) (inv_nodup _ _ _ _ _ _ _ _ HI)). bs.
  destruct (prepare_inv lat junk shl_32 ctz_0 Hjs Hjd Hja _ _ _ _ _ _ _ HI)
    as (j & s1 & s2 & V2 & T2 & p2 & i2 & tr2 & -> & E1 & E2 & HI2 & Hf2 & Hd2 & Htodo & Hcand).
  bs. rewrite E1. bs. rewrite E2. bs. clear E1 E2. rewrite (front_inst_ok _ _ _ _ _ HI2). bs.
  cbn [fmap list_fmap head fst]. bs.
  rewrite (get_inst_mid s2 [] p2 i2 (tr2 ++ R) (inv_heap _ _ _ _ _ _ _ _ HI2) (inv_nodup _ _ _ _ _ _ _ _ HI2)). bs.
  destruct (dispatch_stalls_ok s2 V2 T2 _ R i2 HI2) as (stall & s3 & -> & HI3 & Hf3 & Eq3 & Hplace & Hne).
  assert (Hfu3 : fu s3 = fu s) by (by rewrite (tf_fu _ _ Hf3), (tf_fu _ _ Hf2)).
  assert (Hcy3 : cur_cycle s3 = cur_cycle s) by (by rewrite (tf_cycle _ _ Hf3), (tf_cycle _ _ Hf2)).
  destruct stall.
  { exists s3, V2, T2, ((p2, i2) :: tr2), R. split; [done|]. split; [done|]. split; [done|]. left. split_and!; try done.
    - intros ->. by specialize (Hne eq_refl).
    - unfold PipelineInv.work. lia. }
  destruct (Hplace eq_refl) as (Hfull & Hr1 & Hr2 & Hr3).
  pose proof (inv_trace _ _ _ _ _ _ _ _ HI3) as Htr. destruct (V2 TRACE) as [|[e v] xs] eqn:EV; [done|].
  simpl in Htr. injection Htr as -> _.
  destruct (law_pop _ _ _ TRACE (e, Some p2) xs (inv_qv _ _ _ _ _ _ _ _ HI3) EV) as (m & Em & HQm & Hcm).
  rewrite Em. bs. cbn [snd]. bs. set (s4 := s3 <| qm := m |>).
  rewrite (get_inst_mid s4 [] p2 i2 (tr2 ++ R) (inv_heap _ _ _ _ _ _ _ _ HI3) (inv_nodup _ _ _ _ _ _ _ _ HI3)). bs.
  assert (Hwk : work ((p2, i2) :: tr2) R = w_wait lat + 1 + work tr2 R).
  { unfold PipelineInv.work. simpl. unfold trace_work at 1. rewrite Hd2. lia. }
  assert (Hle : work ((p2, i2) :: tr2) R ≤ work ((p, i) :: tr) R) by (unfold PipelineInv.work; lia).
  pose proof (cfg_lat_pos _ _ (inv_cfg _ _ _ _ _ _ _ _ HI)) as Hlat. unfold w_wait, wb_max in *.
  case_decide as Hu.
  - destruct (dispatch_drop _ _ _ _ _ _ _ _ _ _ HI3 EV HQm Hcm) as (s5 & E5 & HI5 & Hfu5 & Hcy5).
    fold s4 in E5. rewrite E5. bs.
    exists s5, (<[TRACE := xs]> V2), T2, tr2, R. split; [done|]. split; [by rewrite Hfu5|]. split; [by rewrite Hcy5|]. right.
    exists w. split; [done|]. split; [lia|]. unfold cands in *. rewrite filter_cons_True in Hcand by (by right).
    simpl in Hcand |- *. lia.
  - destruct (dispatch_one_inv _ _ _ _ _ _ _ _ _ _ _ _ HI3 Hd2 Hu EV HQm Hcm Hfull Hr1 Hr2 Hr3)
      as (s5 & V5 & k & E5 & HI5 & Hf5 & Hk). fold s4 in E5. rewrite E5. bs.
    exists s5, V5, T2, tr2, (R ++ [(p2, k)]). split; [done|]. split; [by rewrite (df_fu _ _ Hf5)|].
    split; [by rewrite (df_cycle _ _ Hf5)|]. right.
    exists (w - 1). split; [done|]. split.
    + eapply Z.lt_le_trans; [|exact Hle]. rewrite Hwk. unfold PipelineInv.work. rewrite sum_of_app. simpl.
      rewrite Hk. unfold w_wait, wb_max. lia.
    + unfold cands in *. rewrite filter_cons in Hcand. case_decide; simpl in Hcand; lia.
Qed.

Lemma dispatch_loop_inv fuel w s V T tr R :
  Inv s V T tr R → (Z.to_nat w + cands tr < fuel)%nat →
  ∃ s' V' T' tr' R', dispatch_loop junk shl_32 ctz_0 fuel w s = Some s' ∧ Inv s' V' T' tr' R' ∧
    fu s' = fu s ∧ cur_cycle s' = cur_cycle s ∧ work tr' R' ≤ work tr R ∧ (0 < w → R = [] → tr ≠ [] → work tr' R' < work tr R).
Proof.
  revert w s V T tr R. induction fuel as [|fuel IH]; intros w s V T tr R HI Hf; [lia|].
  destruct (decide (0 < w)) as [Hw|Hw].
  2:{ exists s, V, T, tr, R. cbn [dispatch_loop]. rewrite (proj2 (Z.leb_le w 0)) by lia.
      split_and!; try done; intros ?; lia. }
  destruct tr as [|[p i] tr].
  { exists s, V, T, [], R. cbn [dispatch_loop]. rewrite (proj2 (Z.leb_gt w 0) Hw), (front_inst_ok _ _ _ _ _ HI).
    by split_and!. }
  destruct (dispatch_iter fuel w _ _ _ _ _ _ _ HI Hw)
    as (s1 & V1 & T1 & tr1 & R1 & HI1 & Hfu1 & Hcy1 & [(-> & -> & Hne & Hle)|(w1 & -> & Hlt & Hm)]).
  - exists s1, V1, T1, tr1, R. split_and!; try done.
  - destruct (IH w1 s1 V1 T1 tr1 R1 HI1 ltac:(lia)) as (s' & V' & T' & tr' & R' & -> & HI' & Hfu & Hcy & Hle & _).
    exists s', V', T', tr', R'. split_and!; try done; [congruence|congruence|lia|]. intros; lia.
Qed.

Lemma dispatch_insts_inv s V T tr R :
  Inv s V T tr R →
  ∃ s' V' T' tr' R', dispatch_insts junk shl_32 ctz_0 s = Some s' ∧ Inv s' V' T' tr' R' ∧
    fu s' = fu s ∧ cur_cycle s' = cur_cycle s ∧ work tr' R' ≤ work tr R ∧ (R = [] → tr ≠ [] → work tr' R' < work tr R).
Proof.
  intros HI. unfold dispatch_insts, queue. rewrite (law_size _ _ _ TRACE (inv_qv _ _ _ _ _ _ _ _ HI)), Nat2Z.id.
  pose proof (cfg_dispatch _ _ (inv_cfg _ _ _ _ _ _ _ _ HI)) as Hw.
  assert (Hlen : length (V TRACE) = length tr).
  { pose proof (f_equal length (inv_trace _ _ _ _ _ _ _ _ HI)) as H. by rewrite !length_fmap in H. }
  rewrite Hlen.
  destruct (dispatch_loop_inv (S (Z.to_nat (dispatch_width s) + length tr)) (dispatch_width s) s V T tr R HI)
    as (s' & V' & T' & tr' & R' & ? & ? & ? & ? & ? & Hlt).
  { pose proof (length_filter cand tr). unfold cands. lia. }
  exists s', V', T', tr', R'. split_and!; try done. intros. apply Hlt; done || lia.
Qed.
End Loop.
