(* ===== verification/PipelineCycle.v ===== *)
(** A cycle makes progress, so the main loop ends with every instruction committed. *)

From Stdlib Require Import ZArith Lia.
From stdpp Require Import base tactics functions option list gmap.
From S2P Require Import Prelude DList InstQueue InstQueueRep CacheSim Inst Rob TraceAnalyzer PipelineInv PipelineStats PipelineCommit PipelineExec PipelineRing PipelineIssue PipelineTrace PipelineExpand PipelineDispatch.

Section Cycle.
Context {QV : QMem → view → tails → Prop} {QL : QueueLaws QV}.
Context (lat : Z) (junk : Inst) (shl_32 : Z → Z) (ctz_0 : Z).
Context (Hjs : length (src_reg junk) = 16%nat) (Hjd : length (dst_reg junk) = 16%nat)
  (Hja : length (eff_addr junk) = 16%nat).
Local Abbreviation Inv := (Inv QV lat (decodable shl_32 ctz_0)).
Local Abbreviation work := (work lat).
Local Abbreviation total := (sum_of (flight_work lat)).

(** ** The stages in terms of work *)

Lemma flight_work_pos i : 0 ≤ lat → flight_ok lat i → 1 ≤ flight_work lat i.
Proof.
  intros Hlat (_ & _ & _ & H). unfold flight_work, w_wait, wb_max in *. destruct (state i); lia.
Qed.

Lemma total_drop n R :
  0 ≤ lat → Forall (λ x, flight_ok lat x.2) R → total (drop n R) + Z.of_nat (length (take n R)) ≤ total R.
Proof.
  intros Hlat. revert n. induction R as [|x R IH]; intros [|n] Hf; simpl; try lia.
  apply Forall_cons in Hf as [Hx Hf]. pose proof (flight_work_pos _ Hlat Hx). specialize (IH n Hf). lia.
Qed.

Lemma commit_insts_inv s V T tr R :
  Inv s V T tr R →
  ∃ s' V' R', commit_insts s = Some s' ∧ Inv s' V' T tr R' ∧ fu s' = fu s ∧ cur_cycle s' = cur_cycle s ∧
    less_or_same lat s s' V V' R R' (∀ x R0, R = x :: R0 → ¬ retired x).
Proof.
  intros HI. pose proof (inv_cfg _ _ _ _ _ _ _ _ HI) as Hcfg. pose proof (cfg_commit _ _ Hcfg).
  destruct (commit_loop_inv lat (decodable shl_32 ctz_0) (Z.to_nat (commit_width s)) s V T tr R HI)
    as (s' & V' & n & He & HI' & Hn & Hl & _ & Hfu & Hcy & _ & Hz & Hmax).
  exists s', V', (drop n R). do 4 (split; [done|]).
  pose proof (total_drop n R (cfg_lat_pos _ _ Hcfg) (inv_flight _ _ _ _ _ _ _ _ HI)) as Hd.
  rewrite length_take in Hd. destruct n as [|n]; [|left; lia]. right.
  destruct (Hz eq_refl) as [-> ->]. rewrite drop_0 in *. do 3 (split; [done|]). apply Hmax. lia.
Qed.

(** An instruction that executes or is written back is in the functional-unit buffer. *)
Lemma in_fub s V T tr R x : Inv s V T tr R → x ∈ R → in_fu x → Some x.1 ∈ (V FUB).*2.
Proof.
  intros HI Hx Hf. rewrite (inv_fub _ _ _ _ _ _ _ _ HI). apply list_elem_of_fmap. exists x.1. split; [done|].
  apply list_elem_of_fmap. exists x. split; [done|]. by apply list_elem_of_filter.
Qed.

(** When nothing commits, is written back or executes, the oldest instruction waits for
    issue and every unit is idle. *)
Lemma stuck_waits s V T tr x R :
  Inv s V T tr (x :: R) → fresh_units s → ¬ retired x →
  none_in Complete (x :: R) (V FUB) → none_in Issue (x :: R) (V FUB) →
  state x.2 = Dispatch ∧ idle (fu s).
Proof.
  intros HI Hfresh Hr Hc Hi.
  assert (Hnone : ∀ y, y ∈ x :: R → ¬ in_fu y).
  { intros [p i] Hy Hf. pose proof (in_fub _ _ _ _ _ _ HI Hy Hf) as Hin.
    destruct Hf as [Hs|[Hs _]]; simpl in *; [by eapply Hi|by eapply Hc]. }
  pose proof (inv_flight _ _ _ _ _ _ _ _ HI) as Hfl. apply Forall_cons in Hfl as [(_ & _ & _ & Hst) _]. split.
  - specialize (Hnone x ltac:(left)). unfold in_fu, retired in *.
    destruct (state x.2); try done; exfalso; [tauto|]. apply Hr. split; [done|].
    destruct (decide (0 < remaining_latency x.2)); [tauto|lia].
  - apply Forall_lookup. intros k f Hk. pose proof (Forall_lookup_1 _ _ _ _ Hfresh Hk) as Hni. split; [done|].
    destruct (inv_fu _ _ _ _ _ _ _ _ HI) as [Hlen Hfu]. apply lookup_lt_Some in Hk as Hlt.
    destruct (fu_num_surj k) as [t Ht]; [lia|]. destruct (Hfu t f) as (_ & _ & ->); [by rewrite Ht, arr_get_lookup|].
    destruct (filter (on_unit t) (x :: R)) as [|y l] eqn:E; [done|].
    assert (Hy : y ∈ filter (on_unit t) (x :: R)) by (rewrite E; left).
    apply list_elem_of_filter in Hy as [[Hy _] Hin]. destruct (Hnone y Hin). by left.
Qed.

Lemma reflesh_inv s V T tr R : Inv s V T tr R → Inv (reflesh_all_FUs s) V T tr R ∧ fresh_units (reflesh_all_FUs s).
Proof.
  intros HI. split.
  - pose proof (inv_fu _ _ _ _ _ _ _ _ HI) as Hfu. destruct HI. constructor; try done.
    + by eapply config_ok_same.
    + destruct Hfu as [Hl Hf]. split; [simpl; by rewrite length_fmap|]. intros t f Ht.
      apply arr_get_Some in Ht as [Ht0 Ht]. simpl in Ht. rewrite list_lookup_fmap in Ht.
      destruct (fu s !! Z.to_nat (fu_num t)) as [g|] eqn:Hg; [|done]. injection Ht as <-.
      destruct (Hf t g) as (? & ? & ?); [by apply arr_get_Some|]. by split_and!.
  - apply Forall_fmap, Forall_true. done.
Qed.

Lemma tick_inv s V T tr R c : Inv s V T tr R → Inv (s <| cur_cycle := c |>) V T tr R.
Proof. intros []. constructor; try done. by eapply config_ok_same. Qed.

(** ** One cycle *)

Lemma calm_tick v c s : 0 ≤ c < 2 ^ 30 → calm v c s → calm v (c + 1) (s <| cur_cycle := u64 (cur_cycle s + 1) |>).
Proof.
  intros Hc (H1 & H2 & H3). split; [done|]. split.
  - change (u64 (cur_cycle s + 1) = c + 1). rewrite H2. unfold u64, wrap. rewrite Z.mod_small; lia.
  - intros p i Hi Hs. pose proof (H3 p i Hi Hs). lia.
Qed.

(** Every instruction left is some work. *)
Lemma work_bound s V T tr R : Inv s V T tr R → Z.of_nat (length tr + length R) ≤ work tr R.
Proof.
  intros HI. pose proof (cfg_lat_pos _ _ (inv_cfg _ _ _ _ _ _ _ _ HI)) as Hlat.
  pose proof (total_drop (length R) R Hlat (inv_flight _ _ _ _ _ _ _ _ HI)) as HR.
  rewrite drop_all, firstn_all in HR. simpl in HR.
  assert (Htr : Z.of_nat (length tr) ≤ sum_of (trace_work lat) tr).
  { clear HI HR. induction tr as [|x tr IH]; simpl; [lia|]. unfold trace_work at 1, w_wait, wb_max.
    destruct (decoded x.2); lia. }
  unfold PipelineInv.work. lia.
Qed.

Lemma one_cycle_inv s V T tr R :
  Inv s V T tr R → fresh_units s →
  ∃ s' V' T' tr' R', one_cycle junk shl_32 ctz_0 s = Some s' ∧ Inv s' V' T' tr' R' ∧ fresh_units s' ∧
    cur_cycle s' = u64 (cur_cycle s + 1) ∧ work tr' R' ≤ work tr R ∧ (tr ++ R ≠ [] → work tr' R' < work tr R) ∧
    (∀ B v c, B ≤ 2 ^ 31 → 0 ≤ c < 2 ^ 30 → calm v c s → mis_ok B v (work tr R) →
      ∃ v', calm v' (c + 1) s' ∧ mis_ok B v' (work tr' R')).
Proof.
  intros HI Hfresh. unfold one_cycle.
  destruct (commit_insts_inv _ _ _ _ _ HI) as (s1 & V1 & R1 & Hx1 & HI1 & Hf1 & Hcy1 & Hl1).
  pose proof (λ v c H, commit_insts_calm v c s H s1 Hx1) as Hm1. rewrite Hx1. clear Hx1. bs.
  destruct (writeback_insts_inv _ _ _ _ _ _ _ HI1) as (s2 & V2 & R2 & Hx2 & HI2 & Hfr2 & Hf2 & Hp2 & Hl2).
  pose proof (λ v c H, writeback_insts_calm v c s1 H s2 Hx2) as Hm2. rewrite Hx2. clear Hx2. bs.
  destruct (execute_insts_inv _ _ _ _ _ _ _ HI2) as (s3 & R3 & -> & HI3 & Hfr3 & _ & Hp3 & Hl3 & Hcnt). bs.
  destruct (issue_insts_inv _ _ _ _ _ _ _ HI3) as (s4 & V4 & R4 & Hx4 & HI4 & Hfr4 & Hp4 & Hle4 & Hlt4).
  pose proof (λ v c H, issue_insts_calm v c s3 H s4 Hx4) as Hm4. rewrite Hx4. clear Hx4. bs.
  destruct (dispatch_insts_inv lat junk shl_32 ctz_0 Hjs Hjd Hja _ _ _ _ _ HI4)
    as (s5 & V5 & T5 & tr5 & R5 & Hx5 & HI5 & _ & Hcy5 & Hle5 & Hlt5).
  pose proof (λ v c Hc H, dispatch_insts_calm v c Hc junk shl_32 ctz_0 s4 H s5 Hx5) as Hm5. rewrite Hx5. clear Hx5. bs.
  destruct (reflesh_inv _ _ _ _ _ HI5) as [HI6 Hfresh6].
  eexists _, V5, T5, tr5, R5. split; [done|]. split; [by apply tick_inv|]. split; [done|].
  split; [cbn; by rewrite Hcy5, (fr_cycle _ _ Hfr4), (fr_cycle _ _ Hfr3), (fr_cycle _ _ Hfr2), Hcy1|].
  unfold PipelineInv.work in *.
  assert (Hle : total R3 ≤ total R).
  { destruct Hl1 as [?|(_ & _ & -> & _)], Hl2 as [?|(_ & _ & -> & _)], Hl3 as [?|(_ & _ & -> & _)]; lia. }
  split; [lia|]. split.
  2:{ intros B v c HB Hc Hcalm Hok. destruct (Hcnt v c) as (v' & Hc3 & Hu); [auto|lia|]. exists v'. split.
      - apply calm_tick; [lia|]. eapply calm_same; [by apply Hm5; [lia|apply Hm4]|done..].
      - assert (Hle2 : total R2 ≤ total R) by (destruct Hl1 as [?|(_ & _ & -> & _)], Hl2 as [?|(_ & _ & -> & _)]; lia).
        pose proof (work_bound _ _ _ _ _ HI5) as Hwb. unfold PipelineInv.work in Hwb.
        eapply upto_ok; [done| |exact Hu|]; [lia|]. destruct Hok as (? & ? & ?). split; [done|]. split; [lia|done]. }
  intros Hne. clear Hm1 Hm2 Hm4 Hm5 Hcnt.
  destruct Hl1 as [?|(-> & -> & -> & Hc1)]; [destruct Hl2 as [?|(_ & _ & -> & _)], Hl3 as [?|(_ & _ & -> & _)]; lia|].
  destruct Hl2 as [?|(-> & -> & -> & Hc2)]; [destruct Hl3 as [?|(_ & _ & -> & _)]; lia|].
  destruct Hl3 as [?|(-> & _ & -> & Hc3)]; [lia|].
  destruct R as [|x R].
  - apply fmap_nil_inv in Hp4. subst R4. rewrite app_nil_r in Hne. specialize (Hlt5 eq_refl Hne). lia.
  - destruct (stuck_waits _ _ _ _ _ _ HI Hfresh (Hc1 x R eq_refl) Hc2 Hc3) as [Hd Hidle].
    specialize (Hlt4 Hidle x R eq_refl Hd). lia.
Qed.

(** ** The main loop *)

(** The loop returns within one cycle more than the work.  If no limit is given, nothing is
    left in the machine then, and the reported cycle lies within the run. *)
Lemma analysis_loop_inv fuel max_cycle cycle last s V T tr R :
  Inv s V T tr R → fresh_units s → (Z.to_nat (work tr R) < fuel)%nat →
  0 ≤ last ≤ cur_cycle s → cur_cycle s + work tr R + 1 < 2 ^ 64 →
  ∃ last' s' V' T' tr' R', analysis_loop junk shl_32 ctz_0 fuel max_cycle cycle last s = Some (last', s') ∧
    Inv s' V' T' tr' R' ∧ fresh_units s' ∧ 0 ≤ last' ≤ cur_cycle s' ∧
    cur_cycle s' ≤ cur_cycle s + work tr R + 1 ∧
    (max_cycle = 0 → tr' = [] ∧ R' = [] ∧ 1 ≤ last') ∧
    (∀ B v c, B ≤ 2 ^ 31 → 0 ≤ c → c + work tr R + 1 < 2 ^ 30 → calm v c s → mis_ok B v (work tr R) →
      ∃ v' c', calm v' c' s' ∧ mis_ok B v' (work tr' R')).
Proof.
  revert cycle last s V T tr R. induction fuel as [|fuel IH];
    intros cycle last s V T tr R HI Hfresh Hf Hlast Hc; [lia|].
  cbn [analysis_loop]. set (s0 := clear_cycle s). cbv zeta.
  assert (HI0 : Inv s0 V T tr R) by (by eapply inv_same).
  pose proof (work_bound _ _ _ _ _ HI) as Hwk.
  destruct (negb (max_cycle =? 0) && (max_cycle <=? cycle)) eqn:Em.
  { exists last, s0, V, T, tr, R. split; [done|]. do 2 (split; [done|]). split; [done|].
    split; [change (cur_cycle s0) with (cur_cycle s); lia|]. split; [by intros ->|].
    intros B v c _ _ _ Hcalm Hok. exists v, c. split; [by eapply calm_same|done]. }
  destruct (one_cycle_inv _ _ _ _ _ HI0 Hfresh) as (s1 & V1 & T1 & tr1 & R1 & -> & HI1 & Hfresh1 & Hcy1 & Hle & Hlt & Hmis). bs.
  change (cur_cycle s0) with (cur_cycle s) in Hcy1. unfold u64, wrap in Hcy1. rewrite Z.mod_small in Hcy1 by lia.
  pose proof (inv_fetched _ _ _ _ _ _ _ _ HI1) as Hn. pose proof (inv_dispatched _ _ _ _ _ _ _ _ HI1) as Hd.
  set (last1 := if (last =? 0) && (num_dispatched_insts s1 =? num_fetched_insts s1) then cur_cycle s1 else last).
  assert (Hlast1 : 0 ≤ last1 ≤ cur_cycle s1) by (unfold last1; case_match; lia).
  destruct (Z.eqb_spec (num_committed_insts s1) (num_fetched_insts s1)) as [Ec|Ec].
  { exists last1, s1, V1, T1, tr1, R1. split; [done|]. do 3 (split; [done|]). split; [lia|]. split; [intros _|].
    destruct tr1, R1; simpl in Hn, Hd; try lia. split; [done|]. split; [done|]. unfold last1.
    rewrite (proj2 (Z.eqb_eq (num_dispatched_insts s1) _)) by lia. rewrite andb_true_r.
    destruct (Z.eqb_spec last 0); lia.
    intros B v c HB Hc0 Hc1 Hcalm Hok. destruct (Hmis B v c HB ltac:(lia)) as (v' & Hv' & Hok'); [by eapply calm_same|done|].
    by exists v', (c + 1). }
  pose proof (work_bound _ _ _ _ _ HI1) as Hnn.
  assert (Hne : tr ++ R ≠ []).
  { intros He. apply app_nil in He as [-> ->]. change (work [] []) with 0 in Hle. lia. }
  specialize (Hlt Hne).
  destruct (IH (cycle + 1) last1 s1 V1 T1 tr1 R1 HI1 Hfresh1) as (last' & s' & V' & T' & tr' & R' & He & H1 & H2 & H3 & H4 & H5 & H6);
    try done; [lia|lia|].
  exists last', s', V', T', tr', R'. split; [done|]. do 3 (split; [done|]). split; [lia|]. split; [done|].
  intros B v c HB Hc0 Hc1 Hcalm Hok. destruct (Hmis B v c HB ltac:(lia)) as (v1 & Hv1 & Hok1); [by eapply calm_same|done|].
  by apply (H6 B v1 (c + 1)); [done|lia|lia| |].
Qed.
End Cycle.
