(* ===== verification/PipelineRun.v ===== *)
(** A whole run of the analyzer on a loaded trace, and back to a machine that can be loaded
    again. *)

From Stdlib Require Import ZArith Lia.
From stdpp Require Import base tactics functions option list gmap.
From S2P Require Import Prelude DList Double DoubleRange InstQueue InstQueueRep CacheSim Inst Rob TraceAnalyzer PipelineInv PipelineStats PipelineCommit PipelineExec PipelineRing PipelineIssue PipelineTrace PipelineExpand PipelineDispatch PipelineCycle.

(** An instruction as the simulator records it: nothing decoded yet. *)
Definition recorded (shl_32 : Z → Z) (ctz_0 : Z) (i : Inst) : Prop :=
  shaped i ∧ ldq_elem i = None ∧ stq_elem i = None ∧ decoded i = false ∧ decodable shl_32 ctz_0 i ∧ state i = Ready.

(** The machine is empty, its configuration makes sense, and the trace holds [tr]. *)
Record loaded (QV : QMem → view → tails → Prop) (shl_32 : Z → Z) (ctz_0 : Z)
    (s : TA) (V : view) (T : tails) (tr : list pinst) : Prop := {
  ld_cfg : config_ok (latency_l1_miss s) s;
  ld_qv : QV (qm s) V T;
  ld_tails q : backend q → T q = true;
  ld_empty q : backend q → V q = [];
  ld_trace : (V TRACE).*2 = Some <$> tr.*1;
  ld_heap : insts s = list_to_map tr;
  ld_nodup : NoDup tr.*1;
  ld_brk p : p ∈ tr.*1 → (p < ibrk s)%positive;
  ld_insts : Forall (λ x, recorded shl_32 ctz_0 x.2) tr;
  ld_room : capacity (queue s TRACE) = 0 ∨ Z.of_nat (length tr) + 16 ≤ capacity (queue s TRACE);
  ld_rob : ring_ok (rob s) [];
  ld_dep : dep_ok (dep_mat s);
  ld_units : length (fu s) = 7%nat ∧ Forall (λ f, 1 ≤ fu_capacity f ∧ 1 ≤ num_stage f) (fu s);
}.

(** The number of cycles a recorded instruction can take at most: itself and 16
    micro-operations, each through every stage. *)
Definition inst_bound (lat : Z) : Z := 17 * (lat + 26).

Section Run.
Context {QV : QMem → view → tails → Prop} {QL : QueueLaws QV}.
Context (junk : Inst) (shl_32 : Z → Z) (ctz_0 : Z).
Context (Hjs : length (src_reg junk) = 16%nat) (Hjd : length (dst_reg junk) = 16%nat)
  (Hja : length (eff_addr junk) = 16%nat).
Local Abbreviation loaded := (loaded QV shl_32 ctz_0).
Local Abbreviation Inv lat := (Inv QV lat (decodable shl_32 ctz_0)).

(** The state [trace_analysis] enters its loop with. *)
Definition start (s : TA) : TA :=
  let s := reset_all_FUs (init_trace_statistics s) in
  s <| num_fetched_insts := get_current_queue_size (queue s TRACE) |>.

Lemma loaded_start s V T tr :
  loaded s V T tr → Inv (latency_l1_miss s) (start s) V T tr [] ∧ fresh_units (start s) ∧
    work (latency_l1_miss s) tr [] = inst_bound (latency_l1_miss s) * Z.of_nat (length tr).
Proof.
  intros [Hcfg HQ HT HV Htr Hh Hnd Hb Hi Hr Hrob Hdep [Hfl Hfu]]. split; [|split].
  - constructor; try done.
    + by eapply config_ok_same.
    + rewrite HV by (unfold backend; auto). done.
    + rewrite HV by (unfold backend; auto). done.
    + rewrite HV by (unfold backend; auto). done.
    + rewrite HV by (unfold backend; auto). done.
    + by rewrite app_nil_r.
    + by rewrite app_nil_r.
    + by rewrite app_nil_r.
    + split; [simpl; by rewrite length_fmap|]. intros t f Ht. apply arr_get_Some in Ht as [_ Ht].
      simpl in Ht. rewrite list_lookup_fmap in Ht. destruct (fu s !! Z.to_nat (fu_num t)) as [g|] eqn:Hg; [|done].
      injection Ht as <-. by destruct (Forall_lookup_1 _ _ _ _ Hfu Hg).
    + eapply Forall_impl; [done|]. intros x (? & ? & ? & Hd & ? & _). unfold trace_ok. by rewrite Hd.
    + exists [], tr. split; [done|]. split; [done|]. split; [|done].
      eapply Forall_impl; [done|]. by intros x (_ & _ & _ & ? & _).
    + change (num_fetched_insts _) with (queue_size (queues (qm s) TRACE)). rewrite (law_size _ _ _ TRACE HQ).
      rewrite <-(length_fmap snd (V TRACE)), Htr, !length_fmap. simpl. lia.
    + change (num_fetched_insts _) with (queue_size (queues (qm s) TRACE)). rewrite (law_size _ _ _ TRACE HQ).
      rewrite <-(length_fmap snd (V TRACE)), Htr, !length_fmap. simpl. lia.
  - apply Forall_fmap, Forall_true. done.
  - unfold work, inst_bound. simpl. rewrite Z.add_0_r. clear -Hi. induction Hi as [|x tr (_ & _ & _ & Hd & _) _ IH].
    + simpl. lia.
    + simpl length. change (sum_of _ (x :: tr)) with (trace_work (latency_l1_miss s) x.2 + sum_of (trace_work (latency_l1_miss s)) tr).
      rewrite IH. unfold trace_work, w_wait, wb_max. rewrite Hd. lia.
Qed.

(** The emptied machine can be loaded again. *)
Lemma drained_loaded lat s V T :
  Inv lat s V T [] [] →
  loaded s V (<[TRACE := true]> T) [] ∧ num_committed_insts s = num_fetched_insts s ∧ insts s = ∅.
Proof.
  intros [Hcfg HQ HT Htr Hiq Hfub Hldq Hstq Hheap Hnd Hbrk Hring Hdep Hfu Hfl Htro Hsh Hfe Hdi Hty].
  assert (HV : ∀ q, backend q → V q = []).
  { intros q [->|[->|[->| ->]]].
    - apply Permutation_nil_r in Hiq. by destruct (V IQ).
    - by apply Permutation_nil_r in Hldq.
    - by apply Permutation_nil_r in Hstq.
    - apply Permutation_nil_r in Hfub. by destruct (V FUB). }
  split; [|split; [simpl in Hfe; lia|done]].
  pose proof (cfg_lat _ _ Hcfg) as El. subst lat. constructor; try done.
  - apply law_empty; [done|]. by destruct (V TRACE).
  - intros q Hq. rewrite fn_insert_other; [by apply HT|]. intros <-. by destruct Hq as [|[|[|]]].
  - destruct Hsh as (pre & suf & E & _ & _ & Hcap). symmetry in E. by apply app_nil in E as [-> ->].
  - destruct Hfu as [Hl Hf]. split; [done|]. apply Forall_lookup. intros k f Hk.
    apply lookup_lt_Some in Hk as Hlt. destruct (fu_num_surj k) as [t Ht]; [lia|]. destruct (Hf t f) as (? & ? & _); [by rewrite Ht, arr_get_lookup|done].
Qed.

(** A run on a loaded trace ends within [inst_bound] cycles per recorded instruction, with
    every instruction committed and the machine empty. *)
Lemma trace_analysis_run fuel s V T tr :
  loaded s V T tr →
  inst_bound (latency_l1_miss s) * Z.of_nat (length tr) < Z.of_nat fuel →
  inst_bound (latency_l1_miss s) * Z.of_nat (length tr) + 1 < 2 ^ 30 →
  ∃ last penalty s' V' T', trace_analysis junk shl_32 ctz_0 fuel s 0 = Some (last, penalty, s') ∧
    loaded s' V' T' [] ∧ T' TRACE = true ∧ num_committed_insts s' = num_fetched_insts s' ∧ insts s' = ∅ ∧
    1 ≤ last ≤ cur_cycle s' ∧ cur_cycle s' ≤ inst_bound (latency_l1_miss s) * Z.of_nat (length tr) + 1 ∧
    0 ≤ penalty ≤ 40 ∧ latency_l1_miss s' = latency_l1_miss s.
Proof.
  intros Hld Hf Hb. destruct (loaded_start _ _ _ _ Hld) as (HI & Hfresh & Hw).
  destruct (analysis_loop_inv (latency_l1_miss s) junk shl_32 ctz_0 Hjs Hjd Hja fuel 0 0 0 (start s) V T tr [] HI Hfresh)
    as (last & s' & V' & T' & tr' & R' & He & HI' & _ & Hl & Hc & Hend & Hmis).
  { rewrite Hw. pose proof (cfg_lat_pos _ _ (ld_cfg _ _ _ _ _ _ _ Hld)). unfold inst_bound in *. lia. }
  { simpl. lia. }
  { rewrite Hw. simpl. lia. }
  destruct Hend as (-> & -> & Hl1); [done|]. rewrite Hw in Hc, Hmis. simpl in Hc.
  destruct (drained_loaded _ _ _ _ HI') as (Hld' & Hcm & Hh).
  assert (Hcalm : calm (mis (start s)) 0 (start s)).
  { split; [done|]. split; [done|]. intros p i Hi Hs. change (insts s !! p = Some i) in Hi. rewrite (ld_heap _ _ _ _ _ _ _ Hld) in Hi.
    apply elem_of_list_to_map_2 in Hi. pose proof (ld_insts _ _ _ _ _ _ _ Hld) as Hrec. rewrite Forall_forall in Hrec.
    by destruct (Hrec _ Hi) as (_ & _ & _ & _ & _ & Hr). }
  destruct (Hmis (2 ^ 31) _ 0 ltac:(lia) ltac:(lia) ltac:(lia) Hcalm) as (v' & c' & (<- & _ & _) & _ & _ & Hav).
  { split; [done|]. split; [change (mis (start s)).1 with 0; lia|done]. }
  apply within_to_int in Hav as (penalty & Hp & Hpr); [|lia|lia].
  exists last, penalty, s', V', (<[TRACE := true]> T'). unfold trace_analysis. cbv zeta.
  match goal with |- context [analysis_loop _ _ _ _ _ _ _ ?x] => change x with (start s) end.
  rewrite He. bs. change (avg_mispred_penalty s') with (mis s').2. rewrite Hp. bs.
  split; [done|]. split; [done|]. split; [apply fn_insert_same|]. do 2 (split; [done|]).
  split; [lia|]. split; [lia|]. split; [done|]. apply (cfg_lat _ _ (inv_cfg _ _ _ _ _ _ _ _ HI')).
Qed.
End Run.
