(* ===== verification/BufferManager.v ===== *)
(** The trace buffer (trace_analyzer/buffer_manager.c): instructions, branch outcomes and
    memory addresses are recorded, optionally logged to a file, and a log can be read back. *)

From Stdlib Require Import ZArith Lia String Ascii.
From stdpp Require Import base tactics functions option list gmap.
From S2P Require Import Prelude Config CacheSim InstQueue Inst Rob TraceAnalyzer.

(** ** Text *)

Definition nl : ascii := "010"%char.

(** The digit of value [d] in [%X] and [%d]. *)
Definition digit_char (d : Z) : ascii :=
  ascii_of_N (Z.to_N (if d <? 10 then d + 48 else d + 55)).

(** The value of a digit of base [b], as [strtoul] reads it. *)
Definition digit_val (b : Z) (c : ascii) : option Z :=
  let n := Z.of_N (N_of_ascii c) in
  let v := if (48 <=? n) && (n <=? 57) then n - 48
           else if (65 <=? n) && (n <=? 90) then n - 55
           else if (97 <=? n) && (n <=? 122) then n - 87 else 99 in
  if v <? b then Some v else None.

(** The digits of [n] in front of [acc]; [fuel] is at least their number. *)
Fixpoint print_digits (b : Z) (fuel : nat) (n : Z) (acc : string) : string :=
  match fuel with
  | O => acc
  | S fuel =>
      let acc := String (digit_char (n mod b)) acc in
      if n / b =? 0 then acc else print_digits b fuel (n / b) acc
  end.

(** [%X] of an [unsigned int] and [%d] of an [int]. *)
Definition print_X (n : Z) (acc : string) : string := print_digits 16 8 n acc.
Definition print_d (n : Z) (acc : string) : string :=
  if n <? 0 then String "-" (print_digits 10 10 (- n) acc) else print_digits 10 10 n acc.

Fixpoint read_digits (b acc : Z) (s : string) : Z :=
  match s with
  | String c s' =>
      match digit_val b c with
      | Some d => read_digits b (acc * b + d) s'
      | None => acc
      end
  | EmptyString => acc
  end.

Definition ULONG_MAX : Z := 2 ^ 64 - 1.

(** [strtoul (s, NULL, b)]: white space, a sign, [0x] in base 16, digits. *)
Definition strtoul (s : string) (b : Z) : Z :=
  let '(neg, s) := sign (skip_space s) in
  let s :=
    match s with
    | String "0" (String x (String d s')) =>
        if (b =? 16) && ((x =? "x") || (x =? "X"))%char && bool_decide (is_Some (digit_val 16 d))
        then String d s' else s
    | _ => s
    end in
  let v := read_digits b 0 s in
  if ULONG_MAX <? v then ULONG_MAX else if neg then u64 (- v) else v.

(** [strtok (s, " ")]: the next token and what is left; [None] is a null result. *)
Fixpoint skip_blanks (s : string) : string :=
  match s with
  | String " " s' => skip_blanks s'
  | _ => s
  end.

Fixpoint token (s : string) : string * string :=
  match s with
  | EmptyString => (EmptyString, EmptyString)
  | String " " s' => (EmptyString, s')
  | String c s' => let '(t, r) := token s' in (String c t, r)
  end.

Definition strtok (s : string) : option (string * string) :=
  match skip_blanks s with
  | EmptyString => None
  | s => Some (token s)
  end.

(** ** State: the static variables of buffer_manager.c, with the analyzer's *)

(** A trace file: the lines written so far, or the lines still to be read (writing to a file
    opened for reading has no effect), or closed. *)
Inductive trace_file :=
  | Writing (out : list string)
  | Reading (inp : list string)
  | Closed.

Record BM := MkBM {
  ta : TA;
  fp : option trace_file;
  on_the_fly_inst : option ptr;
}.

#[export] Instance BM_settable : Settable BM := λ b, MkBM (ta b) (fp b) (on_the_fly_inst b).

(** ** Operations *)

Definition init_trace_buffer (b : BM) : BM :=
  b <| ta := (ta b) <| qm := init_inst_queue (qm (ta b)) TRACE 1000001 |> |>.

Definition destroy_trace_buffer (b : BM) : option BM :=
  m ← destroy_all_inst_elem_from_queue (qm (ta b)) TRACE;
  Some (b <| ta := (ta b) <| qm := m |> |>).

(** [fopen] of a file that has the given lines; [None] when it cannot be opened. *)
Definition init_trace_file (contents : option (list string)) (write : bool) (b : BM) : BM :=
  b <| fp := l ← contents; Some (if write then Writing [] else Reading l) |>.

(** [fclose (fp)], which leaves the pointer dangling. *)
Definition destroy_trace_file (b : BM) : option BM :=
  match fp b with
  | Some (Writing _) | Some (Reading _) => Some (b <| fp := Some Closed |>)
  | _ => None
  end.

(** [if (fp) fprintf (fp, ...)]. *)
Definition log (line : string) (b : BM) : option BM :=
  match fp b with
  | Some (Writing out) => Some (b <| fp := Some (Writing (out ++ [line])) |>)
  | Some (Reading _) | None => Some b
  | Some Closed => None
  end.

Section Buffer.
Variable junk : Inst.

Definition code_line (seq_ pc_ code_ : Z) (miss : CacheMissType) : string :=
  String "c" (String " " (print_X seq_ (String " " (print_X pc_ (String " " (print_X code_
    (String " " (print_d (miss_num miss) (String nl EmptyString))))))))).

Definition push_code (b : BM) (seq_ pc_ code_ : Z) (miss : CacheMissType) : option (bool * BM) :=
  let i := (init_inst junk seq_ pc_ code_) <| inst_cache_miss := miss |> in
  let '(s, p) := malloc_inst i (ta b) in
  b ← log (code_line seq_ pc_ code_ miss) (b <| ta := s |>);
  if is_full_queue (queue (ta b) TRACE) then Some (false, b <| on_the_fly_inst := Some p |>)
  else
    '(m, _) ← push_back_inst (qm (ta b)) TRACE p;
    Some (true, b <| ta := (ta b) <| qm := m |> |>).

(** [trace_buffer->newest_inst_elem->inst]: a null element would be dereferenced. *)
Definition newest_inst (b : BM) : option (option ptr) :=
  e ← newest_inst_elem (queue (ta b) TRACE);
  c ← elems (qm (ta b)) !! e;
  Some (elem_inst c).

Definition bpred_line (correct : bool) : string :=
  String "b" (String " " (print_d (if correct then 1 else 0) (String nl EmptyString))).

Definition push_bpred (b : BM) (correct : bool) : option (bool * BM) :=
  b ← log (bpred_line correct) b;
  o ← newest_inst b;
  match o with
  | Some p =>
      s ← upd_inst (ta b) p (λ i, set_inst_bpred_mispred i (negb correct));
      Some (true, b <| ta := s |>)
  | None => Some (false, b)
  end.

Definition memaddr_line (addr : Z) (miss : CacheMissType) : string :=
  String "a" (String " " (print_X addr (String " " (print_d (miss_num miss) (String nl EmptyString))))).

Definition push_memaddr (b : BM) (addr : Z) (miss : CacheMissType) : option (bool * BM) :=
  b ← log (memaddr_line addr miss) b;
  o ← newest_inst b;
  match o with
  | Some p =>
      i ← get_inst (ta b) p;
      i ← set_inst_eff_addr i addr miss;
      s ← upd_inst (ta b) p (λ _, i);
      Some (true, b <| ta := s |>)
  | None => Some (false, b)
  end.

(** ** Reading a log back *)

(** An [int] stored in a [CacheMissType]; other values have no meaning. *)
Definition miss_of_int (n : Z) : option CacheMissType :=
  match n with 0 => Some L1Hit | 1 => Some L1Miss | 2 => Some L2Miss | _ => None end.

(** The body of the loop; the flag says whether to go on. *)
Definition read_line (line : string) (b : BM) : option (bool * BM) :=
  match strtok line with
  | None => Some (true, b)
  | Some (t, r) =>
      match t with
      | String "c" _ =>
          '(t, r) ← strtok r; let seq_ := u32 (strtoul t 16) in
          '(t, r) ← strtok r; let pc_ := u32 (strtoul t 16) in
          '(t, r) ← strtok r; let code_ := u32 (strtoul t 16) in
          '(t, r) ← strtok r;
          miss ← miss_of_int (s32 (strtoul t 10));
          push_code b seq_ pc_ code_ miss
      | String "b" _ =>
          '(t, r) ← strtok r; let correct := u32 (strtoul t 10) in
          '(_, b) ← push_bpred b (negb (correct =? 0)); Some (true, b)
      | String "a" _ =>
          '(t, r) ← strtok r; let addr := u32 (strtoul t 16) in
          '(t, r) ← strtok r;
          miss ← miss_of_int (s32 (strtoul t 10));
          '(_, b) ← push_memaddr b addr miss; Some (true, b)
      | _ => Some (true, b)
      end
  end.

(** [while (fgets (line, sizeof (line), fp))]; the lines are shorter than the buffer. *)
Fixpoint read_lines (inp : list string) (b : BM) : option BM :=
  match inp with
  | [] => Some (b <| fp := Some (Reading []) |>)
  | line :: inp =>
      '(go, b) ← read_line line (b <| fp := Some (Reading inp) |>);
      if go : bool then read_lines inp b else Some b
  end.

Definition fill_trace_buffer_from_file (b : BM) : option (Z * BM) :=
  b ← match on_the_fly_inst b with
      | Some p =>
          '(m, _) ← push_back_inst (qm (ta b)) TRACE p;
          Some (b <| ta := (ta b) <| qm := m |> |> <| on_the_fly_inst := None |>)
      | None => Some b
      end;
  f ← fp b;
  match f with
  | Reading inp =>
      b ← read_lines inp b;
      Some (get_current_queue_size (queue (ta b) TRACE), b)
  | Writing _ | Closed => None
  end.
End Buffer.
