(* ===== verification/BufferText.v ===== *)
(** The text of a trace log: what is printed is read back. *)

From Stdlib Require Import ZArith Lia String Ascii.
From stdpp Require Import base tactics option list strings.
From S2P Require Import Prelude Config CacheSim Inst BufferManager.

(** ** Digits *)

Fixpoint every (P : ascii → Prop) (s : string) : Prop :=
  match s with
  | EmptyString => True
  | String c s => P c ∧ every P s
  end.

(** A character [%X] prints for a value below [b]. *)
Definition is_digit (b : Z) (c : ascii) : Prop := ∃ d, 0 ≤ d < b ∧ c = digit_char d.

(** The text behind a number starts with none. *)
Definition ends (b : Z) (s : string) : Prop :=
  match s with
  | EmptyString => True
  | String c _ => digit_val b c = None
  end.

Lemma below_16 d : 0 ≤ d < 16 → d ∈ [0; 1; 2; 3; 4; 5; 6; 7; 8; 9; 10; 11; 12; 13; 14; 15].
Proof. intros. rewrite !elem_of_cons. lia. Qed.

(** A property of the sixteen digits, by inspection. *)
Lemma digit_cases (P : Z → Prop) :
  Forall P [0; 1; 2; 3; 4; 5; 6; 7; 8; 9; 10; 11; 12; 13; 14; 15] → ∀ d, 0 ≤ d < 16 → P d.
Proof. intros H d Hd. eapply Forall_forall; [exact H|]. by apply below_16. Qed.

Lemma digit_val_char b d : 0 ≤ d < b → b ≤ 16 → digit_val b (digit_char d) = Some d.
Proof.
  intros Hd Hb. assert (H : digit_val 99 (digit_char d) = Some d); [|].
  - apply (digit_cases (λ d, digit_val 99 (digit_char d) = Some d)); [by repeat constructor|lia].
  - unfold digit_val in *. destruct (_ <? 99); [|done]. injection H as ->. by rewrite (proj2 (Z.ltb_lt d b)) by lia.
Qed.

(** A digit is neither white space, a sign nor the mark of a hexadecimal number. *)
Definition plain_char (c : ascii) : Prop :=
  is_space c = false ∧ (c =? " ")%char = false ∧ (c =? "-")%char = false ∧ (c =? "+")%char = false ∧
  (c =? "x")%char = false ∧ (c =? "X")%char = false.

Lemma digit_plain b c : b ≤ 16 → is_digit b c → plain_char c.
Proof.
  intros Hb (d & Hd & ->). apply (digit_cases (λ d, plain_char (digit_char d))); [|lia].
  repeat constructor.
Qed.

Lemma every_app P s1 s2 : every P (s1 +:+ s2) ↔ every P s1 ∧ every P s2.
Proof. induction s1 as [|c s1 IH]; simpl; [tauto|]. rewrite IH. tauto. Qed.

(** ** Numbers *)

Lemma read_digits_app b s1 rest a v :
  2 ≤ b ≤ 16 → every (is_digit b) s1 → ends b rest → read_digits b a s1 = v → read_digits b a (s1 +:+ rest) = v.
Proof.
  intros Hb. revert a. induction s1 as [|c s1 IH]; simpl; intros a Hd He Hv.
  - subst v. destruct rest as [|c r]; [done|]. simpl in *. by rewrite He.
  - destruct Hd as [(d & Hd & ->) Hds]. rewrite digit_val_char in * by lia. by apply IH.
Qed.

Lemma read_digits_snoc b s a d :
  2 ≤ b ≤ 16 → every (is_digit b) s → 0 ≤ d < b →
  read_digits b a (s +:+ String (digit_char d) EmptyString) = read_digits b a s * b + d.
Proof.
  intros Hb Hs Hd. revert a. induction s as [|c s IH]; intros a.
  - simpl. by rewrite digit_val_char by lia.
  - destruct Hs as [(d' & Hd' & ->) Hs]. simpl. rewrite digit_val_char by lia. by apply IH.
Qed.

(** Printing puts the digits of [n], at least one, in front of the rest; reading them gives
    [n] back. *)
Lemma print_digits_read b fuel n :
  2 ≤ b ≤ 16 → 0 ≤ n < b ^ Z.of_nat (S fuel) →
  ∃ c s, every (is_digit b) (String c s) ∧ (∀ acc, print_digits b (S fuel) n acc = String c s +:+ acc) ∧
    read_digits b 0 (String c s) = n.
Proof.
  intros Hb. revert n. induction fuel as [|fuel IH]; intros n Hn.
  - exists (digit_char (n mod b)), EmptyString. change (b ^ Z.of_nat 1) with (b ^ 1) in Hn. rewrite Z.pow_1_r in Hn.
    rewrite Z.mod_small by lia. split; [split; [by exists n|done]|]. split.
    + intros acc. simpl. rewrite Z.mod_small by lia. by destruct (_ =? 0).
    + cbn [read_digits]. by rewrite digit_val_char by lia.
  - pose proof (Z.mod_pos_bound n b ltac:(lia)) as Hm. pose proof (Z.div_mod n b ltac:(lia)) as Hdm.
    assert (Hd : is_digit b (digit_char (n mod b))) by (by exists (n mod b)).
    destruct (Z.eqb_spec (n / b) 0) as [E|E].
    + exists (digit_char (n mod b)), EmptyString. split; [done|]. split; [|cbn [read_digits]; rewrite digit_val_char; lia].
      intros acc. change (print_digits b (S (S fuel)) n acc) with
        (if n / b =? 0 then String (digit_char (n mod b)) acc else print_digits b (S fuel) (n / b) (String (digit_char (n mod b)) acc)).
      by rewrite E.
    + destruct (IH (n / b)) as (c & s & Hds & Hp & Hr).
      { split; [apply Z.div_pos; lia|]. apply Z.div_lt_upper_bound; [lia|].
        rewrite <-Z.pow_succ_r by lia. replace (Z.succ (Z.of_nat (S fuel))) with (Z.of_nat (S (S fuel))) by lia. apply Hn. }
      exists c, (s +:+ String (digit_char (n mod b)) EmptyString).
      change (String c (s +:+ String (digit_char (n mod b)) EmptyString)) with (String c s +:+ String (digit_char (n mod b)) EmptyString).
      split; [by apply every_app|]. split; [|rewrite read_digits_snoc, Hr by done; lia].
      intros acc. change (print_digits b (S (S fuel)) n acc) with
        (if n / b =? 0 then String (digit_char (n mod b)) acc else print_digits b (S fuel) (n / b) (String (digit_char (n mod b)) acc)).
      rewrite (proj2 (Z.eqb_neq _ _) E), Hp, append_assoc. done.
Qed.

(** ** Tokens *)

Lemma token_app s r :
  every plain_char s → token (s +:+ String " " r) = (s, r) ∧ token (s +:+ String nl EmptyString) = (s +:+ String nl EmptyString, EmptyString).
Proof.
  induction s as [|c s IH]; [done|]. intros [(_ & Hsp & _) Hs]. destruct (IH Hs) as [E1 E2].
  assert (Hc : ∀ t, token (String c t) = let '(a, b) := token t in (String c a, b)).
  { intros t. destruct (ascii_dec c " ") as [->|Hne]; [done|]. destruct c as [[] [] [] [] [] [] [] []]; try done. }
  change (token (String c (s +:+ String " " r)) = (String c s, r) ∧ token (String c (s +:+ String nl EmptyString)) =
    (String c (s +:+ String nl EmptyString), EmptyString)). rewrite !Hc, E1, E2. done.
Qed.

Lemma every_weaken (P Q : ascii → Prop) s : (∀ c, P c → Q c) → every P s → every Q s.
Proof. intros H. induction s as [|c s IH]; simpl; [done|]. intros [? ?]. auto. Qed.

Lemma strtok_plain c s r :
  every plain_char (String c s) →
  strtok (String c s +:+ String " " r) = Some (String c s, r) ∧
  strtok (String c s +:+ String nl EmptyString) = Some (String c s +:+ String nl EmptyString, EmptyString).
Proof.
  intros Hs. destruct (token_app _ r Hs) as [E1 E2]. destruct Hs as [(_ & Hsp & _) _].
  assert (Hk : ∀ t, skip_blanks (String c t) = String c t).
  { intros t. destruct c as [[] [] [] [] [] [] [] []]; done. }
  unfold strtok. change (String c s +:+ String " " r) with (String c (s +:+ String " " r)) in *.
  change (String c s +:+ String nl EmptyString) with (String c (s +:+ String nl EmptyString)) in *.
  by rewrite !Hk, E1, E2.
Qed.

(** [strtoul] on a printed number, with a newline behind it or not. *)
Lemma strtoul_digits b c s rest :
  2 ≤ b ≤ 16 → every (is_digit b) (String c s) → rest = EmptyString ∨ rest = String nl EmptyString →
  read_digits b 0 (String c s) ≤ ULONG_MAX →
  strtoul (String c s +:+ rest) b = read_digits b 0 (String c s).
Proof.
  intros Hb Hd Hrest Hmax. assert (He : ends b rest).
  { destruct Hrest as [->| ->]; [done|]. unfold ends, digit_val. change (Z.of_N (N_of_ascii nl)) with 10.
    simpl. by rewrite (proj2 (Z.ltb_ge 99 b)) by lia. }
  pose proof (read_digits_app b (String c s) rest 0 _ Hb Hd He eq_refl) as Hr.
  assert (Hp : every plain_char (String c s)) by (eapply every_weaken; [|exact Hd]; intros ?; apply digit_plain; lia).
  destruct Hp as [(H1 & H2 & H3 & H4 & H5 & H6) Hp].
  unfold strtoul. change (String c s +:+ rest) with (String c (s +:+ rest)) in *.
  assert (E1 : skip_space (String c (s +:+ rest)) = String c (s +:+ rest)) by (simpl; by rewrite H1).
  assert (E2 : sign (String c (s +:+ rest)) = (false, String c (s +:+ rest))).
  { simpl. destruct c as [[] [] [] [] [] [] [] []]; done. }
  rewrite E1, E2.
  assert (E3 : ∀ x t, s +:+ rest = String x t → (x =? "x")%char = false ∧ (x =? "X")%char = false).
  { intros x t E. destruct s as [|x' s']; simpl in E.
    - destruct Hrest as [->| ->]; [done|]. by injection E as <- <-.
    - injection E as -> _. destruct Hp as [(_ & _ & _ & _ & ? & ?) _]. done. }
  replace (match String c (s +:+ rest) with
    | String "0" (String x (String d s')) =>
        if (b =? 16) && ((x =? "x") || (x =? "X"))%char && bool_decide (is_Some (digit_val 16 d))
        then String d s' else String c (s +:+ rest)
    | _ => String c (s +:+ rest) end) with (String c (s +:+ rest)).
  2:{ destruct (s +:+ rest) as [|x t] eqn:E; [by destruct c as [[] [] [] [] [] [] [] []]|].
      destruct (E3 _ _ eq_refl) as [-> ->]. destruct t; [by destruct c as [[] [] [] [] [] [] [] []]|].
      rewrite andb_false_r. simpl. by destruct c as [[] [] [] [] [] [] [] []]. }
  rewrite Hr. by rewrite (proj2 (Z.ltb_ge ULONG_MAX _)) by done.
Qed.

(** ** Lines *)

(** A printed number is one token, whether a blank or the end of the line follows, and
    [strtoul] gives it back. *)
Lemma printed b fuel n :
  2 ≤ b ≤ 16 → 0 ≤ n < b ^ Z.of_nat (S fuel) → n ≤ ULONG_MAX →
  ∃ t, (∀ acc, print_digits b (S fuel) n acc = t +:+ acc) ∧
    (∀ r, strtok (t +:+ String " " r) = Some (t, r)) ∧ strtoul t b = n ∧
    strtok (t +:+ String nl EmptyString) = Some (t +:+ String nl EmptyString, EmptyString) ∧
    strtoul (t +:+ String nl EmptyString) b = n.
Proof.
  intros Hb Hn Hmax. destruct (print_digits_read b fuel n Hb Hn) as (c & s & Hd & Hp & Hr).
  exists (String c s). split; [done|].
  assert (Hpl : every plain_char (String c s)) by (eapply every_weaken; [|exact Hd]; intros ?; apply digit_plain; lia).
  split; [intros r; by apply strtok_plain|]. split; [|split; [by apply (strtok_plain c s EmptyString)|]].
  - pose proof (strtoul_digits b c s EmptyString Hb Hd (or_introl eq_refl) ltac:(lia)) as E.
    rewrite Hr in E. rewrite <-E. f_equal. clear. induction (String c s) as [|x t IH]; [done|].
    change (String x t = String x (t +:+ EmptyString)). by rewrite <-IH.
  - etrans; [|exact Hr]. apply strtoul_digits; auto. lia.
Qed.

Lemma printed_X n :
  0 ≤ n < 2 ^ 32 →
  ∃ t, (∀ acc, print_X n acc = t +:+ acc) ∧ (∀ r, strtok (t +:+ String " " r) = Some (t, r)) ∧ u32 (strtoul t 16) = n.
Proof.
  intros Hn. destruct (printed 16 7 n) as (t & H1 & H2 & H3 & _); [lia|by change (16 ^ Z.of_nat 8) with (2 ^ 32)|unfold ULONG_MAX; lia|].
  exists t. split; [done|]. split; [done|]. rewrite H3. unfold u32, wrap. by rewrite Z.mod_small.
Qed.

Lemma printed_d n :
  0 ≤ n < 10 →
  ∃ t, print_d n (String nl EmptyString) = t ∧ strtok t = Some (t, EmptyString) ∧ strtoul t 10 = n.
Proof.
  intros Hn. destruct (printed 10 9 n) as (t & H1 & _ & _ & H4 & H5); [lia| |unfold ULONG_MAX; lia|].
  { change (10 ^ Z.of_nat 10) with 10000000000. lia. }
  exists (t +:+ String nl EmptyString). unfold print_d. rewrite (proj2 (Z.ltb_ge n 0)) by lia. by rewrite H1.
Qed.

Lemma miss_read m t : strtoul t 10 = miss_num m → miss_of_int (s32 (strtoul t 10)) = Some m.
Proof. intros ->. by destruct m. Qed.

Section Lines.
Context (junk : Inst).

Lemma read_code_line seq_ pc_ code_ miss b :
  0 ≤ seq_ < 2 ^ 32 → 0 ≤ pc_ < 2 ^ 32 → 0 ≤ code_ < 2 ^ 32 →
  read_line junk (code_line seq_ pc_ code_ miss) b = push_code junk b seq_ pc_ code_ miss.
Proof.
  intros H1 H2 H3. destruct (printed_X _ H1) as (t1 & P1 & K1 & N1). destruct (printed_X _ H2) as (t2 & P2 & K2 & N2).
  destruct (printed_X _ H3) as (t3 & P3 & K3 & N3).
  destruct (printed_d (miss_num miss)) as (t4 & P4 & K4 & N4); [destruct miss; simpl; lia|].
  unfold code_line. rewrite P1, P2, P3, P4. unfold read_line.
  match goal with |- context [strtok ?x] => assert (E : strtok x = Some ("c"%string, t1 +:+ String " " (t2 +:+ String " " (t3 +:+ String " " t4)))) by done end.
  rewrite E. cbn [mbind option_bind]. rewrite K1. cbn [mbind option_bind]. rewrite K2. cbn [mbind option_bind]. rewrite K3.
  cbn [mbind option_bind]. rewrite K4. cbn [mbind option_bind]. rewrite N1, N2, N3, (miss_read miss) by done. done.
Qed.

Lemma read_bpred_line correct b :
  read_line junk (bpred_line correct) b = ('(_, b) ← push_bpred b correct; Some (true, b)).
Proof.
  destruct (printed_d (if correct then 1 else 0)) as (t & P & Kt & N); [destruct correct; lia|].
  unfold bpred_line. rewrite P. unfold read_line.
  match goal with |- context [strtok ?x] => assert (E : strtok x = Some ("b"%string, t)) by done end.
  rewrite E. cbn [mbind option_bind]. rewrite Kt. cbn [mbind option_bind]. rewrite N. by destruct correct.
Qed.

Lemma read_memaddr_line addr miss b :
  0 ≤ addr < 2 ^ 32 →
  read_line junk (memaddr_line addr miss) b = ('(_, b) ← push_memaddr b addr miss; Some (true, b)).
Proof.
  intros H1. destruct (printed_X _ H1) as (t1 & P1 & K1 & N1).
  destruct (printed_d (miss_num miss)) as (t4 & P4 & K4 & N4); [destruct miss; simpl; lia|].
  unfold memaddr_line. rewrite P1, P4. unfold read_line.
  match goal with |- context [strtok ?x] => assert (E : strtok x = Some ("a"%string, t1 +:+ String " " t4)) by done end.
  rewrite E. cbn [mbind option_bind]. rewrite K1. cbn [mbind option_bind]. rewrite K4. cbn [mbind option_bind].
  by rewrite N1, (miss_read miss).
Qed.
End Lines.
