(* ===== verification/Record.v ===== *)
(** Recording a trace: what the buffer operations do to the list of recorded instructions. *)

From Stdlib Require Import ZArith Lia String Ascii.
From stdpp Require Import base tactics functions option list gmap.
From S2P Require Import Prelude DList Config InstQueue InstQueueRep InstQueueInit CacheSim DarmTbl Darm Inst Rob TraceAnalyzer BufferManager PipelineInv PipelineCommit PipelineExec PipelineTrace PipelineExpand PipelineRun.

(** ** Decoding does not depend on addresses and outcomes *)

(** What decoding looks at. *)
Record similar (i j : Inst) : Prop := {
  sm_code : code j = code i;
  sm_type : type j = type i;
  sm_nsrc : num_src_reg j = num_src_reg i;
  sm_ndst : num_dst_reg j = num_dst_reg i;
  sm_src : length (src_reg j) = length (src_reg i);
  sm_dst : length (dst_reg j) = length (dst_reg i);
  sm_cond : is_cond_inst j = is_cond_inst i;
  sm_flag : update_cond_flag j = update_cond_flag i;
}.

(** Both fail, or both succeed with similar results. *)
Abbreviation agree := (option_Forall2 similar).

Lemma agree_bind (m m' : option Inst) (f f' : Inst → option Inst) :
  agree m m' → (∀ i j, similar i j → agree (f i) (f' j)) → agree (m ≫= f) (m' ≫= f').
Proof. intros [] Hf; [by apply Hf|constructor]. Qed.

Lemma agree_ret i j : similar i j → agree (Some i) (Some j).
Proof. by constructor. Qed.

Lemma arr_set_agree {A} (l l' : list A) i x x' :
  length l' = length l →
  match arr_set l i x, arr_set l' i x' with
  | Some a, Some b => length b = length a
  | None, None => True
  | _, _ => False
  end.
Proof. intros Hl. unfold arr_set. rewrite Hl. destruct (_ || _); [done|]. by rewrite !length_insert. Qed.

Lemma add_src_reg_agree r i j : similar i j → agree (add_src_reg r i) (add_src_reg r j).
Proof.
  intros []. unfold add_src_reg. rewrite sm_nsrc0.
  pose proof (arr_set_agree (src_reg i) (src_reg j) (num_src_reg i) (s8 r) (s8 r) sm_src0).
  destruct (arr_set _ _ _), (arr_set _ _ _); try done; constructor. by split.
Qed.

Lemma add_dst_reg_agree r i j : similar i j → agree (add_dst_reg r i) (add_dst_reg r j).
Proof.
  intros []. unfold add_dst_reg. rewrite sm_ndst0.
  pose proof (arr_set_agree (dst_reg i) (dst_reg j) (num_dst_reg i) (s8 r) (s8 r) sm_dst0).
  destruct (arr_set _ _ _), (arr_set _ _ _); try done; constructor. by split.
Qed.

Section Adders.
Context (f : Z → Inst → option Inst) (Hf : ∀ r i j, similar i j → agree (f r i) (f r j)).

Lemma if_reg_agree r i j : similar i j → agree (if_reg r f i) (if_reg r f j).
Proof. intros. unfold if_reg. destruct (r =? R_INVLD); [by constructor|auto]. Qed.

Lemma add_regs_agree l i j : similar i j → agree (add_regs f l i) (add_regs f l j).
Proof. revert i j. induction l as [|r l IH]; simpl; intros i j Hs; [by constructor|]. apply agree_bind; auto. Qed.
End Adders.

Create HintDb agree discriminated.
#[export] Hint Resolve agree_ret add_src_reg_agree add_dst_reg_agree if_reg_agree add_regs_agree : agree.

Section Decode.
Context (shl_32 : Z → Z) (ctz_0 : Z).

Lemma init_inst_src_dst_reg_agree i j d :
  similar i j → agree (init_inst_src_dst_reg ctz_0 i d) (init_inst_src_dst_reg ctz_0 j d).
Proof.
  intros Hs. unfold init_inst_src_dst_reg. destruct (darm_reglist2 _ _) as [[n regs]|]; [|constructor].
  bs. destruct (16 <? _)%nat; [constructor|].
  set (i0 := i <| src_reg := replicate 16 (-1) |> <| dst_reg := replicate 16 (-1) |>).
  set (j0 := j <| src_reg := replicate 16 (-1) |> <| dst_reg := replicate 16 (-1) |>).
  assert (H0 : similar i0 j0) by (by destruct Hs). clearbody i0 j0. cbv zeta.
  rewrite (sm_type _ _ H0). apply agree_bind.
  - destruct (type i0); repeat (apply agree_bind; [|intros ?? ?]); eauto with agree.
  - intros i1 j1 H1. rewrite (sm_cond _ _ H1). apply agree_bind; [destruct (is_cond_inst i1); eauto with agree|].
    intros i2 j2 H2. rewrite (sm_flag _ _ H2). destruct (update_cond_flag i2); eauto with agree.
Qed.

Lemma classify_similar n i j : similar i j → similar (classify n i) (classify n j).
Proof. intros []. unfold classify. cbv zeta. repeat case_match; by split. Qed.

Lemma decode_similar i j :
  decoded i = false → decoded j = false → similar i j → decodable shl_32 ctz_0 i → decodable shl_32 ctz_0 j.
Proof.
  intros Hi Hj Hs. unfold decodable, decode_inst. rewrite Hi, Hj, (sm_code _ _ Hs).
  destruct (darm_armv7_disasm _ _) as [[n d]|]; [|done]. bs. cbv zeta.
  set (f := λ k : Inst, let k := k <| is_cond_inst := negb (one_of (d F_cond) [C_UNCOND; C_INVLD; C_AL]) |> in
    let k := if negb (d F_shift =? 0) then k <| shift_inst := true |> else k in
    let k := if negb (d F_S =? B_INVLD) then k <| update_cond_flag := d F_S =? B_SET |> else k in
    classify (d F_instr) k).
  change (is_Some (k ← (if decide (type (f i) = Unsupported) then Some (f i) else init_inst_src_dst_reg ctz_0 (f i) d);
    Some (k <| decoded := true |> <| imm := s32 (d F_imm) |>)) →
    is_Some (k ← (if decide (type (f j) = Unsupported) then Some (f j) else init_inst_src_dst_reg ctz_0 (f j) d);
    Some (k <| decoded := true |> <| imm := s32 (d F_imm) |>))).
  assert (Hf : similar (f i) (f j)).
  { unfold f. apply classify_similar. destruct Hs. destruct (d F_shift =? 0), (d F_S =? B_INVLD); by split. }
  clearbody f. rewrite (sm_type _ _ Hf).
  assert (Ha : agree (if decide (type (f i) = Unsupported) then Some (f i) else init_inst_src_dst_reg ctz_0 (f i) d)
    (if decide (type (f i) = Unsupported) then Some (f j) else init_inst_src_dst_reg ctz_0 (f j) d)).
  { case_decide; [by constructor|by apply init_inst_src_dst_reg_agree]. }
  inversion Ha as [? ? ? E1 E2|]; [|by intros []]. simpl. eauto.
Qed.
End Decode.

(** ** Starting up *)

(** The static data of the analyzer before [init_trace_analyzer]. *)
Record blank (s : TA) : Prop := {
  bl_qm : qm s = zero_queues;
  bl_insts : insts s = ∅;
  bl_rob : length (entries (rob s)) = 60%nat;
  bl_dep : dep_ok (dep_mat s);
}.

(** A configuration the analyzer can work with. *)
Record sensible (perfmodel : perfmodel_config) : Prop := {
  se_front : 1 ≤ frontend_width (core perfmodel);
  se_back : 1 ≤ backend_width (core perfmodel);
  se_rob : 1 ≤ rob_size (core perfmodel) ≤ 60;
  se_iq : 0 ≤ iq_size (core perfmodel);
  se_alu : 1 ≤ numfu_intalu (numfu perfmodel);
  se_mult : 1 ≤ numfu_intmultdiv (numfu perfmodel);
  se_lat : 0 ≤ cc_latency (ul2 perfmodel);
}.

(** The capacities after start-up. *)
Definition boot_caps (perfmodel : perfmodel_config) (q : qid) : Z :=
  match q with
  | TRACE => 1000001
  | IQ => iq_size (core perfmodel)
  | LDQ | STQ => 16
  | FUB => 0
  | POOL => inst_elem_pool_size
  end.

Section Boot.
Context (shl_32 : Z → Z) (ctz_0 : Z) (perfmodel : perfmodel_config).
Local Abbreviation loaded := (loaded (capped QV (boot_caps perfmodel)) shl_32 ctz_0).

(** One more queue set up. *)
Lemma init_queue_step m V T q cap :
  QV m V T → q ≠ POOL →
  ∃ V' T', QV (init_inst_queue m q cap) V' T' ∧
    (∀ q', capacity (queues (init_inst_queue m q cap) q') = if decide (q' = q) then cap else capacity (queues m q')) ∧
    (∀ q', V' q' = if decide (q' = q) then [] else V q') ∧
    (∀ q', T' q' = if decide (q' = q) then true else T q').
Proof.
  intros HQ Hq. destruct (init_inst_queue_rep m V T q cap HQ) as (HQ' & Hc & Ho).
  eexists _, _. split; [done|]. split_and!; intros q'; case_decide as E; try subst q'; rewrite ?fn_insert_same; try done.
  - by rewrite Ho.
  - by rewrite fn_insert_other.
  - by rewrite fn_insert_other.
Qed.

(** After start-up the machine is ready for a trace. *)
Lemma init_loaded s fp_ fly :
  blank s → sensible perfmodel →
  ∃ s' V T, init_trace_analyzer perfmodel s = Some s' ∧
    loaded (ta (init_trace_buffer (MkBM s' fp_ fly))) V T [] ∧ (∀ q, T q = true) ∧
    latency_l1_miss s' = cc_latency (ul2 perfmodel).
Proof.
  intros [Hqm Hin Hrob Hdep] [].
  destruct (init_inst_elem_pool_rep (qm s) (λ _, []) (λ _, true)) as (m0 & V0 & He & HQ0 & _ & Hcp & Hv0).
  { rewrite Hqm. apply zero_queues_rep. }
  destruct (init_queue_step m0 _ _ IQ (iq_size (core perfmodel)) HQ0) as (V1 & T1 & HQ1 & C1 & E1 & F1); [done|].
  destruct (init_queue_step _ _ _ LDQ 16 HQ1) as (V2 & T2 & HQ2 & C2 & E2 & F2); [done|].
  destruct (init_queue_step _ _ _ STQ 16 HQ2) as (V3 & T3 & HQ3 & C3 & E3 & F3); [done|].
  destruct (init_queue_step _ _ _ FUB 0 HQ3) as (V4 & T4 & HQ4 & C4 & E4 & F4); [done|].
  destruct (init_queue_step _ _ _ TRACE 1000001 HQ4) as (V5 & T5 & HQ5 & C5 & E5 & F5); [done|].
  unfold init_trace_analyzer. cbv zeta. match goal with |- context [init_inst_elem_pool ?x] => change x with (qm s) end.
  rewrite He. bs. eexists _, V5, T5. split; [reflexivity|].
  assert (Hcap : ∀ q, capacity (queues (init_inst_queue (init_inst_queue (init_inst_queue (init_inst_queue
    (init_inst_queue m0 IQ (iq_size (core perfmodel))) LDQ 16) STQ 16) FUB 0) TRACE 1000001) q) = boot_caps perfmodel q).
  { intros q. rewrite C5, C4, C3, C2, C1. by destruct q. }
  assert (HV : ∀ q, q ≠ POOL → V5 q = []).
  { intros q Hq. rewrite E5, E4, E3, E2, E1. repeat (case_decide; [done|]). by destruct (Hv0 q Hq). }
  assert (HT : ∀ q, T5 q = true).
  { intros q. rewrite F5, F4, F3, F2, F1. repeat (case_decide; [done|]). destruct (decide (q = POOL)) as [->|]; [apply fn_insert_same|by rewrite fn_insert_other]. }
  split; [|done]. constructor; try done.
  - intros q Hq. apply HV. by destruct Hq as [->|[->|[->| ->]]].
  - by rewrite HV.
  - by apply NoDup_nil.
  - intros p Hp. by apply elem_of_nil in Hp.
  - by right.
  - split; try done; simpl; try lia.
  - split; [done|]. simpl. repeat constructor; simpl; lia.
Qed.
End Boot.

(** ** Recording *)

(** What the simulated processor reports: an instruction, the outcome of its branch, an
    address it uses. *)
Inductive event :=
  | ECode (seq_ pc_ code_ : Z) (miss : CacheMissType)
  | EBpred (correct : bool)
  | EAddr (addr : Z) (miss : CacheMissType).

Definition event_line (e : event) : string :=
  match e with
  | ECode seq_ pc_ code_ miss => code_line seq_ pc_ code_ miss
  | EBpred correct => bpred_line correct
  | EAddr addr miss => memaddr_line addr miss
  end.

Definition logged (f : option trace_file) (lines : list string) : option trace_file :=
  match f with
  | Some (Writing out) => Some (Writing (out ++ lines))
  | _ => f
  end.

Lemma log_ok line b : fp b ≠ Some Closed → log line b = Some (b <| fp := logged (fp b) [line] |>).
Proof. unfold log, logged. destruct b as [s [[]|] o]; simpl; try done. Qed.

Lemma logged_open f l : f ≠ Some Closed → logged f l ≠ Some Closed.
Proof. by destruct f as [[]|]. Qed.

Lemma logged_app f l1 l2 : logged (logged f l1) l2 = logged f (l1 ++ l2).
Proof. destruct f as [[]|]; simpl; by rewrite <-?app_assoc. Qed.

Lemma logged_nil f : logged f [] = f.
Proof. destruct f as [[]|]; simpl; by rewrite ?app_nil_r. Qed.

Section Recording.
Context {QV : QMem → view → tails → Prop} {QL : QueueLaws QV}.
Context (junk : Inst) (shl_32 : Z → Z) (ctz_0 : Z).
Context (Hjs : length (src_reg junk) = 16%nat) (Hjd : length (dst_reg junk) = 16%nat)
  (Hja : length (eff_addr junk) = 16%nat).
Local Abbreviation loaded := (loaded QV shl_32 ctz_0).

Definition record_event (e : event) (b : BM) : option (bool * BM) :=
  match e with
  | ECode seq_ pc_ code_ miss => push_code junk b seq_ pc_ code_ miss
  | EBpred correct => push_bpred b correct
  | EAddr addr miss => push_memaddr b addr miss
  end.

Fixpoint record_events (es : list event) (b : BM) : option BM :=
  match es with
  | [] => Some b
  | e :: es => '(_, b) ← record_event e b; record_events es b
  end.

(** The same on the list of recorded instructions: a new one is added, or the newest one is
    completed.  There is room for 16 addresses. *)
Definition new_inst (seq_ pc_ code_ : Z) (miss : CacheMissType) : Inst :=
  (init_inst junk seq_ pc_ code_) <| inst_cache_miss := miss |>.

Definition on_last (f : Inst → option Inst) (l : list Inst) : option (list Inst) :=
  i ← last l; i ← f i; Some (take (pred (length l)) l ++ [i]).

Definition spec_event (e : event) (l : list Inst) : option (list Inst) :=
  match e with
  | ECode seq_ pc_ code_ miss => Some (l ++ [new_inst seq_ pc_ code_ miss])
  | EBpred correct => on_last (λ i, Some (set_inst_bpred_mispred i (negb correct))) l
  | EAddr addr miss => on_last (λ i, set_inst_eff_addr i addr miss) l
  end.

Fixpoint spec_events (es : list event) (l : list Inst) : option (list Inst) :=
  match es with
  | [] => Some l
  | e :: es => l ← spec_event e l; spec_events es l
  end.

(** Every instruction that is recorded can be decoded. *)
Definition event_decodes (e : event) : Prop :=
  match e with
  | ECode seq_ pc_ code_ miss => decodable shl_32 ctz_0 (new_inst seq_ pc_ code_ miss)
  | _ => True
  end.

(** The buffer holds [tr], the last entry is reachable, and the log can be written. *)
Record recording (b : BM) (V : view) (T : tails) (tr : list pinst) : Prop := {
  re_loaded : loaded (ta b) V T tr;
  re_tail : T TRACE = true;
  re_open : fp b ≠ Some Closed;
}.

Lemma recorded_similar i j :
  recorded shl_32 ctz_0 i → similar i j → shaped j → ldq_elem j = ldq_elem i → stq_elem j = stq_elem i →
  decoded j = decoded i → state j = state i → recorded shl_32 ctz_0 j.
Proof.
  intros (? & Hl & Hs & Hd & Hdec & Hst) Hsim Hsh Hl' Hs' Hd' Hst'. split_and!; try congruence.
  eapply decode_similar; [exact Hd|congruence|done|done].
Qed.

Lemma on_last_snoc f l i : on_last f (l ++ [i]) = (i' ← f i; Some (l ++ [i'])).
Proof.
  unfold on_last. rewrite last_snoc. bs. destruct (f i) as [i'|]; [|done]. bs.
  rewrite length_app. simpl. rewrite Nat.add_1_r. simpl. by rewrite take_app_length.
Qed.

(** The newest instruction of a buffer in use. *)
Lemma newest_inst_ok b V T l x :
  recording b V T (l ++ [x]) → newest_inst b = Some (Some x.1).
Proof.
  intros [Hld HT _]. pose proof (ld_qv _ _ _ _ _ _ _ Hld) as HQ. pose proof (ld_trace _ _ _ _ _ _ _ Hld) as Htr.
  unfold newest_inst, queue. rewrite (law_newest _ _ _ TRACE HQ HT). rewrite fmap_app, fmap_app in Htr.
  destruct (V TRACE) as [|y ys _] eqn:E using rev_ind; [by destruct (Some <$> l.*1)|].
  destruct (law_node _ _ _ TRACE ys y [] HQ E) as (n & Hn & Hi & _).
  rewrite fmap_app in Htr. apply app_inj_2 in Htr as [_ E2]; [|done].
  injection E2 as E2. rewrite last_ptr_snoc. bs. rewrite Hn. bs. congruence.
Qed.

(** The newest instruction is completed in place. *)
Lemma complete_last b V T l x i' f :
  recording b V T (l ++ [x]) → similar x.2 i' → shaped i' → ldq_elem i' = ldq_elem x.2 →
  stq_elem i' = stq_elem x.2 → decoded i' = decoded x.2 → state i' = state x.2 → f x.2 = i' →
  ∃ s, upd_inst (ta b) x.1 f = Some s ∧ recording (b <| ta := s |>) V T (l ++ [(x.1, i')]) ∧
    latency_l1_miss s = latency_l1_miss (ta b).
Proof.
  intros [Hld HT Hop] Hsim Hsh Hl Hs Hd Hst Hf. destruct x as [p i]. simpl in *.
  destruct Hld as [Hcfg HQ Hta Hem Htr Hh Hnd Hb Hi Hr Hrob Hdep Hfu].
  rewrite (upd_inst_at (ta b) l p i [] f Hh Hnd), Hf. eexists. split; [done|]. split; [|done].
  assert (E1 : (l ++ [(p, i')]).*1 = (l ++ [(p, i)]).*1) by (by rewrite !fmap_app).
  split; [|done|done]. constructor; try done.
  - by eapply config_ok_same.
  - by rewrite E1.
  - by rewrite E1.
  - intros q. rewrite E1. apply Hb.
  - apply Forall_app in Hi as [Hi1 Hi2]. apply Forall_app. split; [done|]. apply Forall_singleton.
    apply Forall_cons in Hi2 as [Hi2 _]. exact (recorded_similar i i' Hi2 Hsim Hsh Hl Hs Hd Hst).
  - by rewrite length_app in *.
Qed.

Lemma bpred_ok b V T l x correct :
  recording b V T (l ++ [x]) →
  ∃ b', push_bpred b correct = Some (true, b') ∧
    recording b' V T (l ++ [(x.1, set_inst_bpred_mispred x.2 (negb correct))]) ∧
    fp b' = logged (fp b) [bpred_line correct] ∧ latency_l1_miss (ta b') = latency_l1_miss (ta b).
Proof.
  intros HR. unfold push_bpred. rewrite log_ok by apply HR. bs.
  set (b1 := b <| fp := _ |>).
  assert (HR1 : recording b1 V T (l ++ [x])).
  { destruct HR. split; [done|done|]. by apply logged_open. }
  rewrite (newest_inst_ok b1 _ _ _ _ HR1). bs.
  assert (Hrec : recorded shl_32 ctz_0 x.2).
  { pose proof (ld_insts _ _ _ _ _ _ _ (re_loaded _ _ _ _ HR)) as H. apply Forall_app in H as [_ H].
    by apply Forall_cons in H as [H _]. }
  destruct (complete_last b1 V T l x (set_inst_bpred_mispred x.2 (negb correct))
    (λ i, set_inst_bpred_mispred i (negb correct)) HR1) as (s & -> & HR2 & Hlat); try done.
  { destruct Hrec as [[] _]. by split. }
  bs. eexists. split; [done|]. split; [done|]. done.
Qed.

Lemma memaddr_ok b V T l x addr miss i' :
  recording b V T (l ++ [x]) → set_inst_eff_addr x.2 addr miss = Some i' →
  ∃ b', push_memaddr b addr miss = Some (true, b') ∧ recording b' V T (l ++ [(x.1, i')]) ∧
    fp b' = logged (fp b) [memaddr_line addr miss] ∧ latency_l1_miss (ta b') = latency_l1_miss (ta b).
Proof.
  intros HR Hi'. unfold push_memaddr. rewrite log_ok by apply HR. bs.
  set (b1 := b <| fp := _ |>).
  assert (HR1 : recording b1 V T (l ++ [x])).
  { destruct HR. split; [done|done|]. by apply logged_open. }
  rewrite (newest_inst_ok b1 _ _ _ _ HR1). bs. destruct (re_loaded _ _ _ _ HR1) as [_ _ _ _ _ Hh Hnd _ Hrecs _ _ _ _].
  apply Forall_app in Hrecs as [_ [Hrec _]%Forall_cons].
  rewrite (get_inst_at (ta b1) (l ++ [x]) x.1 x.2 Hh Hnd) by (apply elem_of_app; right; destruct x; by left).
  bs. rewrite Hi'. bs.
  unfold set_inst_eff_addr in Hi'. destruct (arr_set _ _ _) as [a|] eqn:Ha; [|done]. injection Hi' as Hi'.
  destruct (complete_last b1 V T l x i' (λ _, i') HR1) as (s & -> & HR2 & Hlat); try (by subst i').
  { destruct Hrec as [[] _]. apply arr_set_inv in Ha as [Hr Hla]. subst i'. split; simpl; try done; lia. }
  bs. eexists. split; [done|]. split; [done|]. done.
Qed.

Lemma new_inst_recorded seq_ pc_ code_ miss :
  decodable shl_32 ctz_0 (new_inst seq_ pc_ code_ miss) → recorded shl_32 ctz_0 (new_inst seq_ pc_ code_ miss).
Proof. intros Hd. split_and!; try done. Qed.

Lemma code_ok b V T tr seq_ pc_ code_ miss :
  recording b V T tr → decodable shl_32 ctz_0 (new_inst seq_ pc_ code_ miss) →
  capacity (queue (ta b) TRACE) = 0 ∨ Z.of_nat (length tr) + 17 ≤ capacity (queue (ta b) TRACE) →
  ∃ b' V' p, push_code junk b seq_ pc_ code_ miss = Some (true, b') ∧
    recording b' V' T (tr ++ [(p, new_inst seq_ pc_ code_ miss)]) ∧
    fp b' = logged (fp b) [code_line seq_ pc_ code_ miss] ∧ latency_l1_miss (ta b') = latency_l1_miss (ta b) ∧
    same_caps (qm (ta b)) (qm (ta b')).
Proof.
  intros [Hld HT Hop] Hdec Hroom. unfold push_code. change ((init_inst junk seq_ pc_ code_) <| inst_cache_miss := miss |>) with (new_inst seq_ pc_ code_ miss).
  cbv zeta. unfold malloc_inst. cbv iota beta. set (s1 := (ta b) <| insts := _ |> <| ibrk := _ |>).
  rewrite log_ok by done. bs. set (b1 := b <| ta := s1 |> <| fp := _ |>).
  destruct Hld as [Hcfg HQ Hta Hem Htr Hh Hnd Hb Hi Hr Hrob Hdep Hfu].
  assert (HQ1 : QV (qm (ta b1)) V T) by done.
  assert (Hlen : length (V TRACE) = length tr) by (by rewrite <-(length_fmap snd (V TRACE)), Htr, !length_fmap).
  assert (Hrm : room (qm (ta b)) TRACE (V TRACE)) by (destruct Hroom as [|Hroom]; [by left|right; unfold queue in Hroom; lia]).
  assert (Hnf : is_full_queue (queue (ta b1) TRACE) = false).
  { unfold is_full_queue. change (queue (ta b1) TRACE) with (queues (qm (ta b)) TRACE). rewrite (law_size _ _ _ TRACE HQ).
    destruct Hrm as [E|E].
    - by rewrite E.
    - case_match; [done|]. apply Z.leb_gt. lia. }
  rewrite Hnf. destruct (law_push_back _ _ _ TRACE (ibrk (ta b)) HQ1) as (m' & e & -> & HQ' & Hc & _); [done|done|done|]. bs.
  assert (Hfresh : ibrk (ta b) ∉ tr.*1) by (intros H%Hb; lia).
  eexists _, _, _. split; [done|]. split; [|done]. split; [|done|by apply logged_open]. constructor; try done.
  - eapply config_ok_same; [exact Hcfg|done..| |done]. done.
  - intros q Hq. rewrite !fn_insert_other by (by destruct Hq as [->|[->|[->| ->]]]). by apply Hem.
  - rewrite fn_insert_same, !fmap_app, Htr. done.
  - simpl. rewrite list_to_map_snoc by done. by rewrite <-Hh.
  - rewrite fmap_app. apply NoDup_app. split; [done|]. split; [|apply NoDup_singleton].
    intros q Hq ->%list_elem_of_singleton. by apply Hfresh.
  - intros q. rewrite fmap_app, elem_of_app. change (ibrk _) with (Pos.succ (ibrk (ta b))).
    intros [?%Hb| ->%list_elem_of_singleton]; [lia|]. apply Pos.lt_succ_diag_r.
  - apply Forall_app. split; [done|]. apply Forall_singleton. by apply new_inst_recorded.
  - rewrite length_app. simpl. unfold queue in *. simpl in *. rewrite Hc. simpl. destruct Hroom; [by left|right; lia].
Qed.

Lemma on_last_inv f l l' :
  on_last f l = Some l' → ∃ l0 i i', l = l0 ++ [i] ∧ f i = Some i' ∧ l' = l0 ++ [i'].
Proof.
  destruct l as [|i l0 _] using rev_ind; [done|]. rewrite on_last_snoc.
  destruct (f i) as [i'|] eqn:Hf; [|done]. intros [= <-]. eauto 6.
Qed.

Lemma spec_event_length e l l' : spec_event e l = Some l' → (length l ≤ length l')%nat.
Proof.
  destruct e as [| |]; simpl.
  - intros [= <-]. rewrite length_app. lia.
  - intros (? & ? & ? & -> & _ & ->)%on_last_inv. by rewrite !length_app.
  - intros (? & ? & ? & -> & _ & ->)%on_last_inv. by rewrite !length_app.
Qed.

Lemma spec_events_length es l l' : spec_events es l = Some l' → (length l ≤ length l')%nat.
Proof.
  revert l. induction es as [|e es IH]; simpl; intros l; [by intros [= <-]|].
  destruct (spec_event e l) as [l1|] eqn:E; [|done]. apply spec_event_length in E. intros ?%IH. lia.
Qed.

(** The trace a list of instructions is the second half of. *)
Lemma split_last (tr : list pinst) l0 i :
  tr.*2 = l0 ++ [i] → ∃ tr0 p, tr = tr0 ++ [(p, i)] ∧ tr0.*2 = l0.
Proof.
  destruct tr as [|[p j] tr0 _] using rev_ind; [by destruct l0|]. rewrite fmap_app.
  intros [E1 [= ->]]%app_inj_2; [|done]. eauto.
Qed.

Definition fits_trace (b : BM) (n : nat) : Prop :=
  capacity (queue (ta b) TRACE) = 0 ∨ Z.of_nat n + 16 ≤ capacity (queue (ta b) TRACE).

Lemma event_ok e b V T tr l' :
  recording b V T tr → event_decodes e → spec_event e tr.*2 = Some l' → fits_trace b (length l') →
  ∃ b' V' tr', record_event e b = Some (true, b') ∧ recording b' V' T tr' ∧ tr'.*2 = l' ∧
    fp b' = logged (fp b) [event_line e] ∧ latency_l1_miss (ta b') = latency_l1_miss (ta b) ∧
    capacity (queue (ta b') TRACE) = capacity (queue (ta b) TRACE).
Proof.
  intros HR Hd Hs Hfit. destruct e as [seq_ pc_ code_ miss|correct|addr miss]; simpl in *.
  - injection Hs as <-. rewrite length_app, length_fmap in Hfit. simpl in Hfit.
    destruct (code_ok b V T tr seq_ pc_ code_ miss HR Hd) as (b' & V' & p & He & HR' & Hfp & Hlat & Hc).
    { destruct Hfit; [by left|right; lia]. }
    exists b', V', (tr ++ [(p, new_inst seq_ pc_ code_ miss)]). rewrite fmap_app. unfold queue. by rewrite Hc.
  - apply on_last_inv in Hs as (l0 & i & i' & El & [= <-] & ->).
    apply split_last in El as (tr0 & p & -> & <-).
    destruct (bpred_ok b V T tr0 (p, i) correct HR) as (b' & He & HR' & Hfp & Hlat).
    eexists b', V, _. split; [done|]. split; [done|]. rewrite fmap_app. split; [done|].
    split; [done|]. split; [done|]. unfold push_bpred in He. clear -He HR.
    rewrite log_ok in He by apply HR. revert He. bs. destruct (newest_inst _) as [[q|]|]; simpl; [|by intros [= <-]|done].
    unfold upd_inst. destruct (upd _ _ _); simpl; [|done]. by intros [= <-].
  - apply on_last_inv in Hs as (l0 & i & i' & El & Hi' & ->).
    apply split_last in El as (tr0 & p & -> & <-).
    destruct (memaddr_ok b V T tr0 (p, i) addr miss i' HR Hi') as (b' & He & HR' & Hfp & Hlat).
    eexists b', V, _. split; [done|]. split; [done|]. rewrite fmap_app. split; [done|].
    split; [done|]. split; [done|]. unfold push_memaddr in He. clear -He HR.
    rewrite log_ok in He by apply HR. revert He. bs. destruct (newest_inst _) as [[q|]|]; simpl; [|by intros [= <-]|done].
    destruct (get_inst _ _); simpl; [|done]. destruct (set_inst_eff_addr _ _ _); simpl; [|done].
    unfold upd_inst. destruct (upd _ _ _); simpl; [|done]. by intros [= <-].
Qed.

(** Recording a list of events does to the buffer what it does to the list of instructions,
    and logs one line for each. *)
Lemma record_events_ok es b V T tr l' :
  recording b V T tr → Forall event_decodes es → spec_events es tr.*2 = Some l' → fits_trace b (length l') →
  ∃ b' V' tr', record_events es b = Some b' ∧ recording b' V' T tr' ∧ tr'.*2 = l' ∧
    fp b' = logged (fp b) (event_line <$> es) ∧ latency_l1_miss (ta b') = latency_l1_miss (ta b).
Proof.
  revert b V tr. induction es as [|e es IH]; simpl; intros b V tr HR Hd Hs Hfit.
  { injection Hs as <-. exists b, V, tr. by rewrite logged_nil. }
  apply Forall_cons in Hd as [Hd Hds]. destruct (spec_event e tr.*2) as [l1|] eqn:E; [|done]. simpl in Hs.
  pose proof (spec_events_length _ _ _ Hs) as Hlen.
  destruct (event_ok e b V T tr l1 HR Hd E) as (b1 & V1 & tr1 & -> & HR1 & El & Hfp & Hlat & Hc).
  { destruct Hfit; [by left|right; lia]. }
  rewrite <-El in Hs. bs. destruct (IH b1 V1 tr1 HR1 Hds Hs) as (b' & V' & tr' & He & HR' & El' & Hfp' & Hlat').
  { unfold fits_trace. by rewrite Hc. }
  exists b', V', tr'. split; [done|]. split; [done|]. split; [done|]. split; [|congruence].
  by rewrite Hfp', Hfp, logged_app.
Qed.
End Recording.
