(* ===== verification/DarmStrTbl.v ===== *)
(** The names and format strings the disassembler prints with (trace_analyzer/darm/darm-tbl.c and
    armv7-tbl.c). *)

From Stdlib Require Import ZArith Ascii String.
From stdpp Require Import base list.
From S2P Require Import Prelude DarmTbl.

Open Scope string_scope.
Open Scope list_scope.
Open Scope Z_scope.

Definition darm_mnemonics : list string :=
  ["INVLD"; "ADC"; "ADD"; "ADDW"; "ADR"; "AND"; "ASR"; "B"; "BFC"; "BFI"; "BIC"; "BKPT"; "BL";
   "BLX"; "BX"; "BXJ"; "CBNZ"; "CBZ"; "CDP"; "CDP2"; "CHKA"; "CLREX"; "CLZ"; "CMN"; "CMP"; "CPS";
   "CPY"; "DBG"; "DMB"; "DSB"; "ENTERX"; "EOR"; "HB"; "HBL"; "HBLP"; "HBP"; "ISB"; "IT"; "LDC";
   "LDC2"; "LDM"; "LDMDA"; "LDMDB"; "LDMIB"; "LDR"; "LDRB"; "LDRBT"; "LDRD"; "LDREX"; "LDREXB";
   "LDREXD"; "LDREXH"; "LDRH"; "LDRHT"; "LDRSB"; "LDRSBT"; "LDRSH"; "LDRSHT"; "LDRT"; "LEAVEX";
   "LSL"; "LSR"; "MCR"; "MCR2"; "MCRR"; "MCRR2"; "MLA"; "MLS"; "MOV"; "MOVT"; "MOVW"; "MRC";
   "MRC2"; "MRRC"; "MRRC2"; "MRS"; "MSR"; "MUL"; "MVN"; "NEG"; "NOP"; "ORN"; "ORR"; "PKH"; "PLD";
   "PLDW"; "PLI"; "POP"; "PUSH"; "QADD"; "QADD16"; "QADD8"; "QASX"; "QDADD"; "QDSUB"; "QSAX";
   "QSUB"; "QSUB16"; "QSUB8"; "RBIT"; "REV"; "REV16"; "REVSH"; "RFE"; "ROR"; "RRX"; "RSB"; "RSC";
   "SADD16"; "SADD8"; "SASX"; "SBC"; "SBFX"; "SDIV"; "SEL"; "SETEND"; "SEV"; "SHADD16"; "SHADD8";
   "SHASX"; "SHSAX"; "SHSUB16"; "SHSUB8"; "SMC"; "SMLA"; "SMLABB"; "SMLABT"; "SMLAD"; "SMLAL";
   "SMLALBB"; "SMLALBT"; "SMLALD"; "SMLALTB"; "SMLALTT"; "SMLATB"; "SMLATT"; "SMLAW"; "SMLSD";
   "SMLSLD"; "SMMLA"; "SMMLS"; "SMMUL"; "SMUAD"; "SMUL"; "SMULBB"; "SMULBT"; "SMULL"; "SMULTB";
   "SMULTT"; "SMULW"; "SMUSD"; "SRS"; "SSAT"; "SSAT16"; "SSAX"; "SSUB16"; "SSUB8"; "STC"; "STC2";
   "STM"; "STMDA"; "STMDB"; "STMIB"; "STR"; "STRB"; "STRBT"; "STRD"; "STREX"; "STREXB"; "STREXD";
   "STREXH"; "STRH"; "STRHT"; "STRT"; "SUB"; "SUBW"; "SVC"; "SWP"; "SWPB"; "SXTAB"; "SXTAB16";
   "SXTAH"; "SXTB"; "SXTB16"; "SXTH"; "TBB"; "TBH"; "TEQ"; "TST"; "UADD16"; "UADD8"; "UASX";
   "UBFX"; "UDF"; "UDIV"; "UHADD16"; "UHADD8"; "UHASX"; "UHSAX"; "UHSUB16"; "UHSUB8"; "UMAAL";
   "UMLAL"; "UMULL"; "UQADD16"; "UQADD8"; "UQASX"; "UQSAX"; "UQSUB16"; "UQSUB8"; "USAD8";
   "USADA8"; "USAT"; "USAT16"; "USAX"; "USUB16"; "USUB8"; "UXTAB"; "UXTAB16"; "UXTAH"; "UXTB";
   "UXTB16"; "UXTH"; "VABA"; "VABAL"; "VABD"; "VABDL"; "VABS"; "VACGE"; "VACGT"; "VACLE"; "VACLT";
   "VADD"; "VADDHN"; "VADDL"; "VADDW"; "VAND"; "VBIC"; "VBIF"; "VBIT"; "VBSL"; "VCEQ"; "VCGE";
   "VCGT"; "VCLE"; "VCLS"; "VCLT"; "VCLZ"; "VCMP"; "VCMPE"; "VCNT"; "VCVT"; "VCVTB"; "VCVTR";
   "VCVTT"; "VDIV"; "VDUP"; "VEOR"; "VEXT"; "VHADD"; "VHSUB"; "VLD1"; "VLD2"; "VLD3"; "VLD4";
   "VLDM"; "VLDR"; "VMAX"; "VMIN"; "VMLA"; "VMLAL"; "VMLS"; "VMLSL"; "VMOV"; "VMOVL"; "VMOVN";
   "VMRS"; "VMSR"; "VMUL"; "VMULL"; "VMVN"; "VNEG"; "VNMLA"; "VNMLS"; "VNMUL"; "VORN"; "VORR";
   "VPADAL"; "VPADD"; "VPADDL"; "VPMAX"; "VPMIN"; "VPOP"; "VPUSH"; "VQABS"; "VQADD"; "VQDMLAL";
   "VQDMLSL"; "VQDMULH"; "VQDMULL"; "VQMOVN"; "VQMOVUN"; "VQNEG"; "VQRDMULH"; "VQRSHL"; "VQRSHRN";
   "VQRSHRUN"; "VQSHL"; "VQSHLU"; "VQSHRN"; "VQSHRUN"; "VQSUB"; "VRADDHN"; "VRECPE"; "VRECPS";
   "VREV16"; "VREV32"; "VREV64"; "VRHADD"; "VRSHL"; "VRSHR"; "VRSHRN"; "VRSQRTE"; "VRSQRTS";
   "VRSRA"; "VRSUBHN"; "VSHL"; "VSHLL"; "VSHR"; "VSHRN"; "VSLI"; "VSQRT"; "VSRA"; "VSRI"; "VST1";
   "VST2"; "VST3"; "VST4"; "VSTM"; "VSTR"; "VSUB"; "VSUBHN"; "VSUBL"; "VSUBW"; "VSWP"; "VTBL";
   "VTBX"; "VTRN"; "VTST"; "VUZP"; "VZIP"; "WFE"; "WFI"; "YIELD"].

Definition darm_registers : list string :=
  ["r0"; "r1"; "r2"; "r3"; "r4"; "r5"; "r6"; "r7"; "r8"; "r9"; "r10"; "r11"; "r12"; "SP"; "LR";
   "PC"].

(** The extensions of [g_condition_codes]. *)
Definition condition_codes : list string :=
  ["EQ"; "NE"; "CS"; "CC"; "MI"; "PL"; "VS"; "VC"; "HI"; "LS"; "GE"; "LT"; "GT"; "LE"; "AL"; EmptyString; "HS";
   "LO"].

Definition shift_types : list string := ["LSL"; "LSR"; "ASR"; "ROR"].

(** The rows of [armv7_format_strings] that are not empty. *)
Definition format_rows : list (Z * list string) :=
  [(I_ADC, ["scdnmS"; "scdni"]); (I_ADD, ["scdnmS"; "scdni"]); (I_ADR, ["cdb"]);
   (I_AND, ["scdnmS"; "scdni"]); (I_ASR, ["scdnm"; "scdmS"]); (I_BFC, ["cdLw"]);
   (I_BFI, ["cdnLw"]); (I_BIC, ["scdnmS"; "scdni"]); (I_BKPT, ["i"]); (I_BLX, ["b"; "cm"]);
   (I_BL, ["cb"]); (I_BXJ, ["cm"]); (I_BX, ["cm"]); (I_B, ["cb"]); (I_CDP2, ["cCpINJ<opc2>"]);
   (I_CDP, ["cCpINJ<opc2>"]); (I_CLREX, [EmptyString]); (I_CLZ, ["cdm"]);
   (I_CMN, ["cnmS"; "cni"]); (I_CMP, ["cnmS"; "cni"]); (I_DBG, ["co"]); (I_DMB, ["o"]);
   (I_DSB, ["o"]); (I_EOR, ["scdnmS"; "scdni"]); (I_ISB, ["o"]); (I_LDC2, ["{L}cCIB#+/-<imm>"]);
   (I_LDC, ["{L}cCIB#+/-<imm>"]); (I_LDMDA, ["cn!r"]); (I_LDMDB, ["cn!r"]); (I_LDMIB, ["cn!r"]);
   (I_LDM, ["cn!r"]); (I_LDRBT, ["ctBOS"]); (I_LDRB, ["ctBOS"]); (I_LDRD, ["ct2BO"]);
   (I_LDREXB, ["ctB"]); (I_LDREXD, ["ct2B"]); (I_LDREXH, ["ctB"]); (I_LDREX, ["ctB"]);
   (I_LDRHT, ["ctBO"]); (I_LDRH, ["ctBO"]); (I_LDRSBT, ["ctBO"]); (I_LDRSB, ["ctBO"]);
   (I_LDRSHT, ["ctBO"]); (I_LDRSH, ["ctBO"]); (I_LDRT, ["ctBOS"]); (I_LDR, ["ctBOS"]);
   (I_LSL, ["scdnm"; "scdmS"]); (I_LSR, ["scdnm"; "scdmS"]); (I_MCR2, ["cCptNJP"]);
   (I_MCRR2, ["cCpt2J"]); (I_MCRR, ["cCpt2J"]); (I_MCR, ["cCptNJP"]); (I_MLA, ["scdnma"]);
   (I_MLS, ["cdnma"]); (I_MOVT, ["cdi"]); (I_MOVW, ["cdi"]); (I_MOV, ["scdi"; "scdm"]);
   (I_MRC2, ["cCptNJP"]); (I_MRC, ["cCptNJP"]); (I_MRRC2, ["cC<opc>t2J"]);
   (I_MRRC, ["cC<opc>t2J"]); (I_MRS, ["cd<spec_reg>"]); (I_MSR, ["c<spec_reg>n"; "c<spec_reg>i"]);
   (I_MUL, ["scdnm"]); (I_MVN, ["scdi"; "scdmS"]); (I_NOP, ["c"]); (I_ORR, ["scdnmS"; "scdni"]);
   (I_PKH, ["TcdnmS"]); (I_PLD, ["cM"]); (I_PLI, ["M"]); (I_POP, ["cr"]); (I_PUSH, ["cr"]);
   (I_QADD16, ["cdnm"]); (I_QADD8, ["cdnm"]); (I_QADD, ["cdmn"]); (I_QASX, ["cdnm"]);
   (I_QDADD, ["cdmn"]); (I_QDSUB, ["cdmn"]); (I_QSAX, ["cdnm"]); (I_QSUB16, ["cdnm"]);
   (I_QSUB8, ["cdnm"]); (I_QSUB, ["cdmn"]); (I_RBIT, ["cdm"]); (I_REV16, ["cdm"]);
   (I_REVSH, ["cdm"]); (I_REV, ["cdm"]); (I_ROR, ["scdnm"; "scdmS"]); (I_RRX, ["scdm"]);
   (I_RSB, ["scdnmS"; "scdni"]); (I_RSC, ["scdnmS"; "scdni"]); (I_SADD16, ["cdnm"]);
   (I_SADD8, ["cdnm"]); (I_SASX, ["cdnm"]); (I_SBC, ["scdnmS"; "scdni"]); (I_SBFX, ["cdnLw"]);
   (I_SEL, ["cdnm"]); (I_SETEND, ["e"]); (I_SEV, ["c"]); (I_SHADD16, ["cdnm"]);
   (I_SHADD8, ["cdnm"]); (I_SHASX, ["cdnm"]); (I_SHSAX, ["cdnm"]); (I_SHSUB16, ["cdnm"]);
   (I_SHSUB8, ["cdnm"]); (I_SMC, ["ci"]); (I_SMLAD, ["xcdnma"]); (I_SMLALD, ["xclhnm"]);
   (I_SMLAL, ["Xclhnm"; "sclhnm"]); (I_SMLAW, ["<y>cdnma"]); (I_SMLA, ["Xcdnma"]);
   (I_SMLSD, ["xcdnma"]); (I_SMLSLD, ["xclhnm"]); (I_SMMLA, ["Rcdnma"]); (I_SMMLS, ["Rcdnma"]);
   (I_SMMUL, ["Rcdnm"]); (I_SMUAD, ["xcdnm"]); (I_SMULL, ["sclhnm"]); (I_SMULW, ["<y>cdnm"]);
   (I_SMUL, ["Xcdnm"]); (I_SMUSD, ["xcdnm"]); (I_SSAT16, ["cd#<imm>n"]); (I_SSAT, ["cd#<imm>nS"]);
   (I_SSAX, ["cdnm"]); (I_SSUB16, ["cdnm"]); (I_SSUB8, ["cdnm"]); (I_STC2, ["{L}cCIB#+/-<imm>"]);
   (I_STC, ["{L}cCIB#+/-<imm>"]); (I_STMDA, ["cn!r"]); (I_STMDB, ["cn!r"]); (I_STMIB, ["cn!r"]);
   (I_STM, ["cn!r"]); (I_STRBT, ["ctBOS"]); (I_STRB, ["ctBOS"]); (I_STRD, ["ct2BO"]);
   (I_STREXB, ["cdtB"]); (I_STREXD, ["cdt2B"]); (I_STREXH, ["cdtB"]); (I_STREX, ["cdtB"]);
   (I_STRHT, ["ctBO"]); (I_STRH, ["ctBO"]); (I_STRT, ["ctBOS"]); (I_STR, ["ctBOS"]);
   (I_SUB, ["scdnmS"; "scdni"]); (I_SVC, ["ci"]); (I_SWPB, ["ct2B"]); (I_SWP, ["ct2B"]);
   (I_SXTAB16, ["cdnmA"]); (I_SXTAB, ["cdnmA"]); (I_SXTAH, ["cdnmA"]); (I_SXTB16, ["cdmA"]);
   (I_SXTB, ["cdmA"]); (I_SXTH, ["cdmA"]); (I_TEQ, ["cnmS"; "cni"]); (I_TST, ["cnmS"; "cni"]);
   (I_UADD16, ["cdnm"]); (I_UADD8, ["cdnm"]); (I_UASX, ["cdnm"]); (I_UBFX, ["cdnLw"]);
   (I_UDF, ["ci"]); (I_UHADD16, ["cdnm"]); (I_UHADD8, ["cdnm"]); (I_UHASX, ["cdnm"]);
   (I_UHSAX, ["cdnm"]); (I_UHSUB16, ["cdnm"]); (I_UHSUB8, ["cdnm"]); (I_UMAAL, ["clhnm"]);
   (I_UMLAL, ["sclhnm"]); (I_UMULL, ["sclhnm"]); (I_UQADD16, ["cdnm"]); (I_UQADD8, ["cdnm"]);
   (I_UQASX, ["cdnm"]); (I_UQSAX, ["cdnm"]); (I_UQSUB16, ["cdnm"]); (I_UQSUB8, ["cdnm"]);
   (I_USAD8, ["cdnm"]); (I_USADA8, ["cdnma"]); (I_USAT16, ["cdin"]); (I_USAT, ["cdinS"]);
   (I_USAX, ["cdnm"]); (I_USUB16, ["cdnm"]); (I_USUB8, ["cdnm"]); (I_UXTAB16, ["cdnmA"]);
   (I_UXTAB, ["cdnmA"]); (I_UXTAH, ["cdnmA"]); (I_UXTB16, ["cdmA"]); (I_UXTB, ["cdmA"]);
   (I_UXTH, ["cdmA"]); (I_WFE, ["c"]); (I_WFI, ["c"]); (I_YIELD, ["c"])].

(** A row has three pointers; the unset ones are null. *)
Definition armv7_format_strings (i : Z) : list (option string) :=
  match find (λ r, i =? r.1) format_rows with
  | Some (_, fs) => take 3 ((Some <$> fs) ++ [None; None; None])
  | None => [None; None; None]
  end.
