(* ===== verification/DarmStr.v ===== *)
(** Instructions as text (trace_analyzer/darm/darm.c, the name functions of armv7.c, and
    [print_inst] of trace_analyzer/inst.c).  The code writes through pointers into the members of
    one [darm_str_t]; the model has the structure as the array of its 280 bytes and the pointers as
    offsets, so a string that is too long for its member runs into the next one, and [None] is an
    access outside the structure. *)

From Stdlib Require Import ZArith Ascii String.
From stdpp Require Import base functions option list strings.
From S2P Require Import Prelude DarmTbl Darm Thumb DarmStrTbl Inst BufferManager.

Open Scope string_scope.
Open Scope list_scope.
Open Scope Z_scope.

(** ** Data: [darm_str_t] and the variables of [darm_str] *)

Definition o_mnemonic : Z := 0.
Definition o_arg (i : Z) : Z := 12 + 32 * i.
Definition o_shift : Z := 204.
Definition o_total : Z := 216.
Definition sizeof_darm_str_t : Z := 280.

Record text := MkText {
  mem : list ascii;
  mnemonic : Z;
  shiftp : Z;
  args : list Z;
  arg : Z;
}.

#[export] Instance text_settable : Settable text := λ x,
  MkText (mem x) (mnemonic x) (shiftp x) (args x) (arg x).

(** The statements of [darm_str], and their sequence. *)
Definition act : Type := text → option text.
Definition skip : act := Some.
Definition seq_act (a b : act) : act := λ s, s ← a s; b s.
Declare Scope act_scope.
Delimit Scope act_scope with act.
Infix ";;;" := seq_act (at level 62, right associativity) : act_scope.
Open Scope act_scope.

(** [*mnemonic++ = c], [*shift++ = c], [*args[i]++ = c]. *)
Definition put_m (c : ascii) : act := λ s,
  m ← arr_set (mem s) (mnemonic s) c; Some (s <| mem := m |> <| mnemonic := mnemonic s + 1 |>).
Definition put_s (c : ascii) : act := λ s,
  m ← arr_set (mem s) (shiftp s) c; Some (s <| mem := m |> <| shiftp := shiftp s + 1 |>).
Definition put_at (i : Z) (c : ascii) : act := λ s,
  p ← arr_get (args s) i; m ← arr_set (mem s) p c; a ← arr_set (args s) i (p + 1);
  Some (s <| mem := m |> <| args := a |>).
Definition put_a (c : ascii) : act := λ s, put_at (arg s) c s.

(** [APPEND], with the null pointer as [None]. *)
Fixpoint each (f : ascii → act) (t : string) : act :=
  match t with
  | EmptyString => skip
  | String c t => f c ;;; each f t
  end.
Definition APPEND (f : ascii → act) (t : option string) : act :=
  match t with Some t => each f t | None => skip end.

(** [arg++] and [args[arg] += n]. *)
Definition next_arg : act := λ s, Some (s <| arg := arg s + 1 |>).
Definition move_arg (n : Z) : act := λ s,
  p ← arr_get (args s) (arg s); a ← arr_set (args s) (arg s) (p + n); Some (s <| args := a |>).

(** ** Names and numbers *)

Definition name_of (t : list string) (i : Z) : option string :=
  if negb (i =? -1) && (i <? Z.of_nat (length t)) then arr_get t i else None.

Definition darm_mnemonic_name (i : Z) : option string :=
  if i <? Z.of_nat (length darm_mnemonics) then arr_get darm_mnemonics i else None.
Definition darm_register_name (r : Z) : option string := name_of darm_registers r.
Definition darm_shift_type_name (t : Z) : option string := name_of shift_types t.
Definition darm_condition_name (cond omit_always_execute : Z) : option string :=
  if negb (omit_always_execute =? 0) && (cond =? C_AL) then Some EmptyString
  else name_of condition_codes cond.

(** The result, the type and the immediate. *)
Definition darm_immshift_decode (d : darm_t) : Z * option string * Z :=
  if d F_shift_type =? S_INVLD then (-1, None, 0)
  else if (d F_shift_type =? S_ROR) && (d F_Rs =? R_INVLD) && (d F_shift =? 0) then
    (0, Some "RRX", 0)
  else
    (0, darm_shift_type_name (d F_shift_type),
     if ((d F_shift_type =? S_LSR) || (d F_shift_type =? S_ASR)) && (d F_Rs =? R_INVLD) &&
        (d F_shift =? 0) then 32 else d F_shift).

(** The digits [_utoa] collects in [buf] and copies in reverse; [buf] has 30 bytes. *)
Fixpoint utoa_loop (fuel : nat) (value base : Z) (t : string) : option string :=
  if value =? 0 then Some t
  else
    match fuel with
    | O => None
    | S fuel => c ← String.get (Z.to_nat (value mod base)) "0123456789abcdef";
                utoa_loop fuel (value / base) base (String c t)
    end.
Definition _utoa (f : ascii → act) (value base : Z) : act := λ s,
  if value =? 0 then each f "0" s
  else t ← utoa_loop 30 value base EmptyString; each f t s.

Definition _append_imm (imm : Z) : act :=
  if 0x1000 <? imm then put_a "0" ;;; put_a "x" ;;; _utoa put_a imm 16
  else _utoa put_a imm 10.

(** ** Lists of registers *)

(** The first two characters of the name are copied as one [uint16_t], then
    [out[2] = name[2]; out += 2 + (out[2] != 0)]: the byte after a name of two characters is
    written too. *)
Definition put_name (r : Z) : act := λ s,
  n ← arr_get darm_registers r;
  a ← String.get 0 n; b ← String.get 1 n;
  let c := match String.get 2 n with Some c => c | None => zero end in
  s ← (put_a a ;;; put_a b ;;; put_a c) s;
  if ascii_dec c zero then move_arg (-1) s else Some s.

Section Str.
(** The undefined operations of the disassembler. *)
Variables (shl_32 : Z → Z) (ctz_0 : Z).

Fixpoint reglist_text (fuel : nat) (reglist : Z) : act := λ s,
  if reglist =? 0 then Some s
  else
    match fuel with
    | O => None
    | S fuel =>
        let start := ctz ctz_0 reglist in
        s ← put_name start s;
        '(reg, reglist) ← clear_run ctz_0 32 start reglist;
        s ← (if negb (reg =? start + 1) then
               put_a (if reg =? start + 2 then ","%char else "-"%char) ;;; put_name (reg - 1)
             else skip) s;
        (put_a "," ;;; reglist_text fuel reglist) s
    end.

(** [args[arg] += darm_reglist (reglist, args[arg])], for a list that is not empty: the last comma
    becomes the closing brace and a null byte follows. *)
Definition darm_reglist (reglist : Z) : act :=
  put_a "{" ;;; reglist_text 17 reglist ;;; move_arg (-1) ;;; put_a "}" ;;; put_a zero ;;; move_arg (-1).

(** ** One character of a format string *)

(** How the code leaves the [switch]. *)
Inductive flow := Continue | Break | Return.

Definition case : Type := text → option (flow * text).
Definition continue (a : act) : case := λ s, s ← a s; Some (Continue, s).
Definition break : case := λ s, Some (Break, s).

(** [if (r == R_INVLD) break; APPEND (args[arg], darm_register_name (r)); arg++; continue]. *)
Definition register_case (r : Z) : case :=
  if r =? R_INVLD then break else continue (APPEND put_a (darm_register_name r) ;;; next_arg).

(** [args[arg] += _utoa (v, args[arg], 10)]. *)
Definition number (v : Z) : act := _utoa put_a (u32 v) 10.
Definition immediate (v : Z) : act := _append_imm (u32 v).

(** ["S"]: the shift, inside the brackets of a pre-indexed address or after the operands. *)
Definition shift_text (d : darm_t) : act :=
  if d F_Rs =? R_INVLD then
    let '(r, type_, imm) := darm_immshift_decode d in
    if r =? 0 then
      (if one_of (d F_instr) [I_LSL; I_LSR; I_ASR; I_ROR; I_RRX] then skip
       else APPEND put_s type_ ;;; put_s " ") ;;;
      put_s "#" ;;; _utoa put_s (u32 imm) 10
    else if d F_P =? B_SET then (λ s, Some (s <| shiftp := shiftp s - 2 |>))
    else skip
  else
    APPEND put_s (darm_shift_type_name (d F_shift_type)) ;;; put_s " " ;;;
    APPEND put_s (darm_register_name (d F_Rs)).

Definition shift_case (d : darm_t) : act := λ s,
  if d F_shift_type =? S_INVLD then Some s
  else if d F_P =? B_SET then
    p ← arr_get (args s) (arg s);
    s ← (put_s "," ;;; put_s " " ;;; shift_text d ;;; put_s "]") (s <| shiftp := p - 1 |>);
    a ← arr_set (args s) (arg s) (shiftp s);
    Some (s <| args := a |> <| shiftp := o_shift |>)
  else shift_text d s.

(** ["B"]: the base register of an address. *)
Definition base_case (d : darm_t) : act :=
  put_a "[" ;;; APPEND put_a (darm_register_name (d F_Rn)) ;;;
  (if negb (d F_P =? B_SET) then put_a "]" ;;; next_arg else put_a "," ;;; put_a " ").

(** ["O"]: the offset of an address. *)
Definition offset_case (d : darm_t) : act :=
  (if negb (d F_Rm =? R_INVLD) then
     (if d F_U =? B_UNSET then put_a "-" else skip) ;;;
     APPEND put_a (darm_register_name (d F_Rm)) ;;;
     (if d F_P =? B_UNSET then next_arg else skip)
   else if negb (d F_imm =? 0) then
     APPEND put_a (Some (if d F_U =? B_UNSET then "#-" else "#")) ;;; immediate (d F_imm)
   else move_arg (-2)) ;;;
  (if d F_P =? B_SET then put_a "]" ;;; (if d F_W =? B_SET then put_a "!" else skip) else skip).

(** ["b"]: the target of a branch. *)
Definition branch_case (d : darm_t) : case :=
  if (d F_instr =? I_BLX) && (d F_H =? B_INVLD) then break
  else
    let imm := s32 (d F_imm) in
    continue
      (if (imm <? 0) && (-0x1000 <=? imm) then APPEND put_a (Some "#+-") ;;; immediate (- imm)
       else if d F_U =? B_UNSET then APPEND put_a (Some "#+-") ;;; immediate imm
       else APPEND put_a (Some "#+") ;;; immediate imm).

(** ["M"]: the address of a preload. *)
Definition memory_case (d : darm_t) : act :=
  put_a "[" ;;; APPEND put_a (darm_register_name (d F_Rn)) ;;;
  (if negb (d F_Rm =? R_INVLD) then
     APPEND put_a (Some ", ") ;;; APPEND put_a (darm_register_name (d F_Rm)) ;;;
     (let '(r, type_, imm) := darm_immshift_decode d in
      if r =? 0 then
        APPEND put_a (Some ", ") ;;; APPEND put_a type_ ;;; APPEND put_a (Some " #") ;;; number imm
      else skip)
   else if negb (d F_imm =? 0) then
     APPEND put_a (Some ", ") ;;; APPEND put_a (Some (if d F_U =? B_UNSET then "#-" else "#")) ;;;
     immediate (d F_imm)
   else skip) ;;;
  put_a "]" ;;; (if (d F_P =? B_SET) && (d F_W =? B_SET) then put_a "!" else skip).

(** The [switch] on a character. *)
Definition format_case (d : darm_t) (ch : ascii) : case :=
  match ch with
  | "s"%char => continue (if d F_S =? B_SET then put_m "S" else skip)
  | "c"%char => continue (APPEND put_m (darm_condition_name (d F_cond) 1))
  | "d"%char => register_case (d F_Rd)
  | "n"%char => register_case (d F_Rn)
  | "m"%char => register_case (d F_Rm)
  | "a"%char => register_case (d F_Ra)
  | "t"%char => register_case (d F_Rt)
  | "2"%char =>
      if negb (d F_Rt2 =? R_INVLD) then register_case (d F_Rt2)
      else if negb (d F_Rt =? R_INVLD) then
        continue (APPEND put_a (darm_register_name (d F_Rt + 1)) ;;; next_arg)
      else break
  | "h"%char => register_case (d F_RdHi)
  | "l"%char => register_case (d F_RdLo)
  | "i"%char =>
      if negb (d F_I =? B_SET) then break
      else continue (put_a "#" ;;; immediate (d F_imm) ;;; next_arg)
  | "S"%char => continue (shift_case d)
  | "!"%char => continue (if d F_W =? B_SET then (λ s, put_at (arg s - 1) "!" s) else skip)
  | "e"%char => continue (number (d F_E))
  | "x"%char => continue (if d F_M =? B_SET then put_m "x" else skip)
  | "X"%char =>
      if (d F_N =? B_INVLD) || (d F_M =? B_INVLD) then break
      else continue (put_m (if d F_N =? B_SET then "T"%char else "B"%char) ;;;
                     put_m (if d F_M =? B_SET then "T"%char else "B"%char))
  | "R"%char => continue (if d F_R =? B_SET then put_m "R" else skip)
  | "T"%char => continue (APPEND put_m (Some (if d F_T =? B_SET then "TB" else "BT")))
  | "r"%char =>
      continue (if negb (d F_reglist =? 0) then darm_reglist (d F_reglist)
                else put_a "{" ;;; APPEND put_a (darm_register_name (d F_Rt)) ;;; put_a "}")
  | "L"%char => continue (put_a "#" ;;; number (d F_lsb) ;;; next_arg)
  | "w"%char => continue (put_a "#" ;;; number (d F_width) ;;; next_arg)
  | "o"%char => continue (put_a "#" ;;; number (d F_option) ;;; next_arg)
  | "B"%char => continue (base_case d)
  | "O"%char => continue (offset_case d)
  | "b"%char => branch_case d
  | "M"%char => continue (memory_case d)
  | "A"%char =>
      continue (if negb (d F_rotate =? 0) then APPEND put_a (Some "ROR #") ;;; number (d F_rotate)
                else skip)
  | "C"%char => continue (number (d F_coproc) ;;; next_arg)
  | "p"%char => continue (number (d F_opc1) ;;; next_arg)
  | "P"%char => continue (number (d F_opc2) ;;; next_arg)
  | "N"%char => continue (APPEND put_a (Some "cr") ;;; number (d F_CRn) ;;; next_arg)
  | "J"%char => continue (APPEND put_a (Some "cr") ;;; number (d F_CRm) ;;; next_arg)
  | "I"%char => continue (APPEND put_a (Some "cr") ;;; number (d F_CRd) ;;; next_arg)
  | _ => λ s, Some (Return, s)
  end.

(** The character at an offset of a string, the null byte included. *)
Definition char_at (t : string) (off : Z) : option ascii :=
  if off =? Z.of_nat (String.length t) then Some zero else String.get (Z.to_nat off) t.

(** The loop over the format strings; [false] is [return -1].  After a [break] the next string is
    taken up at the same offset. *)
Fixpoint format_loop (fuel : nat) (d : darm_t) (ptrs : list (option string)) (idx off : Z)
    (s : text) : option (bool * text) :=
  p ← arr_get ptrs idx; fmt ← p; ch ← char_at fmt off;
  if ascii_dec ch zero then Some (true, s)
  else
    match fuel with
    | O => None
    | S fuel =>
        '(f, s) ← format_case d ch s;
        match f with
        | Continue => format_loop fuel d ptrs idx (off + 1) s
        | Return => Some (false, s)
        | Break =>
            p ← arr_get ptrs (idx + 1);
            match p with
            | None => Some (false, s)
            | Some _ =>
                if idx + 1 =? 3 then Some (false, s) else format_loop fuel d ptrs (idx + 1) off s
            end
        end
    end.

(** ** The whole instruction *)

(** [APPEND] from one place of the structure to another. *)
Fixpoint copy_str (fuel : nat) (m : list ascii) (from to : Z) : option (list ascii * Z) :=
  c ← arr_get m from;
  if ascii_dec c zero then Some (m, to)
  else
    match fuel with
    | O => None
    | S fuel => m ← arr_set m to c; copy_str fuel m (from + 1) (to + 1)
    end.

Definition put_str (m : list ascii) (to : Z) (t : string) : option (list ascii * Z) :=
  foldl (λ r c, '(m, to) ← r; m ← arr_set m to c; Some (m, to + 1)) (Some (m, to)) (list_ascii_of_string t).

(** [for (i = 0; i < 6 && args[i] != str->arg[i]; i++)], with the rest of [args]. *)
Fixpoint join_args (i : Z) (ps : list Z) (m : list ascii) (to : Z) : option (list ascii * Z) :=
  match ps with
  | [] => Some (m, to)
  | p :: ps =>
      if p =? o_arg i then Some (m, to)
      else
        '(m, to) ← put_str m to (if negb (i =? 0) then ", " else " ");
        '(m, to) ← copy_str 280 m (o_arg i) to;
        join_args (i + 1) ps m to
  end.

Definition finalize (s : text) : option (list ascii) :=
  m ← arr_set (mem s) (shiftp s) zero;
  m ← arr_set m (mnemonic s) zero;
  m ← foldl (λ m p, m ← m; arr_set m p zero) (Some m) (reverse (args s));
  '(m, to) ← copy_str 280 m o_mnemonic o_total;
  '(m, to) ← join_args 0 (args s) m to;
  '(m, to) ← (if negb (shiftp s =? o_shift) then
                '(m, to) ← put_str m to ", "; copy_str 280 m o_shift to
              else Some (m, to));
  arr_set m to zero.

Definition darm_str (d : darm_t) (str : list ascii) : option (Z * list ascii) :=
  if (d F_instr =? I_INVLD) || (Z.of_nat (length darm_mnemonics) <=? d F_instr) then Some (-1, str)
  else
    s ← APPEND put_m (darm_mnemonic_name (d F_instr))
          (MkText str o_mnemonic o_shift [o_arg 0; o_arg 1; o_arg 2; o_arg 3; o_arg 4; o_arg 5] 0);
    if one_of (d F_instr) [I_CPS; I_IT] then Some (-1, mem s)
    else if one_of (d F_instr) [I_CBZ; I_CBNZ] then
      s ← (APPEND put_a (darm_register_name (d F_Rn)) ;;; next_arg ;;; APPEND put_a (Some "#+") ;;;
           immediate (d F_imm)) s;
      m ← finalize s; Some (0, m)
    else
      let ptrs := armv7_format_strings (d F_instr) in
      match ptrs with
      | Some _ :: _ =>
          '(b, s) ← format_loop 64 d ptrs 0 0 s;
          if (b : bool) then m ← finalize s; Some (0, m) else Some (-1, mem s)
      | _ => Some (-1, mem s)
      end.

(** [tolower] in the C locale. *)
Definition tolower (c : ascii) : ascii :=
  let n := N_of_ascii c in
  if ((65 <=? n) && (n <=? 90))%N then ascii_of_N (n + 32) else c.

Definition darm_str2 (d : darm_t) (str : list ascii) (lowercase : Z) : option (Z * list ascii) :=
  '(r, str) ← darm_str d str;
  if r <? 0 then Some (-1, str)
  else Some (0, if negb (lowercase =? 0) then map tolower str else str).

(** The string at an offset, up to the null byte. *)
Fixpoint c_string (m : list ascii) : option string :=
  match m with
  | [] => None
  | c :: m => if ascii_dec c zero then Some EmptyString else t ← c_string m; Some (String c t)
  end.

(** The text [print_inst] writes to its buffer; [str] is the structure on its stack, which
    nothing initialises. *)
Definition print_inst (inst : Inst) (str : list ascii) : option string :=
  '(_, d) ← darm_armv7_disasm shl_32 (code inst);
  '(_, str) ← darm_str2 d str 1;
  t ← match Inst.str inst with
      | Some t => Some t
      | None => c_string (drop (Z.to_nat o_total) str)
      end;
  Some ("[" +:+ print_digits 10 20 (seq inst) ("] " +:+ t +:+ " ")).
End Str.
