(* ===== verification/DarmStrTheorems.v ===== *)
(** How far [darm_str] writes: each statement advances one of the pointers by a number of bytes that
    is bounded by the character of the format string it belongs to, so the whole text of any
    instruction is bounded by an evaluation of the format strings. *)

From Stdlib Require Import ZArith Lia Ascii String.
From stdpp Require Import base tactics functions option numbers list strings.
From S2P Require Import Prelude DarmTbl Darm DarmTheorems Thumb DarmStrTbl Inst BufferManager DarmStr.

Open Scope string_scope.
Open Scope list_scope.
Open Scope Z_scope.
Open Scope act_scope.

(** ** Pointers into the structure *)

(** What a pointer that is written through and advanced promises; [put] is its [*p++ = c]. *)
Class Cursor (put : ascii → act) := {
  cur : text → option Z;
  set_cur : text → list ascii → Z → text;
  put_eq c s : put c s = (p ← cur s; m ← arr_set (mem s) p c; Some (set_cur s m (p + 1)));
  set_mem s m p : mem (set_cur s m p) = m;
  set_get s m p q : cur s = Some q → cur (set_cur s m p) = Some p;
  set_set s m p q m' p' : cur s = Some q → set_cur (set_cur s m p) m' p' = set_cur s m' p';
  set_same s p : cur s = Some p → set_cur s (mem s) p = s;
}.
Arguments cur put {_} _.
Arguments set_cur put {_} _ _ _.

#[export, refine] Instance cursor_m : Cursor put_m := {|
  cur s := Some (mnemonic s);
  set_cur s m p := s <| mem := m |> <| mnemonic := p |>;
|}.
Proof. all: try done. by intros [] p [= <-]. Defined.

#[export, refine] Instance cursor_s : Cursor put_s := {|
  cur s := Some (shiftp s);
  set_cur s m p := s <| mem := m |> <| shiftp := p |>;
|}.
Proof. all: try done. by intros [] p [= <-]. Defined.

Lemma arr_set_ok {A} (l : list A) i x : 0 ≤ i < Z.of_nat (length l) → arr_set l i x = Some (<[Z.to_nat i := x]> l).
Proof. intros Hi. unfold arr_set. rewrite (proj2 (Z.ltb_ge i 0)), (proj2 (Z.leb_gt _ i)) by lia. done. Qed.

Lemma arr_get_bounds {A} (l : list A) i x : arr_get l i = Some x → 0 ≤ i < Z.of_nat (length l).
Proof.
  unfold arr_get. destruct (Z.ltb_spec i 0); [done|]. intros Hx%lookup_lt_Some. lia.
Qed.

#[export, refine] Instance cursor_a : Cursor put_a := {|
  cur s := arr_get (args s) (arg s);
  set_cur s m p := s <| mem := m |> <| args := <[Z.to_nat (arg s) := p]> (args s) |>;
|}.
Proof.
  - intros c s. unfold put_a, put_at. destruct (arr_get (args s) (arg s)) as [p|] eqn:E; [|done]. cbn [mbind option_bind].
    destruct (arr_set (mem s) p c); [|done]. cbn [mbind option_bind]. rewrite arr_set_ok; [done|]. by eapply arr_get_bounds.
  - done.
  - intros s m p q Hq. pose proof (arr_get_bounds _ _ _ Hq). unfold arr_get. simpl. rewrite (proj2 (Z.ltb_ge _ 0)) by lia.
    apply list_lookup_insert_eq. lia.
  - intros s m p q m' p' _. destruct s. simpl. unfold upd_member. simpl. f_equal. apply list_insert_insert_eq.
  - intros [m mn sh a i] p Hp. unfold upd_member. simpl in *. f_equal. apply list_insert_id. unfold arr_get in Hp.
    by destruct (i <? 0).
Defined.

(** [writes put n a]: the statement [a] advances the pointer of [put] by at most [n], and changes
    nothing but the bytes of the structure. *)
Section Writes.
Context (put : ascii → act) `{Cursor put}.

Definition writes (n : Z) (a : act) : Prop :=
  ∀ s p, cur put s = Some p → length (mem s) = 280%nat → 0 ≤ p → p + n ≤ 279 →
    ∃ m k, a s = Some (set_cur put s m (p + k)) ∧ 0 ≤ k ≤ n ∧ length m = 280%nat.

Lemma writes_weaken n n' a : writes n a → n ≤ n' → writes n' a.
Proof. intros Ha Hn s p Hp Hm H0 Hle. destruct (Ha s p) as (m & k & E & Hk & Hl); [done..|lia|]. exists m, k. split; [done|]. split; [lia|done]. Qed.

Lemma writes_skip : writes 0 skip.
Proof.
  intros s p Hp Hm H0 Hle. exists (mem s), 0. rewrite Z.add_0_r, set_same by done. done.
Qed.

Lemma writes_put c : writes 1 (put c).
Proof.
  intros s p Hp Hm H0 Hle. rewrite put_eq, Hp. cbn [mbind option_bind]. rewrite arr_set_ok by lia. cbn [mbind option_bind].
  eexists _, 1. split; [done|]. split; [lia|]. by rewrite length_insert.
Qed.

Lemma writes_seq n1 n2 a b : 0 ≤ n2 → writes n1 a → writes n2 b → writes (n1 + n2) (a ;;; b).
Proof.
  intros Hn Ha Hb s p Hp Hm H0 Hle. unfold seq_act. destruct (Ha s p) as (m & k & -> & Hk & Hl); [done..|lia|]. cbn [mbind option_bind].
  destruct (Hb (set_cur put s m (p + k)) (p + k)) as (m' & k' & -> & Hk' & Hl'); [by eapply set_get|by rewrite set_mem|lia..|].
  exists m', (k + k'). erewrite set_set by done. rewrite Z.add_assoc. split; [done|]. split; [lia|done].
Qed.

Lemma writes_if n b (x y : act) : writes n x → writes n y → writes n (if (b : bool) then x else y).
Proof. by destruct b. Qed.

Lemma writes_each t : writes (Z.of_nat (String.length t)) (each put t).
Proof.
  induction t as [|c t IH]; [apply writes_skip|]. simpl each. simpl String.length. rewrite Nat2Z.inj_succ, <-Z.add_1_l.
  apply writes_seq; [lia|apply writes_put|done].
Qed.

Lemma writes_append n t : (∀ u, t = Some u → Z.of_nat (String.length u) ≤ n) → 0 ≤ n → writes n (APPEND put t).
Proof.
  intros Ht Hn. destruct t as [u|]; [|apply (writes_weaken 0); [apply writes_skip|done]].
  eapply writes_weaken; [apply writes_each|]. by apply Ht.
Qed.

(** Numbers: [k] digits for a value below [b ^ k]. *)
Lemma utoa_digits b fuel v t k : 2 ≤ b ≤ 16 → 0 ≤ v < b ^ Z.of_nat k → (k ≤ fuel)%nat →
  ∃ u, utoa_loop fuel v b t = Some u ∧ (String.length u ≤ String.length t + k)%nat.
Proof.
  intros Hb. revert v t k. induction fuel as [|fuel IH]; intros v t k Hv Hk; cbn [utoa_loop].
  - assert (k = 0%nat) as -> by lia. simpl in Hv. assert (v = 0) as -> by lia. exists t. split; [done|lia].
  - destruct (Z.eqb_spec v 0) as [->|Hv0]; [exists t; split; [done|lia]|].
    destruct k as [|k]; [simpl in Hv; lia|]. pose proof (Z.mod_pos_bound v b ltac:(lia)).
    assert (Hc : ∃ c, String.get (Z.to_nat (v mod b)) "0123456789abcdef" = Some c).
    { assert (Hi : (Z.to_nat (v mod b) < 16)%nat) by lia. revert Hi. generalize (Z.to_nat (v mod b)). intros i Hi.
      do 16 (destruct i as [|i]; [by eexists|]). lia. }
    destruct Hc as [c ->]. cbn [mbind option_bind].
    destruct (IH (v / b) (String c t) k) as (u & -> & Hu); [|lia|].
    { rewrite Nat2Z.inj_succ, Z.pow_succ_r in Hv by lia. split; [apply Z.div_pos; lia|]. apply Z.div_lt_upper_bound; lia. }
    exists u. split; [done|]. simpl in Hu. lia.
Qed.

Lemma writes_utoa v b k : 2 ≤ b ≤ 16 → 0 ≤ v < b ^ k → 1 ≤ k ≤ 30 → writes k (_utoa put v b).
Proof.
  intros Hb Hv Hk s p Hp Hm H0 Hle. unfold _utoa. destruct (Z.eqb_spec v 0) as [->|].
  - apply (writes_weaken _ k _ (writes_each "0")); [simpl; lia|done..].
  - destruct (utoa_digits b 30 v EmptyString (Z.to_nat k)) as (u & -> & Hu); [done|by rewrite Z2Nat.id by lia|lia|].
    cbn [mbind option_bind]. simpl in Hu. apply (writes_weaken _ k _ (writes_each u)); (done || lia).
Qed.
End Writes.

(** Names. *)
Definition short (n : nat) (t : list string) : bool := forallb (λ u, String.length u <=? n)%nat t.

Lemma name_short n t i u : short n t = true → name_of t i = Some u → Z.of_nat (String.length u) ≤ Z.of_nat n.
Proof.
  unfold short, name_of. rewrite forallb_forall. intros Ht. destruct (_ && _); [|done]. intros E.
  unfold arr_get in E. destruct (i <? 0); [done|]. apply list_elem_of_lookup_2, list_elem_of_In, Ht in E. apply Nat.leb_le in E. lia.
Qed.

Lemma register_short r u : darm_register_name r = Some u → Z.of_nat (String.length u) ≤ 3.
Proof. by apply (name_short 3 darm_registers). Qed.

Lemma shift_type_short r u : darm_shift_type_name r = Some u → Z.of_nat (String.length u) ≤ 3.
Proof. by apply (name_short 3 shift_types). Qed.

Lemma condition_short c u : darm_condition_name c 1 = Some u → Z.of_nat (String.length u) ≤ 2.
Proof.
  unfold darm_condition_name. destruct (_ && _); [by intros [= <-]|]. by apply (name_short 2 condition_codes).
Qed.

Lemma immshift_short d r t imm :
  typed d → darm_immshift_decode d = (r, t, imm) → (∀ u, t = Some u → Z.of_nat (String.length u) ≤ 3) ∧ 0 ≤ imm ≤ 32.
Proof.
  intros Hd. unfold darm_immshift_decode. pose proof (Hd F_shift) as Hs. simpl in Hs.
  destruct (_ =? S_INVLD); [intros [= <- <- <-]; split; [done|lia]|].
  destruct (_ && _); [intros [= <- <- <-]; split; [by intros u [= <-]|lia]|].
  intros [= <- <- <-]. split; [intros u; apply shift_type_short|]. destruct (_ && _); lia.
Qed.

(** ** Statements on the operands *)

Ltac writes_step :=
  match goal with
  | |- writes _ _ (_ ;;; _) => eapply writes_seq; [| |]
  | |- writes _ _ (if _ then _ else _) => apply writes_if
  | |- writes _ _ skip => eapply writes_weaken; [apply writes_skip|]
  | |- writes put_a _ (put_a _) => eapply writes_weaken; [apply (writes_put put_a)|]
  | |- writes put_s _ (put_s _) => eapply writes_weaken; [apply (writes_put put_s)|]
  | |- writes put_m _ (put_m _) => eapply writes_weaken; [apply (writes_put put_m)|]
  end.

Lemma writes_register r : writes put_a 3 (APPEND put_a (darm_register_name r)).
Proof. apply writes_append; [apply register_short|lia]. Qed.

Lemma writes_number v k : 0 ≤ u32 v < 10 ^ k → 1 ≤ k ≤ 30 → writes put_a k (number v).
Proof. intros Hv Hk. apply writes_utoa; lia. Qed.

Lemma writes_any_number v : writes put_a 10 (number v).
Proof. apply writes_number; [|lia]. pose proof (Z.mod_pos_bound v (2 ^ 32) ltac:(lia)). unfold u32, wrap. lia. Qed.

Lemma writes_immediate v : writes put_a 10 (immediate v).
Proof.
  unfold immediate, _append_imm. pose proof (Z.mod_pos_bound v (2 ^ 32) ltac:(lia)). unfold u32, wrap.
  apply writes_if; [|apply writes_utoa; lia]. apply (writes_seq _ 1 9); [lia|apply writes_put|].
  apply (writes_seq _ 1 8); [lia|apply writes_put|]. apply writes_utoa; lia.
Qed.

Lemma writes_string t n : Z.of_nat (String.length t) = n → writes put_a n (APPEND put_a (Some t)).
Proof. intros <-. apply writes_append; [|lia]. by intros u [= <-]. Qed.

(** *** Lists of registers *)

Lemma move_arg_ok s p n :
  arr_get (args s) (arg s) = Some p → move_arg n s = Some (set_cur put_a s (mem s) (p + n)).
Proof.
  intros Hp. unfold move_arg. rewrite Hp. cbn [mbind option_bind]. rewrite arr_set_ok by (by eapply arr_get_bounds).
  cbn [mbind option_bind]. by destruct s.
Qed.

Lemma writes_name r : 0 ≤ r < 16 → writes put_a 3 (put_name r).
Proof.
  intros Hr s p Hp Hm H0 Hle. unfold put_name.
  assert (Hn : ∃ n a b, arr_get darm_registers r = Some n ∧ String.get 0 n = Some a ∧ String.get 1 n = Some b).
  { assert (r = 0 ∨ r = 1 ∨ r = 2 ∨ r = 3 ∨ r = 4 ∨ r = 5 ∨ r = 6 ∨ r = 7 ∨ r = 8 ∨ r = 9 ∨ r = 10 ∨ r = 11 ∨ r = 12 ∨ r = 13 ∨ r = 14 ∨ r = 15) by lia.
    destruct_or!; subst; by do 3 eexists. }
  destruct Hn as (n & a & b & -> & Ha & Hb). cbn [mbind option_bind]. rewrite Ha, Hb. cbn [mbind option_bind]. cbv zeta.
  set (c := match _ with Some _ => _ | None => _ end).
  unfold seq_act. rewrite !put_eq, Hp. cbn [mbind option_bind].
  rewrite arr_set_ok by lia. cbn [mbind option_bind]. rewrite put_eq. erewrite set_get by done. cbn [mbind option_bind].
  rewrite set_mem, arr_set_ok by (rewrite ?length_insert; lia). cbn [mbind option_bind]. erewrite set_set by done.
  rewrite put_eq. erewrite set_get by done. cbn [mbind option_bind].
  rewrite set_mem, arr_set_ok by (rewrite ?length_insert; lia). cbn [mbind option_bind]. erewrite set_set by done.
  match goal with |- context [set_cur put_a s ?m ?q] => set (m3 := m); set (s3 := set_cur put_a s m3 q) end.
  assert (Hm3 : length m3 = 280%nat) by (unfold m3; rewrite !length_insert; done).
  destruct (ascii_dec c zero).
  - rewrite (move_arg_ok s3 (p + 1 + 1 + 1) (-1) (set_get s m3 _ p Hp)). unfold s3. rewrite set_mem. erewrite set_set by done.
    exists m3, 2. split; [do 2 f_equal; lia|]. split; [lia|done].
  - exists m3, 3. split; [unfold s3; do 2 f_equal; lia|]. split; [lia|done].
Qed.

Section RegisterList.
Variables (ctz_0 : Z) (Hctz : 16 < ctz_0).

(** A run of one register costs four bytes and two places of the mask, a longer one eight bytes
    and at least three places. *)
Lemma writes_reglist_text fuel k l c :
  0 ≤ l < 2 ^ 16 → 0 ≤ k ≤ 17 → clear_below l k → 17 - k < 2 * Z.of_nat fuel → 8 * (17 - k) ≤ 3 * c + 1 →
  writes put_a c (reglist_text ctz_0 fuel l).
Proof using Hctz.
  revert k l c. induction fuel as [|fuel IH]; intros k l c Hl Hk Hcl Hf Hc; [lia|].
  destruct (decide (l = 0)) as [->|Hl0]; [apply (writes_weaken _ 0); [apply writes_skip|lia]|].
  destruct (ctz_ok ctz_0 l ltac:(lia)) as (Hb & Hcl1 & Hr). set (k1 := ctz ctz_0 l) in *.
  destruct (clear_run_ok ctz_0 Hctz 32 k1 l ltac:(lia) ltac:(lia) Hcl1 ltac:(lia)) as (reg & l' & E & Hr' & Hl' & Hbits & Hrun & Hend).
  assert (k ≤ k1). { destruct (Z_lt_dec k1 k); [|lia]. rewrite (Hcl k1) in Hb by lia. done. }
  assert (k1 < reg). { destruct (decide (k1 = reg)) as [->|]; [congruence|lia]. }
  assert (Hcl' : clear_below l' (reg + 1)).
  { intros i Hi. rewrite Hbits by lia. destruct (decide (i = reg)) as [->|]; [by rewrite Hend|].
    rewrite (proj2 (Z.leb_gt reg i)) by lia. apply andb_false_r. }
  set (x := if negb (reg =? k1 + 1) then 4 else 0).
  assert (Hw : writes put_a (3 + (x + (1 + (c - 4 - x)))) (put_name k1 ;;;
    (if negb (reg =? k1 + 1) then put_a (if reg =? k1 + 2 then ","%char else "-"%char) ;;; put_name (reg - 1) else skip) ;;;
    put_a "," ;;; reglist_text ctz_0 fuel l')).
  { assert (Hx : 0 ≤ c - 4 - x ∧ 8 * (17 - (reg + 1)) ≤ 3 * (c - 4 - x) + 1 ∧ 0 ≤ x).
    { unfold x. destruct (Z.eqb_spec reg (k1 + 1)); cbn [negb]; lia. }
    apply writes_seq; [lia|apply writes_name; lia|]. apply writes_seq; [lia| |].
    - unfold x. destruct (negb _); [|apply writes_skip]. apply (writes_seq _ 1 3); [lia|apply writes_put|apply writes_name; lia].
    - apply writes_seq; [lia|apply writes_put|]. apply (IH (reg + 1)); (done || lia). }
  replace (3 + (x + (1 + (c - 4 - x)))) with c in Hw by lia.
  intros s p Hp Hm Hp0 Hle. destruct (Hw s p Hp Hm Hp0 Hle) as (m & j & Eq & Hj). exists m, j. split; [|done]. rewrite <-Eq.
  cbn [reglist_text]. rewrite (proj2 (Z.eqb_neq l 0) Hl0). fold k1. unfold seq_act. destruct (put_name k1 s) as [s1|]; [|done].
  cbn [mbind option_bind]. by rewrite E.
Qed.

Lemma writes_reglist l : 0 < l < 2 ^ 16 → writes put_a 46 (darm_reglist ctz_0 l).
Proof using Hctz.
  intros Hl s p Hp Hm H0 Hle. unfold darm_reglist.
  assert (Hw : writes put_a 46 (put_a "{" ;;; reglist_text ctz_0 17 l)).
  { apply (writes_seq _ 1 45); [lia|apply writes_put|]. apply (writes_reglist_text 17 0); try lia. intros i; lia. }
  destruct (Hw s p Hp Hm H0 Hle) as (m & k & Eq & Hk & Hl').
  assert (Hk1 : 1 ≤ k).
  { revert Eq. unfold seq_act. rewrite put_eq, Hp. cbn [mbind option_bind]. rewrite arr_set_ok by lia. cbn [mbind option_bind]. intros Eq.
    assert (Ht : writes put_a 45 (reglist_text ctz_0 17 l)) by (apply (writes_reglist_text 17 0); try lia; intros i; lia).
    edestruct (Ht (set_cur put_a s (<[Z.to_nat p:="{"%char]> (mem s)) (p + 1))) as (m' & k' & Eq' & Hk' & _);
      [by eapply set_get|by rewrite set_mem, length_insert|lia..|].
    rewrite Eq' in Eq. erewrite set_set in Eq by done. apply (f_equal (λ o, o ≫= cur put_a)) in Eq. cbn [mbind option_bind] in Eq.
    rewrite !(set_get s _ _ p Hp) in Eq. injection Eq. lia. }
  set (s1 := set_cur put_a s m (p + k)) in *. assert (H1 : cur put_a s1 = Some (p + k)) by (by eapply set_get).
  unfold seq_act in *. destruct (put_a "{" s) as [s0|]; [|done]. cbn [mbind option_bind] in *. rewrite Eq. cbn [mbind option_bind].
  rewrite (move_arg_ok s1 (p + k) (-1) H1). cbn [mbind option_bind].
  unfold s1. rewrite set_mem. erewrite set_set by done. rewrite put_eq. erewrite set_get by done. cbn [mbind option_bind].
  rewrite set_mem, arr_set_ok by lia. cbn [mbind option_bind]. erewrite set_set by done. rewrite put_eq. erewrite set_get by done.
  cbn [mbind option_bind]. rewrite set_mem, arr_set_ok by (rewrite length_insert; lia). cbn [mbind option_bind]. erewrite set_set by done.
  erewrite move_arg_ok by (by apply (set_get s _ _ p Hp)). rewrite set_mem. erewrite set_set by done.
  eexists _, k. split; [do 2 f_equal; lia|]. split; [lia|]. rewrite !length_insert. done.
Qed.
End RegisterList.

Lemma writes_shift_text d : typed d → d F_shift_type ≠ S_INVLD → writes put_s 7 (shift_text d).
Proof.
  intros Hd Hs. unfold shift_text. destruct (d F_Rs =? R_INVLD).
  - destruct (darm_immshift_decode d) as [[r t] imm] eqn:E. pose proof (immshift_short d r t imm Hd E) as [Ht Hi].
    assert (r = 0) as ->.
    { unfold darm_immshift_decode in E. rewrite (proj2 (Z.eqb_neq _ _) Hs) in E. destruct (_ && _); congruence. }
    change (0 =? 0) with true. cbv iota. apply (writes_seq _ 4 3); [lia| |].
    + apply writes_if; [apply (writes_weaken _ 0); [apply writes_skip|lia]|].
      apply (writes_seq _ 3 1); [lia|by apply writes_append|apply writes_put].
    + apply (writes_seq _ 1 2); [lia|apply writes_put|]. apply writes_utoa; [lia| |lia]. unfold u32, wrap. rewrite Z.mod_small; lia.
  - apply (writes_seq _ 3 4); [lia|apply writes_append; [apply shift_type_short|lia]|].
    apply (writes_seq _ 1 3); [lia|apply writes_put|]. apply writes_append; [apply register_short|lia].
Qed.

(** ** The invariant of the loop *)

(** The pointers of the operands, none before the start of its operand, all together at most [n]
    bytes further. *)
Record grown (a : list Z) (n : Z) : Prop := {
  gr_length : length a = 6%nat;
  gr_low i p : arr_get a i = Some p → o_arg i ≤ p;
  gr_sum : foldr Z.add 0 a ≤ 552 + n;
}.

Lemma six (a : list Z) : length a = 6%nat → ∃ a0 a1 a2 a3 a4 a5, a = [a0; a1; a2; a3; a4; a5].
Proof. intros H. do 6 (destruct a as [|? a]; [done|]). destruct a; [|done]. by do 6 eexists. Qed.

Lemma index_cases i x (a : list Z) : arr_get a i = Some x → length a = 6%nat → i = 0 ∨ i = 1 ∨ i = 2 ∨ i = 3 ∨ i = 4 ∨ i = 5.
Proof. intros Hx%arr_get_bounds Ha. lia. Qed.

Lemma grown_lows a0 a1 a2 a3 a4 a5 n :
  grown [a0; a1; a2; a3; a4; a5] n ↔
  (12 ≤ a0 ∧ 44 ≤ a1 ∧ 76 ≤ a2 ∧ 108 ≤ a3 ∧ 140 ≤ a4 ∧ 172 ≤ a5) ∧ a0 + a1 + a2 + a3 + a4 + a5 ≤ 552 + n.
Proof.
  split.
  - intros [_ Hl Hs]. pose proof (Hl 0 _ eq_refl). pose proof (Hl 1 _ eq_refl). pose proof (Hl 2 _ eq_refl). pose proof (Hl 3 _ eq_refl).
    pose proof (Hl 4 _ eq_refl). pose proof (Hl 5 _ eq_refl). unfold o_arg in *. simpl in Hs. lia.
  - intros [Hl Hs]. split; [done| |simpl; lia]. intros i p Hp. destruct (index_cases i p _ Hp eq_refl) as [-> | [-> | [-> | [-> | [-> | ->]]]]];
      cbn in Hp; injection Hp as <-; unfold o_arg; lia.
Qed.

Lemma grown_high a n i p : grown a n → arr_get a i = Some p → o_arg i ≤ p ≤ o_arg i + n.
Proof.
  intros Hg Hp. destruct (six a (gr_length _ _ Hg)) as (a0 & a1 & a2 & a3 & a4 & a5 & ->). apply grown_lows in Hg.
  destruct (index_cases i p _ Hp eq_refl) as [-> | [-> | [-> | [-> | [-> | ->]]]]]; cbn in Hp; injection Hp as <-; unfold o_arg; lia.
Qed.

Lemma grown_insert a n i p q k :
  grown a n → arr_get a i = Some p → o_arg i ≤ q ≤ p + k → 0 ≤ k → grown (<[Z.to_nat i := q]> a) (n + k).
Proof.
  intros Hg Hp Hq Hk. destruct (six a (gr_length _ _ Hg)) as (a0 & a1 & a2 & a3 & a4 & a5 & ->). apply grown_lows in Hg. unfold o_arg in Hq.
  destruct (index_cases i p _ Hp eq_refl) as [-> | [-> | [-> | [-> | [-> | ->]]]]]; cbn in Hp; injection Hp as <-; cbn; apply grown_lows; lia.
Qed.

(** At most [bm], [ba] and [bs] bytes of the mnemonic, the operands and the shift, and between
    [lo] and [hi] operands. *)
Record within (bm ba bs lo hi : Z) (s : text) : Prop := {
  in_mem : length (mem s) = 280%nat;
  in_mnemonic : 0 ≤ mnemonic s ≤ bm;
  in_shift : o_shift ≤ shiftp s ≤ o_shift + bs;
  in_arg : lo ≤ arg s ≤ hi;
  in_args : grown (args s) ba;
  in_rest i p : arg s < i → arr_get (args s) i = Some p → p = o_arg i;
}.

Lemma arr_get_insert_ne {A} (l : list A) i j x : i ≠ j → 0 ≤ i → arr_get (<[Z.to_nat i := x]> l) j = arr_get l j.
Proof. intros Hij Hi. unfold arr_get. destruct (Z.ltb_spec j 0); [done|]. apply list_lookup_insert_ne. lia. Qed.

Lemma within_more bm ba bs lo hi bm' ba' bs' lo' hi' s :
  within bm ba bs lo hi s → bm ≤ bm' → ba ≤ ba' → bs ≤ bs' → lo' ≤ lo → hi ≤ hi' → within bm' ba' bs' lo' hi' s.
Proof.
  intros [Hmem Hmn Hsh Harg [Gl Gw Gs] Hrest] ? ? ? ? ?. split; (done || lia || idtac). split; (done || lia).
Qed.

Section Within.
Variables (bm ba bs lo hi : Z).
Abbreviation inv := (within bm ba bs lo hi).

Lemma current s : inv s → 0 ≤ lo → hi ≤ 5 → ∃ p, arr_get (args s) (arg s) = Some p ∧ o_arg (arg s) ≤ p ≤ o_arg (arg s) + ba ∧ 12 ≤ o_arg (arg s) ≤ 172.
Proof.
  intros Hs Hlo Hhi. pose proof (in_arg _ _ _ _ _ _ Hs). pose proof (gr_length _ _ (in_args _ _ _ _ _ _ Hs)) as Hl.
  destruct (arr_get_is_Some (args s) (arg s)) as [p Hp]; [lia|]. exists p. split; [done|].
  pose proof (grown_high _ _ _ _ (in_args _ _ _ _ _ _ Hs) Hp). unfold o_arg in *. lia.
Qed.

Lemma within_a n a s :
  inv s → writes put_a n a → 0 ≤ lo → hi ≤ 5 → 0 ≤ n → ba + n ≤ 107 →
  ∃ s', a s = Some s' ∧ within bm (ba + n) bs lo hi s' ∧ arg s' = arg s.
Proof.
  intros Hs Ha Hlo Hhi Hn Hle. destruct (current s Hs Hlo Hhi) as (p & Hp & Hr & Ho).
  destruct (Ha s p Hp (in_mem _ _ _ _ _ _ Hs)) as (m & k & E & Hk & Hm); [lia..|]. destruct Hs as [Hmem Hmn Hsh Harg Hargs Hrest].
  eexists. split; [exact E|]. split; [|done]. split; cbn [mem mnemonic shiftp args arg set_cur cursor_a]; try done.
  - apply (grown_insert _ _ _ p); (done || lia).
  - intros i q Hi. simpl. rewrite arr_get_insert_ne by (simpl in *; lia). by apply Hrest.
Qed.

Lemma within_m n a s :
  inv s → writes put_m n a → 0 ≤ n → bm + n ≤ 279 →
  ∃ s', a s = Some s' ∧ within (bm + n) ba bs lo hi s'.
Proof.
  intros Hs Ha Hn Hle. destruct Hs as [Hmem Hmn Hsh Harg Hargs Hrest].
  destruct (Ha s (mnemonic s) eq_refl Hmem) as (m & k & E & Hk & Hm); [lia..|].
  eexists. split; [exact E|]. split; simpl; (done || lia).
Qed.

Lemma within_s n a s :
  inv s → writes put_s n a → 0 ≤ n → bs + n ≤ 75 →
  ∃ s', a s = Some s' ∧ within bm ba (bs + n) lo hi s'.
Proof.
  intros Hs Ha Hn Hle. destruct Hs as [Hmem Hmn Hsh Harg Hargs Hrest]. unfold o_shift in *.
  destruct (Ha s (shiftp s) eq_refl Hmem) as (m & k & E & Hk & Hm); [lia..|].
  eexists. split; [exact E|]. split; simpl; unfold o_shift; (done || lia).
Qed.

Lemma within_next s : inv s → within bm ba bs (lo + 1) (hi + 1) (s <| arg := arg s + 1 |>).
Proof.
  intros [Hmem Hmn Hsh Harg Hargs Hrest]. split; simpl; try done; [lia|]. intros i p Hi. apply Hrest. lia.
Qed.

Lemma within_prev c s :
  inv s → 1 ≤ lo → hi ≤ 6 → ba + 1 ≤ 107 →
  ∃ s', put_at (arg s - 1) c s = Some s' ∧ within bm (ba + 1) bs lo hi s'.
Proof.
  intros [Hmem Hmn Hsh Harg Hargs Hrest] Hlo Hhi Hle. pose proof (gr_length _ _ Hargs) as Hl.
  destruct (arr_get_is_Some (args s) (arg s - 1)) as [p Hp]; [lia|]. pose proof (grown_high _ _ _ _ Hargs Hp) as Hr. unfold put_at.
  rewrite Hp. cbn [mbind option_bind]. unfold o_arg in Hr. rewrite arr_set_ok by lia. cbn [mbind option_bind]. rewrite arr_set_ok by lia.
  cbn [mbind option_bind]. eexists. split; [done|]. split; simpl; try done.
  - by rewrite length_insert.
  - apply (grown_insert _ _ _ p); unfold o_arg; (done || lia).
  - intros i q Hi. rewrite arr_get_insert_ne by lia. by apply Hrest.
Qed.

(** A shift inside the brackets of an address starts on the last byte of the operand. *)
Lemma within_shift d s :
  inv s → typed d → 0 ≤ lo → hi ≤ 5 → bs + 7 ≤ 75 → ba + 9 ≤ 107 →
  ∃ s', shift_case d s = Some s' ∧ within bm (ba + 9) (bs + 7) lo hi s'.
Proof.
  intros Hs Hd Hlo Hhi Hbs Hba. unfold shift_case. destruct (Z.eqb_spec (d F_shift_type) S_INVLD) as [|Ht].
  { exists s. split; [done|]. eapply within_more; [exact Hs|lia..]. }
  destruct (d F_P =? B_SET).
  2: { destruct (within_s 7 (shift_text d) s Hs (writes_shift_text d Hd Ht)) as (s' & -> & Hs'); [lia..|].
       exists s'. split; [done|]. eapply within_more; [exact Hs'|lia..]. }
  destruct (current s Hs Hlo Hhi) as (p & Hp & Hr & Ho). rewrite Hp. cbn [mbind option_bind].
  assert (Hw : writes put_s 9 (put_s " " ;;; shift_text d ;;; put_s "]")).
  { apply (writes_seq _ 1 8); [lia|apply writes_put|]. apply (writes_seq _ 7 1); [lia|by apply writes_shift_text|apply writes_put]. }
  destruct Hs as [Hmem Hmn Hsh Harg Hargs Hrest]. pose proof (gr_length _ _ Hargs) as Hl.
  unfold seq_act at 1. rewrite put_eq. cbn [cur cursor_s mbind option_bind]. simpl mem. simpl shiftp. rewrite arr_set_ok by lia. cbn [mbind option_bind].
  edestruct (Hw (set_cur put_s (s <| shiftp := p - 1 |>) (<[Z.to_nat (p - 1):=","%char]> (mem s)) (p - 1 + 1)) p) as (m & k & -> & Hk & Hm);
    [simpl; f_equal; lia|simpl; by rewrite length_insert|lia..|].
  cbn [mbind option_bind]. simpl args. simpl arg. simpl shiftp. rewrite arr_set_ok by lia. cbn [mbind option_bind]. eexists. split; [done|].
  split; simpl; try done; unfold o_shift in *; try lia.
  - apply (grown_insert _ _ _ p); (done || lia).
  - intros i q Hi. rewrite arr_get_insert_ne by lia. by apply Hrest.
Qed.
End Within.

Lemma within_put bm ba bs lo hi c s :
  within bm ba bs lo hi s → 0 ≤ lo → hi ≤ 5 → ba + 1 ≤ 107 →
  ∃ s' p, put_a c s = Some s' ∧ within bm (ba + 1) bs lo hi s' ∧ arg s' = arg s ∧
    arr_get (args s) (arg s) = Some p ∧ arr_get (args s') (arg s') = Some (p + 1).
Proof.
  intros Hs Hlo Hhi Hle. destruct (within_a _ _ _ _ _ 1 (put_a c) s Hs (writes_put put_a c)) as (s' & E & Hs' & Ea); [lia..|].
  destruct (current _ _ _ _ _ s Hs Hlo Hhi) as (p & Hp & Hr & Ho). exists s', p. split_and!; try done.
  rewrite put_eq in E. cbn [cur cursor_a] in E. rewrite Hp in E. cbn [mbind option_bind] in E.
  rewrite arr_set_ok in E by (rewrite (in_mem _ _ _ _ _ _ Hs); lia). cbn [mbind option_bind] in E. injection E as <-.
  exact (@set_get put_a cursor_a s _ _ p Hp).
Qed.

(** There is something to take back after the base register of a pre-indexed address; after that
    of another address the next operand is still empty. *)
Record after_base (d : darm_t) (s : text) : Prop := {
  ab_open : d F_P = B_SET → ∃ p, arr_get (args s) (arg s) = Some p ∧ o_arg (arg s) + 2 ≤ p;
  ab_closed i p : d F_P ≠ B_SET → arg s ≤ i → arr_get (args s) i = Some p → p = o_arg i;
}.

Lemma within_base bm ba bs lo hi d s :
  within bm ba bs lo hi s → 0 ≤ lo → hi ≤ 5 → ba + 6 ≤ 107 →
  ∃ s', base_case d s = Some s' ∧ within bm (ba + 6) bs lo (hi + 1) s' ∧ after_base d s'.
Proof.
  intros Hs Hlo Hhi Hle. unfold base_case.
  assert (Hw : writes put_a 4 (put_a "[" ;;; APPEND put_a (darm_register_name (d F_Rn)))).
  { apply (writes_seq _ 1 3); [lia|apply writes_put|apply writes_register]. }
  destruct (within_a _ _ _ _ _ 4 _ s Hs Hw) as (s1 & E & H1 & _); [lia..|]. unfold seq_act in *.
  destruct (put_a "[" s) as [s0|]; [|done]. cbn [mbind option_bind] in *. rewrite E. cbn [mbind option_bind].
  destruct (Z.eqb_spec (d F_P) B_SET) as [EP|EP]; cbn [negb].
  - destruct (within_put _ _ _ _ _ "," s1 H1) as (s2 & p & -> & H2 & Ea2 & Hp & Hp2); [lia..|]. cbn [mbind option_bind].
    destruct (within_put _ _ _ _ _ " " s2 H2) as (s3 & p' & -> & H3 & Ea & Hp' & Hp3); [lia..|]. exists s3. split; [done|].
    split; [eapply within_more; [exact H3|lia..]|]. split; [|done]. intros _. exists (p' + 1). split; [done|].
    destruct (current _ _ _ _ _ s1 H1) as (q & Hq & Hr & _); [lia..|].
    rewrite Hp2 in Hp'. rewrite Hp in Hq. rewrite Ea, Ea2. simplify_eq. lia.
  - destruct (within_put _ _ _ _ _ "]" s1 H1) as (s2 & p & -> & H2 & _); [lia..|]. cbn [mbind option_bind].
    eexists. split; [done|]. split; [eapply within_more; [apply within_next; exact H2|lia..]|]. split; [done|].
    intros i q _ Hi. apply (in_rest _ _ _ _ _ _ H2). simpl in Hi. lia.
Qed.

Lemma within_offset bm ba bs lo hi d s :
  within bm ba bs lo hi s → 0 ≤ lo → hi ≤ 4 → ba + 14 ≤ 107 → after_base d s →
  (d F_Rm = R_INVLD → d F_imm = 0 → d F_P = B_SET) →
  ∃ s', offset_case d s = Some s' ∧ within bm (ba + 14) bs lo (hi + 1) s'.
Proof.
  intros Hs Hlo Hhi Hle Hb Hz. unfold offset_case.
  set (tail := if d F_P =? B_SET then put_a "]" ;;; (if d F_W =? B_SET then put_a "!" else skip) else skip).
  assert (Ht : writes put_a 2 tail).
  { unfold tail. apply writes_if; [|apply (writes_weaken _ 0); [apply writes_skip|lia]].
    apply (writes_seq _ 1 1); [lia|apply writes_put|]. apply writes_if; [apply writes_put|apply (writes_weaken _ 0); [apply writes_skip|lia]]. }
  assert (Hend : ∀ a hi' s1, within bm (ba + a) bs lo hi' s1 → hi' ≤ 5 → hi' ≤ hi + 1 → 0 ≤ a ≤ 12 →
    ∃ s', tail s1 = Some s' ∧ within bm (ba + 14) bs lo (hi + 1) s').
  { intros a hi' s1 H1 Hh1 Hh2 Ha. destruct (within_a _ _ _ _ _ 2 tail s1 H1 Ht) as (s' & -> & H' & _); [lia..|].
    exists s'. split; [done|]. eapply within_more; [exact H'|lia..]. }
  unfold seq_act at 1. destruct (Z.eqb_spec (d F_Rm) R_INVLD) as [ER|ER]; cbn [negb].
  - destruct (Z.eqb_spec (d F_imm) 0) as [Ei|Ei]; cbn [negb].
    + destruct (ab_open _ _ Hb (Hz ER Ei)) as (p & Hp & Hr). rewrite (move_arg_ok s p (-2) Hp). cbn [mbind option_bind].
      apply (Hend 0 hi); [|lia..]. destruct Hs as [Hmem Hmn Hsh Harg Hargs Hrest]. split; simpl; try done.
      * apply (grown_insert _ _ _ p); (done || lia).
      * intros i q Hi. rewrite arr_get_insert_ne by lia. by apply Hrest.
    + assert (Hw : writes put_a 12 (APPEND put_a (Some (if d F_U =? B_UNSET then "#-" else "#")) ;;; immediate (d F_imm))).
      { apply (writes_seq _ 2 10); [lia| |apply writes_immediate]. destruct (d F_U =? B_UNSET); apply writes_append; try lia; by intros u [= <-]. }
      destruct (within_a _ _ _ _ _ 12 _ s Hs Hw) as (s1 & -> & H1 & _); [lia..|]. cbn [mbind option_bind]. apply (Hend 12 hi); (done || lia).
  - assert (Hw : writes put_a 4 ((if d F_U =? B_UNSET then put_a "-" else skip) ;;; APPEND put_a (darm_register_name (d F_Rm)))).
    { apply (writes_seq _ 1 3); [lia| |apply writes_register]. apply writes_if; [apply writes_put|apply (writes_weaken _ 0); [apply writes_skip|lia]]. }
    destruct (within_a _ _ _ _ _ 4 _ s Hs Hw) as (s1 & E & H1 & _); [lia..|]. unfold seq_act in *.
    destruct ((if d F_U =? B_UNSET then put_a "-" else skip) s) as [s0|]; [|done]. cbn [mbind option_bind] in *. rewrite E. cbn [mbind option_bind].
    destruct (d F_P =? B_UNSET); cbn [mbind option_bind].
    + eapply (Hend 4 (hi + 1)); [eapply within_more; [apply within_next; exact H1|lia..]|lia..].
    + apply (Hend 4 hi); (done || lia).
Qed.

(** ** One character *)

(** The most a character of a format string adds to the mnemonic, the operands and the shift, and
    the least and most operands it completes; [None] ends [darm_str]. *)
Definition effect (ch : ascii) : option (Z * Z * Z * Z * Z) :=
  match ch with
  | "s"%char | "x"%char | "R"%char => Some (1, 0, 0, 0, 0)
  | "c"%char | "X"%char | "T"%char => Some (2, 0, 0, 0, 0)
  | "d"%char | "n"%char | "m"%char | "a"%char | "t"%char | "2"%char | "h"%char | "l"%char => Some (0, 3, 0, 1, 1)
  | "i"%char | "w"%char | "o"%char => Some (0, 11, 0, 1, 1)
  | "S"%char => Some (0, 9, 7, 0, 0)
  | "!"%char => Some (0, 1, 0, 0, 0)
  | "e"%char => Some (0, 10, 0, 0, 0)
  | "r"%char => Some (0, 46, 0, 0, 0)
  | "L"%char => Some (0, 3, 0, 1, 1)
  | "B"%char => Some (0, 6, 0, 0, 1)
  | "O"%char => Some (0, 14, 0, 0, 1)
  | "b"%char => Some (0, 13, 0, 0, 0)
  | "M"%char => Some (0, 20, 0, 0, 0)
  | "A"%char => Some (0, 15, 0, 0, 0)
  | "C"%char | "p"%char => Some (0, 2, 0, 1, 1)
  | "P"%char => Some (0, 1, 0, 1, 1)
  | "N"%char | "J"%char | "I"%char => Some (0, 12, 0, 1, 1)
  | _ => None
  end.

(** A case that breaks has changed nothing. *)
Definition case_ok (P : text → Prop) (s : text) (r : option (flow * text)) : Prop :=
  ∃ f s', r = Some (f, s') ∧ f ≠ Return ∧ (f = Continue → P s') ∧ (f = Break → s' = s).

Lemma break_ok P s : case_ok P s (break s).
Proof. exists Break, s. done. Qed.

Lemma continue_ok (P : text → Prop) a s : (∃ s', a s = Some s' ∧ P s') → case_ok P s (continue a s).
Proof. intros (s' & E & HP). exists Continue, s'. unfold continue. rewrite E. done. Qed.

Section Cases.
Variables (bm ba bs lo hi : Z) (s : text).
Hypotheses (Hs : within bm ba bs lo hi s) (Hlo : 0 ≤ lo) (Hhi : hi ≤ 5).
Hypotheses (Hbm : bm ≤ 100) (Hba : ba ≤ 60) (Hbs : bs ≤ 60).

Lemma continue_a n a : writes put_a n a → 0 ≤ n ≤ 47 → case_ok (within (bm + 0) (ba + n) (bs + 0) (lo + 0) (hi + 0)) s (continue a s).
Proof using All.
  intros Ha Hn. apply continue_ok. destruct (within_a _ _ _ _ _ n a s Hs Ha) as (s' & E & H' & _); [lia..|]. exists s'. split; [done|].
  eapply within_more; [exact H'|lia..].
Qed.

Lemma continue_next n a : writes put_a n a → 0 ≤ n ≤ 47 →
  case_ok (within (bm + 0) (ba + n) (bs + 0) (lo + 1) (hi + 1)) s (continue (a ;;; next_arg) s).
Proof using All.
  intros Ha Hn. apply continue_ok. destruct (within_a _ _ _ _ _ n a s Hs Ha) as (s' & E & H' & _); [lia..|]. unfold seq_act. rewrite E.
  eexists. split; [done|]. eapply within_more; [apply within_next; exact H'|lia..].
Qed.

Lemma continue_next2 n a b : writes put_a n (a ;;; b) → 0 ≤ n ≤ 47 →
  case_ok (within (bm + 0) (ba + n) (bs + 0) (lo + 1) (hi + 1)) s (continue (a ;;; b ;;; next_arg) s).
Proof using All.
  intros Ha Hn. pose proof (continue_next n (a ;;; b) Ha Hn) as H. unfold continue, seq_act in *. by destruct (a s).
Qed.

Lemma continue_m n a : writes put_m n a → 0 ≤ n ≤ 10 → case_ok (within (bm + n) (ba + 0) (bs + 0) (lo + 0) (hi + 0)) s (continue a s).
Proof using All.
  intros Ha Hn. apply continue_ok. destruct (within_m _ _ _ _ _ n a s Hs Ha) as (s' & E & H'); [lia..|]. exists s'. split; [done|].
  eapply within_more; [exact H'|lia..].
Qed.

Lemma register_ok r : case_ok (within (bm + 0) (ba + 3) (bs + 0) (lo + 1) (hi + 1)) s (register_case r s).
Proof using All.
  unfold register_case. destruct (r =? R_INVLD); [apply break_ok|]. apply continue_next; [apply writes_register|lia].
Qed.

Lemma flag_m b c : writes put_m 1 (if (b : bool) then put_m c else skip).
Proof using. apply writes_if; [apply writes_put|apply (writes_weaken _ 0); [apply writes_skip|lia]]. Qed.

Lemma small_number v k : 0 ≤ v < 10 ^ k → 1 ≤ k ≤ 9 → writes put_a k (number v).
Proof using.
  intros Hv Hk. assert (10 ^ k ≤ 10 ^ 9) by (apply Z.pow_le_mono_r; lia). apply writes_number; [|lia]. unfold u32, wrap. rewrite Z.mod_small; lia.
Qed.

Lemma hash_number v k : writes put_a k (number v) → 0 ≤ k → writes put_a (1 + k) (put_a "#" ;;; number v).
Proof using. intros Hv Hk. apply writes_seq; [lia|apply writes_put|done]. Qed.

Lemma coprocessor v : writes put_a 12 (APPEND put_a (Some "cr") ;;; number v).
Proof using. apply (writes_seq _ 2 10); [lia|by apply writes_string|apply writes_any_number]. Qed.

Lemma memory_writes d : typed d → writes put_a 20 (memory_case d).
Proof using.
  intros Hd. unfold memory_case. apply (writes_seq _ 1 19); [lia|apply writes_put|]. apply (writes_seq _ 3 16); [lia|apply writes_register|].
  apply (writes_seq _ 14 2); [lia| |].
  - destruct (negb (d F_Rm =? R_INVLD)).
    + apply (writes_seq _ 2 12); [lia|by apply writes_string|]. apply (writes_seq _ 3 9); [lia|apply writes_register|].
      destruct (darm_immshift_decode d) as [[r t] imm] eqn:E. destruct (immshift_short d r t imm Hd E) as [Ht Hi].
      apply writes_if; [|apply (writes_weaken _ 0); [apply writes_skip|lia]].
      apply (writes_seq _ 2 7); [lia|by apply writes_string|]. apply (writes_seq _ 3 4); [lia|by apply writes_append|].
      apply (writes_seq _ 2 2); [lia|by apply writes_string|]. apply small_number; lia.
    + apply writes_if; [|apply (writes_weaken _ 0); [apply writes_skip|lia]]. apply (writes_seq _ 2 12); [lia|by apply writes_string|].
      apply (writes_seq _ 2 10); [lia| |apply writes_immediate]. destruct (_ =? _); apply writes_append; try lia; by intros u [= <-].
  - apply (writes_seq _ 1 1); [lia|apply writes_put|]. apply writes_if; [apply writes_put|apply (writes_weaken _ 0); [apply writes_skip|lia]].
Qed.

Lemma branch_ok d : case_ok (within (bm + 0) (ba + 13) (bs + 0) (lo + 0) (hi + 0)) s (branch_case d s).
Proof using All.
  unfold branch_case. destruct (_ && _); [apply break_ok|]. apply continue_a; [|lia]. cbv zeta.
  apply writes_if; [|apply writes_if]; (apply (writes_seq _ 3 10); [lia| |apply writes_immediate]); apply writes_append; try lia; by intros u [= <-].
Qed.
End Cases.

(** The offset of an address is written where the brackets are still open or there is one. *)
Definition offset_fine (d : darm_t) : Prop := d F_Rm = R_INVLD → d F_imm = 0 → d F_P = B_SET.

Section FormatCase.
Variables (ctz_0 : Z) (Hctz : 16 < ctz_0) (d : darm_t) (Hd : typed d).
Variables (bm ba bs lo hi : Z) (s : text).
Hypotheses (Hs : within bm ba bs lo hi s) (Hlo : 0 ≤ lo) (Hhi : hi ≤ 5).
Hypotheses (Hbm : bm ≤ 100) (Hba : ba ≤ 60) (Hbs : bs ≤ 60).

Lemma format_case_ok ch dm da ds l h :
  effect ch = Some (dm, da, ds, l, h) →
  (ch = "!"%char → 1 ≤ lo) → (ch = "O"%char → hi ≤ 4 ∧ after_base d s ∧ offset_fine d) →
  case_ok (λ s', within (bm + dm) (ba + da) (bs + ds) (lo + l) (hi + h) s' ∧ (ch = "B"%char → after_base d s')) s
    (format_case ctz_0 d ch s).
Proof using All.
  intros He H1 H2.
  destruct (ascii_dec ch "B") as [->|HB].
  { injection He as <- <- <- <- <-. apply continue_ok. destruct (within_base _ _ _ _ _ d s Hs) as (s' & E & H' & Hb); [lia..|].
    exists s'. split; [exact E|]. split; [|done]. eapply within_more; [exact H'|lia..]. }
  assert (Hc : case_ok (within (bm + dm) (ba + da) (bs + ds) (lo + l) (hi + h)) s (format_case ctz_0 d ch s)).
  2: { destruct Hc as (f & s' & E & Hr & HP & Hbr). exists f, s'. split_and!; try done. intros Hf. split; [by apply HP|done]. }
  destruct ch as [[] [] [] [] [] [] [] []]; try discriminate He; try (by destruct HB); injection He as <- <- <- <- <-.
  all: cbv beta iota delta [format_case].
  all: try (apply register_ok; done).
  all: try (apply continue_m; [done..|apply flag_m|lia]; fail).
  all: try (apply continue_next; [done..|apply small_number; [match goal with |- context [d ?f] => pose proof (Hd f) as Hf; simpl in Hf; lia end|lia]|lia]; fail).
  all: try (apply (continue_next2 _ _ _ _ _ _ Hs Hlo Hhi Hbm Hba Hbs 12); [apply coprocessor|lia]; fail).
  - apply (continue_next2 _ _ _ _ _ _ Hs Hlo Hhi Hbm Hba Hbs 11); [apply (hash_number _ 10); [apply writes_any_number|lia]|lia].
  - destruct (H2 eq_refl) as (Hh & Hb & Hz). apply continue_ok.
    destruct (within_offset _ _ _ _ _ d s Hs) as (s' & E & H'); [done || lia..|]. exists s'. split; [done|]. eapply within_more; [exact H'|lia..].
  - apply (continue_next2 _ _ _ _ _ _ Hs Hlo Hhi Hbm Hba Hbs 11); [apply (hash_number _ 10); [apply writes_any_number|lia]|lia].
  - apply continue_ok. destruct (within_shift _ _ _ _ _ d s Hs Hd) as (s' & E & H'); [lia..|]. exists s'. split; [done|].
    eapply within_more; [exact H'|lia..].
  - apply continue_m; [done..| |lia]. apply writes_append; [apply condition_short|lia].
  - apply continue_a; [done..|by apply memory_writes|lia].
  - apply continue_a; [done..|apply writes_any_number|lia].
  - destruct (negb _); [apply break_ok|]. apply (continue_next2 _ _ _ _ _ _ Hs Hlo Hhi Hbm Hba Hbs 11); [|lia].
    apply (writes_seq _ 1 10); [lia|apply writes_put|apply writes_immediate].
  - apply continue_ok. destruct (d F_W =? B_SET).
    + destruct (within_prev _ _ _ _ _ "!" s Hs (H1 eq_refl)) as (s' & E & H'); [lia..|]. exists s'. split; [done|].
      eapply within_more; [exact H'|lia..].
    + exists s. split; [done|]. eapply within_more; [exact Hs|lia..].
  - apply continue_a; [done..| |lia]. apply writes_if; [|apply (writes_weaken _ 0); [apply writes_skip|lia]].
    apply (writes_seq _ 5 10); [lia|by apply writes_string|apply writes_any_number].
  - apply continue_a; [done..| |lia]. pose proof (Hd F_reglist) as Hr. simpl in Hr. destruct (Z.eqb_spec (d F_reglist) 0); cbn [negb].
    + apply (writes_weaken _ 5); [|lia]. apply (writes_seq _ 1 4); [lia|apply writes_put|].
      apply (writes_seq _ 3 1); [lia|apply writes_register|apply writes_put].
    + apply writes_reglist; [done|lia].
  - destruct (negb _); [by apply register_ok|]. destruct (negb _); [|apply break_ok].
    apply continue_next; [done..|apply writes_register|lia].
  - by apply branch_ok.
  - apply (continue_next2 _ _ _ _ _ _ Hs Hlo Hhi Hbm Hba Hbs 3); [|lia]. apply (hash_number _ 2); [|lia].
    pose proof (Hd F_lsb) as Hl. simpl in Hl. apply small_number; lia.
  - apply continue_m; [done..| |lia]. apply writes_append; [|lia]. destruct (_ =? _); by intros u [= <-].
  - destruct (_ || _); [apply break_ok|]. apply continue_m; [done..| |lia]. apply (writes_seq _ 1 1); [lia|apply writes_put..].
Qed.

Lemma format_case_return ch : effect ch = None → format_case ctz_0 d ch s = Some (Return, s).
Proof using. intros He. by destruct ch as [[] [] [] [] [] [] [] []]. Qed.
End FormatCase.

(** ** The text of the whole instruction *)

(** Equal before [total]. *)
Definition same_before (m m' : list ascii) : Prop := ∀ i, (i < 216)%nat → m' !! i = m !! i.

Lemma set_before m m' to c :
  length m = 280%nat → 216 ≤ to ≤ 279 → arr_set m to c = Some m' → same_before m m' ∧ length m' = 280%nat.
Proof.
  intros Hm Ht. rewrite arr_set_ok by lia. intros [= <-]. split; [|by rewrite length_insert]. intros i Hi. apply list_lookup_insert_ne. lia.
Qed.

Lemma copy_ok fuel m from to z :
  length m = 280%nat → 0 ≤ from ≤ z → z < 216 → arr_get m z = Some zero → (Z.to_nat (z - from) ≤ fuel)%nat →
  216 ≤ to → to + (z - from) ≤ 279 →
  ∃ m' to', copy_str fuel m from to = Some (m', to') ∧ to ≤ to' ≤ to + (z - from) ∧ same_before m m' ∧ length m' = 280%nat.
Proof.
  revert m from to. induction fuel as [|fuel IH]; intros m from to Hm Hf Hz Hn Hfu Ht Hle; cbn [copy_str].
  - assert (from = z) as -> by lia. rewrite Hn. cbn [mbind option_bind]. destruct (ascii_dec zero zero); [|done].
    exists m, to. split; [done|]. split; [lia|done].
  - destruct (arr_get_is_Some m from) as [c Hc]; [lia|]. rewrite Hc. cbn [mbind option_bind]. destruct (ascii_dec c zero) as [->|Hc0].
    { exists m, to. split; [done|]. split; [lia|done]. }
    assert (from ≠ z) by congruence. rewrite arr_set_ok by lia. cbn [mbind option_bind].
    destruct (IH (<[Z.to_nat to:=c]> m) (from + 1) (to + 1)) as (m' & to' & -> & Ht' & Hsame & Hl); try lia.
    { by rewrite length_insert. }
    { by rewrite arr_get_insert_ne by lia. }
    exists m', to'. split; [done|]. split; [lia|]. split; [|done]. intros i Hi. rewrite Hsame by done. apply list_lookup_insert_ne. lia.
Qed.

Lemma put_str_ok t m to :
  length m = 280%nat → 216 ≤ to → to + Z.of_nat (String.length t) ≤ 279 →
  ∃ m', put_str m to t = Some (m', to + Z.of_nat (String.length t)) ∧ same_before m m' ∧ length m' = 280%nat.
Proof.
  unfold put_str. revert m to. induction t as [|c t IH]; intros m to Hm Ht Hle; cbn [list_ascii_of_string foldl String.length] in *.
  - exists m. rewrite Z.add_0_r. done.
  - rewrite Nat2Z.inj_succ in *. cbn [mbind option_bind]. rewrite arr_set_ok by lia. cbn [mbind option_bind].
    destruct (IH (<[Z.to_nat to:=c]> m) (to + 1)) as (m' & -> & Hsame & Hl); [by rewrite length_insert|lia..|].
    exists m'. split; [do 2 f_equal; lia|]. split; [|done]. intros i Hi. rewrite Hsame by done. apply list_lookup_insert_ne. lia.
Qed.

Lemma same_trans m1 m2 m3 : same_before m1 m2 → same_before m2 m3 → same_before m1 m3.
Proof. intros H1 H2 i Hi. rewrite H2 by done. by apply H1. Qed.

(** A string that ends at [x] and before [total] does so after a write to [total]. *)
Definition nul (m : list ascii) (x : Z) : Prop := 0 ≤ x < 216 ∧ arr_get m x = Some zero.

Lemma nul_same m m' x : same_before m m' → nul m x → nul m' x.
Proof.
  intros Hs [Hx Hn]. split; [done|]. revert Hn. unfold arr_get. destruct (Z.ltb_spec x 0); [done|]. by rewrite Hs by lia.
Qed.

Lemma set_nul m x : length m = 280%nat → 0 ≤ x < 216 →
  ∃ m', arr_set m x zero = Some m' ∧ length m' = 280%nat ∧ nul m' x ∧ ∀ y, nul m y → nul m' y.
Proof.
  intros Hm Hx. rewrite arr_set_ok by lia. eexists. split; [done|]. rewrite length_insert. split; [done|].
  assert (nul (<[Z.to_nat x := zero]> m) x) as Hn.
  { split; [done|]. unfold arr_get. destruct (Z.ltb_spec x 0); [lia|]. apply list_lookup_insert_eq. lia. }
  split; [done|]. intros y [Hy Hn']. destruct (decide (x = y)) as [<-|]; [done|]. split; [done|]. by rewrite arr_get_insert_ne by lia.
Qed.

Lemma set_nuls ps m : length m = 280%nat → Forall (λ x, 0 ≤ x < 216) ps →
  ∃ m', foldl (λ m p, m ← m; arr_set m p zero) (Some m) ps = Some m' ∧ length m' = 280%nat ∧ Forall (nul m') ps ∧ ∀ y, nul m y → nul m' y.
Proof.
  revert m. induction ps as [|p ps IH]; intros m Hm Hps; cbn [foldl].
  - exists m. done.
  - apply Forall_cons in Hps as [Hp Hps]. destruct (set_nul m p Hm Hp) as (m1 & Em & Hm1 & Hn & Hk). cbn [mbind option_bind].
    rewrite Em. destruct (IH m1 Hm1 Hps) as (m2 & -> & Hm2 & Hns & Hk2). exists m2. split; [done|]. split; [done|].
    split; [apply Forall_cons; auto|auto].
Qed.

(** The bytes the operands from the [i]th on take in [total], when their strings end at [zs]. *)
Fixpoint joined (i : Z) (ps zs : list Z) : Z :=
  match ps, zs with
  | p :: ps, z :: zs => if p =? o_arg i then 0 else 2 + (z - o_arg i) + joined (i + 1) ps zs
  | _, _ => 0
  end.

(** The operands that are joined from the [i]th on end at [zs]. *)
Fixpoint ended (m : list ascii) (i : Z) (ps zs : list Z) : Prop :=
  match ps, zs with
  | [], [] => True
  | p :: ps, z :: zs => p = o_arg i ∨ 0 ≤ o_arg i ≤ z ∧ nul m z ∧ ended m (i + 1) ps zs
  | _, _ => False
  end.

Lemma ended_same m m' i ps zs : same_before m m' → ended m i ps zs → ended m' i ps zs.
Proof.
  intros Hs. revert i zs. induction ps as [|p ps IH]; intros i [|z zs]; try done. intros [?|(? & ? & ?)]; [by left|right].
  split; [done|]. split; [by eapply nul_same|auto].
Qed.

Lemma joined_pos m i ps zs : ended m i ps zs → 0 ≤ joined i ps zs.
Proof.
  revert i zs. induction ps as [|p ps IH]; intros i [|z zs]; cbn [joined ended]; try done. destruct (Z.eqb_spec p (o_arg i)); [done|].
  intros [?|(? & _ & H)]; [done|]. specialize (IH _ _ H). lia.
Qed.

Lemma join_ok i ps zs m to :
  length m = 280%nat → ended m i ps zs → 216 ≤ to → to + joined i ps zs ≤ 279 →
  ∃ m' to', join_args i ps m to = Some (m', to') ∧ to ≤ to' ≤ to + joined i ps zs ∧ same_before m m' ∧ length m' = 280%nat.
Proof.
  revert i zs m to. induction ps as [|p ps IH]; intros i [|z zs] m to Hm He Ht Hle; cbn [join_args joined ended] in *; try done.
  { exists m, to. split; [done|]. split; [lia|done]. }
  destruct (Z.eqb_spec p (o_arg i)). { exists m, to. split; [done|]. split; [lia|done]. }
  destruct He as [?|(Hz & Hn & He)]; [done|]. pose proof (joined_pos _ _ _ _ He) as Hj.
  set (sep := if negb (i =? 0) then _ else _). assert (1 ≤ Z.of_nat (String.length sep) ≤ 2) as Hsep by (unfold sep; destruct (_ =? _); simpl; lia).
  destruct (put_str_ok sep m to Hm Ht) as (m1 & -> & Hs1 & Hm1); [lia|]. cbn [mbind option_bind].
  pose proof (nul_same _ _ _ Hs1 Hn) as [Hp216 Hzero].
  destruct (copy_ok 280 m1 (o_arg i) (to + Z.of_nat (String.length sep)) z) as (m2 & to2 & -> & Ht2 & Hs2 & Hm2); try (done || lia).
  cbn [mbind option_bind]. destruct (IH (i + 1) zs m2 to2) as (m3 & to3 & -> & Ht3 & Hs3 & Hm3); try (done || lia).
  { eapply ended_same, He. by eapply same_trans. }
  exists m3, to3. split; [done|]. split; [lia|]. split; [|done]. eapply same_trans; [exact Hs1|]. by eapply same_trans.
Qed.

Lemma string_ends m k : m !! k = Some zero → ∃ t, c_string m = Some t ∧ (String.length t ≤ k)%nat.
Proof.
  revert k. induction m as [|c m IH]; intros k; [done|]. cbn [c_string]. destruct (ascii_dec c zero) as [->|Hc].
  { intros _. exists EmptyString. split; [done|simpl; lia]. }
  destruct k as [|k]; [intros [= ->]; done|]. intros (t & -> & Hk)%IH. cbn [mbind option_bind]. exists (String c t). split; [done|simpl; lia].
Qed.

(** The text of [total]. *)
Definition total (m : list ascii) : option string := c_string (drop (Z.to_nat o_total) m).

Lemma set_total m to : length m = 280%nat → 216 ≤ to ≤ 279 →
  ∃ m' t, arr_set m to zero = Some m' ∧ length m' = 280%nat ∧ total m' = Some t ∧ (String.length t < 64)%nat.
Proof.
  intros Hm Ht. rewrite arr_set_ok by lia. destruct (string_ends (drop 216 (<[Z.to_nat to := zero]> m)) (Z.to_nat to - 216)) as (t & Et & Hl).
  { rewrite lookup_drop. replace (216 + (Z.to_nat to - 216))%nat with (Z.to_nat to) by lia. apply list_lookup_insert_eq. lia. }
  exists (<[Z.to_nat to := zero]> m), t. split; [done|]. rewrite length_insert. split; [done|]. split; [exact Et|lia].
Qed.

(** What [finalize] needs: the strings end before [total], and [total] has room for all of them,
    the separators and the null byte. *)
Record ready (bm bs : Z) (zs : list Z) (s : text) : Prop := {
  re_mem : length (mem s) = 280%nat;
  re_mnemonic : 0 ≤ mnemonic s ≤ bm;
  re_shift : o_shift ≤ shiftp s ≤ o_shift + bs;
  re_args : Forall (λ x, 0 ≤ x < 216) (args s);
  re_ended m : Forall (nul m) (args s) → ended m 0 (args s) zs;
  re_short : bs ≤ 11;
  re_room : bm + joined 0 (args s) zs + bs + 2 ≤ 63;
}.

Lemma finalize_ok bm bs zs s :
  ready bm bs zs s → ∃ m t, finalize s = Some m ∧ length m = 280%nat ∧ total m = Some t ∧ (String.length t < 64)%nat.
Proof.
  intros [Hmem Hmn Hsh Hps Hends Hbs Hsum]. unfold finalize, o_shift in *.
  assert (0 ≤ joined 0 (args s) zs) as Hpos.
  { destruct (set_nuls (args s) (mem s) Hmem Hps) as (m & _ & _ & Hn & _). exact (joined_pos _ _ _ _ (Hends m Hn)). }
  destruct (set_nul (mem s) (shiftp s)) as (m1 & -> & Hm1 & Hn1 & _); [done|lia|]. cbn [mbind option_bind].
  destruct (set_nul m1 (mnemonic s)) as (m2 & -> & Hm2 & Hn2 & Hk2); [done|lia|]. cbn [mbind option_bind].
  destruct (set_nuls (reverse (args s)) m2) as (m3 & -> & Hm3 & Hn3 & Hk3); [done|by apply Forall_reverse|]. cbn [mbind option_bind].
  apply Forall_reverse in Hn3. rewrite reverse_involutive in Hn3. pose proof (Hends _ Hn3) as He.
  destruct (Hk3 _ Hn2) as [? Hz]. destruct (copy_ok 280 m3 o_mnemonic o_total (mnemonic s)) as (m4 & to4 & -> & Ht4 & Hs4 & Hm4);
    unfold o_mnemonic, o_total in *; try (done || lia). cbn [mbind option_bind].
  destruct (join_ok 0 (args s) zs m4 to4) as (m5 & to5 & -> & Ht5 & Hs5 & Hm5); try (done || lia); [by eapply ended_same|]. cbn [mbind option_bind].
  destruct (Z.eqb_spec (shiftp s) 204); cbn [negb mbind option_bind].
  { destruct (set_total m5 to5) as (m & t & -> & ?); [done|lia|]. by exists m, t. }
  destruct (put_str_ok ", " m5 to5) as (m6 & -> & Hs6 & Hm6); [done|lia|simpl; lia|]. cbn [mbind option_bind].
  destruct (nul_same _ _ _ Hs6 (nul_same _ _ _ Hs5 (nul_same _ _ _ Hs4 (Hk3 _ (Hk2 _ Hn1))))) as [_ Hz6].
  destruct (copy_ok 280 m6 204 (to5 + 2) (shiftp s)) as (m7 & to7 & E7 & Ht7 & Hs7 & Hm7); try (done || lia).
  change (Z.of_nat (String.length ", ")) with 2. rewrite E7. cbn [mbind option_bind].
  destruct (set_total m7 to7) as (m & t & -> & ?); [done|lia|]. by exists m, t.
Qed.

(** ** When the loop is done *)

Definition fits_total (bm ba bs hi : Z) : bool :=
  (0 <=? hi) && (bs <=? 11) && (o_arg (hi `min` 5) + ba <=? 215) && (bm + ba + bs + 2 * ((hi + 1) `min` 6) + 2 <=? 63).

Lemma within_ready bm ba bs lo hi s : within bm ba bs lo hi s → fits_total bm ba bs hi = true → ready bm bs (args s) s.
Proof.
  intros [Hmem Hmn Hsh Ha Hg Hr] Hf. unfold fits_total in Hf. rewrite !andb_true_iff, !Z.leb_le in Hf. destruct Hf as [[[Hhi Hbs] Hba] Hsum].
  destruct (six _ (gr_length _ _ Hg)) as (a0 & a1 & a2 & a3 & a4 & a5 & E). rewrite E in *. apply grown_lows in Hg as [Hl Hs].
  pose proof (λ H, Hr 0 a0 H eq_refl). pose proof (λ H, Hr 1 a1 H eq_refl). pose proof (λ H, Hr 2 a2 H eq_refl).
  pose proof (λ H, Hr 3 a3 H eq_refl). pose proof (λ H, Hr 4 a4 H eq_refl). pose proof (λ H, Hr 5 a5 H eq_refl). unfold o_arg in *.
  split; rewrite ?E; try done.
  - rewrite !Forall_cons, Forall_nil. lia.
  - intros m. rewrite !Forall_cons. cbn [ended]. unfold o_arg. intuition lia.
  - cbn [joined]. unfold o_arg. repeat match goal with |- context [?x =? ?y] => destruct (Z.eqb_spec x y) end; lia.
Qed.

(** After a post-indexed address with the offset zero the pointer of the last operand is two bytes
    before the operand, and the 32 bytes up to the next operand are joined as they are. *)
Record slipped (bm ba bs k : Z) (a : list Z) (s : text) : Prop := {
  sl_mem : length (mem s) = 280%nat;
  sl_mnemonic : 0 ≤ mnemonic s ≤ bm;
  sl_shift : o_shift ≤ shiftp s ≤ o_shift + bs;
  sl_k : 0 ≤ k ≤ 4;
  sl_grown : grown a ba;
  sl_rest i p : k ≤ i → arr_get a i = Some p → p = o_arg i;
  sl_args : args s = <[Z.to_nat k := o_arg k - 2]> a;
}.

Definition fits_slipped (bm ba bs hi : Z) : bool :=
  (bs <=? 11) && (o_arg hi + ba <=? 215) && (bm + ba + 32 + bs + 2 * (hi + 1) + 2 <=? 63).

Local Ltac operand_cases H :=
  destruct H as [-> | [-> | [-> | [-> | ->]]]];
  repeat match goal with |- context [Z.to_nat ?z] => let n := eval compute in (Z.to_nat z) in change (Z.to_nat z) with n end.

Lemma slipped_ready bm ba bs hi k a s :
  slipped bm ba bs k a s → k ≤ hi → fits_slipped bm ba bs hi = true → ready bm bs (<[Z.to_nat k := o_arg (k + 1)]> a) s.
Proof.
  intros [Hmem Hmn Hsh Hk Hg Hr Ha] Hle Hf. unfold fits_slipped in Hf. rewrite !andb_true_iff, !Z.leb_le in Hf. destruct Hf as [[Hbs Hba] Hsum].
  destruct (six _ (gr_length _ _ Hg)) as (a0 & a1 & a2 & a3 & a4 & a5 & E). rewrite E in *. apply grown_lows in Hg as [Hl Hs].
  pose proof (λ H, Hr 0 a0 H eq_refl). pose proof (λ H, Hr 1 a1 H eq_refl). pose proof (λ H, Hr 2 a2 H eq_refl).
  pose proof (λ H, Hr 3 a3 H eq_refl). pose proof (λ H, Hr 4 a4 H eq_refl). pose proof (λ H, Hr 5 a5 H eq_refl). unfold o_arg in *.
  assert (k = 0 ∨ k = 1 ∨ k = 2 ∨ k = 3 ∨ k = 4) as Hcases by lia.
  split; rewrite ?Ha; try done.
  - operand_cases Hcases; cbn [insert list_insert]; rewrite !Forall_cons, Forall_nil; lia.
  - intros m. operand_cases Hcases; cbn [insert list_insert ended]; rewrite !Forall_cons; unfold o_arg; intuition (subst; auto with lia).
  - operand_cases Hcases; cbn [insert list_insert joined]; unfold o_arg;
      repeat match goal with |- context [?x =? ?y] => destruct (Z.eqb_spec x y) end; lia.
Qed.

(** ** The evaluation of a row of format strings *)

(** What may follow the offset of an address that has slipped. *)
Definition slip_fits (fuel : nat) (fmt : string) (off bm ba bs hi : Z) : bool :=
  match char_at fmt off, fuel with
  | Some ch, _ =>
      if ascii_dec ch zero then fits_slipped bm ba bs hi
      else bool_decide (ch = "S"%char) && negb (fuel =? 0)%nat && bool_decide (char_at fmt (off + 1) = Some zero) &&
           fits_slipped bm ba (bs + 7) hi
  | None, _ => false
  end.

(** Every way through the strings of a row. *)
Fixpoint row_fits (fuel : nat) (ptrs : list (option string)) (idx off : Z) (bm ba bs lo hi : Z) (base : bool) : bool :=
  match arr_get ptrs idx with
  | Some (Some fmt) =>
      match char_at fmt off with
      | None => false
      | Some ch =>
          if ascii_dec ch zero then fits_total bm ba bs hi
          else
            match fuel, effect ch with
            | O, _ => false
            | S _, None => true
            | S fuel, Some (dm, da, ds, l, h) =>
                (0 <=? lo) && (hi <=? 5) && (bm <=? 100) && (ba <=? 60) && (bs <=? 60) &&
                implb (bool_decide (ch = "!"%char)) (1 <=? lo) &&
                implb (bool_decide (ch = "O"%char)) ((hi <=? 4) && base && slip_fits fuel fmt (off + 1) bm ba bs hi) &&
                row_fits fuel ptrs idx (off + 1) (bm + dm) (ba + da) (bs + ds) (lo + l) (hi + h)
                  (bool_decide (ch = "B"%char)) &&
                match arr_get ptrs (idx + 1) with
                | None => false
                | Some None => true
                | Some (Some _) => (idx + 1 =? 3) || row_fits fuel ptrs (idx + 1) off bm ba bs lo hi false
                end
            end
      end
  | _ => false
  end.

Lemma slipped_offset bm ba bs lo hi d s :
  within bm ba bs lo hi s → 0 ≤ lo → hi ≤ 4 → after_base d s → d F_Rm = R_INVLD → d F_imm = 0 → d F_P ≠ B_SET →
  ∃ s', offset_case d s = Some s' ∧ slipped bm ba bs (arg s) (args s) s'.
Proof.
  intros [Hmem Hmn Hsh Harg Hargs Hrest] Hlo Hhi Hb HR Hi HP. pose proof (gr_length _ _ Hargs) as Hl.
  destruct (arr_get_is_Some (args s) (arg s)) as [p Hp]; [lia|]. pose proof (ab_closed _ _ Hb _ _ HP (Z.le_refl _) Hp) as ->.
  unfold offset_case, seq_act at 1. rewrite HR, Hi. cbn [negb]. change (R_INVLD =? R_INVLD) with true. change (0 =? 0) with true. cbn [negb].
  rewrite (move_arg_ok s _ (-2) Hp). cbn [mbind option_bind]. rewrite (proj2 (Z.eqb_neq _ _) HP). eexists. split; [done|].
  split; simpl; try done; try lia. intros i q Hle Hq. by apply (ab_closed _ _ Hb).
Qed.

Lemma slipped_shift bm ba bs k a d s :
  slipped bm ba bs k a s → typed d → d F_P ≠ B_SET → 0 ≤ bs ≤ 60 → ∃ s', shift_case d s = Some s' ∧ slipped bm ba (bs + 7) k a s'.
Proof.
  intros [Hmem Hmn Hsh Hk Hg Hr Ha] Hd HP Hbs. unfold shift_case, o_shift in *. destruct (Z.eqb_spec (d F_shift_type) S_INVLD) as [|Ht].
  { exists s. split; [done|]. split; try done. unfold o_shift. lia. }
  rewrite (proj2 (Z.eqb_neq _ _) HP). destruct (writes_shift_text d Hd Ht s (shiftp s) eq_refl Hmem) as (m & j & E & Hj & Hm); [lia..|].
  eexists. split; [exact E|]. split; simpl; unfold o_shift; (done || lia).
Qed.

Lemma slip_fits_ok ctz_0 d ptrs fmt idx off bm ba bs hi k a fuel s :
  arr_get ptrs idx = Some (Some fmt) → typed d → d F_P ≠ B_SET → slipped bm ba bs k a s → k ≤ hi → 0 ≤ bs ≤ 60 →
  slip_fits fuel fmt off bm ba bs hi = true →
  ∃ s' bs' zs, format_loop ctz_0 fuel d ptrs idx off s = Some (true, s') ∧ ready bm bs' zs s'.
Proof.
  intros Hp Hd HP Hs Hk Hbs. unfold slip_fits. destruct (char_at fmt off) as [ch|] eqn:Hc; [|by destruct fuel].
  destruct fuel as [|fuel]; cbn [format_loop]; rewrite Hp; cbn [mbind option_bind]; rewrite Hc; cbn [mbind option_bind];
    (destruct (ascii_dec ch zero); [intros Hf; exists s, bs; eexists; split; [done|]; by eapply slipped_ready|]).
  { by rewrite andb_false_r. }
  rewrite !andb_true_iff. intros [[[Hch%bool_decide_eq_true_1 _] Hz%bool_decide_eq_true_1] Hf]. subst ch.
  destruct (slipped_shift _ _ _ _ _ d s Hs Hd HP Hbs) as (s' & E & Hs'). change (format_case ctz_0 d "S" s) with (continue (shift_case d) s).
  unfold continue. rewrite E. cbn [mbind option_bind].
  exists s', (bs + 7). eexists. split; [|by eapply slipped_ready].
  destruct fuel; cbn [format_loop]; rewrite Hp; cbn [mbind option_bind]; rewrite Hz; cbn [mbind option_bind]; by destruct (ascii_dec zero zero).
Qed.

Lemma row_fits_ok ctz_0 d ptrs fuel idx off bm ba bs lo hi base s :
  16 < ctz_0 → typed d → row_fits fuel ptrs idx off bm ba bs lo hi base = true →
  within bm ba bs lo hi s → (base = true → after_base d s) →
  ∃ b s', format_loop ctz_0 fuel d ptrs idx off s = Some (b, s') ∧ length (mem s') = 280%nat ∧
    (b = true → ∃ bm bs zs, ready bm bs zs s').
Proof.
  intros Hc Hd. revert idx off bm ba bs lo hi base s. induction fuel as [|fuel IH]; intros idx off bm ba bs lo hi base s H Hs Hb;
    cbn [row_fits] in H; cbn [format_loop]; (destruct (arr_get ptrs idx) as [[fmt|]|] eqn:Hp; [|done..]); cbn [mbind option_bind];
    (destruct (char_at fmt off) as [ch|]; [|done]); cbn [mbind option_bind]; destruct (ascii_dec ch zero) as [Ez|Ez].
  1, 3: exists true, s; split; [done|]; split; [apply Hs|]; intros _; exists bm, bs, (args s); by eapply within_ready.
  1: done.
  destruct (effect ch) as [[[[[dm da] ds] l] h]|] eqn:He.
  2: { rewrite format_case_return by done. cbn [mbind option_bind]. exists false, s. split; [done|]. split; [apply Hs|done]. }
  rewrite !andb_true_iff, !Z.leb_le in H. destruct H as [[[[[[[[H0 H1] H2] H3] H4] H5] H6] H7] H8].
  assert (ch = "O"%char → hi ≤ 4 ∧ after_base d s ∧ slip_fits fuel fmt (off + 1) bm ba bs hi = true) as HO.
  { intros ->. apply andb_true_iff in H6 as [[H6 H6']%andb_true_iff H6'']. apply Z.leb_le in H6. auto. }
  destruct (decide (ch = "O"%char ∧ d F_Rm = R_INVLD ∧ d F_imm = 0 ∧ d F_P ≠ B_SET)) as [(-> & HR & Hi & HP)|Hfine].
  { destruct (HO eq_refl) as (Hhi & Hab & Hsl). destruct (slipped_offset _ _ _ _ _ d s Hs H0 Hhi Hab HR Hi HP) as (s' & E & Hs').
    change (format_case ctz_0 d "O" s) with (continue (offset_case d) s). unfold continue. rewrite E. cbn [mbind option_bind].
    pose proof (in_shift _ _ _ _ _ _ Hs). pose proof (in_arg _ _ _ _ _ _ Hs).
    destruct (slip_fits_ok ctz_0 d ptrs fmt idx (off + 1) _ _ _ hi _ _ fuel s' Hp Hd HP Hs') as (s2 & bs' & zs & -> & Hre); [lia..|done|].
    exists true, s2. split; [done|]. split; [apply Hre|]. intros _. by exists bm, bs', zs. }
  destruct (format_case_ok ctz_0 Hc d Hd bm ba bs lo hi s Hs H0 H1 H2 H3 H4 ch dm da ds l h He) as (f & s' & -> & Hr & HC & HB).
  { intros ->. by apply Z.leb_le. }
  { intros ->. destruct (HO eq_refl) as (Hhi & Hab & _). split; [done|]. split; [done|]. intros HR Hi.
    destruct (decide (d F_P = B_SET)) as [|HP]; [done|]. by destruct Hfine. }
  cbn [mbind option_bind]. destruct f; [|rewrite (HB eq_refl)|done].
  - destruct (HC eq_refl) as [Hw Hbase]. eapply IH; [exact H7|done|]. intros Hx%bool_decide_eq_true_1. by apply Hbase.
  - destruct (arr_get ptrs (idx + 1)) as [[g|]|]; [| |done]; cbn [mbind option_bind].
    + destruct (idx + 1 =? 3); [exists false, s; split; [done|]; split; [apply Hs|done]|]. by eapply IH.
    + exists false, s. split; [done|]. split; [apply Hs|done].
Qed.

(** ** Every row of the table *)

(** The length of the mnemonic. *)
Definition named (i : Z) : Z := Z.of_nat (String.length (default EmptyString (darm_mnemonic_name i))).

Definition rows_fit : bool :=
  forallb (λ r, row_fits 64 (take 3 ((Some <$> r.2) ++ [None; None; None])) 0 0 (named r.1) 0 0 0 0 false) format_rows.

Lemma rows_fit_true : rows_fit = true.
Proof. by vm_compute. Qed.

Lemma row_found i p ps : armv7_format_strings i = Some p :: ps →
  row_fits 64 (armv7_format_strings i) 0 0 (named i) 0 0 0 0 false = true.
Proof.
  pose proof rows_fit_true as H. unfold rows_fit in H. rewrite forallb_forall in H. unfold armv7_format_strings.
  destruct (find _ format_rows) as [[j fs]|] eqn:E; [|done]. intros _. apply find_some in E as [E Ej].
  apply Z.eqb_eq in Ej as ->. by specialize (H _ E).
Qed.

Lemma mnemonics_short : short 8 darm_mnemonics = true.
Proof. by vm_compute. Qed.

Lemma named_short i : 0 ≤ named i ≤ 8.
Proof.
  unfold named, darm_mnemonic_name. destruct (i <? _); [|simpl; lia].
  destruct (arr_get darm_mnemonics i) as [u|] eqn:E; [|simpl; lia]. simpl. revert E. unfold arr_get. destruct (i <? 0); [done|].
  intros Hu%list_elem_of_lookup_2. pose proof mnemonics_short as H. unfold short in H. rewrite forallb_forall in H.
  specialize (H u). rewrite <- list_elem_of_In, Nat.leb_le in H. specialize (H Hu). lia.
Qed.

Lemma start_within str : length str = 280%nat →
  within 0 0 0 0 0 (MkText str o_mnemonic o_shift [o_arg 0; o_arg 1; o_arg 2; o_arg 3; o_arg 4; o_arg 5] 0).
Proof.
  intros Hl. split; simpl; unfold o_mnemonic, o_shift; (done || lia || idtac).
  - apply grown_lows. unfold o_arg. lia.
  - intros i p _ Hp. destruct (index_cases i p _ Hp eq_refl) as [-> | [-> | [-> | [-> | [-> | ->]]]]]; by injection Hp as <-.
Qed.

Lemma compare_text bm d s : within bm 0 0 0 0 s →
  ∃ s', (APPEND put_a (darm_register_name (d F_Rn)) ;;; next_arg ;;; APPEND put_a (Some "#+") ;;; immediate (d F_imm)) s = Some s' ∧
    within bm 15 0 1 1 s'.
Proof.
  intros Hs. unfold seq_act at 1. destruct (within_a _ _ _ _ _ 3 _ s Hs (writes_register (d F_Rn))) as (s1 & -> & H1 & _); [lia..|].
  cbn [mbind option_bind]. unfold seq_act at 1, next_arg. cbn [mbind option_bind]. apply within_next in H1.
  assert (writes put_a 12 (APPEND put_a (Some "#+") ;;; immediate (d F_imm))) as Hw.
  { apply (writes_seq _ 2 10); [lia|by apply writes_string|apply writes_immediate]. }
  destruct (within_a _ _ _ _ _ 12 _ _ H1 Hw) as (s2 & E & H2 & _); [lia..|]. by exists s2.
Qed.

(** C19: the text of an instruction stays inside the structure [darm_str_t].  Whatever the
    disassembler has decoded, and with any bytes in the structure, [darm_str] reads and writes only
    inside the 280 bytes, and when it succeeds [total] holds a null-terminated text of fewer than 64
    characters. *)
Theorem darm_str_in_bounds ctz_0 d str :
  16 < ctz_0 → typed d → length str = 280%nat →
  ∃ r m, darm_str ctz_0 d str = Some (r, m) ∧ length m = 280%nat ∧
    (r = -1 ∨ r = 0 ∧ ∃ t, total m = Some t ∧ (String.length t < 64)%nat).
Proof.
  intros Hc Hd Hl. unfold darm_str. destruct (_ || _); [exists (-1), str; auto|].
  assert (writes put_m (named (d F_instr)) (APPEND put_m (darm_mnemonic_name (d F_instr)))) as Hw.
  { apply writes_append; [|apply named_short]. unfold named. by intros u ->. }
  pose proof (named_short (d F_instr)). destruct (within_m _ _ _ _ _ _ _ _ (start_within str Hl) Hw) as (s & -> & Hs); [lia..|].
  rewrite Z.add_0_l in Hs. cbn [mbind option_bind]. pose proof (in_mem _ _ _ _ _ _ Hs) as Hmem.
  destruct (one_of _ _); [exists (-1), (mem s); auto|]. destruct (one_of _ _).
  - destruct (compare_text _ d s Hs) as (s' & -> & Hs'). cbn [mbind option_bind].
    destruct (finalize_ok (named (d F_instr)) 0 (args s') s') as (m & t & -> & Hm & Ht).
    { eapply within_ready; [exact Hs'|]. unfold fits_total, o_arg. rewrite !andb_true_iff, !Z.leb_le. lia. }
    exists 0, m. eauto 8.
  - destruct (armv7_format_strings (d F_instr)) as [|[p|] ps] eqn:E; [exists (-1), (mem s); by auto| |exists (-1), (mem s); by auto].
    pose proof (row_found _ _ _ E) as Hr. rewrite E in Hr.
    destruct (row_fits_ok ctz_0 d _ _ _ _ _ _ _ _ _ _ s Hc Hd Hr Hs) as (b & s' & -> & Hl' & Hb); [done|]. cbn [mbind option_bind].
    destruct b; [|exists (-1), (mem s'); auto]. destruct (Hb eq_refl) as (bm & bs & zs & Hre).
    destruct (finalize_ok _ _ _ s' Hre) as (m & t & -> & Hm & Ht). exists 0, m. eauto 8.
Qed.

Lemma darm_str_in_bounds_witness :
  match darm_armv7_disasm (λ v, v) 0xe4910000 with
  | Some (_, d) =>
      ∃ r m, darm_str 32 d (repeat "A"%char 280) = Some (r, m) ∧ length m = 280%nat ∧
        (r = -1 ∨ r = 0 ∧ ∃ t, total m = Some t ∧ (String.length t < 64)%nat)
  | None => False
  end.
Proof.
  destruct (disasm_typed (λ v, v) 0xe4910000) as (ret & d & E & _ & Hd). rewrite E. apply (darm_str_in_bounds 32 d); [lia|exact Hd|reflexivity].
Defined.

(** ** Texts of some words *)

(** The text of a word, from a structure filled with one byte. *)
Definition text_of (c : ascii) (w : Z) : option (Z * option string) :=
  '(_, d) ← darm_armv7_disasm (λ v, v) w; '(r, m) ← darm_str 32 d (repeat c 280); Some (r, total m).

Example push_text : text_of "A" 0xe92d4ff0 = Some (0, Some "PUSH {r4-r11,LR}").
Proof. by vm_compute. Qed.

Example add_text : text_of "A" 0xe0810142 = Some (0, Some "ADD r0, r1, r2, ASR #2").
Proof. by vm_compute. Qed.

(** [LDR r0, [r1], #0]: two bytes are taken back before an operand that is still empty, so the
    operand is joined to the text although nothing has written to it. *)
Example post_indexed_zero :
  text_of "A" 0xe4910000 = Some (0, Some "LDR r0, [r1], AAAAAAAAAAAAAAAAAAAAAAAAAAAAAAAA").
Proof. by vm_compute. Qed.

(** [SSAT r0, #1, r0]: the format string holds a character [darm_str] does not know, and [total]
    keeps the bytes it had. *)
Example ssat_no_text : text_of "A" 0xe6a00010 = Some (-1, None).
Proof. by vm_compute. Qed.

(** [POP] of eleven registers, no three in sequence: the text of the list takes more than the 32
    bytes of an operand, and the null byte of the next operand cuts it. *)
Example pop_text_cut : text_of "A" 0xe8bdb6db = Some (0, Some "POP {r0,r1,r3,r4,r6,r7,r9,r10,r12,SP").
Proof. by vm_compute. Qed.

(** [LDR r0, [r1, r2, LSL #2]!]: the shift is written over the exclamation mark
    and closes the bracket again. *)
Example writeback_lost : text_of "A" 0xe7b10102 = Some (0, Some "LDR r0, [r1, r2], LSL #2]").
Proof. by vm_compute. Qed.
