(* ===== verification/Neon.v ===== *)
(** The vector helpers of the guest CPU (target-arm/neon_helper.c): a guest register holds several
    elements, which the code unpacks into a structure, combines one by one and packs again.  A helper
    that may saturate takes and returns the floating-point status word, whose bit [CPSR_Q] it sets;
    the others are functions of their operands.  Arithmetic of promoted operands is exact and the
    value is converted where the code assigns it, so an overflow of a signed type keeps the low bits,
    as the supported compilers have it.  The comparisons of floating-point numbers call the softfloat
    library and are left out. *)

From Stdlib Require Import ZArith.
From stdpp Require Import base option list list_numbers.
From S2P Require Import Prelude.

(** ** Elements *)

Definition SIGNBIT : Z := 0x80000000.
Definition SIGNBIT64 : Z := 1 .<< 63.
Definition CPSR_Q : Z := 1 .<< 27.
Definition SET_QC (fpscr : Z) : Z := fpscr .| CPSR_Q.

Definition s16 (z : Z) : Z := swrap 16 z.
Definition s64 (z : Z) : Z := swrap 64 z.
(** [~x] in an unsigned type. *)
Definition not32 (z : Z) : Z := u32 (Z.lnot z).
Definition not64 (z : Z) : Z := u64 (Z.lnot z).

(** The type of an element. *)
Record elem := Elem { esize : Z; signed : bool }.
Definition conv (t : elem) (v : Z) : Z := if signed t then swrap (esize t) v else wrap (esize t) v.

Definition neon_s8 : elem := Elem 8 true.
Definition neon_u8 : elem := Elem 8 false.
Definition neon_s16 : elem := Elem 16 true.
Definition neon_u16 : elem := Elem 16 false.
Definition neon_s32 : elem := Elem 32 true.
Definition neon_u32 : elem := Elem 32 false.

(** The elements of a word of [size] bits, the lowest first, and back. *)
Definition elems (size : Z) (t : elem) (val : Z) : list Z :=
  (λ i, conv t (val .>> (esize t * i))) <$> seqZ 0 (size / esize t).
Definition NEON_UNPACK (t : elem) (val : Z) : list Z := elems 32 t val.
Fixpoint NEON_PACK (t : elem) (vec : list Z) : Z :=
  match vec with
  | [] => 0
  | v :: vec => wrap (esize t) v .| (NEON_PACK t vec .<< esize t)
  end.

(** [NEON_FN] with the status word: the value for the destination, and the word afterwards. *)
Definition fn : Type := Z → Z → Z → Z * Z.

Fixpoint NEON_DO (f : fn) (fpscr : Z) (src1 src2 : list Z) : list Z * Z :=
  match src1, src2 with
  | a :: src1, b :: src2 =>
      let '(d, fpscr) := f fpscr a b in
      let '(dest, fpscr) := NEON_DO f fpscr src1 src2 in (d :: dest, fpscr)
  | _, _ => ([], fpscr)
  end.
Definition NEON_VOP_ENV (t : elem) (f : fn) (fpscr arg1 arg2 : Z) : Z * Z :=
  let '(dest, fpscr) := NEON_DO f fpscr (NEON_UNPACK t arg1) (NEON_UNPACK t arg2) in
  (NEON_PACK t dest, fpscr).

Definition NEON_VOP (t : elem) (f : Z → Z → Z) (arg1 arg2 : Z) : Z :=
  NEON_PACK t (zip_with f (NEON_UNPACK t arg1) (NEON_UNPACK t arg2)).
Definition NEON_VOP1 (t : elem) (f : Z → Z) (arg : Z) : Z := NEON_PACK t (f <$> NEON_UNPACK t arg).

Fixpoint NEON_PDO (f : Z → Z → Z) (src : list Z) : list Z :=
  match src with
  | a :: b :: src => f a b :: NEON_PDO f src
  | _ => []
  end.
Definition NEON_POP (t : elem) (f : Z → Z → Z) (arg1 arg2 : Z) : Z :=
  NEON_PACK t (NEON_PDO f (NEON_UNPACK t arg1) ++ NEON_PDO f (NEON_UNPACK t arg2)).

(** ** Saturating addition and subtraction *)

Definition NEON_USAT (t : elem) : fn := λ fpscr src1 src2,
  let tmp := u32 (src1 + src2) in
  if negb (tmp =? wrap (esize t) tmp) then (-1, SET_QC fpscr) else (tmp, fpscr).
Definition neon_qadd_u8 := NEON_VOP_ENV neon_u8 (NEON_USAT neon_u8).
Definition neon_qadd_u16 := NEON_VOP_ENV neon_u16 (NEON_USAT neon_u16).
Definition neon_qadd_u32 (fpscr a b : Z) : Z * Z :=
  let res := u32 (a + b) in if res <? a then (not32 0, SET_QC fpscr) else (res, fpscr).
Definition neon_qadd_u64 (fpscr src1 src2 : Z) : Z * Z :=
  let res := u64 (src1 + src2) in if res <? src1 then (not64 0, SET_QC fpscr) else (res, fpscr).

Definition NEON_SSAT (t : elem) : fn := λ fpscr src1 src2,
  let tmp := s32 (u32 (u32 src1 + u32 src2)) in
  if negb (tmp =? swrap (esize t) tmp) then
    (if 0 <? src2 then (1 .<< (esize t - 1)) - 1 else 1 .<< (esize t - 1), SET_QC fpscr)
  else (tmp, fpscr).
Definition neon_qadd_s8 := NEON_VOP_ENV neon_s8 (NEON_SSAT neon_s8).
Definition neon_qadd_s16 := NEON_VOP_ENV neon_s16 (NEON_SSAT neon_s16).
Definition neon_qadd_s32 (fpscr a b : Z) : Z * Z :=
  let res := u32 (a + b) in
  if negb ((res .^ a) .& SIGNBIT =? 0) && ((a .^ b) .& SIGNBIT =? 0) then
    (not32 (u32 (s32 a .>> 31) .^ SIGNBIT), SET_QC fpscr)
  else (res, fpscr).
Definition neon_qadd_s64 (fpscr src1 src2 : Z) : Z * Z :=
  let res := u64 (src1 + src2) in
  if negb ((res .^ src1) .& SIGNBIT64 =? 0) && ((src1 .^ src2) .& SIGNBIT64 =? 0) then
    (u64 (s64 src1 .>> 63) .^ not64 SIGNBIT64, SET_QC fpscr)
  else (res, fpscr).

Definition extract32 (value start length : Z) : Z := (value .>> start) .& (not32 0 .>> (32 - length)).
Definition sextract32 (value start length : Z) : Z := s32 (u32 (value .<< (32 - length - start))) .>> (32 - length).
Definition deposit32 (value start length fieldval : Z) : Z :=
  let mask := u32 ((not32 0 .>> (32 - length)) .<< start) in
  (value .& not32 mask) .| (u32 (u32 fieldval .<< start) .& mask).

(** The value is computed in a signed type of [2 * bits] bits. *)
Definition USATACC (bits shift a b : Z) (st : Z * Z) : Z * Z :=
  let '(r, fpscr) := st in
  let va := sextract32 a shift bits in
  let vb := extract32 b shift bits in
  let vr := swrap (2 * bits) (va + vb) in
  let '(vr, fpscr) :=
    if 2 ^ bits - 1 <? vr then (2 ^ bits - 1, SET_QC fpscr)
    else if vr <? 0 then (0, SET_QC fpscr) else (vr, fpscr) in
  (deposit32 r shift bits vr, fpscr).
Definition neon_uqadd_s8 (fpscr a b : Z) : Z * Z :=
  USATACC 8 24 a b (USATACC 8 16 a b (USATACC 8 8 a b (USATACC 8 0 a b (0, fpscr)))).
Definition neon_uqadd_s16 (fpscr a b : Z) : Z * Z :=
  USATACC 16 16 a b (USATACC 16 0 a b (0, fpscr)).
Definition neon_uqadd_s32 (fpscr a b : Z) : Z * Z :=
  let va := s32 a in
  let vb := u32 b in
  let vr := s64 (va + vb) in
  if 2 ^ 32 - 1 <? vr then (u32 (2 ^ 32 - 1), SET_QC fpscr)
  else if vr <? 0 then (0, SET_QC fpscr) else (u32 vr, fpscr).
Definition neon_uqadd_s64 (fpscr a b : Z) : Z * Z :=
  let res := u64 (a + b) in
  if negb (not64 a .& b .& not64 res .& SIGNBIT64 =? 0) then (2 ^ 64 - 1, SET_QC fpscr)
  else if negb (a .& not64 b .& res .& SIGNBIT64 =? 0) then (0, SET_QC fpscr) else (res, fpscr).

Definition SSATACC (bits shift a b : Z) (st : Z * Z) : Z * Z :=
  let '(r, fpscr) := st in
  let va := extract32 a shift bits in
  let vb := sextract32 b shift bits in
  let vr := swrap (2 * bits) (va + vb) in
  let '(vr, fpscr) :=
    if 2 ^ (bits - 1) - 1 <? vr then (2 ^ (bits - 1) - 1, SET_QC fpscr)
    else if vr <? - 2 ^ (bits - 1) then (- 2 ^ (bits - 1), SET_QC fpscr) else (vr, fpscr) in
  (deposit32 r shift bits vr, fpscr).
Definition neon_sqadd_u8 (fpscr a b : Z) : Z * Z :=
  SSATACC 8 24 a b (SSATACC 8 16 a b (SSATACC 8 8 a b (SSATACC 8 0 a b (0, fpscr)))).
Definition neon_sqadd_u16 (fpscr a b : Z) : Z * Z :=
  SSATACC 16 16 a b (SSATACC 16 0 a b (0, fpscr)).
Definition neon_sqadd_u32 (fpscr a b : Z) : Z * Z :=
  let op1 := u32 a in
  let op2 := s32 b in
  let res := s64 (op1 + op2) in
  if 2 ^ 31 - 1 <? res then (2 ^ 31 - 1, SET_QC fpscr)
  else if res <? - 2 ^ 31 then (u32 (- 2 ^ 31), SET_QC fpscr) else (u32 res, fpscr).
Definition neon_sqadd_u64 (fpscr a b : Z) : Z * Z :=
  let res := u64 (a + b) in
  if negb (((a .& res) .| (not64 b .& res) .| (a .& not64 b)) .& SIGNBIT64 =? 0) then
    (2 ^ 63 - 1, SET_QC fpscr)
  else (res, fpscr).

Definition NEON_USAT_sub (t : elem) : fn := λ fpscr src1 src2,
  let tmp := u32 (src1 - src2) in
  if negb (tmp =? wrap (esize t) tmp) then (0, SET_QC fpscr) else (tmp, fpscr).
Definition neon_qsub_u8 := NEON_VOP_ENV neon_u8 (NEON_USAT_sub neon_u8).
Definition neon_qsub_u16 := NEON_VOP_ENV neon_u16 (NEON_USAT_sub neon_u16).
Definition neon_qsub_u32 (fpscr a b : Z) : Z * Z :=
  let res := u32 (a - b) in if a <? res then (0, SET_QC fpscr) else (res, fpscr).
Definition neon_qsub_u64 (fpscr src1 src2 : Z) : Z * Z :=
  if src1 <? src2 then (0, SET_QC fpscr) else (u64 (src1 - src2), fpscr).

Definition NEON_SSAT_sub (t : elem) : fn := λ fpscr src1 src2,
  let tmp := s32 (u32 (u32 src1 - u32 src2)) in
  if negb (tmp =? swrap (esize t) tmp) then
    (if src2 <? 0 then (1 .<< (esize t - 1)) - 1 else 1 .<< (esize t - 1), SET_QC fpscr)
  else (tmp, fpscr).
Definition neon_qsub_s8 := NEON_VOP_ENV neon_s8 (NEON_SSAT_sub neon_s8).
Definition neon_qsub_s16 := NEON_VOP_ENV neon_s16 (NEON_SSAT_sub neon_s16).
Definition neon_qsub_s32 (fpscr a b : Z) : Z * Z :=
  let res := u32 (a - b) in
  if negb ((res .^ a) .& SIGNBIT =? 0) && negb ((a .^ b) .& SIGNBIT =? 0) then
    (not32 (u32 (s32 a .>> 31) .^ SIGNBIT), SET_QC fpscr)
  else (res, fpscr).
Definition neon_qsub_s64 (fpscr src1 src2 : Z) : Z * Z :=
  let res := u64 (src1 - src2) in
  if negb ((res .^ src1) .& SIGNBIT64 =? 0) && negb ((src1 .^ src2) .& SIGNBIT64 =? 0) then
    (u64 (s64 src1 .>> 63) .^ not64 SIGNBIT64, SET_QC fpscr)
  else (res, fpscr).

(** ** Halving addition and subtraction *)

Definition hadd (src1 src2 : Z) : Z := (src1 + src2) .>> 1.
Definition neon_hadd_s8 := NEON_VOP neon_s8 hadd.
Definition neon_hadd_u8 := NEON_VOP neon_u8 hadd.
Definition neon_hadd_s16 := NEON_VOP neon_s16 hadd.
Definition neon_hadd_u16 := NEON_VOP neon_u16 hadd.
Definition neon_hadd_s32 (src1 src2 : Z) : Z :=
  let dest := s32 ((src1 .>> 1) + (src2 .>> 1)) in
  if negb (src1 .& src2 .& 1 =? 0) then s32 (dest + 1) else dest.
Definition neon_hadd_u32 (src1 src2 : Z) : Z :=
  let dest := u32 ((src1 .>> 1) + (src2 .>> 1)) in
  if negb (src1 .& src2 .& 1 =? 0) then u32 (dest + 1) else dest.

Definition rhadd (src1 src2 : Z) : Z := (src1 + src2 + 1) .>> 1.
Definition neon_rhadd_s8 := NEON_VOP neon_s8 rhadd.
Definition neon_rhadd_u8 := NEON_VOP neon_u8 rhadd.
Definition neon_rhadd_s16 := NEON_VOP neon_s16 rhadd.
Definition neon_rhadd_u16 := NEON_VOP neon_u16 rhadd.
Definition neon_rhadd_s32 (src1 src2 : Z) : Z :=
  let dest := s32 ((src1 .>> 1) + (src2 .>> 1)) in
  if negb ((src1 .| src2) .& 1 =? 0) then s32 (dest + 1) else dest.
Definition neon_rhadd_u32 (src1 src2 : Z) : Z :=
  let dest := u32 ((src1 .>> 1) + (src2 .>> 1)) in
  if negb ((src1 .| src2) .& 1 =? 0) then u32 (dest + 1) else dest.

Definition hsub (src1 src2 : Z) : Z := (src1 - src2) .>> 1.
Definition neon_hsub_s8 := NEON_VOP neon_s8 hsub.
Definition neon_hsub_u8 := NEON_VOP neon_u8 hsub.
Definition neon_hsub_s16 := NEON_VOP neon_s16 hsub.
Definition neon_hsub_u16 := NEON_VOP neon_u16 hsub.
Definition neon_hsub_s32 (src1 src2 : Z) : Z :=
  let dest := s32 ((src1 .>> 1) - (src2 .>> 1)) in
  if negb (Z.lnot src1 .& src2 .& 1 =? 0) then s32 (dest - 1) else dest.
Definition neon_hsub_u32 (src1 src2 : Z) : Z :=
  let dest := u32 ((src1 .>> 1) - (src2 .>> 1)) in
  if negb (not32 src1 .& src2 .& 1 =? 0) then u32 (dest - 1) else dest.

(** ** Comparisons *)

Definition cgt (src1 src2 : Z) : Z := if src2 <? src1 then -1 else 0.
Definition neon_cgt_s8 := NEON_VOP neon_s8 cgt.
Definition neon_cgt_u8 := NEON_VOP neon_u8 cgt.
Definition neon_cgt_s16 := NEON_VOP neon_s16 cgt.
Definition neon_cgt_u16 := NEON_VOP neon_u16 cgt.
Definition neon_cgt_s32 := NEON_VOP neon_s32 cgt.
Definition neon_cgt_u32 := NEON_VOP neon_u32 cgt.

Definition cge (src1 src2 : Z) : Z := if src2 <=? src1 then -1 else 0.
Definition neon_cge_s8 := NEON_VOP neon_s8 cge.
Definition neon_cge_u8 := NEON_VOP neon_u8 cge.
Definition neon_cge_s16 := NEON_VOP neon_s16 cge.
Definition neon_cge_u16 := NEON_VOP neon_u16 cge.
Definition neon_cge_s32 := NEON_VOP neon_s32 cge.
Definition neon_cge_u32 := NEON_VOP neon_u32 cge.

Definition min_fn (src1 src2 : Z) : Z := if src1 <? src2 then src1 else src2.
Definition neon_min_s8 := NEON_VOP neon_s8 min_fn.
Definition neon_min_u8 := NEON_VOP neon_u8 min_fn.
Definition neon_min_s16 := NEON_VOP neon_s16 min_fn.
Definition neon_min_u16 := NEON_VOP neon_u16 min_fn.
Definition neon_min_s32 := NEON_VOP neon_s32 min_fn.
Definition neon_min_u32 := NEON_VOP neon_u32 min_fn.
Definition neon_pmin_s8 := NEON_POP neon_s8 min_fn.
Definition neon_pmin_u8 := NEON_POP neon_u8 min_fn.
Definition neon_pmin_s16 := NEON_POP neon_s16 min_fn.
Definition neon_pmin_u16 := NEON_POP neon_u16 min_fn.

Definition max_fn (src1 src2 : Z) : Z := if src2 <? src1 then src1 else src2.
Definition neon_max_s8 := NEON_VOP neon_s8 max_fn.
Definition neon_max_u8 := NEON_VOP neon_u8 max_fn.
Definition neon_max_s16 := NEON_VOP neon_s16 max_fn.
Definition neon_max_u16 := NEON_VOP neon_u16 max_fn.
Definition neon_max_s32 := NEON_VOP neon_s32 max_fn.
Definition neon_max_u32 := NEON_VOP neon_u32 max_fn.
Definition neon_pmax_s8 := NEON_POP neon_s8 max_fn.
Definition neon_pmax_u8 := NEON_POP neon_u8 max_fn.
Definition neon_pmax_s16 := NEON_POP neon_s16 max_fn.
Definition neon_pmax_u16 := NEON_POP neon_u16 max_fn.

Definition abd (src1 src2 : Z) : Z := if src2 <? src1 then src1 - src2 else src2 - src1.
Definition neon_abd_s8 := NEON_VOP neon_s8 abd.
Definition neon_abd_u8 := NEON_VOP neon_u8 abd.
Definition neon_abd_s16 := NEON_VOP neon_s16 abd.
Definition neon_abd_u16 := NEON_VOP neon_u16 abd.
Definition neon_abd_s32 := NEON_VOP neon_s32 abd.
Definition neon_abd_u32 := NEON_VOP neon_u32 abd.

(** ** Shifts by a register

    The amount is the low byte of the element of the second operand, as a signed number; a negative
    one shifts to the right. *)

Definition shl_u (t : elem) (src1 src2 : Z) : Z :=
  let tmp := s8 src2 in
  if (esize t <=? tmp) || (tmp <=? - esize t) then 0
  else if tmp <? 0 then src1 .>> - tmp else src1 .<< tmp.
Definition neon_shl_u8 := NEON_VOP neon_u8 (shl_u neon_u8).
Definition neon_shl_u16 := NEON_VOP neon_u16 (shl_u neon_u16).
Definition neon_shl_u32 := NEON_VOP neon_u32 (shl_u neon_u32).
Definition neon_shl_u64 (val shiftop : Z) : Z :=
  let shift := s8 shiftop in
  if (64 <=? shift) || (shift <=? -64) then 0
  else if shift <? 0 then val .>> - shift else u64 (val .<< shift).

Definition shl_s (t : elem) (src1 src2 : Z) : Z :=
  let tmp := s8 src2 in
  if esize t <=? tmp then 0
  else if tmp <=? - esize t then src1 .>> (esize t - 1)
  else if tmp <? 0 then src1 .>> - tmp else src1 .<< tmp.
Definition neon_shl_s8 := NEON_VOP neon_s8 (shl_s neon_s8).
Definition neon_shl_s16 := NEON_VOP neon_s16 (shl_s neon_s16).
Definition neon_shl_s32 := NEON_VOP neon_s32 (shl_s neon_s32).
Definition neon_shl_s64 (valop shiftop : Z) : Z :=
  let shift := s8 shiftop in
  let val := s64 valop in
  u64 (if 64 <=? shift then 0
       else if shift <=? -64 then val .>> 63
       else if shift <? 0 then val .>> - shift else s64 (val .<< shift)).

Definition rshl_s (t : elem) (src1 src2 : Z) : Z :=
  let tmp := s8 src2 in
  if (esize t <=? tmp) || (tmp <=? - esize t) then 0
  else if tmp <? 0 then (src1 + (1 .<< (-1 - tmp))) .>> - tmp else src1 .<< tmp.
Definition neon_rshl_s8 := NEON_VOP neon_s8 (rshl_s neon_s8).
Definition neon_rshl_s16 := NEON_VOP neon_s16 (rshl_s neon_s16).
Definition neon_rshl_s32 (valop shiftop : Z) : Z :=
  let val := s32 valop in
  let shift := s8 shiftop in
  u32 (if (32 <=? shift) || (shift <=? -32) then 0
       else if shift <? 0 then
         let big_dest := s64 (val + s32 (1 .<< (-1 - shift))) in s32 (big_dest .>> - shift)
       else s32 (val .<< shift)).
Definition neon_rshl_s64 (valop shiftop : Z) : Z :=
  let shift := s8 shiftop in
  let val := s64 valop in
  u64 (if (64 <=? shift) || (shift <=? -64) then 0
       else if shift <? 0 then
         let val := val .>> (- shift - 1) in
         if val =? 2 ^ 63 - 1 then 0x4000000000000000 else (val + 1) .>> 1
       else s64 (val .<< shift)).

Definition rshl_u (t : elem) (src1 src2 : Z) : Z :=
  let tmp := s8 src2 in
  if (esize t <=? tmp) || (tmp <? - esize t) then 0
  else if tmp =? - esize t then src1 .>> (- tmp - 1)
  else if tmp <? 0 then (src1 + (1 .<< (-1 - tmp))) .>> - tmp else src1 .<< tmp.
Definition neon_rshl_u8 := NEON_VOP neon_u8 (rshl_u neon_u8).
Definition neon_rshl_u16 := NEON_VOP neon_u16 (rshl_u neon_u16).
Definition neon_rshl_u32 (val shiftop : Z) : Z :=
  let shift := s8 shiftop in
  if (32 <=? shift) || (shift <? -32) then 0
  else if shift =? -32 then val .>> 31
  else if shift <? 0 then
    let big_dest := u64 (val + u64 (s32 (1 .<< (-1 - shift)))) in u32 (big_dest .>> - shift)
  else u32 (val .<< shift).
Definition neon_rshl_u64 (val shiftop : Z) : Z :=
  let shift := s8 (u8 shiftop) in
  if (64 <=? shift) || (shift <? -64) then 0
  else if shift =? -64 then val .>> 63
  else if shift <? 0 then
    let val := val .>> (- shift - 1) in
    if val =? 2 ^ 64 - 1 then 0x8000000000000000 else u64 (val + 1) .>> 1
  else u64 (val .<< shift).

(** *** Saturating *)

Definition qshl_u (t : elem) : fn := λ fpscr src1 src2,
  let tmp := s8 src2 in
  if esize t <=? tmp then if negb (src1 =? 0) then (-1, SET_QC fpscr) else (0, fpscr)
  else if tmp <=? - esize t then (0, fpscr)
  else if tmp <? 0 then (src1 .>> - tmp, fpscr)
  else
    let dest := conv t (src1 .<< tmp) in
    if negb (dest .>> tmp =? src1) then (-1, SET_QC fpscr) else (dest, fpscr).
Definition neon_qshl_u8 := NEON_VOP_ENV neon_u8 (qshl_u neon_u8).
Definition neon_qshl_u16 := NEON_VOP_ENV neon_u16 (qshl_u neon_u16).
Definition neon_qshl_u32 := NEON_VOP_ENV neon_u32 (qshl_u neon_u32).
Definition neon_qshl_u64 (fpscr val shiftop : Z) : Z * Z :=
  let shift := s8 shiftop in
  if 64 <=? shift then if negb (val =? 0) then (not64 0, SET_QC fpscr) else (val, fpscr)
  else if shift <=? -64 then (0, fpscr)
  else if shift <? 0 then (val .>> - shift, fpscr)
  else
    let tmp := val in
    let val := u64 (val .<< shift) in
    if negb (val .>> shift =? tmp) then (not64 0, SET_QC fpscr) else (val, fpscr).

Definition qshl_s (t : elem) : fn := λ fpscr src1 src2,
  let tmp := s8 src2 in
  let sat := (let dest := conv t (u32 (1 .<< (esize t - 1))) in if 0 <? src1 then conv t (dest - 1) else dest) in
  if esize t <=? tmp then if negb (src1 =? 0) then (sat, SET_QC fpscr) else (src1, fpscr)
  else if tmp <=? - esize t then (src1 .>> 31, fpscr)
  else if tmp <? 0 then (src1 .>> - tmp, fpscr)
  else
    let dest := conv t (src1 .<< tmp) in
    if negb (dest .>> tmp =? src1) then (sat, SET_QC fpscr) else (dest, fpscr).
Definition neon_qshl_s8 := NEON_VOP_ENV neon_s8 (qshl_s neon_s8).
Definition neon_qshl_s16 := NEON_VOP_ENV neon_s16 (qshl_s neon_s16).
Definition neon_qshl_s32 := NEON_VOP_ENV neon_s32 (qshl_s neon_s32).
Definition neon_qshl_s64 (fpscr valop shiftop : Z) : Z * Z :=
  let shift := s8 (u8 shiftop) in
  let val := s64 valop in
  if 64 <=? shift then
    if negb (val =? 0) then (u64 (val .>> 63) .^ not64 SIGNBIT64, SET_QC fpscr) else (u64 val, fpscr)
  else if shift <=? -64 then (u64 (val .>> 63), fpscr)
  else if shift <? 0 then (u64 (val .>> - shift), fpscr)
  else
    let tmp := val in
    let val := s64 (val .<< shift) in
    if negb (val .>> shift =? tmp) then (u64 (tmp .>> 63) .^ not64 SIGNBIT64, SET_QC fpscr)
    else (u64 val, fpscr).

Definition qshlu_s (t : elem) : fn := λ fpscr src1 src2,
  if negb (src1 .& (1 .<< (esize t - 1)) =? 0) then (0, SET_QC fpscr)
  else qshl_u t fpscr src1 src2.
Definition neon_qshlu_s8 := NEON_VOP_ENV neon_u8 (qshlu_s neon_u8).
Definition neon_qshlu_s16 := NEON_VOP_ENV neon_u16 (qshlu_s neon_u16).
Definition neon_qshlu_s32 (fpscr valop shiftop : Z) : Z * Z :=
  if s32 valop <? 0 then (0, SET_QC fpscr) else neon_qshl_u32 fpscr valop shiftop.
Definition neon_qshlu_s64 (fpscr valop shiftop : Z) : Z * Z :=
  if s64 valop <? 0 then (0, SET_QC fpscr) else neon_qshl_u64 fpscr valop shiftop.

Definition qrshl_u (t : elem) : fn := λ fpscr src1 src2,
  let tmp := s8 src2 in
  if esize t <=? tmp then if negb (src1 =? 0) then (-1, SET_QC fpscr) else (0, fpscr)
  else if tmp <? - esize t then (0, fpscr)
  else if tmp =? - esize t then (src1 .>> (esize t - 1), fpscr)
  else if tmp <? 0 then ((src1 + (1 .<< (-1 - tmp))) .>> - tmp, fpscr)
  else
    let dest := conv t (src1 .<< tmp) in
    if negb (dest .>> tmp =? src1) then (-1, SET_QC fpscr) else (dest, fpscr).
Definition neon_qrshl_u8 := NEON_VOP_ENV neon_u8 (qrshl_u neon_u8).
Definition neon_qrshl_u16 := NEON_VOP_ENV neon_u16 (qrshl_u neon_u16).
Definition neon_qrshl_u32 (fpscr val shiftop : Z) : Z * Z :=
  let shift := s8 shiftop in
  if 32 <=? shift then if negb (val =? 0) then (not32 0, SET_QC fpscr) else (0, fpscr)
  else if shift <? -32 then (0, fpscr)
  else if shift =? -32 then (val .>> 31, fpscr)
  else if shift <? 0 then
    let big_dest := u64 (val + u64 (s32 (1 .<< (-1 - shift)))) in (u32 (big_dest .>> - shift), fpscr)
  else
    let dest := u32 (val .<< shift) in
    if negb (dest .>> shift =? val) then (not32 0, SET_QC fpscr) else (dest, fpscr).
(** [val = ~0] widens the [int] [-1]. *)
Definition neon_qrshl_u64 (fpscr val shiftop : Z) : Z * Z :=
  let shift := s8 shiftop in
  if 64 <=? shift then if negb (val =? 0) then (u64 (-1), SET_QC fpscr) else (val, fpscr)
  else if shift <? -64 then (0, fpscr)
  else if shift =? -64 then (val .>> 63, fpscr)
  else if shift <? 0 then
    let val := val .>> (- shift - 1) in
    (if val =? 2 ^ 64 - 1 then 0x8000000000000000 else u64 (val + 1) .>> 1, fpscr)
  else
    let tmp := val in
    let val := u64 (val .<< shift) in
    if negb (val .>> shift =? tmp) then (u64 (-1), SET_QC fpscr) else (val, fpscr).

Definition qrshl_s (t : elem) : fn := λ fpscr src1 src2,
  let tmp := s8 src2 in
  let sat := (let dest := conv t (1 .<< (esize t - 1)) in if 0 <? src1 then conv t (dest - 1) else dest) in
  if esize t <=? tmp then if negb (src1 =? 0) then (sat, SET_QC fpscr) else (0, fpscr)
  else if tmp <=? - esize t then (0, fpscr)
  else if tmp <? 0 then ((src1 + (1 .<< (-1 - tmp))) .>> - tmp, fpscr)
  else
    let dest := conv t (src1 .<< tmp) in
    if negb (dest .>> tmp =? src1) then (sat, SET_QC fpscr) else (dest, fpscr).
Definition neon_qrshl_s8 := NEON_VOP_ENV neon_s8 (qrshl_s neon_s8).
Definition neon_qrshl_s16 := NEON_VOP_ENV neon_s16 (qrshl_s neon_s16).
Definition neon_qrshl_s32 (fpscr valop shiftop : Z) : Z * Z :=
  let val := s32 valop in
  let shift := s8 shiftop in
  if 32 <=? shift then
    if negb (val =? 0) then (u32 (val .>> 31) .^ not32 SIGNBIT, SET_QC fpscr) else (0, fpscr)
  else if shift <=? -32 then (0, fpscr)
  else if shift <? 0 then
    let big_dest := s64 (val + s32 (1 .<< (-1 - shift))) in (u32 (big_dest .>> - shift), fpscr)
  else
    let dest := s32 (val .<< shift) in
    if negb (dest .>> shift =? val) then (u32 (val .>> 31) .^ not32 SIGNBIT, SET_QC fpscr)
    else (u32 dest, fpscr).
Definition neon_qrshl_s64 (fpscr valop shiftop : Z) : Z * Z :=
  let shift := s8 (u8 shiftop) in
  let val := s64 valop in
  if 64 <=? shift then
    if negb (val =? 0) then (u64 (val .>> 63) .^ not64 SIGNBIT64, SET_QC fpscr) else (u64 val, fpscr)
  else if shift <=? -64 then (0, fpscr)
  else if shift <? 0 then
    let val := val .>> (- shift - 1) in
    (u64 (if val =? 2 ^ 63 - 1 then 0x4000000000000000 else (val + 1) .>> 1), fpscr)
  else
    let tmp := val in
    let val := s64 (val .<< shift) in
    if negb (val .>> shift =? tmp) then (u64 (tmp .>> 63) .^ not64 SIGNBIT64, SET_QC fpscr)
    else (u64 val, fpscr).

(** ** Addition, subtraction, multiplication *)

Definition neon_add_u8 (a b : Z) : Z :=
  let mask := (a .^ b) .& 0x80808080 in
  let a := a .& not32 0x80808080 in
  let b := b .& not32 0x80808080 in
  u32 (a + b) .^ mask.
Definition neon_add_u16 (a b : Z) : Z :=
  let mask := (a .^ b) .& 0x80008000 in
  let a := a .& not32 0x80008000 in
  let b := b .& not32 0x80008000 in
  u32 (a + b) .^ mask.

Definition neon_padd_u8 := NEON_POP neon_u8 Z.add.
Definition neon_padd_u16 := NEON_POP neon_u16 Z.add.
Definition neon_sub_u8 := NEON_VOP neon_u8 Z.sub.
Definition neon_sub_u16 := NEON_VOP neon_u16 Z.sub.
Definition neon_mul_u8 := NEON_VOP neon_u8 Z.mul.
Definition neon_mul_u16 := NEON_VOP neon_u16 Z.mul.

(** [if (op1 & (1 << n)) mask |= ones << m]. *)
Definition mask_if (op1 n ones m mask : Z) : Z :=
  if negb (op1 .& (1 .<< n) =? 0) then mask .| (ones .<< m) else mask.

Fixpoint mul_p8_loop (fuel : nat) (op1 op2 result : Z) : option Z :=
  if op1 =? 0 then Some result
  else
    match fuel with
    | O => None
    | S fuel =>
        let mask := mask_if op1 24 0xff 24 (mask_if op1 16 0xff 16 (mask_if op1 8 0xff 8 (mask_if op1 0 0xff 0 0))) in
        mul_p8_loop fuel ((op1 .>> 1) .& 0x7f7f7f7f) (u32 (op2 .<< 1) .& 0xfefefefe) (result .^ (op2 .& mask))
    end.
Definition neon_mul_p8 (op1 op2 : Z) : option Z := mul_p8_loop 8 op1 op2 0.

Fixpoint mull_p8_loop (fuel : nat) (op1 op2ex result : Z) : option Z :=
  if op1 =? 0 then Some result
  else
    match fuel with
    | O => None
    | S fuel =>
        let mask := mask_if op1 24 0xffff 48 (mask_if op1 16 0xffff 32 (mask_if op1 8 0xffff 16 (mask_if op1 0 0xffff 0 0))) in
        mull_p8_loop fuel ((op1 .>> 1) .& 0x7f7f7f7f) (u64 (op2ex .<< 1)) (result .^ (op2ex .& mask))
    end.
Definition neon_mull_p8 (op1 op2 : Z) : option Z :=
  let op2ex := (op2 .& 0xff) .| ((op2 .& 0xff00) .<< 8) .| ((op2 .& 0xff0000) .<< 16) .| ((op2 .& 0xff000000) .<< 24) in
  mull_p8_loop 8 op1 op2ex 0.

(** [for (bitnum = first; bitnum < 64; bitnum++) if (op1 & (1ULL << bitnum)) res ^= part]. *)
Definition pmull_loop (op1 first : Z) (part : Z → Z) : Z :=
  foldl (λ res bitnum, if negb (op1 .& (1 .<< bitnum) =? 0) then res .^ part bitnum else res) 0 (seqZ first (64 - first)).
Definition neon_pmull_64_lo (op1 op2 : Z) : Z := pmull_loop op1 0 (λ bitnum, u64 (op2 .<< bitnum)).
Definition neon_pmull_64_hi (op1 op2 : Z) : Z := pmull_loop op1 1 (λ bitnum, op2 .>> (64 - bitnum)).

(** ** Bits *)

Definition tst (src1 src2 : Z) : Z := if negb (src1 .& src2 =? 0) then -1 else 0.
Definition neon_tst_u8 := NEON_VOP neon_u8 tst.
Definition neon_tst_u16 := NEON_VOP neon_u16 tst.
Definition neon_tst_u32 := NEON_VOP neon_u32 tst.

Definition ceq (src1 src2 : Z) : Z := if src1 =? src2 then -1 else 0.
Definition neon_ceq_u8 := NEON_VOP neon_u8 ceq.
Definition neon_ceq_u16 := NEON_VOP neon_u16 ceq.
Definition neon_ceq_u32 := NEON_VOP neon_u32 ceq.

Definition abs_fn (src : Z) : Z := if src <? 0 then - src else src.
Definition neon_abs_s8 := NEON_VOP1 neon_s8 abs_fn.
Definition neon_abs_s16 := NEON_VOP1 neon_s16 abs_fn.

(** [for (n = ...; x; n--) x >>= 1]; a number of [fuel] bits is gone after [fuel] steps. *)
Fixpoint clz_loop (fuel : nat) (n x : Z) : Z :=
  match fuel with
  | O => n
  | S fuel => if x =? 0 then n else clz_loop fuel (n - 1) (x .>> 1)
  end.
Definition do_clz8 (x : Z) : Z := clz_loop 8 8 (u8 x).
Definition do_clz16 (x : Z) : Z := clz_loop 16 16 (u16 x).
Definition neon_clz_u8 := NEON_VOP1 neon_u8 do_clz8.
Definition neon_clz_u16 := NEON_VOP1 neon_u16 do_clz16.
Definition neon_cls_s8 := NEON_VOP1 neon_s8 (λ src, do_clz8 (if src <? 0 then Z.lnot src else src) - 1).
Definition neon_cls_s16 := NEON_VOP1 neon_s16 (λ src, do_clz16 (if src <? 0 then Z.lnot src else src) - 1).
Definition neon_cls_s32 (x : Z) : Z :=
  let x := if s32 x <? 0 then not32 x else x in u32 (clz_loop 32 32 x - 1).

Definition neon_cnt_u8 (x : Z) : Z :=
  let x := u32 ((x .& 0x55555555) + ((x .>> 1) .& 0x55555555)) in
  let x := u32 ((x .& 0x33333333) + ((x .>> 2) .& 0x33333333)) in
  u32 ((x .& 0x0f0f0f0f) + ((x .>> 4) .& 0x0f0f0f0f)).
Definition neon_rbit_u8 (x : Z) : Z :=
  let x := ((x .& 0xf0f0f0f0) .>> 4) .| ((x .& 0x0f0f0f0f) .<< 4) in
  ((x .& 0x88888888) .>> 3) .| ((x .& 0x44444444) .>> 1) .| ((x .& 0x22222222) .<< 1) .| ((x .& 0x11111111) .<< 3).

(** ** Doubling multiplication, high half *)

Definition NEON_QDMULH16 (round : bool) : fn := λ fpscr src1 src2,
  let tmp := u32 (s16 src1 * s16 src2) in
  let '(tmp, fpscr) :=
    if negb ((tmp .^ u32 (tmp .<< 1)) .& SIGNBIT =? 0) then ((tmp .>> 31) .^ not32 SIGNBIT, SET_QC fpscr)
    else (u32 (tmp .<< 1), fpscr) in
  let '(tmp, fpscr) :=
    if round then
      let old := s32 tmp in
      let tmp := u32 (tmp + (1 .<< 15)) in
      if s32 tmp <? old then (SIGNBIT - 1, SET_QC fpscr) else (tmp, fpscr)
    else (tmp, fpscr) in
  (tmp .>> 16, fpscr).
Definition neon_qdmulh_s16 := NEON_VOP_ENV neon_s16 (NEON_QDMULH16 false).
Definition neon_qrdmulh_s16 := NEON_VOP_ENV neon_s16 (NEON_QDMULH16 true).

Definition NEON_QDMULH32 (round : bool) : fn := λ fpscr src1 src2,
  let tmp := u64 (s32 src1 * s32 src2) in
  let '(tmp, fpscr) :=
    if negb ((tmp .^ u64 (tmp .<< 1)) .& SIGNBIT64 =? 0) then ((tmp .>> 63) .^ not64 SIGNBIT64, SET_QC fpscr)
    else (u64 (tmp .<< 1), fpscr) in
  let '(tmp, fpscr) :=
    if round then
      let old := s64 tmp in
      let tmp := u64 (tmp + (1 .<< 31)) in
      if s64 tmp <? old then (SIGNBIT64 - 1, SET_QC fpscr) else (tmp, fpscr)
    else (tmp, fpscr) in
  (tmp .>> 32, fpscr).
Definition neon_qdmulh_s32 := NEON_VOP_ENV neon_s32 (NEON_QDMULH32 false).
Definition neon_qrdmulh_s32 := NEON_VOP_ENV neon_s32 (NEON_QDMULH32 true).

(** ** Narrowing *)

Definition neon_narrow_u8 (x : Z) : Z :=
  u32 ((x .& 0xff) .| ((x .>> 8) .& 0xff00) .| ((x .>> 16) .& 0xff0000) .| ((x .>> 24) .& 0xff000000)).
Definition neon_narrow_u16 (x : Z) : Z := u32 ((x .& 0xffff) .| ((x .>> 16) .& 0xffff0000)).
Definition neon_narrow_high_u8 (x : Z) : Z :=
  u32 (((x .>> 8) .& 0xff) .| ((x .>> 16) .& 0xff00) .| ((x .>> 24) .& 0xff0000) .| ((x .>> 32) .& 0xff000000)).
Definition neon_narrow_high_u16 (x : Z) : Z := u32 (((x .>> 16) .& 0xffff) .| ((x .>> 32) .& 0xffff0000)).
Definition neon_narrow_round_high_u8 (x : Z) : Z :=
  let x := x .& 0xff80ff80ff80ff80 in
  let x := u64 (x + 0x0080008000800080) in
  u32 (((x .>> 8) .& 0xff) .| ((x .>> 16) .& 0xff00) .| ((x .>> 24) .& 0xff0000) .| ((x .>> 32) .& 0xff000000)).
Definition neon_narrow_round_high_u16 (x : Z) : Z :=
  let x := x .& 0xffff8000ffff8000 in
  let x := u64 (x + 0x0000800000008000) in
  u32 (((x .>> 16) .& 0xffff) .| ((x .>> 32) .& 0xffff0000)).

(** [SAT8(n)]: [narrow] gives the byte of a halfword, or nothing to add, and whether it saturates. *)
Definition SAT8 (narrow : Z → Z * bool) (x n : Z) (st : Z * Z) : Z * Z :=
  let '(res, fpscr) := st in
  let '(d, sat) := narrow (x .>> n) in
  (res .| (d .<< (n / 2)), if (sat : bool) then SET_QC fpscr else fpscr).
Definition SAT8_all (narrow : Z → Z * bool) (fpscr x : Z) : Z * Z :=
  SAT8 narrow x 48 (SAT8 narrow x 32 (SAT8 narrow x 16 (SAT8 narrow x 0 (0, fpscr)))).
Definition neon_unarrow_sat8 : Z → Z → Z * Z := SAT8_all (λ v,
  let s := u16 v in
  if negb (s .& 0x8000 =? 0) then (0, true) else if 0xff <? s then (0xff, true) else (u8 s, false)).
Definition neon_narrow_sat_u8 : Z → Z → Z * Z := SAT8_all (λ v,
  let s := u16 v in if 0xff <? s then (0xff, true) else (u8 s, false)).
Definition neon_narrow_sat_s8 : Z → Z → Z * Z := SAT8_all (λ v,
  let s := s16 v in if negb (s =? s8 s) then (u8 ((s .>> 15) .^ 0x7f), true) else (u8 s, false)).

Definition neon_unarrow_sat16 (fpscr x : Z) : Z * Z :=
  let low := u32 x in
  let '(low, fpscr) :=
    if negb (low .& 0x80000000 =? 0) then (0, SET_QC fpscr)
    else if 0xffff <? low then (0xffff, SET_QC fpscr) else (low, fpscr) in
  let high := u32 (x .>> 32) in
  let '(high, fpscr) :=
    if negb (high .& 0x80000000 =? 0) then (0, SET_QC fpscr)
    else if 0xffff <? high then (0xffff, SET_QC fpscr) else (high, fpscr) in
  (low .| u32 (high .<< 16), fpscr).
Definition neon_narrow_sat_u16 (fpscr x : Z) : Z * Z :=
  let low := u32 x in
  let '(low, fpscr) := if 0xffff <? low then (0xffff, SET_QC fpscr) else (low, fpscr) in
  let high := u32 (x .>> 32) in
  let '(high, fpscr) := if 0xffff <? high then (0xffff, SET_QC fpscr) else (high, fpscr) in
  (low .| u32 (high .<< 16), fpscr).
Definition neon_narrow_sat_s16 (fpscr x : Z) : Z * Z :=
  let low := s32 x in
  let '(low, fpscr) :=
    if negb (low =? s16 low) then ((low .>> 31) .^ 0x7fff, SET_QC fpscr) else (low, fpscr) in
  let high := s32 (x .>> 32) in
  let '(high, fpscr) :=
    if negb (high =? s16 high) then ((high .>> 31) .^ 0x7fff, SET_QC fpscr) else (high, fpscr) in
  (u32 (u16 low .| s32 (high .<< 16)), fpscr).
Definition neon_unarrow_sat32 (fpscr x : Z) : Z * Z :=
  if negb (x .& 0x8000000000000000 =? 0) then (0, SET_QC fpscr)
  else if 0xffffffff <? x then (0xffffffff, SET_QC fpscr) else (u32 x, fpscr).
Definition neon_narrow_sat_u32 (fpscr x : Z) : Z * Z :=
  if 0xffffffff <? x then (0xffffffff, SET_QC fpscr) else (u32 x, fpscr).
Definition neon_narrow_sat_s32 (fpscr x : Z) : Z * Z :=
  if negb (s64 x =? s32 x) then (u32 ((s64 x .>> 63) .^ 0x7fffffff), SET_QC fpscr) else (u32 x, fpscr).

(** ** Widening *)

Definition neon_widen_u8 (x : Z) : Z :=
  u8 x .| (u8 (x .>> 8) .<< 16) .| (u8 (x .>> 16) .<< 32) .| (u8 (x .>> 24) .<< 48).
Definition neon_widen_s8 (x : Z) : Z :=
  u16 (s8 x) .| (u16 (s8 (x .>> 8)) .<< 16) .| (u16 (s8 (x .>> 16)) .<< 32) .| (u16 (s8 (x .>> 24)) .<< 48).
Definition neon_widen_u16 (x : Z) : Z :=
  let high := u16 (x .>> 16) in u16 x .| (high .<< 32).
Definition neon_widen_s16 (x : Z) : Z :=
  let high := u64 (s16 (x .>> 16)) in u32 (s16 x) .| u64 (high .<< 32).

Definition neon_addl_u16 (a b : Z) : Z :=
  let mask := (a .^ b) .& 0x8000800080008000 in
  let a := a .& not64 0x8000800080008000 in
  let b := b .& not64 0x8000800080008000 in
  u64 (a + b) .^ mask.
Definition neon_addl_u32 (a b : Z) : Z :=
  let mask := (a .^ b) .& 0x8000000080000000 in
  let a := a .& not64 0x8000000080000000 in
  let b := b .& not64 0x8000000080000000 in
  u64 (a + b) .^ mask.
Definition neon_paddl_u16 (a b : Z) : Z :=
  let tmp := a .& 0x0000ffff0000ffff in
  let tmp := u64 (tmp + ((a .>> 16) .& 0x0000ffff0000ffff)) in
  let tmp2 := b .& 0xffff0000ffff0000 in
  let tmp2 := u64 (tmp2 + (u64 (b .<< 16) .& 0xffff0000ffff0000)) in
  (tmp .& 0xffff) .| ((tmp .>> 16) .& 0xffff0000) .| (u64 (tmp2 .<< 16) .& 0xffff00000000)
  .| (tmp2 .& 0xffff000000000000).
Definition neon_paddl_u32 (a b : Z) : Z :=
  let low := u32 (a + (a .>> 32)) in
  let high := u32 (b + (b .>> 32)) in
  u64 (low + (high .<< 32)).
Definition neon_subl_u16 (a b : Z) : Z :=
  let mask := (a .^ not64 b) .& 0x8000800080008000 in
  let a := a .| 0x8000800080008000 in
  let b := b .& not64 0x8000800080008000 in
  u64 (a - b) .^ mask.
Definition neon_subl_u32 (a b : Z) : Z :=
  let mask := (a .^ not64 b) .& 0x8000000080000000 in
  let a := a .| 0x8000000080000000 in
  let b := b .& not64 0x8000000080000000 in
  u64 (a - b) .^ mask.

(** One half of [neon_addl_saturate_s32]. *)
Definition addl_sat32 (x y fpscr : Z) : Z * Z :=
  let low := u32 (x + y) in
  if negb ((low .^ x) .& SIGNBIT =? 0) && ((x .^ y) .& SIGNBIT =? 0) then
    (u32 (s32 x .>> 31) .^ not32 SIGNBIT, SET_QC fpscr)
  else (low, fpscr).
Definition neon_addl_saturate_s32 (fpscr a b : Z) : Z * Z :=
  let '(low, fpscr) := addl_sat32 (u32 a) (u32 b) fpscr in
  let '(high, fpscr) := addl_sat32 (u32 (a .>> 32)) (u32 (b .>> 32)) fpscr in
  (low .| (high .<< 32), fpscr).
Definition neon_addl_saturate_s64 (fpscr a b : Z) : Z * Z :=
  let result := u64 (a + b) in
  if negb ((result .^ a) .& SIGNBIT64 =? 0) && ((a .^ b) .& SIGNBIT64 =? 0) then
    (u64 (s64 a .>> 63) .^ not64 SIGNBIT64, SET_QC fpscr)
  else (result, fpscr).

(** Long operations: the elements of type [t] are combined in a larger type and stored in fields of
    twice their size. *)
Definition DO_ABD (t : elem) (x y : Z) : Z :=
  let tmp_x := conv t x in
  let tmp_y := conv t y in
  if tmp_y <? tmp_x then tmp_x - tmp_y else tmp_y - tmp_x.
Definition neon_abdl_u16 (a b : Z) : Z :=
  DO_ABD neon_u8 a b .| (DO_ABD neon_u8 (a .>> 8) (b .>> 8) .<< 16)
  .| (DO_ABD neon_u8 (a .>> 16) (b .>> 16) .<< 32) .| (DO_ABD neon_u8 (a .>> 24) (b .>> 24) .<< 48).
Definition neon_abdl_s16 (a b : Z) : Z :=
  DO_ABD neon_s8 a b .| (DO_ABD neon_s8 (a .>> 8) (b .>> 8) .<< 16)
  .| (DO_ABD neon_s8 (a .>> 16) (b .>> 16) .<< 32) .| (DO_ABD neon_s8 (a .>> 24) (b .>> 24) .<< 48).
Definition neon_abdl_u32 (a b : Z) : Z :=
  DO_ABD neon_u16 a b .| (DO_ABD neon_u16 (a .>> 16) (b .>> 16) .<< 32).
Definition neon_abdl_s32 (a b : Z) : Z :=
  DO_ABD neon_s16 a b .| (DO_ABD neon_s16 (a .>> 16) (b .>> 16) .<< 32).
Definition neon_abdl_u64 (a b : Z) : Z := u64 (DO_ABD neon_u32 a b).
Definition neon_abdl_s64 (a b : Z) : Z := u64 (DO_ABD neon_s32 a b).

Definition DO_MULL (t : elem) (x y : Z) : Z :=
  let tmp_x := conv t x in
  let tmp_y := conv t y in
  wrap (2 * esize t) (wrap (2 * esize t) tmp_x * wrap (2 * esize t) tmp_y).
Definition neon_mull_u8 (a b : Z) : Z :=
  DO_MULL neon_u8 a b .| (DO_MULL neon_u8 (a .>> 8) (b .>> 8) .<< 16)
  .| (DO_MULL neon_u8 (a .>> 16) (b .>> 16) .<< 32) .| (DO_MULL neon_u8 (a .>> 24) (b .>> 24) .<< 48).
Definition neon_mull_s8 (a b : Z) : Z :=
  DO_MULL neon_s8 a b .| (DO_MULL neon_s8 (a .>> 8) (b .>> 8) .<< 16)
  .| (DO_MULL neon_s8 (a .>> 16) (b .>> 16) .<< 32) .| (DO_MULL neon_s8 (a .>> 24) (b .>> 24) .<< 48).
Definition neon_mull_u16 (a b : Z) : Z :=
  DO_MULL neon_u16 a b .| (DO_MULL neon_u16 (a .>> 16) (b .>> 16) .<< 32).
Definition neon_mull_s16 (a b : Z) : Z :=
  DO_MULL neon_s16 a b .| (DO_MULL neon_s16 (a .>> 16) (b .>> 16) .<< 32).

Definition neon_negl_u16 (x : Z) : Z :=
  u16 (- x) .| (u16 (- (x .>> 16)) .<< 16) .| (u16 (- (x .>> 32)) .<< 32) .| (u16 (- (x .>> 48)) .<< 48).
Definition neon_negl_u32 (x : Z) : Z :=
  let low := u32 (- x) in
  let high := u32 (- (x .>> 32)) in
  low .| (high .<< 32).

(** ** Saturating absolute value and negation *)

Definition DO_QABS (t : elem) (fpscr x : Z) : Z * Z :=
  if x =? conv t (2 ^ (esize t - 1)) then (2 ^ (esize t - 1) - 1, SET_QC fpscr)
  else if x <? 0 then (- x, fpscr) else (x, fpscr).
Definition DO_QNEG (t : elem) (fpscr x : Z) : Z * Z :=
  if x =? conv t (2 ^ (esize t - 1)) then (2 ^ (esize t - 1) - 1, SET_QC fpscr) else (- x, fpscr).
Fixpoint each_elem (f : Z → Z → Z * Z) (fpscr : Z) (vec : list Z) : list Z * Z :=
  match vec with
  | [] => ([], fpscr)
  | x :: vec => let '(x, fpscr) := f fpscr x in let '(vec, fpscr) := each_elem f fpscr vec in (x :: vec, fpscr)
  end.
Definition in_place (t : elem) (f : Z → Z → Z * Z) (fpscr x : Z) : Z * Z :=
  let '(vec, fpscr) := each_elem f fpscr (NEON_UNPACK t x) in (NEON_PACK t vec, fpscr).
Definition neon_qabs_s8 := in_place neon_s8 (DO_QABS neon_s8).
Definition neon_qneg_s8 := in_place neon_s8 (DO_QNEG neon_s8).
Definition neon_qabs_s16 := in_place neon_s16 (DO_QABS neon_s16).
Definition neon_qneg_s16 := in_place neon_s16 (DO_QNEG neon_s16).
Definition neon_qabs_s32 (fpscr x : Z) : Z * Z :=
  if x =? SIGNBIT then (not32 SIGNBIT, SET_QC fpscr)
  else if s32 x <? 0 then (u32 (- x), fpscr) else (x, fpscr).
Definition neon_qneg_s32 (fpscr x : Z) : Z * Z :=
  if x =? SIGNBIT then (not32 SIGNBIT, SET_QC fpscr) else (u32 (- x), fpscr).
Definition neon_qabs_s64 (fpscr x : Z) : Z * Z :=
  if x =? SIGNBIT64 then (not64 SIGNBIT64, SET_QC fpscr)
  else if s64 x <? 0 then (u64 (- x), fpscr) else (x, fpscr).
Definition neon_qneg_s64 (fpscr x : Z) : Z * Z :=
  if x =? SIGNBIT64 then (not64 SIGNBIT64, SET_QC fpscr) else (u64 (- x), fpscr).

(** ** Zipping and unzipping

    [regs] are the double-word registers of the guest. *)

Definition ELEM (V N SIZE : Z) : Z := (V .>> (N * SIZE)) .& ((1 .<< SIZE) - 1).

Definition neon_qunzip8 (regs : list Z) (rd rm : Z) : option (list Z) :=
  zm0 ← arr_get regs rm;
  zm1 ← arr_get regs (rm + 1);
  zd0 ← arr_get regs rd;
  zd1 ← arr_get regs (rd + 1);
  let d0 := ELEM zd0 0 8 .| (ELEM zd0 2 8 .<< 8) .| (ELEM zd0 4 8 .<< 16) .| (ELEM zd0 6 8 .<< 24)
    .| (ELEM zd1 0 8 .<< 32) .| (ELEM zd1 2 8 .<< 40) .| (ELEM zd1 4 8 .<< 48) .| (ELEM zd1 6 8 .<< 56) in
  let d1 := ELEM zm0 0 8 .| (ELEM zm0 2 8 .<< 8) .| (ELEM zm0 4 8 .<< 16) .| (ELEM zm0 6 8 .<< 24)
    .| (ELEM zm1 0 8 .<< 32) .| (ELEM zm1 2 8 .<< 40) .| (ELEM zm1 4 8 .<< 48) .| (ELEM zm1 6 8 .<< 56) in
  let m0 := ELEM zd0 1 8 .| (ELEM zd0 3 8 .<< 8) .| (ELEM zd0 5 8 .<< 16) .| (ELEM zd0 7 8 .<< 24)
    .| (ELEM zd1 1 8 .<< 32) .| (ELEM zd1 3 8 .<< 40) .| (ELEM zd1 5 8 .<< 48) .| (ELEM zd1 7 8 .<< 56) in
  let m1 := ELEM zm0 1 8 .| (ELEM zm0 3 8 .<< 8) .| (ELEM zm0 5 8 .<< 16) .| (ELEM zm0 7 8 .<< 24)
    .| (ELEM zm1 1 8 .<< 32) .| (ELEM zm1 3 8 .<< 40) .| (ELEM zm1 5 8 .<< 48) .| (ELEM zm1 7 8 .<< 56) in
  regs ← arr_set regs rm m0;
  regs ← arr_set regs (rm + 1) m1;
  regs ← arr_set regs rd d0;
  arr_set regs (rd + 1) d1.

Definition neon_qunzip16 (regs : list Z) (rd rm : Z) : option (list Z) :=
  zm0 ← arr_get regs rm;
  zm1 ← arr_get regs (rm + 1);
  zd0 ← arr_get regs rd;
  zd1 ← arr_get regs (rd + 1);
  let d0 := ELEM zd0 0 16 .| (ELEM zd0 2 16 .<< 16) .| (ELEM zd1 0 16 .<< 32) .| (ELEM zd1 2 16 .<< 48) in
  let d1 := ELEM zm0 0 16 .| (ELEM zm0 2 16 .<< 16) .| (ELEM zm1 0 16 .<< 32) .| (ELEM zm1 2 16 .<< 48) in
  let m0 := ELEM zd0 1 16 .| (ELEM zd0 3 16 .<< 16) .| (ELEM zd1 1 16 .<< 32) .| (ELEM zd1 3 16 .<< 48) in
  let m1 := ELEM zm0 1 16 .| (ELEM zm0 3 16 .<< 16) .| (ELEM zm1 1 16 .<< 32) .| (ELEM zm1 3 16 .<< 48) in
  regs ← arr_set regs rm m0;
  regs ← arr_set regs (rm + 1) m1;
  regs ← arr_set regs rd d0;
  arr_set regs (rd + 1) d1.

Definition neon_qunzip32 (regs : list Z) (rd rm : Z) : option (list Z) :=
  zm0 ← arr_get regs rm;
  zm1 ← arr_get regs (rm + 1);
  zd0 ← arr_get regs rd;
  zd1 ← arr_get regs (rd + 1);
  let d0 := ELEM zd0 0 32 .| (ELEM zd1 0 32 .<< 32) in
  let d1 := ELEM zm0 0 32 .| (ELEM zm1 0 32 .<< 32) in
  let m0 := ELEM zd0 1 32 .| (ELEM zd1 1 32 .<< 32) in
  let m1 := ELEM zm0 1 32 .| (ELEM zm1 1 32 .<< 32) in
  regs ← arr_set regs rm m0;
  regs ← arr_set regs (rm + 1) m1;
  regs ← arr_set regs rd d0;
  arr_set regs (rd + 1) d1.

Definition neon_unzip8 (regs : list Z) (rd rm : Z) : option (list Z) :=
  zm ← arr_get regs rm;
  zd ← arr_get regs rd;
  let d0 := ELEM zd 0 8 .| (ELEM zd 2 8 .<< 8) .| (ELEM zd 4 8 .<< 16) .| (ELEM zd 6 8 .<< 24)
    .| (ELEM zm 0 8 .<< 32) .| (ELEM zm 2 8 .<< 40) .| (ELEM zm 4 8 .<< 48) .| (ELEM zm 6 8 .<< 56) in
  let m0 := ELEM zd 1 8 .| (ELEM zd 3 8 .<< 8) .| (ELEM zd 5 8 .<< 16) .| (ELEM zd 7 8 .<< 24)
    .| (ELEM zm 1 8 .<< 32) .| (ELEM zm 3 8 .<< 40) .| (ELEM zm 5 8 .<< 48) .| (ELEM zm 7 8 .<< 56) in
  regs ← arr_set regs rm m0;
  arr_set regs rd d0.

Definition neon_unzip16 (regs : list Z) (rd rm : Z) : option (list Z) :=
  zm ← arr_get regs rm;
  zd ← arr_get regs rd;
  let d0 := ELEM zd 0 16 .| (ELEM zd 2 16 .<< 16) .| (ELEM zm 0 16 .<< 32) .| (ELEM zm 2 16 .<< 48) in
  let m0 := ELEM zd 1 16 .| (ELEM zd 3 16 .<< 16) .| (ELEM zm 1 16 .<< 32) .| (ELEM zm 3 16 .<< 48) in
  regs ← arr_set regs rm m0;
  arr_set regs rd d0.

Definition neon_qzip8 (regs : list Z) (rd rm : Z) : option (list Z) :=
  zm0 ← arr_get regs rm;
  zm1 ← arr_get regs (rm + 1);
  zd0 ← arr_get regs rd;
  zd1 ← arr_get regs (rd + 1);
  let d0 := ELEM zd0 0 8 .| (ELEM zm0 0 8 .<< 8) .| (ELEM zd0 1 8 .<< 16) .| (ELEM zm0 1 8 .<< 24)
    .| (ELEM zd0 2 8 .<< 32) .| (ELEM zm0 2 8 .<< 40) .| (ELEM zd0 3 8 .<< 48) .| (ELEM zm0 3 8 .<< 56) in
  let d1 := ELEM zd0 4 8 .| (ELEM zm0 4 8 .<< 8) .| (ELEM zd0 5 8 .<< 16) .| (ELEM zm0 5 8 .<< 24)
    .| (ELEM zd0 6 8 .<< 32) .| (ELEM zm0 6 8 .<< 40) .| (ELEM zd0 7 8 .<< 48) .| (ELEM zm0 7 8 .<< 56) in
  let m0 := ELEM zd1 0 8 .| (ELEM zm1 0 8 .<< 8) .| (ELEM zd1 1 8 .<< 16) .| (ELEM zm1 1 8 .<< 24)
    .| (ELEM zd1 2 8 .<< 32) .| (ELEM zm1 2 8 .<< 40) .| (ELEM zd1 3 8 .<< 48) .| (ELEM zm1 3 8 .<< 56) in
  let m1 := ELEM zd1 4 8 .| (ELEM zm1 4 8 .<< 8) .| (ELEM zd1 5 8 .<< 16) .| (ELEM zm1 5 8 .<< 24)
    .| (ELEM zd1 6 8 .<< 32) .| (ELEM zm1 6 8 .<< 40) .| (ELEM zd1 7 8 .<< 48) .| (ELEM zm1 7 8 .<< 56) in
  regs ← arr_set regs rm m0;
  regs ← arr_set regs (rm + 1) m1;
  regs ← arr_set regs rd d0;
  arr_set regs (rd + 1) d1.

Definition neon_qzip16 (regs : list Z) (rd rm : Z) : option (list Z) :=
  zm0 ← arr_get regs rm;
  zm1 ← arr_get regs (rm + 1);
  zd0 ← arr_get regs rd;
  zd1 ← arr_get regs (rd + 1);
  let d0 := ELEM zd0 0 16 .| (ELEM zm0 0 16 .<< 16) .| (ELEM zd0 1 16 .<< 32) .| (ELEM zm0 1 16 .<< 48) in
  let d1 := ELEM zd0 2 16 .| (ELEM zm0 2 16 .<< 16) .| (ELEM zd0 3 16 .<< 32) .| (ELEM zm0 3 16 .<< 48) in
  let m0 := ELEM zd1 0 16 .| (ELEM zm1 0 16 .<< 16) .| (ELEM zd1 1 16 .<< 32) .| (ELEM zm1 1 16 .<< 48) in
  let m1 := ELEM zd1 2 16 .| (ELEM zm1 2 16 .<< 16) .| (ELEM zd1 3 16 .<< 32) .| (ELEM zm1 3 16 .<< 48) in
  regs ← arr_set regs rm m0;
  regs ← arr_set regs (rm + 1) m1;
  regs ← arr_set regs rd d0;
  arr_set regs (rd + 1) d1.

Definition neon_qzip32 (regs : list Z) (rd rm : Z) : option (list Z) :=
  zm0 ← arr_get regs rm;
  zm1 ← arr_get regs (rm + 1);
  zd0 ← arr_get regs rd;
  zd1 ← arr_get regs (rd + 1);
  let d0 := ELEM zd0 0 32 .| (ELEM zm0 0 32 .<< 32) in
  let d1 := ELEM zd0 1 32 .| (ELEM zm0 1 32 .<< 32) in
  let m0 := ELEM zd1 0 32 .| (ELEM zm1 0 32 .<< 32) in
  let m1 := ELEM zd1 1 32 .| (ELEM zm1 1 32 .<< 32) in
  regs ← arr_set regs rm m0;
  regs ← arr_set regs (rm + 1) m1;
  regs ← arr_set regs rd d0;
  arr_set regs (rd + 1) d1.

Definition neon_zip8 (regs : list Z) (rd rm : Z) : option (list Z) :=
  zm ← arr_get regs rm;
  zd ← arr_get regs rd;
  let d0 := ELEM zd 0 8 .| (ELEM zm 0 8 .<< 8) .| (ELEM zd 1 8 .<< 16) .| (ELEM zm 1 8 .<< 24)
    .| (ELEM zd 2 8 .<< 32) .| (ELEM zm 2 8 .<< 40) .| (ELEM zd 3 8 .<< 48) .| (ELEM zm 3 8 .<< 56) in
  let m0 := ELEM zd 4 8 .| (ELEM zm 4 8 .<< 8) .| (ELEM zd 5 8 .<< 16) .| (ELEM zm 5 8 .<< 24)
    .| (ELEM zd 6 8 .<< 32) .| (ELEM zm 6 8 .<< 40) .| (ELEM zd 7 8 .<< 48) .| (ELEM zm 7 8 .<< 56) in
  regs ← arr_set regs rm m0;
  arr_set regs rd d0.

Definition neon_zip16 (regs : list Z) (rd rm : Z) : option (list Z) :=
  zm ← arr_get regs rm;
  zd ← arr_get regs rd;
  let d0 := ELEM zd 0 16 .| (ELEM zm 0 16 .<< 16) .| (ELEM zd 1 16 .<< 32) .| (ELEM zm 1 16 .<< 48) in
  let m0 := ELEM zd 2 16 .| (ELEM zm 2 16 .<< 16) .| (ELEM zd 3 16 .<< 32) .| (ELEM zm 3 16 .<< 48) in
  regs ← arr_set regs rm m0;
  arr_set regs rd d0.
