(* ===== verification/GuestArith.v ===== *)
(** The integer helpers of the guest CPU (target-arm/op_helper.c and helper.c): saturation with the
    sticky flag Q, shifts by a register with the carry, the parallel additions and subtractions of
    ARMv6 (op_addsub.h), division, bit operations and table lookup.  The flags a helper reads or
    writes are arguments and results. *)

From Stdlib Require Import ZArith.
From stdpp Require Import base option list.
From S2P Require Import Prelude Neon.

(** ** Saturation; [QF] is the flag Q *)

Definition add_setq (QF a b : Z) : Z * Z :=
  let res := u32 (a + b) in
  if negb ((res .^ a) .& SIGNBIT =? 0) && ((a .^ b) .& SIGNBIT =? 0) then (res, 1) else (res, QF).
Definition add_saturate (QF a b : Z) : Z * Z :=
  let res := u32 (a + b) in
  if negb ((res .^ a) .& SIGNBIT =? 0) && ((a .^ b) .& SIGNBIT =? 0) then
    (not32 (u32 (s32 a .>> 31) .^ SIGNBIT), 1)
  else (res, QF).
Definition sub_saturate (QF a b : Z) : Z * Z :=
  let res := u32 (a - b) in
  if negb ((res .^ a) .& SIGNBIT =? 0) && negb ((a .^ b) .& SIGNBIT =? 0) then
    (not32 (u32 (s32 a .>> 31) .^ SIGNBIT), 1)
  else (res, QF).
Definition double_saturate (QF val : Z) : Z * Z :=
  if 0x40000000 <=? val then (not32 SIGNBIT, 1)
  else if val <=? s32 0xc0000000 then (SIGNBIT, 1) else (u32 (val .<< 1), QF).
Definition add_usaturate (QF a b : Z) : Z * Z :=
  let res := u32 (a + b) in if res <? a then (not32 0, 1) else (res, QF).
Definition sub_usaturate (QF a b : Z) : Z * Z :=
  let res := u32 (a - b) in if a <? res then (0, 1) else (res, QF).

Definition do_ssat (QF val shift : Z) : Z * Z :=
  let top := val .>> shift in
  let mask := u32 (u32 (1 .<< shift) - 1) in
  if 0 <? top then (mask, 1) else if top <? -1 then (not32 mask, 1) else (u32 val, QF).
Definition do_usat (QF val shift : Z) : Z * Z :=
  let max := u32 (u32 (1 .<< shift) - 1) in
  if val <? 0 then (0, 1) else if max <? u32 val then (max, 1) else (u32 val, QF).
Definition ssat (QF x shift : Z) : Z * Z := do_ssat QF (s32 x) shift.
Definition ssat16 (QF x shift : Z) : Z * Z :=
  let '(lo, QF) := do_ssat QF (s16 x) shift in
  let '(hi, QF) := do_ssat QF (s32 x .>> 16) shift in
  (u16 lo .| u32 (hi .<< 16), QF).
Definition usat (QF x shift : Z) : Z * Z := do_usat QF (s32 x) shift.
Definition usat16 (QF x shift : Z) : Z * Z :=
  let '(lo, QF) := do_usat QF (s16 x) shift in
  let '(hi, QF) := do_usat QF (s32 x .>> 16) shift in
  (u16 lo .| u32 (hi .<< 16), QF).

(** ** Shifts by a register; [CF] is the carry *)

Definition shl_cc (CF x i : Z) : Z * Z :=
  let shift := i .& 0xff in
  if 32 <=? shift then (0, if shift =? 32 then x .& 1 else 0)
  else if negb (shift =? 0) then (u32 (x .<< shift), (x .>> (32 - shift)) .& 1)
  else (x, CF).
Definition shr_cc (CF x i : Z) : Z * Z :=
  let shift := i .& 0xff in
  if 32 <=? shift then (0, if shift =? 32 then (x .>> 31) .& 1 else 0)
  else if negb (shift =? 0) then (x .>> shift, (x .>> (shift - 1)) .& 1)
  else (x, CF).
Definition sar_cc (CF x i : Z) : Z * Z :=
  let shift := i .& 0xff in
  if 32 <=? shift then (u32 (s32 x .>> 31), (x .>> 31) .& 1)
  else if negb (shift =? 0) then (u32 (s32 x .>> shift), (x .>> (shift - 1)) .& 1)
  else (x, CF).
Definition ror_cc (CF x i : Z) : Z * Z :=
  let shift1 := i .& 0xff in
  let shift := shift1 .& 0x1f in
  if shift =? 0 then (x, if negb (shift1 =? 0) then (x .>> 31) .& 1 else CF)
  else ((x .>> shift) .| u32 (x .<< (32 - shift)), (x .>> (shift - 1)) .& 1).

(** ** Extension, division, bits *)

Definition sxtb16 (x : Z) : Z := u16 (s8 x) .| u32 (u32 (s8 (x .>> 16)) .<< 16).
Definition uxtb16 (x : Z) : Z := u16 (u8 x) .| (u8 (x .>> 16) .<< 16).
Definition clz32 (val : Z) : Z := if val =? 0 then 32 else 31 - Z.log2 val.
Definition clz (x : Z) : Z := clz32 x.
Definition sdiv (num den : Z) : Z :=
  if den =? 0 then 0
  else if (num =? - 2 ^ 31) && (den =? -1) then - 2 ^ 31 else Z.quot num den.
Definition udiv (num den : Z) : Z := if den =? 0 then 0 else num / den.
Definition rbit (x : Z) : Z :=
  let x := ((x .& 0xff000000) .>> 24) .| ((x .& 0x00ff0000) .>> 8) .| ((x .& 0x0000ff00) .<< 8) .| ((x .& 0x000000ff) .<< 24) in
  let x := ((x .& 0xf0f0f0f0) .>> 4) .| ((x .& 0x0f0f0f0f) .<< 4) in
  ((x .& 0x88888888) .>> 3) .| ((x .& 0x44444444) .>> 1) .| ((x .& 0x22222222) .<< 1) .| ((x .& 0x11111111) .<< 3).

Definition do_usad (a b : Z) : Z := if b <? a then a - b else b - a.
Definition usad8 (a b : Z) : Z :=
  u32 (do_usad (u8 a) (u8 b) + do_usad (u8 (a .>> 8)) (u8 (b .>> 8))
       + do_usad (u8 (a .>> 16)) (u8 (b .>> 16)) + do_usad (u8 (a .>> 24)) (u8 (b .>> 24))).
Definition sel_flags (flags a b : Z) : Z :=
  let mask := if negb (flags .& 1 =? 0) then 0xff else 0 in
  let mask := if negb (flags .& 2 =? 0) then mask .| 0xff00 else mask in
  let mask := if negb (flags .& 4 =? 0) then mask .| 0xff0000 else mask in
  let mask := if negb (flags .& 8 =? 0) then mask .| 0xff000000 else mask in
  (a .& mask) .| (b .& not32 mask).

(** One round of the loop of [neon_tbl]; [table] are the registers from [rn] on. *)
Definition tbl_byte (regs : list Z) (ireg def rn maxindex shift val : Z) : option Z :=
  let index := (ireg .>> shift) .& 0xff in
  if index <? maxindex then
    d ← arr_get regs (rn + (index .>> 3));
    let tmp := (d .>> ((index .& 7) .<< 3)) .& 0xff in
    Some (val .| u32 (tmp .<< shift))
  else Some (val .| (def .& u32 (0xff .<< shift))).
Definition neon_tbl (regs : list Z) (ireg def rn maxindex : Z) : option Z :=
  val ← tbl_byte regs ireg def rn maxindex 0 0;
  val ← tbl_byte regs ireg def rn maxindex 8 val;
  val ← tbl_byte regs ireg def rn maxindex 16 val;
  tbl_byte regs ireg def rn maxindex 24 val.

(** ** Parallel addition and subtraction

    The macros work on the result and the flags GE; the families without flags leave them alone. *)

Definition simd : Type := Z * Z.
Definition RESULT (val n width : Z) (st : simd) : simd := (st.1 .| (wrap width val .<< (n * width)), st.2).
Definition set_ge (flags : Z) (st : simd) : simd := (st.1, st.2 .| flags).

Record family := Family {
  ADD16 : Z → Z → Z → simd → simd;
  SUB16 : Z → Z → Z → simd → simd;
  ADD8 : Z → Z → Z → simd → simd;
  SUB8 : Z → Z → Z → simd → simd;
}.

Section AddSub.
Variable f : family.
Definition add16 (a b : Z) : simd := ADD16 f (a .>> 16) (b .>> 16) 1 (ADD16 f a b 0 (0, 0)).
Definition add8 (a b : Z) : simd :=
  ADD8 f (a .>> 24) (b .>> 24) 3 (ADD8 f (a .>> 16) (b .>> 16) 2 (ADD8 f (a .>> 8) (b .>> 8) 1 (ADD8 f a b 0 (0, 0)))).
Definition sub16 (a b : Z) : simd := SUB16 f (a .>> 16) (b .>> 16) 1 (SUB16 f a b 0 (0, 0)).
Definition sub8 (a b : Z) : simd :=
  SUB8 f (a .>> 24) (b .>> 24) 3 (SUB8 f (a .>> 16) (b .>> 16) 2 (SUB8 f (a .>> 8) (b .>> 8) 1 (SUB8 f a b 0 (0, 0)))).
Definition subaddx (a b : Z) : simd := SUB16 f (a .>> 16) b 1 (ADD16 f a (b .>> 16) 0 (0, 0)).
Definition addsubx (a b : Z) : simd := ADD16 f (a .>> 16) b 1 (SUB16 f a (b .>> 16) 0 (0, 0)).
End AddSub.

(** Signed saturating: the prefix q. *)
Definition add16_sat (a b : Z) : Z :=
  let res := u16 (a + b) in
  if negb ((res .^ a) .& 0x8000 =? 0) && ((a .^ b) .& 0x8000 =? 0) then
    if negb (a .& 0x8000 =? 0) then 0x8000 else 0x7fff
  else res.
Definition add8_sat (a b : Z) : Z :=
  let res := u8 (a + b) in
  if negb ((res .^ a) .& 0x80 =? 0) && ((a .^ b) .& 0x80 =? 0) then
    if negb (a .& 0x80 =? 0) then 0x80 else 0x7f
  else res.
Definition sub16_sat (a b : Z) : Z :=
  let res := u16 (a - b) in
  if negb ((res .^ a) .& 0x8000 =? 0) && negb ((a .^ b) .& 0x8000 =? 0) then
    if negb (a .& 0x8000 =? 0) then 0x8000 else 0x7fff
  else res.
Definition sub8_sat (a b : Z) : Z :=
  let res := u8 (a - b) in
  if negb ((res .^ a) .& 0x80 =? 0) && negb ((a .^ b) .& 0x80 =? 0) then
    if negb (a .& 0x80 =? 0) then 0x80 else 0x7f
  else res.
Definition q_family : family := {|
  ADD16 := λ a b n, RESULT (add16_sat (u16 a) (u16 b)) n 16;
  SUB16 := λ a b n, RESULT (sub16_sat (u16 a) (u16 b)) n 16;
  ADD8 := λ a b n, RESULT (add8_sat (u8 a) (u8 b)) n 8;
  SUB8 := λ a b n, RESULT (sub8_sat (u8 a) (u8 b)) n 8;
|}.

(** Unsigned saturating: uq. *)
Definition add16_usat (a b : Z) : Z := let res := u16 (a + b) in if res <? a then 0xffff else res.
Definition sub16_usat (a b : Z) : Z := if b <? a then u16 (a - b) else 0.
Definition add8_usat (a b : Z) : Z := let res := u8 (a + b) in if res <? a then 0xff else res.
Definition sub8_usat (a b : Z) : Z := if b <? a then u8 (a - b) else 0.
Definition uq_family : family := {|
  ADD16 := λ a b n, RESULT (add16_usat (u16 a) (u16 b)) n 16;
  SUB16 := λ a b n, RESULT (sub16_usat (u16 a) (u16 b)) n 16;
  ADD8 := λ a b n, RESULT (add8_usat (u8 a) (u8 b)) n 8;
  SUB8 := λ a b n, RESULT (sub8_usat (u8 a) (u8 b)) n 8;
|}.

(** Signed modulo: s. *)
Definition SARITH16 (op : Z → Z → Z) (a b n : Z) (st : simd) : simd :=
  let sum := op (s16 a) (s16 b) in
  let st := RESULT sum n 16 st in
  if 0 <=? sum then set_ge (3 .<< (n * 2)) st else st.
Definition SARITH8 (op : Z → Z → Z) (a b n : Z) (st : simd) : simd :=
  let sum := op (s8 a) (s8 b) in
  let st := RESULT sum n 8 st in
  if 0 <=? sum then set_ge (1 .<< n) st else st.
Definition s_family : family := {|
  ADD16 := SARITH16 Z.add; SUB16 := SARITH16 Z.sub; ADD8 := SARITH8 Z.add; SUB8 := SARITH8 Z.sub;
|}.

(** Unsigned modulo: u. *)
Definition u_family : family := {|
  ADD16 := λ a b n st,
    let sum := u32 (u16 a + u16 b) in
    let st := RESULT sum n 16 st in
    if sum .>> 16 =? 1 then set_ge (3 .<< (n * 2)) st else st;
  SUB16 := λ a b n st,
    let sum := u32 (u16 a - u16 b) in
    let st := RESULT sum n 16 st in
    if sum .>> 16 =? 0 then set_ge (3 .<< (n * 2)) st else st;
  ADD8 := λ a b n st,
    let sum := u32 (u8 a + u8 b) in
    let st := RESULT sum n 8 st in
    if sum .>> 8 =? 1 then set_ge (1 .<< n) st else st;
  SUB8 := λ a b n st,
    let sum := u32 (u8 a - u8 b) in
    let st := RESULT sum n 8 st in
    if sum .>> 8 =? 0 then set_ge (1 .<< n) st else st;
|}.

(** Halving: sh and uh. *)
Definition sh_family : family := {|
  ADD16 := λ a b n, RESULT ((s16 a + s16 b) .>> 1) n 16;
  SUB16 := λ a b n, RESULT ((s16 a - s16 b) .>> 1) n 16;
  ADD8 := λ a b n, RESULT ((s8 a + s8 b) .>> 1) n 8;
  SUB8 := λ a b n, RESULT ((s8 a - s8 b) .>> 1) n 8;
|}.
Definition uh_family : family := {|
  ADD16 := λ a b n, RESULT (u32 (u16 a + u16 b) .>> 1) n 16;
  SUB16 := λ a b n, RESULT (u32 (u16 a - u16 b) .>> 1) n 16;
  ADD8 := λ a b n, RESULT (u32 (u8 a + u8 b) .>> 1) n 8;
  SUB8 := λ a b n, RESULT (u32 (u8 a - u8 b) .>> 1) n 8;
|}.
