(* ===== verification/Cpsr.v ===== *)
(** The program status register of the guest (cpu.h and helper.c of target-arm): most of its bits
    are kept in fields of their own, [cpsr_read] puts them together and [cpsr_write] takes them
    apart.  The simulator is built for user-mode emulation, where the processor is never in a secure
    state and leaving the user mode ends the program ([None]). *)

From Stdlib Require Import ZArith.
From stdpp Require Import base option list.
From S2P Require Import Prelude Neon.

Definition CPSR_M : Z := 0x1f.
Definition CPSR_T : Z := 1 .<< 5.
Definition CPSR_F : Z := 1 .<< 6.
Definition CPSR_I : Z := 1 .<< 7.
Definition CPSR_A : Z := 1 .<< 8.
Definition CPSR_IT_2_7 : Z := 0xfc00.
Definition CPSR_GE : Z := 0xf .<< 16.
Definition CPSR_IL : Z := 1 .<< 20.
Definition CPSR_RESERVED : Z := 7 .<< 21.
Definition CPSR_J : Z := 1 .<< 24.
Definition CPSR_IT_0_1 : Z := 3 .<< 25.
Definition CPSR_Z : Z := 1 .<< 30.
Definition CPSR_NZCV : Z := 0xf .<< 28.
Definition CPSR_AIF : Z := CPSR_A .| CPSR_I .| CPSR_F.
Definition CPSR_IT : Z := CPSR_IT_0_1 .| CPSR_IT_2_7.
Definition CACHED_CPSR_BITS : Z := CPSR_T .| CPSR_AIF .| CPSR_GE .| CPSR_IT .| CPSR_Q .| CPSR_NZCV.
Definition CPSR_USER : Z := CPSR_NZCV .| CPSR_Q .| CPSR_GE.
Definition CPSR_EXEC : Z := CPSR_T .| CPSR_IT .| CPSR_J .| CPSR_IL.

Definition SCR_FW : Z := 1 .<< 4.
Definition SCR_AW : Z := 1 .<< 5.
Definition SCTLR_NMFI : Z := 1 .<< 27.

Definition ARM_CPU_MODE_USR : Z := 0x10.
Definition ARM_CPU_MODE_FIQ : Z := 0x11.
Definition ARM_CPU_MODE_IRQ : Z := 0x12.
Definition ARM_CPU_MODE_SVC : Z := 0x13.
Definition ARM_CPU_MODE_MON : Z := 0x16.
Definition ARM_CPU_MODE_ABT : Z := 0x17.
Definition ARM_CPU_MODE_UND : Z := 0x1b.
Definition ARM_CPU_MODE_SYS : Z := 0x1f.

(** The bits of [features] that [cpsr_write] looks at. *)
Definition ARM_FEATURE_V8 : Z := 32.
Definition ARM_FEATURE_EL2 : Z := 38.
Definition ARM_FEATURE_EL3 : Z := 39.

(** The members of [CPUARMState] the status register is made of. *)
Record CPUARMState := {
  uncached_cpsr : Z;
  CF : Z;
  VF : Z;
  NF : Z;
  ZF : Z;
  QF : Z;
  GE : Z;
  thumb : Z;
  condexec_bits : Z;
  daif : Z;
  scr_el3 : Z;
  sctlr_ns : Z;
  features : Z;
}.

#[export] Instance CPUARMState_settable : Settable CPUARMState := λ x, {|
  uncached_cpsr := uncached_cpsr x; CF := CF x; VF := VF x; NF := NF x; ZF := ZF x; QF := QF x; GE := GE x;
  thumb := thumb x; condexec_bits := condexec_bits x; daif := daif x; scr_el3 := scr_el3 x;
  sctlr_ns := sctlr_ns x; features := features x;
|}.

Definition arm_feature (env : CPUARMState) (feature : Z) : bool :=
  negb (features env .& (1 .<< feature) =? 0).
Definition arm_is_secure (env : CPUARMState) : bool := false.

Definition bad_mode_switch (env : CPUARMState) (mode : Z) : bool :=
  if existsb (Z.eqb mode) [ARM_CPU_MODE_USR; ARM_CPU_MODE_SYS; ARM_CPU_MODE_SVC; ARM_CPU_MODE_ABT; ARM_CPU_MODE_UND;
                          ARM_CPU_MODE_IRQ; ARM_CPU_MODE_FIQ] then false
  else if mode =? ARM_CPU_MODE_MON then negb (arm_is_secure env)
  else true.

(** [cpu_abort] for every mode but the user mode. *)
Definition switch_mode (env : CPUARMState) (mode : Z) : option CPUARMState :=
  if negb (mode =? ARM_CPU_MODE_USR) then None else Some env.

Definition cpsr_read (env : CPUARMState) : Z :=
  let ZF := if ZF env =? 0 then 1 else 0 in
  u32 (uncached_cpsr env .| (NF env .& 0x80000000) .| (ZF .<< 30) .| (CF env .<< 29)
       .| ((VF env .& 0x80000000) .>> 3) .| (QF env .<< 27) .| (thumb env .<< 5)
       .| ((condexec_bits env .& 3) .<< 25) .| ((condexec_bits env .& 0xfc) .<< 8)
       .| (GE env .<< 16) .| (daif env .& CPSR_AIF)).

(** The first part of [cpsr_write]: the flags that have fields of their own. *)
Definition write_flags (env : CPUARMState) (val mask : Z) : CPUARMState :=
  let env := if negb (mask .& CPSR_NZCV =? 0) then
    env <| ZF := not32 val .& CPSR_Z |> <| NF := val |> <| CF := (val .>> 29) .& 1 |>
        <| VF := u32 (val .<< 3) .& 0x80000000 |> else env in
  let env := if negb (mask .& CPSR_Q =? 0) then
    env <| QF := if negb (val .& CPSR_Q =? 0) then 1 else 0 |> else env in
  let env := if negb (mask .& CPSR_T =? 0) then
    env <| thumb := if negb (val .& CPSR_T =? 0) then 1 else 0 |> else env in
  let env := if negb (mask .& CPSR_IT_0_1 =? 0) then
    env <| condexec_bits := (condexec_bits env .& not32 3) .| ((val .>> 25) .& 3) |> else env in
  let env := if negb (mask .& CPSR_IT_2_7 =? 0) then
    env <| condexec_bits := (condexec_bits env .& 3) .| ((val .>> 8) .& 0xfc) |> else env in
  if negb (mask .& CPSR_GE =? 0) then env <| GE := (val .>> 16) .& 0xf |> else env.

(** Whether the bits A and F may be changed. *)
Definition check_daif (env : CPUARMState) (val mask : Z) : Z :=
  if negb (arm_feature env ARM_FEATURE_V8) && arm_feature env ARM_FEATURE_EL3 &&
     negb (arm_feature env ARM_FEATURE_EL2) && negb (arm_is_secure env) then
    let changed_daif := u32 (daif env .^ val) .& mask in
    let mask := if negb (changed_daif .& CPSR_A =? 0) && (scr_el3 env .& SCR_AW =? 0)
                then mask .& not32 CPSR_A else mask in
    if negb (changed_daif .& CPSR_F =? 0) then
      let mask := if scr_el3 env .& SCR_FW =? 0 then mask .& not32 CPSR_F else mask in
      if negb (sctlr_ns env .& SCTLR_NMFI =? 0) && negb (val .& CPSR_F =? 0)
      then mask .& not32 CPSR_F else mask
    else mask
  else mask.

Definition cpsr_write (env : CPUARMState) (val mask : Z) : option CPUARMState :=
  let env := write_flags env val mask in
  let mask := check_daif env val mask in
  let env := env <| daif := daif env .& not32 (CPSR_AIF .& mask) |> in
  let env := env <| daif := daif env .| (val .& CPSR_AIF .& mask) |> in
  '(env, mask) ←
    (if negb ((uncached_cpsr env .^ val) .& mask .& CPSR_M =? 0) then
       if bad_mode_switch env (val .& CPSR_M) then Some (env, mask .& not32 CPSR_M)
       else env ← switch_mode env (val .& CPSR_M); Some (env, mask)
     else Some (env, mask));
  let mask := mask .& not32 CACHED_CPSR_BITS in
  Some (env <| uncached_cpsr := (uncached_cpsr env .& not32 mask) .| (val .& mask) |>).

(** The helpers translated code calls. *)
Definition helper_cpsr_read (env : CPUARMState) : Z := cpsr_read env .& not32 (CPSR_EXEC .| CPSR_RESERVED).
Definition helper_cpsr_write (env : CPUARMState) (val mask : Z) : option CPUARMState := cpsr_write env val mask.
