(* ===== verification/NeonLanes.v ===== *)
(** Elements of a word: packing and unpacking are inverse to each other, so a helper that unpacks,
    works on every element and packs again is described by what it does to one element. *)

From Stdlib Require Import ZArith Lia.
From stdpp Require Import base tactics numbers option list list_numbers.
From S2P Require Import Prelude Bits Neon.

(** ** Types *)

Definition lo (t : elem) : Z := if signed t then - 2 ^ (esize t - 1) else 0.
Definition hi (t : elem) : Z := if signed t then 2 ^ (esize t - 1) - 1 else 2 ^ esize t - 1.
Definition fits_elem (t : elem) (v : Z) : Prop := lo t ≤ v ≤ hi t.
Definition fitsb (t : elem) (v : Z) : bool := (lo t <=? v) && (v <=? hi t).
(** The value of the type that is nearest. *)
Definition sat (t : elem) (v : Z) : Z := Z.max (lo t) (Z.min (hi t) v).

Lemma fitsb_spec t v : reflect (fits_elem t v) (fitsb t v).
Proof. apply iff_reflect. unfold fits_elem, fitsb. rewrite andb_true_iff, !Z.leb_le. done. Qed.

Lemma pow_half w : 0 < w → 2 ^ w = 2 * 2 ^ (w - 1).
Proof. intros. rewrite <- Z.pow_succ_r by lia. f_equal. lia. Qed.

Lemma wrap_range w v : 0 ≤ w → 0 ≤ wrap w v < 2 ^ w.
Proof. intros. apply Z.mod_pos_bound. lia. Qed.

Lemma wrap_small w v : 0 ≤ v < 2 ^ w → wrap w v = v.
Proof. apply Z.mod_small. Qed.

Lemma swrap_range w v : 0 < w → - 2 ^ (w - 1) ≤ swrap w v < 2 ^ (w - 1).
Proof.
  intros. unfold swrap. pose proof (pow_half w ltac:(done)). pose proof (Z.mod_pos_bound (v + 2 ^ (w - 1)) (2 ^ w) ltac:(lia)). lia.
Qed.

Lemma swrap_small w v : 0 < w → - 2 ^ (w - 1) ≤ v < 2 ^ (w - 1) → swrap w v = v.
Proof. intros. unfold swrap. pose proof (pow_half w ltac:(done)). rewrite Z.mod_small; lia. Qed.

Lemma wrap_wrap w v : wrap w (wrap w v) = wrap w v.
Proof. apply Zmod_mod. Qed.

Lemma wrap_swrap w v : 0 ≤ w → wrap w (swrap w v) = wrap w v.
Proof.
  intros. unfold wrap, swrap. rewrite Zminus_mod_idemp_l. f_equal. lia.
Qed.

Lemma swrap_wrap w v : 0 ≤ w → swrap w (wrap w v) = swrap w v.
Proof. intros. unfold wrap, swrap. by rewrite Zplus_mod_idemp_l. Qed.

Lemma swrap_swrap w v : 0 ≤ w → swrap w (swrap w v) = swrap w v.
Proof. intros. rewrite <- (swrap_wrap w (swrap w v)), wrap_swrap, swrap_wrap; done. Qed.

Lemma conv_fits t v : 0 < esize t → fits_elem t (conv t v).
Proof.
  intros Ht. unfold fits_elem, lo, hi, conv. destruct (signed t).
  - pose proof (swrap_range (esize t) v Ht). lia.
  - pose proof (wrap_range (esize t) v ltac:(lia)). lia.
Qed.

Lemma conv_small t v : 0 < esize t → fits_elem t v → conv t v = v.
Proof.
  unfold fits_elem, lo, hi, conv. destruct (signed t); intros.
  - apply swrap_small; lia.
  - apply wrap_small. lia.
Qed.

Lemma conv_conv t t' v : esize t = esize t' → 0 ≤ esize t → conv t (conv t' v) = conv t v.
Proof.
  intros E H. unfold conv. rewrite E in *. destruct (signed t), (signed t'); auto using wrap_wrap, wrap_swrap, swrap_wrap, swrap_swrap.
Qed.

Lemma wrap_conv t v : 0 ≤ esize t → wrap (esize t) (conv t v) = wrap (esize t) v.
Proof. intros. unfold conv. destruct (signed t); [by apply wrap_swrap|apply wrap_wrap]. Qed.

Lemma conv_wrap t v : 0 ≤ esize t → conv t (wrap (esize t) v) = conv t v.
Proof. intros. unfold conv. destruct (signed t); [by apply swrap_wrap|apply wrap_wrap]. Qed.

Lemma sat_fits t v : 0 < esize t → fits_elem t (sat t v).
Proof.
  intros Ht. unfold fits_elem, sat. pose proof (pow_half (esize t) Ht). pose proof (Z.pow_pos_nonneg 2 (esize t - 1) ltac:(lia) ltac:(lia)).
  assert (lo t ≤ hi t) by (unfold lo, hi; destruct (signed t); lia). lia.
Qed.

Lemma sat_id t v : fits_elem t v → sat t v = v.
Proof. unfold fits_elem, sat. lia. Qed.

(** ** Packing *)

Lemma bit_above w x n : 0 ≤ x < 2 ^ w → w ≤ n → Z.testbit x n = false.
Proof.
  intros Hx Hn. destruct (decide (0 ≤ w)) as [Hw|Hw]; [|rewrite Z.pow_neg_r in Hx; lia].
  rewrite Z.testbit_eqb by lia. pose proof (Z.pow_le_mono_r 2 w n ltac:(lia) Hn). by rewrite Z.div_small by lia.
Qed.

Lemma shiftl_lor w x y : 0 ≤ w → 0 ≤ x < 2 ^ w → x .| (y .<< w) = x + y * 2 ^ w.
Proof.
  intros Hw Hx. rewrite lor_add; [by rewrite Z.shiftl_mul_pow2|].
  apply Z.bits_inj'. intros n Hn. rewrite Z.land_spec, Z.bits_0, Z.shiftl_spec by done.
  destruct (Z.ltb_spec n w); [by rewrite (Z.testbit_neg_r y), andb_false_r by lia|].
  by rewrite (bit_above w x n) by lia.
Qed.

Lemma pack_cons t v vec : 0 < esize t → NEON_PACK t (v :: vec) = wrap (esize t) v + NEON_PACK t vec * 2 ^ esize t.
Proof. intros. cbn [NEON_PACK]. apply shiftl_lor; [lia|apply wrap_range; lia]. Qed.

Lemma pack_range t vec : 0 < esize t → 0 ≤ NEON_PACK t vec < 2 ^ (esize t * Z.of_nat (length vec)).
Proof.
  intros Ht. induction vec as [|v vec IH]; [simpl; rewrite Z.mul_0_r; lia|]. rewrite pack_cons by done. cbn [length].
  rewrite Nat2Z.inj_succ, Z.mul_succ_r, Z.pow_add_r by lia. pose proof (wrap_range (esize t) v ltac:(lia)). nia.
Qed.

Lemma pack_wrap t t' vec vec' :
  esize t = esize t' → wrap (esize t) <$> vec = wrap (esize t) <$> vec' → NEON_PACK t vec = NEON_PACK t' vec'.
Proof.
  intros E. revert vec'. induction vec as [|v vec IH]; intros [|v' vec'] H; [done..|]. simplify_list_eq. cbn [NEON_PACK].
  rewrite <- E. by rewrite H, (IH vec').
Qed.

Lemma elems_length size t val : 0 < esize t → 0 ≤ size → length (elems size t val) = Z.to_nat (size / esize t).
Proof. intros. unfold elems. rewrite length_fmap, length_seqZ. done. Qed.

Lemma elems_shift n t val : 0 < esize t → 0 ≤ n →
  elems (esize t * (n + 1)) t val = conv t val :: elems (esize t * n) t (val .>> esize t).
Proof.
  intros Ht Hn. unfold elems. rewrite !(Z.mul_comm (esize t)), !Z.div_mul by lia. rewrite seqZ_cons by lia. simpl.
  rewrite Z.mul_0_r, Z.shiftr_0_r. f_equal. replace (Z.pred (n + 1)) with n by lia. change (Z.succ 0) with (1 + 0).
  rewrite <- (fmap_add_seqZ 1 0 n), <- list_fmap_compose. apply list_fmap_ext. intros k i Hi. simpl.
  apply list_elem_of_lookup_2, elem_of_seqZ in Hi. rewrite Z.shiftr_shiftr by lia. do 2 f_equal. lia.
Qed.

Lemma elems_pack n t t' vec : esize t = esize t' → 0 < esize t → n = Z.of_nat (length vec) →
  elems (esize t * n) t (NEON_PACK t' vec) = conv t <$> vec.
Proof.
  intros E Ht ->. induction vec as [|v vec IH].
  - unfold elems. simpl. by rewrite Z.mul_0_r.
  - cbn [length]. rewrite Nat2Z.inj_succ. unfold Z.succ. rewrite elems_shift by lia. rewrite pack_cons, <- E by lia. rewrite fmap_cons. f_equal.
    + rewrite <- (conv_wrap t (_ + _)), <- (conv_wrap t v) by lia. f_equal. unfold wrap. by rewrite Z_mod_plus_full, Zmod_mod.
    + rewrite <- IH. f_equal. rewrite Z.shiftr_div_pow2, Z_div_plus_full by lia. rewrite Z.div_small; [lia|]. apply wrap_range. lia.
Qed.

(** A word is what its elements pack to. *)
Lemma pack_elems size n t t' val : size = esize t * n → esize t = esize t' → 0 < esize t → 0 ≤ n → 0 ≤ val < 2 ^ size →
  NEON_PACK t' (elems size t val) = val.
Proof.
  intros -> E Ht Hn. revert val. pattern n. apply natlike_ind; [| |done].
  - intros val Hv. unfold elems. rewrite Z.mul_0_r in *. simpl. rewrite Z.pow_0_r in Hv. lia.
  - clear n Hn. intros n Hn IH val Hv. unfold Z.succ. rewrite elems_shift by lia. rewrite pack_cons, <- E by lia. rewrite IH.
    + rewrite wrap_conv by lia. rewrite Z.shiftr_div_pow2 by lia. unfold wrap. pose proof (Z.div_mod val (2 ^ esize t) ltac:(lia)). lia.
    + rewrite Z.shiftr_div_pow2 by lia. unfold Z.succ in Hv. rewrite Z.mul_add_distr_l, Z.pow_add_r, Z.mul_1_r in Hv by lia.
      split; [apply Z.div_pos; lia|]. apply Z.div_lt_upper_bound; lia.
Qed.

Lemma elems_conv size t t' val : esize t = esize t' → 0 ≤ esize t → elems size t val = conv t <$> elems size t' val.
Proof.
  intros E H. unfold elems. rewrite <- E, <- list_fmap_compose. apply list_fmap_ext. intros _ i _. simpl. by rewrite conv_conv.
Qed.

Lemma elems_fit size t val : 0 < esize t → Forall (fits_elem t) (elems size t val).
Proof. intros. unfold elems. apply Forall_fmap, Forall_true. intros i. by apply conv_fits. Qed.

(** A word with one element. *)
Lemma elems_one size sg val : 0 < size → elems size (Elem size sg) val = [conv (Elem size sg) val].
Proof.
  intros H. replace (elems size) with (elems (esize (Elem size sg) * (0 + 1))) by (simpl; f_equal; lia). rewrite elems_shift by (simpl; lia).
  unfold elems. simpl. by rewrite Z.mul_0_r.
Qed.

Lemma pack_one t v : NEON_PACK t [v] = wrap (esize t) v.
Proof. cbn [NEON_PACK]. by rewrite Z.shiftl_0_l, Z.lor_0_r. Qed.

(** ** Saturation *)

(** The status word after an operation that is exact or not. *)
Definition qc (exact : bool) (fpscr : Z) : Z := if exact then fpscr else SET_QC fpscr.

Lemma qc_qc x y fpscr : qc y (qc x fpscr) = qc (x && y) fpscr.
Proof. destruct x, y; try done. unfold qc, SET_QC. cbn [andb]. by rewrite <- Z.lor_assoc, Z.lor_diag. Qed.

(** [op] combines the elements of type [t1] and [t2] of two words of [size] bits by [f], saturates
    to the type [t], and sets the flag when a value has been changed by that. *)
Definition saturating (size : Z) (t1 t2 t : elem) (f : Z → Z → Z) (op : Z → Z → Z → Z * Z) : Prop :=
  ∀ fpscr a b, 0 ≤ a < 2 ^ size → 0 ≤ b < 2 ^ size →
  op fpscr a b =
    (NEON_PACK t (zip_with (λ x y, sat t (f x y)) (elems size t1 a) (elems size t2 b)),
     qc (forallb id (zip_with (λ x y, fitsb t (f x y)) (elems size t1 a) (elems size t2 b))) fpscr).

(** The same of one element. *)
Definition saturates (t : elem) (v : Z) (fpscr : Z) (r : Z * Z) : Prop :=
  wrap (esize t) r.1 = wrap (esize t) (sat t v) ∧ r.2 = qc (fitsb t v) fpscr.

Lemma do_saturating t0 t1 t2 t f (g : fn) xs ys fpscr :
  (∀ fpscr x y, fits_elem t0 x → fits_elem t0 y → saturates t (f (conv t1 x) (conv t2 y)) fpscr (g fpscr x y)) →
  Forall (fits_elem t0) xs → Forall (fits_elem t0) ys →
  ∃ ds, NEON_DO g fpscr xs ys =
    (ds, qc (forallb id (zip_with (λ x y, fitsb t (f x y)) (conv t1 <$> xs) (conv t2 <$> ys))) fpscr) ∧
    wrap (esize t) <$> ds = wrap (esize t) <$> zip_with (λ x y, sat t (f x y)) (conv t1 <$> xs) (conv t2 <$> ys).
Proof.
  intros Hg Hxs. revert ys fpscr. induction Hxs as [|x xs Hx Hxs IH]; intros [|y ys] fpscr Hys; try (by exists []).
  apply Forall_cons in Hys as [Hy Hys]. cbn [NEON_DO]. destruct (Hg fpscr x y Hx Hy) as [H1 H2]. destruct (g fpscr x y) as [d fpscr'].
  simpl in H1, H2. subst fpscr'. destruct (IH ys (qc (fitsb t (f (conv t1 x) (conv t2 y))) fpscr) Hys) as (ds & -> & Hds).
  exists (d :: ds). rewrite qc_qc. split; [done|]. rewrite !fmap_cons. simpl. by rewrite H1, Hds.
Qed.

Lemma vop_env t0 t1 t2 t f (g : fn) :
  esize t1 = esize t0 → esize t2 = esize t0 → esize t = esize t0 → 0 < esize t0 →
  (∀ fpscr x y, fits_elem t0 x → fits_elem t0 y → saturates t (f (conv t1 x) (conv t2 y)) fpscr (g fpscr x y)) →
  saturating 32 t1 t2 t f (NEON_VOP_ENV t0 g).
Proof.
  intros E1 E2 E H0 Hg fpscr a b _ _. unfold NEON_VOP_ENV, NEON_UNPACK.
  destruct (do_saturating t0 t1 t2 t f g (elems 32 t0 a) (elems 32 t0 b) fpscr Hg) as (ds & -> & Hds); [by apply elems_fit..|].
  rewrite (elems_conv 32 t1 t0 a), (elems_conv 32 t2 t0 b) by lia. f_equal. rewrite E in Hds. by apply pack_wrap.
Qed.

(** A word that is one element. *)
Lemma whole_word size s1 s2 s f (op : Z → Z → Z → Z * Z) :
  0 < size →
  (∀ fpscr a b, 0 ≤ a < 2 ^ size → 0 ≤ b < 2 ^ size →
    op fpscr a b = (wrap size (sat (Elem size s) (f (conv (Elem size s1) a) (conv (Elem size s2) b))),
                    qc (fitsb (Elem size s) (f (conv (Elem size s1) a) (conv (Elem size s2) b))) fpscr)) →
  saturating size (Elem size s1) (Elem size s2) (Elem size s) f op.
Proof.
  intros Hs H fpscr a b Ha Hb. rewrite H by done. rewrite !elems_one by done. cbn [zip_with forallb id]. by rewrite pack_one, andb_true_r.
Qed.

(** Unary operations; the elements of the result may have another size. *)
Definition saturating1 (size : Z) (t1 t : elem) (f : Z → Z) (op : Z → Z → Z * Z) : Prop :=
  ∀ fpscr x, 0 ≤ x < 2 ^ size →
  op fpscr x = (NEON_PACK t ((λ v, sat t (f v)) <$> elems size t1 x), qc (forallb (λ v, fitsb t (f v)) (elems size t1 x)) fpscr).

Lemma each_saturating t f (g : Z → Z → Z * Z) xs fpscr :
  (∀ fpscr x, fits_elem t x → saturates t (f x) fpscr (g fpscr x)) → Forall (fits_elem t) xs →
  ∃ ds, each_elem g fpscr xs = (ds, qc (forallb (λ v, fitsb t (f v)) xs) fpscr) ∧
    wrap (esize t) <$> ds = wrap (esize t) <$> ((λ v, sat t (f v)) <$> xs).
Proof.
  intros Hg Hxs. revert fpscr. induction Hxs as [|x xs Hx Hxs IH]; intros fpscr; [by exists []|]. cbn [each_elem].
  destruct (Hg fpscr x Hx) as [H1 H2]. destruct (g fpscr x) as [d fpscr']. simpl in H1, H2. subst fpscr'.
  destruct (IH (qc (fitsb t (f x)) fpscr)) as (ds & -> & Hds). exists (d :: ds). rewrite qc_qc. split; [done|]. rewrite !fmap_cons. by rewrite H1, Hds.
Qed.

Lemma in_place_ok t f (g : Z → Z → Z * Z) :
  0 < esize t → (∀ fpscr x, fits_elem t x → saturates t (f x) fpscr (g fpscr x)) → saturating1 32 t t f (in_place t g).
Proof.
  intros Ht Hg fpscr x _. unfold in_place, NEON_UNPACK.
  destruct (each_saturating t f g (elems 32 t x) fpscr Hg) as (ds & -> & Hds); [by apply elems_fit|]. f_equal. by apply pack_wrap.
Qed.

Lemma whole_word1 size s f (op : Z → Z → Z * Z) :
  0 < size →
  (∀ fpscr x, 0 ≤ x < 2 ^ size →
    op fpscr x = (wrap size (sat (Elem size s) (f (conv (Elem size s) x))), qc (fitsb (Elem size s) (f (conv (Elem size s) x))) fpscr)) →
  saturating1 size (Elem size s) (Elem size s) f op.
Proof.
  intros Hs H fpscr x Hx. rewrite H by done. rewrite !elems_one by done. cbn [fmap list_fmap forallb]. by rewrite pack_one, andb_true_r.
Qed.

(** A helper of the same kind, with the value in the range of the word. *)
Lemma whole_saturates size s1 s f (op : Z → Z → Z → Z * Z) :
  0 < size →
  (∀ fpscr a b, 0 ≤ a < 2 ^ size → 0 ≤ b < 2 ^ size →
    saturates (Elem size s) (f (conv (Elem size s1) a) b) fpscr (op fpscr a b) ∧ 0 ≤ (op fpscr a b).1 < 2 ^ size) →
  saturating size (Elem size s1) (Elem size false) (Elem size s) f op.
Proof.
  intros Hs H. apply whole_word; [done|]. intros fpscr a b Ha Hb. destruct (H fpscr a b Ha Hb) as [[H1 H2] H3].
  rewrite (conv_small (Elem size false) b); [|done|unfold fits_elem, lo, hi; simpl; lia]. rewrite <- H2. cbn [esize] in H1. rewrite <- H1, wrap_small by done.
  by destruct (op fpscr a b).
Qed.

(** ** Operations that do not saturate *)

(** [op] combines the elements of type [t1] and [t2] of two words of [size] bits by [f] into elements
    of type [t]. *)
Definition lanewise (size : Z) (t1 t2 t : elem) (f : Z → Z → Z) (op : Z → Z → Z) : Prop :=
  ∀ a b, 0 ≤ a < 2 ^ size → 0 ≤ b < 2 ^ size → op a b = NEON_PACK t (zip_with f (elems size t1 a) (elems size t2 b)).
Definition lanewise1 (size : Z) (t1 t : elem) (f : Z → Z) (op : Z → Z) : Prop :=
  ∀ x, 0 ≤ x < 2 ^ size → op x = NEON_PACK t (f <$> elems size t1 x).

Lemma vop t f g : 0 < esize t → (∀ x y, fits_elem t x → fits_elem t y → wrap (esize t) (g x y) = wrap (esize t) (f x y)) →
  lanewise 32 t t t f (NEON_VOP t g).
Proof.
  intros Ht H a b _ _. unfold NEON_VOP, NEON_UNPACK. apply pack_wrap; [done|]. pose proof (elems_fit 32 t a Ht) as Ha. pose proof (elems_fit 32 t b Ht) as Hb.
  revert Ha Hb. generalize (elems 32 t a), (elems 32 t b). intros xs ys Hxs. revert ys.
  induction Hxs as [|x xs Hx Hxs IH]; intros [|y ys] Hys; try done. apply Forall_cons in Hys as [Hy Hys]. cbn [zip_with]. rewrite !fmap_cons. f_equal; auto.
Qed.

Lemma vop1 t f g : 0 < esize t → (∀ x, fits_elem t x → wrap (esize t) (g x) = wrap (esize t) (f x)) → lanewise1 32 t t f (NEON_VOP1 t g).
Proof.
  intros Ht H a _. unfold NEON_VOP1, NEON_UNPACK. apply pack_wrap; [done|]. rewrite <- !list_fmap_compose. apply list_fmap_ext. intros i x Hx.
  apply H. apply list_elem_of_lookup_2 in Hx. by apply (proj1 (Forall_forall _ _) (elems_fit 32 t a Ht)).
Qed.

Lemma whole_lane size s1 s f (op : Z → Z → Z) :
  0 < size →
  (∀ a b, 0 ≤ a < 2 ^ size → 0 ≤ b < 2 ^ size → op a b = wrap size (f (conv (Elem size s1) a) b)) →
  lanewise size (Elem size s1) (Elem size false) (Elem size s) f op.
Proof.
  intros Hs H a b Ha Hb. rewrite H by done. rewrite !elems_one by done. cbn [zip_with]. rewrite pack_one. cbn [esize]. do 2 f_equal.
  symmetry. apply conv_small; [done|]. unfold fits_elem, lo, hi. simpl. lia.
Qed.
