(* ===== verification/NeonSat.v ===== *)
(** The saturating helpers compute in types of a fixed width and recognise an overflow by the signs
    of the operands; here they are compared with saturation of the exact value. *)

From Stdlib Require Import ZArith Lia.
From stdpp Require Import base tactics numbers option list list_numbers.
From S2P Require Import Prelude Bits Neon NeonLanes.

(** ** Signs *)

Lemma mask_bit x k : 0 ≤ k → (x .& (1 .<< k) =? 0) = negb (Z.testbit x k).
Proof.
  intros Hk. rewrite Z.shiftl_1_l. destruct (Z.testbit x k) eqn:E; cbn [negb]; [apply Z.eqb_neq|apply Z.eqb_eq].
  - intros H. apply (f_equal (λ z, Z.testbit z k)) in H. by rewrite Z.land_spec, Z.pow2_bits_true, E, Z.bits_0 in H by lia.
  - apply Z.bits_inj'. intros n Hn. rewrite Z.land_spec, Z.bits_0. destruct (decide (n = k)) as [->|]; [by rewrite E|].
    by rewrite Z.pow2_bits_false, andb_false_r by lia.
Qed.

Lemma sign_bit w x : 0 < w → 0 ≤ x < 2 ^ w → Z.testbit x (w - 1) = (2 ^ (w - 1) <=? x).
Proof.
  intros Hw Hx. rewrite Z.testbit_eqb by lia. pose proof (pow_half w Hw). pose proof (Z.pow_pos_nonneg 2 (w - 1) ltac:(lia) ltac:(lia)).
  destruct (Z.leb_spec (2 ^ (w - 1)) x).
  - replace (x / 2 ^ (w - 1)) with 1; [done|]. apply Z.div_unique with (x - 2 ^ (w - 1)); lia.
  - by rewrite Z.div_small by lia.
Qed.

Lemma not_bit w x k : 0 ≤ k < w → Z.testbit (wrap w (Z.lnot x)) k = negb (Z.testbit x k).
Proof. intros. unfold wrap. rewrite Z.mod_pow2_bits_low by lia. by rewrite Z.lnot_spec by lia. Qed.

Lemma swrap_cases w a : 0 < w → 0 ≤ a < 2 ^ w → swrap w a = if a <? 2 ^ (w - 1) then a else a - 2 ^ w.
Proof.
  intros Hw Ha. pose proof (pow_half w Hw). destruct (Z.ltb_spec a (2 ^ (w - 1))); [apply swrap_small; lia|].
  rewrite <- (swrap_wrap w) by lia. replace (wrap w a) with (wrap w (a - 2 ^ w)); [|unfold wrap; by rewrite <- (Z_mod_plus_full _ 1), Z.mul_1_l, Z.sub_add].
  rewrite swrap_wrap by lia. apply swrap_small; lia.
Qed.

Lemma wrap_cases w v : - 2 ^ w ≤ v < 2 * 2 ^ w → wrap w v = if v <? 0 then v + 2 ^ w else if v <? 2 ^ w then v else v - 2 ^ w.
Proof.
  intros H. unfold wrap. destruct (Z.ltb_spec v 0); [|destruct (Z.ltb_spec v (2 ^ w))].
  - rewrite <- (Z_mod_plus_full v 1). rewrite Z.mod_small; lia.
  - apply Z.mod_small. lia.
  - rewrite <- (Z_mod_plus_full v (-1)). rewrite Z.mod_small; lia.
Qed.

Lemma sign_shift w a : 0 < w → - 2 ^ (w - 1) ≤ a < 2 ^ (w - 1) → a .>> (w - 1) = if a <? 0 then -1 else 0.
Proof.
  intros Hw Ha. rewrite Z.shiftr_div_pow2 by lia. destruct (Z.ltb_spec a 0).
  - symmetry. apply Z.div_unique with (a + 2 ^ (w - 1)); lia.
  - apply Z.div_small. lia.
Qed.

Ltac plain x := lazymatch x with context [if _ then _ else _] => fail | _ => idtac end.
Ltac compare :=
  repeat match goal with
  | |- context [?x <? ?y] => plain x; plain y; destruct (Z.ltb_spec x y); try (exfalso; lia)
  | |- context [?x <=? ?y] => plain x; plain y; destruct (Z.leb_spec x y); try (exfalso; lia)
  | |- context [?x =? ?y] => plain x; plain y; destruct (Z.eqb_spec x y); try (exfalso; lia)
  end; cbn [negb andb orb xorb].

(** The largest or the smallest value, from the sign of an operand. *)
Lemma sat_by_sign32 a : 0 ≤ a < 2 ^ 32 →
  not32 (u32 (s32 a .>> 31) .^ SIGNBIT) = (if a <? 2 ^ 31 then 2 ^ 31 - 1 else 2 ^ 31) ∧
  u32 (s32 a .>> 31) .^ not32 SIGNBIT = (if a <? 2 ^ 31 then 2 ^ 31 - 1 else 2 ^ 31).
Proof.
  intros Ha. unfold s32. change (swrap 32 a .>> 31) with (swrap 32 a .>> (32 - 1)). rewrite (sign_shift 32 (swrap 32 a)) by (done || apply swrap_range; lia). rewrite swrap_cases by lia.
  change (32 - 1) with 31. compare; done || lia.
Qed.

Lemma sat_by_sign64 a : 0 ≤ a < 2 ^ 64 →
  u64 (s64 a .>> 63) .^ not64 SIGNBIT64 = if a <? 2 ^ 63 then 2 ^ 63 - 1 else 2 ^ 63.
Proof.
  intros Ha. unfold s64. change (swrap 64 a .>> 63) with (swrap 64 a .>> (64 - 1)). rewrite (sign_shift 64 (swrap 64 a)) by (done || apply swrap_range; lia). rewrite swrap_cases by lia.
  change (64 - 1) with 63. compare; done || lia.
Qed.

(** ** Words of one element *)

(** The operands and the sum, split by their signs. *)
Ltac signs w :=
  unfold conv, sat, fitsb, qc, lo, hi; cbn [esize signed];
  change SIGNBIT with (1 .<< (32 - 1)); change SIGNBIT64 with (1 .<< (64 - 1));
  rewrite ?mask_bit by done; repeat (rewrite Z.land_spec || rewrite Z.lor_spec || rewrite Z.lxor_spec); unfold not32, not64, u32, u64, s32, s64; rewrite ?not_bit by done;
  rewrite ?(sign_bit w) by (done || apply wrap_range; done);
  rewrite ?swrap_cases, ?wrap_small by done; rewrite ?Z.shiftl_1_l;
  rewrite ?wrap_cases by (compare; lia).

Ltac whole := apply whole_word; [done|]; intros fpscr a b Ha Hb.
Ltac finish := compare; lia || (f_equal; lia).

Lemma qadd_u32_ok : saturating 32 neon_u32 neon_u32 neon_u32 Z.add neon_qadd_u32.
Proof. whole. unfold neon_qadd_u32. change (not32 0) with (2 ^ 32 - 1). signs 32. finish. Qed.

Lemma qadd_u64_ok : saturating 64 (Elem 64 false) (Elem 64 false) (Elem 64 false) Z.add neon_qadd_u64.
Proof. whole. unfold neon_qadd_u64. change (not64 0) with (2 ^ 64 - 1). signs 64. finish. Qed.

Lemma qadd_s32_ok : saturating 32 neon_s32 neon_s32 neon_s32 Z.add neon_qadd_s32.
Proof. whole. unfold neon_qadd_s32. rewrite (proj1 (sat_by_sign32 a Ha)). signs 32. finish. Qed.

Lemma qadd_s64_ok : saturating 64 (Elem 64 true) (Elem 64 true) (Elem 64 true) Z.add neon_qadd_s64.
Proof. whole. unfold neon_qadd_s64. rewrite (sat_by_sign64 a Ha). signs 64. finish. Qed.

Lemma uqadd_s32_ok : saturating 32 neon_s32 neon_u32 neon_u32 Z.add neon_uqadd_s32.
Proof.
  whole. unfold neon_uqadd_s32, s64. rewrite (swrap_small 64); [signs 32; finish|done|].
  unfold s32, u32. pose proof (swrap_range 32 a ltac:(done)). pose proof (wrap_range 32 b ltac:(done)). lia.
Qed.

Lemma uqadd_s64_ok : saturating 64 (Elem 64 true) (Elem 64 false) (Elem 64 false) Z.add neon_uqadd_s64.
Proof. whole. unfold neon_uqadd_s64. signs 64. finish. Qed.

Lemma sqadd_u32_ok : saturating 32 neon_u32 neon_s32 neon_s32 Z.add neon_sqadd_u32.
Proof.
  whole. unfold neon_sqadd_u32, s64. rewrite (swrap_small 64); [signs 32; finish|done|].
  unfold s32, u32. pose proof (swrap_range 32 b ltac:(done)). pose proof (wrap_range 32 a ltac:(done)). lia.
Qed.

Lemma sqadd_u64_ok : saturating 64 (Elem 64 false) (Elem 64 true) (Elem 64 true) Z.add neon_sqadd_u64.
Proof. whole. unfold neon_sqadd_u64. signs 64. finish. Qed.

Lemma qsub_u32_ok : saturating 32 neon_u32 neon_u32 neon_u32 Z.sub neon_qsub_u32.
Proof. whole. unfold neon_qsub_u32. signs 32. finish. Qed.

Lemma qsub_u64_ok : saturating 64 (Elem 64 false) (Elem 64 false) (Elem 64 false) Z.sub neon_qsub_u64.
Proof. whole. unfold neon_qsub_u64. signs 64. finish. Qed.

Lemma qsub_s32_ok : saturating 32 neon_s32 neon_s32 neon_s32 Z.sub neon_qsub_s32.
Proof. whole. unfold neon_qsub_s32. rewrite (proj1 (sat_by_sign32 a Ha)). signs 32. finish. Qed.

Lemma qsub_s64_ok : saturating 64 (Elem 64 true) (Elem 64 true) (Elem 64 true) Z.sub neon_qsub_s64.
Proof. whole. unfold neon_qsub_s64. rewrite (sat_by_sign64 a Ha). signs 64. finish. Qed.

(** ** Words of several elements *)

Ltac small :=
  repeat match goal with
  | |- context [wrap ?w ?v] => rewrite (wrap_small w v) by lia
  | |- context [swrap ?w ?v] => rewrite (swrap_small w v) by lia
  end.
Ltac wraps := repeat match goal with |- context [wrap ?w ?v] => rewrite (wrap_cases w v) by lia end.

(** One element, with the bounds of the operands in the context. *)
Ltac lane H1 H2 :=
  unfold fits_elem, lo, hi in H1, H2; simpl in H1, H2;
  unfold saturates, conv, sat, fitsb, qc, lo, hi; cbn [esize signed neon_u8 neon_s8 neon_u16 neon_s16]; unfold u32, s32;
  rewrite ?Z.shiftl_1_l; small.
Ltac mods := unfold wrap, swrap in *; Z.to_euclidean_division_equations; lia.
Ltac both := cbn [fst snd]; (split; [mods|done]) || (exfalso; mods).

Lemma USAT_ok t fpscr x y : t = neon_u8 ∨ t = neon_u16 → fits_elem t x → fits_elem t y →
  saturates t (conv t x + conv t y) fpscr (NEON_USAT t fpscr x y).
Proof. intros [-> | ->] Hx Hy; unfold NEON_USAT; lane Hx Hy; wraps; compare; both. Qed.

Lemma USAT_sub_ok t fpscr x y : t = neon_u8 ∨ t = neon_u16 → fits_elem t x → fits_elem t y →
  saturates t (conv t x - conv t y) fpscr (NEON_USAT_sub t fpscr x y).
Proof.
  intros [-> | ->] Hx Hy; unfold NEON_USAT_sub; lane Hx Hy; rewrite (wrap_cases 32) by lia; compare; both.
Qed.

Lemma SSAT_ok t fpscr x y : t = neon_s8 ∨ t = neon_s16 → fits_elem t x → fits_elem t y →
  saturates t (conv t x + conv t y) fpscr (NEON_SSAT t fpscr x y).
Proof.
  intros Ht Hx Hy. unfold NEON_SSAT. replace (s32 (u32 (u32 x + u32 y))) with (x + y).
  - destruct Ht as [-> | ->]; lane Hx Hy; compare; both.
  - destruct Ht as [-> | ->]; unfold fits_elem, lo, hi in Hx, Hy; simpl in Hx, Hy; unfold u32, s32; mods.
Qed.

Lemma SSAT_sub_ok t fpscr x y : t = neon_s8 ∨ t = neon_s16 → fits_elem t x → fits_elem t y →
  saturates t (conv t x - conv t y) fpscr (NEON_SSAT_sub t fpscr x y).
Proof.
  intros Ht Hx Hy. unfold NEON_SSAT_sub. replace (s32 (u32 (u32 x - u32 y))) with (x - y).
  - destruct Ht as [-> | ->]; lane Hx Hy; compare; both.
  - destruct Ht as [-> | ->]; unfold fits_elem, lo, hi in Hx, Hy; simpl in Hx, Hy; unfold u32, s32; mods.
Qed.

Lemma qadd_u8_ok : saturating 32 neon_u8 neon_u8 neon_u8 Z.add neon_qadd_u8.
Proof. apply vop_env; [done..|]. intros fpscr x y. by apply USAT_ok; left. Qed.
Lemma qadd_u16_ok : saturating 32 neon_u16 neon_u16 neon_u16 Z.add neon_qadd_u16.
Proof. apply vop_env; [done..|]. intros fpscr x y. by apply USAT_ok; right. Qed.
Lemma qadd_s8_ok : saturating 32 neon_s8 neon_s8 neon_s8 Z.add neon_qadd_s8.
Proof. apply vop_env; [done..|]. intros fpscr x y. by apply SSAT_ok; left. Qed.
Lemma qadd_s16_ok : saturating 32 neon_s16 neon_s16 neon_s16 Z.add neon_qadd_s16.
Proof. apply vop_env; [done..|]. intros fpscr x y. by apply SSAT_ok; right. Qed.
Lemma qsub_u8_ok : saturating 32 neon_u8 neon_u8 neon_u8 Z.sub neon_qsub_u8.
Proof. apply vop_env; [done..|]. intros fpscr x y. by apply USAT_sub_ok; left. Qed.
Lemma qsub_u16_ok : saturating 32 neon_u16 neon_u16 neon_u16 Z.sub neon_qsub_u16.
Proof. apply vop_env; [done..|]. intros fpscr x y. by apply USAT_sub_ok; right. Qed.
Lemma qsub_s8_ok : saturating 32 neon_s8 neon_s8 neon_s8 Z.sub neon_qsub_s8.
Proof. apply vop_env; [done..|]. intros fpscr x y. by apply SSAT_sub_ok; left. Qed.
Lemma qsub_s16_ok : saturating 32 neon_s16 neon_s16 neon_s16 Z.sub neon_qsub_s16.
Proof. apply vop_env; [done..|]. intros fpscr x y. by apply SSAT_sub_ok; right. Qed.

(** *** Fields of a word *)

Lemma extract_field v s w : w = 8 ∨ w = 16 → extract32 v s w = wrap w (v .>> s).
Proof. intros [-> | ->]; unfold extract32, wrap; [apply (Z.land_ones _ 8)|apply (Z.land_ones _ 16)]; done. Qed.

Lemma sextract_field v s w : w = 8 ∨ w = 16 → 0 ≤ s ≤ 32 - w → sextract32 v s w = swrap w (v .>> s).
Proof.
  intros Hw Hs. unfold sextract32, s32, u32. rewrite swrap_wrap by done.
  assert (v .>> s = (v .<< (32 - w - s)) .>> (32 - w)) as ->.
  { rewrite Z.shiftr_shiftl_r by lia. f_equal. lia. }
  generalize (v .<< (32 - w - s)). intros x. rewrite !Z.shiftr_div_pow2 by lia. destruct Hw as [-> | ->]; unfold swrap; simpl; Z.to_euclidean_division_equations; lia.
Qed.

Lemma deposit_field r s w v : w = 8 ∨ w = 16 → 0 ≤ s ≤ 32 - w → 0 ≤ r < 2 ^ s → deposit32 r s w v = r + wrap w v * 2 ^ s.
Proof.
  intros Hw Hs Hr. assert (not32 0 .>> (32 - w) = Z.ones w) as Hones by (by destruct Hw as [-> | ->]).
  assert (Hm : ∀ n, 0 ≤ n < 32 → Z.testbit (u32 (Z.ones w .<< s)) n = (s <=? n) && (n <? s + w)).
  { intros n Hn. unfold u32, wrap. rewrite Z.mod_pow2_bits_low, Z.shiftl_spec by lia.
    destruct (Z.leb_spec s n); [|by rewrite Z.testbit_neg_r by lia].
    destruct (Z.ltb_spec n (s + w)); [apply Z.ones_spec_low; lia|apply Z.ones_spec_high; lia]. }
  unfold deposit32. rewrite Hones, <- (shiftl_lor s) by lia. f_equal; apply Z.bits_inj'; intros n Hn; rewrite Z.land_spec.
  - destruct (Z.ltb_spec n s); [|by rewrite (bit_above s r) by lia]. unfold not32, u32. rewrite not_bit by lia. rewrite Hm by lia.
    destruct (Z.leb_spec s n); [lia|]. by rewrite andb_true_r.
  - rewrite Z.shiftl_spec by done. destruct (Z.ltb_spec n 32).
    + rewrite Hm by lia. unfold u32, wrap at 1. rewrite Z.mod_pow2_bits_low, Z.shiftl_spec by lia.
      destruct (Z.leb_spec s n); [|by rewrite andb_false_r, Z.testbit_neg_r by lia]. cbn [andb].
      unfold wrap. rewrite Z.mod_pow2_bits_low by lia. destruct (Z.ltb_spec n (s + w)).
      * by rewrite andb_true_r, Z.mod_pow2_bits_low by lia.
      * by rewrite andb_false_r, Z.mod_pow2_bits_high by lia.
    + rewrite (bit_above w (wrap w v)); [|apply wrap_range; lia|lia]. by rewrite (bit_above 32 (u32 (u32 v .<< s))) by (done || apply wrap_range; done).
Qed.

(** The elements of a word of 32 bits, and their packing, spelled out. *)
Lemma elems_4 sg v : elems 32 (Elem 8 sg) v = [conv (Elem 8 sg) (v .>> 0); conv (Elem 8 sg) (v .>> 8); conv (Elem 8 sg) (v .>> 16); conv (Elem 8 sg) (v .>> 24)].
Proof. done. Qed.
Lemma elems_2 sg v : elems 32 (Elem 16 sg) v = [conv (Elem 16 sg) (v .>> 0); conv (Elem 16 sg) (v .>> 16)].
Proof. done. Qed.
Lemma pack_4 sg a b c d :
  NEON_PACK (Elem 8 sg) [a; b; c; d] = wrap 8 a + wrap 8 b * 2 ^ 8 + wrap 8 c * 2 ^ 16 + wrap 8 d * 2 ^ 24.
Proof. rewrite !pack_cons by done. cbn [NEON_PACK esize]. lia. Qed.
Lemma pack_2 sg a b : NEON_PACK (Elem 16 sg) [a; b] = wrap 16 a + wrap 16 b * 2 ^ 16.
Proof. rewrite !pack_cons by done. cbn [NEON_PACK esize]. lia. Qed.

Section Accumulate.
Variables (w s : Z) (Hw : w = 8 ∨ w = 16) (Hs : 0 ≤ s ≤ 32 - w).

Lemma USATACC_step a b r fpscr : 0 ≤ r < 2 ^ s →
  USATACC w s a b (r, fpscr) =
    (let v := conv (Elem w true) (a .>> s) + conv (Elem w false) (b .>> s) in
     (r + wrap w (sat (Elem w false) v) * 2 ^ s, qc (fitsb (Elem w false) v) fpscr)).
Proof using Hw Hs.
  intros Hr. unfold USATACC. rewrite sextract_field, extract_field by done. unfold conv, sat, fitsb, qc, lo, hi. cbn [esize signed].
  pose proof (swrap_range w (a .>> s) ltac:(lia)). pose proof (wrap_range w (b .>> s) ltac:(lia)). pose proof (pow_half w ltac:(lia)).
  assert (2 * 2 ^ w ≤ 2 ^ (2 * w - 1)) by (by destruct Hw as [-> | ->]). rewrite swrap_small by lia.
  compare; rewrite deposit_field by done; do 4 f_equal; lia.
Qed.

Lemma SSATACC_step a b r fpscr : 0 ≤ r < 2 ^ s →
  SSATACC w s a b (r, fpscr) =
    (let v := conv (Elem w false) (a .>> s) + conv (Elem w true) (b .>> s) in
     (r + wrap w (sat (Elem w true) v) * 2 ^ s, qc (fitsb (Elem w true) v) fpscr)).
Proof using Hw Hs.
  intros Hr. unfold SSATACC. rewrite sextract_field, extract_field by done. unfold conv, sat, fitsb, qc, lo, hi. cbn [esize signed].
  pose proof (swrap_range w (b .>> s) ltac:(lia)). pose proof (wrap_range w (a .>> s) ltac:(lia)). pose proof (pow_half w ltac:(lia)).
  assert (2 * 2 ^ w ≤ 2 ^ (2 * w - 1)) by (by destruct Hw as [-> | ->]). rewrite swrap_small by lia.
  compare; rewrite deposit_field by done; do 4 f_equal; lia.
Qed.
End Accumulate.

Ltac accumulate step :=
  repeat (rewrite step; [cbv zeta|auto|lia|repeat match goal with |- context [wrap ?w ?v] => lazymatch goal with _ : 0 ≤ wrap w v < _ |- _ => fail | _ => pose proof (wrap_range w v ltac:(done)) end end; lia]);
  rewrite ?qc_qc; cbn [zip_with forallb id]; rewrite ?pack_4, ?pack_2, ?andb_true_r, ?andb_assoc; f_equal; lia.

Lemma uqadd_s8_ok : saturating 32 neon_s8 neon_u8 neon_u8 Z.add neon_uqadd_s8.
Proof. intros fpscr a b _ _. unfold neon_uqadd_s8, neon_s8, neon_u8, neon_s16, neon_u16. rewrite (elems_4 true a), (elems_4 false b). accumulate USATACC_step. Qed.
Lemma uqadd_s16_ok : saturating 32 neon_s16 neon_u16 neon_u16 Z.add neon_uqadd_s16.
Proof. intros fpscr a b _ _. unfold neon_uqadd_s16, neon_s8, neon_u8, neon_s16, neon_u16. rewrite (elems_2 true a), (elems_2 false b). accumulate USATACC_step. Qed.
Lemma sqadd_u8_ok : saturating 32 neon_u8 neon_s8 neon_s8 Z.add neon_sqadd_u8.
Proof. intros fpscr a b _ _. unfold neon_sqadd_u8, neon_s8, neon_u8, neon_s16, neon_u16. rewrite (elems_4 false a), (elems_4 true b). accumulate SSATACC_step. Qed.
Lemma sqadd_u16_ok : saturating 32 neon_u16 neon_s16 neon_s16 Z.add neon_sqadd_u16.
Proof. intros fpscr a b _ _. unfold neon_sqadd_u16, neon_s8, neon_u8, neon_s16, neon_u16. rewrite (elems_2 false a), (elems_2 true b). accumulate SSATACC_step. Qed.

(** *** Doubling multiplication *)

(** The high half of the doubled product; [w] is the size of the operands. *)
Definition dmulh (w : Z) (round : bool) (x y : Z) : Z := (2 * (x * y) + (if round then 2 ^ (w - 1) else 0)) / 2 ^ w.

Lemma product_range w x y : 0 < w → - 2 ^ (w - 1) ≤ x < 2 ^ (w - 1) → - 2 ^ (w - 1) ≤ y < 2 ^ (w - 1) →
  - 2 ^ (w - 1) * (2 ^ (w - 1) - 1) ≤ x * y ≤ 2 ^ (w - 1) * 2 ^ (w - 1) ∧
  (x * y = 2 ^ (w - 1) * 2 ^ (w - 1) ∨ x * y ≤ 2 ^ (w - 1) * (2 ^ (w - 1) - 1)).
Proof.
  intros Hw Hx Hy. pose proof (Z.pow_pos_nonneg 2 (w - 1) ltac:(lia) ltac:(lia)). set (h := 2 ^ (w - 1)) in *.
  split; [destruct (Z.le_gt_cases 0 x), (Z.le_gt_cases 0 y); nia|].
  destruct (decide (x = - h)), (decide (y = - h)); [left; nia|right; destruct (Z.le_gt_cases 0 x), (Z.le_gt_cases 0 y); nia..].
Qed.

Lemma fits_saturates t v fpscr d : fits_elem t v → wrap (esize t) d = wrap (esize t) v → saturates t v fpscr (d, fpscr).
Proof. intros Hv Hd. unfold saturates. rewrite sat_id by done. split; [done|]. by destruct (fitsb_spec t v). Qed.

(** The double of a product [p] that is not the largest one fits into [W] bits. *)
Lemma doubled W p : W = 32 ∨ W = 64 → - 2 ^ (W - 2) ≤ p < 2 ^ (W - 2) →
  ((wrap W p .^ wrap W (wrap W p .<< 1)) .& (1 .<< (W - 1)) =? 0) = true ∧
  wrap W (wrap W p .<< 1) = wrap W (2 * p).
Proof.
  intros HW Hp. assert (Hd : ∀ x, wrap W (wrap W x .<< 1) = wrap W (2 * x)).
  { intros x. rewrite Z.shiftl_mul_pow2, Z.mul_comm by done. unfold wrap. by rewrite Zmult_mod_idemp_r. }
  split; [|done]. rewrite Hd. assert (0 < W) by lia. assert (2 ^ W = 4 * 2 ^ (W - 2)) by (by destruct HW as [-> | ->]). assert (2 ^ (W - 1) = 2 * 2 ^ (W - 2)) by (by destruct HW as [-> | ->]).
  rewrite mask_bit, Z.lxor_spec by lia. rewrite !sign_bit by (done || apply wrap_range; lia). rewrite !wrap_cases by lia. compare; (done || lia).
Qed.

Lemma wrap_add w x r : wrap w (wrap w x + r) = wrap w (x + r).
Proof. unfold wrap. by rewrite Zplus_mod_idemp_l. Qed.

Lemma high_half w q : w = 16 ∨ w = 32 → wrap w (wrap (2 * w) q .>> w) = wrap w (q / 2 ^ w).
Proof. intros [-> | ->]; rewrite Z.shiftr_div_pow2 by done; simpl; mods. Qed.

Lemma QDMULH16_ok round fpscr x y : fits_elem neon_s16 x → fits_elem neon_s16 y →
  saturates neon_s16 (dmulh 16 round (conv neon_s16 x) (conv neon_s16 y)) fpscr (NEON_QDMULH16 round fpscr x y).
Proof.
  intros Hx Hy. rewrite !conv_small by done. unfold fits_elem, lo, hi in Hx, Hy. simpl in Hx, Hy. unfold NEON_QDMULH16, s16.
  rewrite !(swrap_small 16) by (simpl; lia). destruct (product_range 16 x y) as [Hp Hmax]; [simpl; lia..|]. unfold dmulh.
  generalize dependent (x * y). intros p Hp Hmax. clear x y Hx Hy. destruct Hmax as [-> |Hmax].
  { destruct round; split; try done. exact (qc_qc false false fpscr). }
  destruct (doubled 32 p) as [Ht Hd]; [auto|simpl in *; lia|]. change SIGNBIT with (1 .<< (32 - 1)). unfold u32, s32. rewrite Ht. cbn [negb].
  rewrite Hd. destruct round; [|rewrite Z.add_0_r].
  - change (1 .<< 15) with (2 ^ (16 - 1)). rewrite wrap_add, !swrap_wrap by done. rewrite !swrap_small by (simpl in *; lia).
    destruct (Z.ltb_spec (2 * p + 2 ^ (16 - 1)) (2 * p)); [simpl in *; lia|].
    apply fits_saturates; [unfold fits_elem, lo, hi; simpl in *; mods|]. by apply (high_half 16); left.
  - apply fits_saturates; [unfold fits_elem, lo, hi; simpl in *; mods|]. by apply (high_half 16); left.
Qed.

Lemma QDMULH32_ok round fpscr x y : fits_elem neon_s32 x → fits_elem neon_s32 y →
  saturates neon_s32 (dmulh 32 round (conv neon_s32 x) (conv neon_s32 y)) fpscr (NEON_QDMULH32 round fpscr x y).
Proof.
  intros Hx Hy. rewrite !conv_small by done. unfold fits_elem, lo, hi in Hx, Hy. simpl in Hx, Hy. unfold NEON_QDMULH32, s32.
  rewrite !(swrap_small 32) by (simpl; lia). destruct (product_range 32 x y) as [Hp Hmax]; [simpl; lia..|]. unfold dmulh.
  generalize dependent (x * y). intros p Hp Hmax. clear x y Hx Hy. destruct Hmax as [-> |Hmax].
  { destruct round; split; try done. exact (qc_qc false false fpscr). }
  destruct (doubled 64 p) as [Ht Hd]; [auto|simpl in *; lia|]. change SIGNBIT64 with (1 .<< (64 - 1)). unfold u64, s64. rewrite Ht. cbn [negb].
  rewrite Hd. destruct round; [|rewrite Z.add_0_r].
  - change (1 .<< 31) with (2 ^ (32 - 1)). rewrite wrap_add, !swrap_wrap by done. rewrite !swrap_small by (simpl in *; lia).
    destruct (Z.ltb_spec (2 * p + 2 ^ (32 - 1)) (2 * p)); [simpl in *; lia|].
    apply fits_saturates; [unfold fits_elem, lo, hi; simpl in *; mods|]. by apply (high_half 32); right.
  - apply fits_saturates; [unfold fits_elem, lo, hi; simpl in *; mods|]. by apply (high_half 32); right.
Qed.

Lemma qdmulh_s16_ok : saturating 32 neon_s16 neon_s16 neon_s16 (dmulh 16 false) neon_qdmulh_s16.
Proof. apply vop_env; [done..|]. intros fpscr x y. by apply QDMULH16_ok. Qed.
Lemma qrdmulh_s16_ok : saturating 32 neon_s16 neon_s16 neon_s16 (dmulh 16 true) neon_qrdmulh_s16.
Proof. apply vop_env; [done..|]. intros fpscr x y. by apply QDMULH16_ok. Qed.
Lemma qdmulh_s32_ok : saturating 32 neon_s32 neon_s32 neon_s32 (dmulh 32 false) neon_qdmulh_s32.
Proof. apply vop_env; [done..|]. intros fpscr x y. by apply QDMULH32_ok. Qed.
Lemma qrdmulh_s32_ok : saturating 32 neon_s32 neon_s32 neon_s32 (dmulh 32 true) neon_qrdmulh_s32.
Proof. apply vop_env; [done..|]. intros fpscr x y. by apply QDMULH32_ok. Qed.

(** *** Absolute value and negation *)

Lemma QABS_ok t fpscr x : t = neon_s8 ∨ t = neon_s16 → fits_elem t x → saturates t (Z.abs x) fpscr (DO_QABS t fpscr x).
Proof. intros [-> | ->] Hx; unfold DO_QABS; lane Hx Hx; change (swrap 8 (2 ^ (8 - 1))) with (-128); change (swrap 16 (2 ^ (16 - 1))) with (-32768); compare; both. Qed.
Lemma QNEG_ok t fpscr x : t = neon_s8 ∨ t = neon_s16 → fits_elem t x → saturates t (- x) fpscr (DO_QNEG t fpscr x).
Proof. intros [-> | ->] Hx; unfold DO_QNEG; lane Hx Hx; change (swrap 8 (2 ^ (8 - 1))) with (-128); change (swrap 16 (2 ^ (16 - 1))) with (-32768); compare; both. Qed.

Ltac whole1 := apply whole_word1; [done|]; intros fpscr x Hx.

Lemma qabs_s8_ok : saturating1 32 neon_s8 neon_s8 Z.abs neon_qabs_s8.
Proof. apply in_place_ok; [done|]. intros fpscr x. by apply QABS_ok; left. Qed.
Lemma qabs_s16_ok : saturating1 32 neon_s16 neon_s16 Z.abs neon_qabs_s16.
Proof. apply in_place_ok; [done|]. intros fpscr x. by apply QABS_ok; right. Qed.
Lemma qabs_s32_ok : saturating1 32 neon_s32 neon_s32 Z.abs neon_qabs_s32.
Proof. whole1. unfold neon_qabs_s32. change (not32 SIGNBIT) with (2 ^ 31 - 1). signs 32. compare; wraps; compare; finish. Qed.
Lemma qabs_s64_ok : saturating1 64 (Elem 64 true) (Elem 64 true) Z.abs neon_qabs_s64.
Proof. whole1. unfold neon_qabs_s64. change (not64 SIGNBIT64) with (2 ^ 63 - 1). signs 64. compare; wraps; compare; finish. Qed.
Lemma qneg_s8_ok : saturating1 32 neon_s8 neon_s8 Z.opp neon_qneg_s8.
Proof. apply in_place_ok; [done|]. intros fpscr x. by apply QNEG_ok; left. Qed.
Lemma qneg_s16_ok : saturating1 32 neon_s16 neon_s16 Z.opp neon_qneg_s16.
Proof. apply in_place_ok; [done|]. intros fpscr x. by apply QNEG_ok; right. Qed.
Lemma qneg_s32_ok : saturating1 32 neon_s32 neon_s32 Z.opp neon_qneg_s32.
Proof. whole1. unfold neon_qneg_s32. change (not32 SIGNBIT) with (2 ^ 31 - 1). signs 32. finish. Qed.
Lemma qneg_s64_ok : saturating1 64 (Elem 64 true) (Elem 64 true) Z.opp neon_qneg_s64.
Proof. whole1. unfold neon_qneg_s64. change (not64 SIGNBIT64) with (2 ^ 63 - 1). signs 64. finish. Qed.

(** *** Narrowing *)

Lemma elems64_4 sg v : elems 64 (Elem 16 sg) v = [conv (Elem 16 sg) (v .>> 0); conv (Elem 16 sg) (v .>> 16); conv (Elem 16 sg) (v .>> 32); conv (Elem 16 sg) (v .>> 48)].
Proof. done. Qed.
Lemma elems64_2 sg v : elems 64 (Elem 32 sg) v = [conv (Elem 32 sg) (v .>> 0); conv (Elem 32 sg) (v .>> 32)].
Proof. done. Qed.

Lemma SAT8_ok s1 s narrow :
  (∀ u, narrow u = (wrap 8 (sat (Elem 8 s) (conv (Elem 16 s1) u)), negb (fitsb (Elem 8 s) (conv (Elem 16 s1) u)))) →
  saturating1 64 (Elem 16 s1) (Elem 8 s) id (SAT8_all narrow).
Proof.
  intros Hn fpscr x Hx. unfold SAT8_all, SAT8. rewrite !Hn, elems64_4. cbn [fmap list_fmap forallb]. rewrite pack_4. unfold id.
  change (0 / 2) with 0; change (16 / 2) with 8; change (32 / 2) with 16; change (48 / 2) with 24.
  assert (∀ b f, (if negb b then SET_QC f else f) = qc b f) as Hq by (by intros []). rewrite !Hq, !qc_qc, !andb_true_r, !andb_assoc.
  pose proof (λ u, wrap_range 8 (sat (Elem 8 s) (conv (Elem 16 s1) u)) ltac:(done)) as Hr.
  pose proof (Hr (x .>> 0)). pose proof (Hr (x .>> 16)). pose proof (Hr (x .>> 32)). pose proof (Hr (x .>> 48)).
  f_equal. rewrite Z.lor_0_l, Z.shiftl_0_r, (shiftl_lor 8), (shiftl_lor 16), (shiftl_lor 24); lia.
Qed.

Lemma unarrow_sat8_ok : saturating1 64 neon_s16 neon_u8 id neon_unarrow_sat8.
Proof.
  apply SAT8_ok. intros u. unfold conv, sat, fitsb, lo, hi; cbn [esize signed]. change 0x8000 with (1 .<< (16 - 1)).
  rewrite mask_bit, sign_bit by (done || by apply wrap_range). unfold u16. pose proof (wrap_range 16 u ltac:(done)).
  rewrite <- (swrap_wrap 16 u) by done. rewrite swrap_cases by done. unfold u8. compare; f_equal; mods.
Qed.
Lemma narrow_sat_u8_ok : saturating1 64 neon_u16 neon_u8 id neon_narrow_sat_u8.
Proof.
  apply SAT8_ok. intros u. unfold conv, sat, fitsb, lo, hi, u16, u8; cbn [esize signed]. pose proof (wrap_range 16 u ltac:(done)).
  compare; f_equal; mods.
Qed.
Lemma narrow_sat_s8_ok : saturating1 64 neon_s16 neon_s8 id neon_narrow_sat_s8.
Proof.
  apply SAT8_ok. intros u. unfold conv, sat, fitsb, lo, hi, s16, s8, u8; cbn [esize signed]. pose proof (swrap_range 16 u ltac:(done)) as Hr.
  change (swrap 16 u .>> 15) with (swrap 16 u .>> (16 - 1)). rewrite sign_shift by done. generalize dependent (swrap 16 u). intros v Hv.
  compare; try change (-1 .^ 127) with (-128); try change (0 .^ 127) with 127; (f_equal; mods) || (exfalso; mods).
Qed.

Lemma halves_ok s1 s x fpscr op :
  op = (wrap 16 (sat (Elem 16 s) (conv (Elem 32 s1) x)) + wrap 16 (sat (Elem 16 s) (conv (Elem 32 s1) (x .>> 32))) * 2 ^ 16,
        qc (fitsb (Elem 16 s) (conv (Elem 32 s1) (x .>> 32))) (qc (fitsb (Elem 16 s) (conv (Elem 32 s1) x)) fpscr)) →
  op = (NEON_PACK (Elem 16 s) ((λ v, sat (Elem 16 s) (id v)) <$> elems 64 (Elem 32 s1) x),
        qc (forallb (λ v, fitsb (Elem 16 s) (id v)) (elems 64 (Elem 32 s1) x)) fpscr).
Proof. intros ->. rewrite elems64_2, Z.shiftr_0_r. cbn [fmap list_fmap forallb]. by rewrite pack_2, qc_qc, andb_true_r. Qed.

Lemma low_high l h : 0 ≤ l < 2 ^ 16 → 0 ≤ h < 2 ^ 16 → l .| u32 (h .<< 16) = wrap 16 l + wrap 16 h * 2 ^ 16.
Proof.
  intros Hl Hh. rewrite !(wrap_small 16) by done. unfold u32. rewrite wrap_small; [apply shiftl_lor; lia|]. rewrite Z.shiftl_mul_pow2 by done. lia.
Qed.

Lemma sat16_range v : 0 ≤ sat (Elem 16 false) v < 2 ^ 16.
Proof. pose proof (sat_fits (Elem 16 false) v ltac:(done)) as H. unfold fits_elem, lo, hi in H. simpl in H. lia. Qed.

Lemma unarrow_half u fpscr :
  (if negb (u32 u .& 0x80000000 =? 0) then (0, SET_QC fpscr) else if 0xffff <? u32 u then (0xffff, SET_QC fpscr) else (u32 u, fpscr)) =
  (sat (Elem 16 false) (conv (Elem 32 true) u), qc (fitsb (Elem 16 false) (conv (Elem 32 true) u)) fpscr).
Proof.
  change 0x80000000 with (1 .<< (32 - 1)). rewrite mask_bit, sign_bit by (done || by apply wrap_range). unfold u32. pose proof (wrap_range 32 u ltac:(done)).
  unfold conv, sat, fitsb, qc, lo, hi; cbn [esize signed]. rewrite <- (swrap_wrap 32 u), swrap_cases by done. finish.
Qed.
Lemma unarrow_sat16_ok : saturating1 64 neon_s32 neon_u16 id neon_unarrow_sat16.
Proof.
  intros fpscr x _. apply (halves_ok true false). unfold neon_unarrow_sat16. rewrite !unarrow_half. by rewrite low_high by apply sat16_range.
Qed.

Lemma narrow_half u fpscr :
  (if 0xffff <? u32 u then (0xffff, SET_QC fpscr) else (u32 u, fpscr)) =
  (sat (Elem 16 false) (conv (Elem 32 false) u), qc (fitsb (Elem 16 false) (conv (Elem 32 false) u)) fpscr).
Proof.
  unfold u32. pose proof (wrap_range 32 u ltac:(done)). unfold conv, sat, fitsb, qc, lo, hi; cbn [esize signed]. finish.
Qed.
Lemma narrow_sat_u16_ok : saturating1 64 neon_u32 neon_u16 id neon_narrow_sat_u16.
Proof.
  intros fpscr x _. apply (halves_ok false false). unfold neon_narrow_sat_u16. rewrite !narrow_half. by rewrite low_high by apply sat16_range.
Qed.

Lemma narrow_half_s u fpscr :
  (if negb (s32 u =? s16 (s32 u)) then ((s32 u .>> 31) .^ 0x7fff, SET_QC fpscr) else (s32 u, fpscr)) =
  (sat (Elem 16 true) (conv (Elem 32 true) u), qc (fitsb (Elem 16 true) (conv (Elem 32 true) u)) fpscr).
Proof.
  unfold s32, s16. pose proof (swrap_range 32 u ltac:(done)). change (swrap 32 u .>> 31) with (swrap 32 u .>> (32 - 1)). rewrite sign_shift by done.
  unfold conv, sat, fitsb, qc, lo, hi; cbn [esize signed]. generalize dependent (swrap 32 u). intros v Hv.
  compare; try change (-1 .^ 0x7fff) with (-32768); try change (0 .^ 0x7fff) with 32767; (f_equal; mods) || (exfalso; mods).
Qed.
Lemma narrow_sat_s16_ok : saturating1 64 neon_s32 neon_s16 id neon_narrow_sat_s16.
Proof.
  intros fpscr x _. apply (halves_ok true true). unfold neon_narrow_sat_s16. rewrite !narrow_half_s. f_equal.
  pose proof (sat_fits (Elem 16 true) (conv (Elem 32 true) (x .>> 32)) ltac:(done)) as Hh. unfold fits_elem, lo, hi in Hh. simpl in Hh.
  generalize dependent (sat (Elem 16 true) (conv (Elem 32 true) (x .>> 32))). generalize (sat (Elem 16 true) (conv (Elem 32 true) x)). intros l h Hh.
  unfold s32. rewrite swrap_small by (rewrite ?Z.shiftl_mul_pow2; simpl; lia). rewrite shiftl_lor by (done || by apply wrap_range). unfold u32, u16. mods.
Qed.

Lemma unarrow_sat32_ok : saturating1 64 (Elem 64 true) neon_u32 id neon_unarrow_sat32.
Proof.
  intros fpscr x Hx. rewrite elems_one by done. cbn [fmap list_fmap forallb]. rewrite pack_one, andb_true_r. unfold id, neon_unarrow_sat32.
  change 0x8000000000000000 with (1 .<< (64 - 1)). rewrite mask_bit, sign_bit by done. unfold conv, sat, fitsb, qc, lo, hi; cbn [esize signed neon_u32].
  rewrite swrap_cases by done. unfold u32. compare; f_equal; mods.
Qed.
Lemma narrow_sat_u32_ok : saturating1 64 (Elem 64 false) neon_u32 id neon_narrow_sat_u32.
Proof.
  intros fpscr x Hx. rewrite elems_one by done. cbn [fmap list_fmap forallb]. rewrite pack_one, andb_true_r. unfold id, neon_narrow_sat_u32.
  unfold conv, sat, fitsb, qc, lo, hi; cbn [esize signed neon_u32]. rewrite (wrap_small 64) by done. unfold u32. compare; f_equal; mods.
Qed.
Lemma narrow_sat_s32_ok : saturating1 64 (Elem 64 true) neon_s32 id neon_narrow_sat_s32.
Proof.
  intros fpscr x Hx. rewrite elems_one by done. cbn [fmap list_fmap forallb]. rewrite pack_one, andb_true_r. unfold id, neon_narrow_sat_s32, s64.
  pose proof (swrap_range 64 x ltac:(done)). change (swrap 64 x .>> 63) with (swrap 64 x .>> (64 - 1)). rewrite sign_shift by done.
  assert (s32 x = swrap 32 (swrap 64 x)) as -> by (unfold s32; mods). assert (u32 x = wrap 32 (swrap 64 x)) as -> by (unfold u32; mods).
  unfold conv, sat, fitsb, qc, lo, hi; cbn [esize signed neon_s32]. generalize dependent (swrap 64 x). intros v Hv.
  compare; try change (-1 .^ 0x7fffffff) with (-2147483648); try change (0 .^ 0x7fffffff) with 2147483647; unfold u32; (f_equal; mods) || (exfalso; mods).
Qed.

(** *** Long saturating addition *)

Lemma addl_sat32_ok x y fpscr : 0 ≤ x < 2 ^ 32 → 0 ≤ y < 2 ^ 32 →
  addl_sat32 x y fpscr = (wrap 32 (sat neon_s32 (conv neon_s32 x + conv neon_s32 y)), qc (fitsb neon_s32 (conv neon_s32 x + conv neon_s32 y)) fpscr).
Proof. intros Hx Hy. unfold addl_sat32, neon_s32. rewrite (proj2 (sat_by_sign32 x Hx)). signs 32. finish. Qed.

Lemma addl_saturate_s32_ok : saturating 64 neon_s32 neon_s32 neon_s32 Z.add neon_addl_saturate_s32.
Proof.
  intros fpscr a b Ha Hb. unfold neon_addl_saturate_s32. rewrite !addl_sat32_ok by (by apply wrap_range). unfold neon_s32. rewrite (elems64_2 true a), (elems64_2 true b), !Z.shiftr_0_r.
  unfold u32. rewrite !(conv_wrap (Elem 32 true)) by done. cbn [zip_with forallb id]. rewrite qc_qc, andb_true_r. f_equal.
  rewrite !pack_cons by done. cbn [NEON_PACK esize]. rewrite shiftl_lor by (done || by apply wrap_range). lia.
Qed.
Lemma addl_saturate_s64_ok : saturating 64 (Elem 64 true) (Elem 64 true) (Elem 64 true) Z.add neon_addl_saturate_s64.
Proof. whole. unfold neon_addl_saturate_s64. rewrite (sat_by_sign64 a Ha). signs 64. finish. Qed.
