(* ===== verification/NeonShift.v ===== *)
(** Shifts by a register: the helpers distinguish amounts outside the size of an element, rounding
    that could overflow, and results that saturate; here they are compared with one formula. *)

From Stdlib Require Import ZArith Lia.
From stdpp Require Import base tactics numbers option list list_numbers.
From S2P Require Import Prelude Bits Neon NeonLanes NeonSat.

(** The exact value: a positive amount multiplies, a negative one divides, and rounds if asked to. *)
Definition vshl (round : bool) (x n : Z) : Z :=
  if 0 <=? n then x * 2 ^ n else (x + (if round then 2 ^ (- n - 1) else 0)) / 2 ^ (- n).

(** ** Amounts *)

Lemma pow_split a b : 0 ≤ a ≤ b → 2 ^ b = 2 ^ (b - a) * 2 ^ a.
Proof. intros. rewrite <- Z.pow_add_r by lia. f_equal. lia. Qed.

Lemma left_out w x n : 0 ≤ w ≤ n → wrap w (x * 2 ^ n) = 0.
Proof. intros H. rewrite (pow_split w n), Z.mul_assoc by lia. apply Z.mod_mul. lia. Qed.

Lemma div_sign x m h : - h ≤ x < h → h ≤ 2 ^ m → x / 2 ^ m = if x <? 0 then -1 else 0.
Proof.
  intros Hx Hh. destruct (Z.ltb_spec x 0); [|apply Z.div_small; lia]. symmetry. apply Z.div_unique with (x + 2 ^ m); lia.
Qed.

(** Rounding in two steps. *)
Lemma round_steps x m : 0 < m → (x + 2 ^ (m - 1)) / 2 ^ m = (x / 2 ^ (m - 1) + 1) / 2.
Proof.
  intros Hm. rewrite (pow_half m), (Z.mul_comm 2), <- Z.div_div by lia. rewrite <- (Z.mul_1_l (2 ^ (m - 1))) at 1. by rewrite Z.div_add by lia.
Qed.

Section Amount.
Variables (t : elem) (x : Z).
Hypotheses (Ht : 0 < esize t) (Hx : fits_elem t x).
Abbreviation w := (esize t).

Lemma bounds : - 2 ^ w ≤ lo t ∧ lo t ≤ 0 ∧ 0 ≤ hi t ∧ hi t < 2 ^ w ∧ (signed t = true → lo t = - 2 ^ (w - 1) ∧ hi t = 2 ^ (w - 1) - 1) ∧
  (signed t = false → lo t = 0 ∧ hi t = 2 ^ w - 1) ∧ 2 ^ w = 2 * 2 ^ (w - 1) ∧ 0 < 2 ^ (w - 1).
Proof using Ht.
  pose proof (pow_half w Ht). pose proof (Z.pow_pos_nonneg 2 (w - 1) ltac:(lia) ltac:(lia)). unfold lo, hi. destruct (signed t); split_and!; try done; lia.
Qed.

(** A shift to the left that fits is undone by a shift to the right, another one is not. *)
Lemma left_fits n : 0 ≤ n < w → (conv t (x .<< n) .>> n =? x) = fitsb t (x * 2 ^ n).
Proof using Ht.
  intros Hn. rewrite Z.shiftl_mul_pow2, Z.shiftr_div_pow2 by lia.
  assert (∃ k, conv t (x * 2 ^ n) = x * 2 ^ n - k * 2 ^ w) as [k Hk].
  { unfold conv, swrap, wrap. destruct (signed t).
    - exists ((x * 2 ^ n + 2 ^ (w - 1)) / 2 ^ w). pose proof (Z.div_mod (x * 2 ^ n + 2 ^ (w - 1)) (2 ^ w) ltac:(lia)). lia.
    - exists (x * 2 ^ n / 2 ^ w). pose proof (Z.div_mod (x * 2 ^ n) (2 ^ w) ltac:(lia)). lia. }
  destruct (fitsb_spec t (x * 2 ^ n)) as [Hf|Hf].
  - rewrite conv_small, Z.div_mul by (done || lia). apply Z.eqb_refl.
  - apply Z.eqb_neq. rewrite Hk, (pow_split n w), Z.mul_assoc, <- Z.mul_sub_distr_r, Z.div_mul by lia. intros E.
    assert (k = 0) as -> by nia. apply Hf. rewrite Z.mul_0_l, Z.sub_0_r in Hk. rewrite <- Hk. by apply conv_fits.
Qed.

(** Saturation to the side of the operand. *)
Lemma left_sat n : 0 ≤ n → ¬ fits_elem t (x * 2 ^ n) → x ≠ 0 ∧ sat t (x * 2 ^ n) = if 0 <? x then hi t else lo t.
Proof using Ht Hx.
  intros Hn Hf. destruct bounds as (H1 & H2 & H3 & _). split; [intros ->; apply Hf; unfold fits_elem; lia|].
  pose proof (Z.pow_pos_nonneg 2 n ltac:(lia) Hn). unfold fits_elem, sat in *. destruct (Z.ltb_spec 0 x).
  - assert (0 < x * 2 ^ n) by nia. lia.
  - assert (x * 2 ^ n ≤ 0) by nia. lia.
Qed.

Lemma left_far n : w ≤ n → x ≠ 0 → ¬ fits_elem t (x * 2 ^ n).
Proof using Ht.
  intros Hn H0. destruct bounds as (H1 & H2 & H3 & H4 & Hs & Hu & H5 & H6). pose proof (Z.pow_le_mono_r 2 w n ltac:(lia) Hn). unfold fits_elem.
  intros [Hl Hh]. destruct (signed t) eqn:Es.
  - destruct (Hs eq_refl) as [El Eh]. rewrite El, Eh in *. nia.
  - destruct (Hu eq_refl) as [El Eh]. rewrite El, Eh in *. nia.
Qed.

(** A shift to the right always fits. *)
Lemma right_fits round n : n < 0 → fits_elem t (vshl round x n).
Proof using Ht Hx.
  intros Hn. unfold vshl. destruct (Z.leb_spec 0 n); [lia|]. destruct bounds as (H1 & H2 & H3 & _). unfold fits_elem in *.
  assert (0 ≤ - n - 1) as Hm by lia. pose proof (Z.pow_pos_nonneg 2 (- n - 1) ltac:(lia) Hm). replace (2 ^ - n) with (2 * 2 ^ (- n - 1)) by (rewrite <- Z.pow_succ_r by lia; f_equal; lia).
  set (h := 2 ^ (- n - 1)) in *. split.
  - apply Z.div_le_lower_bound; [lia|]. destruct round; nia.
  - apply Z.lt_succ_r, Z.div_lt_upper_bound; [lia|]. destruct round; nia.
Qed.
End Amount.

(** ** One element *)

Lemma round_far x m : 0 < m → - 2 ^ (m - 1) ≤ x < 2 ^ (m - 1) → (x + 2 ^ (m - 1)) / 2 ^ m = 0.
Proof. intros Hm Hx. pose proof (pow_half m Hm). apply Z.div_small. lia. Qed.

Lemma round_top w x : 0 < w → 0 ≤ x < 2 ^ w → (x + 2 ^ (w - 1)) / 2 ^ w = x / 2 ^ (w - 1).
Proof.
  intros Hw Hx. rewrite round_steps by done. pose proof (pow_half w Hw). pose proof (Z.pow_pos_nonneg 2 (w - 1) ltac:(lia) ltac:(lia)).
  assert (x / 2 ^ (w - 1) = 0 ∨ x / 2 ^ (w - 1) = 1) as [-> | ->]; [|done..].
  destruct (Z.lt_ge_cases x (2 ^ (w - 1))); [left; apply Z.div_small; lia|right]. symmetry. apply Z.div_unique with (x - 2 ^ (w - 1)); lia.
Qed.

(** The formula, for the amounts the helpers tell apart. *)
Lemma vshl_left round x n : 0 ≤ n → vshl round x n = x .<< n.
Proof. intros. unfold vshl. destruct (Z.leb_spec 0 n); [|lia]. by rewrite Z.shiftl_mul_pow2. Qed.
Lemma vshl_right x n : n < 0 → vshl false x n = x .>> - n.
Proof. intros. unfold vshl. destruct (Z.leb_spec 0 n); [lia|]. by rewrite Z.shiftr_div_pow2, Z.add_0_r by lia. Qed.
Lemma vshl_round x n : n < 0 → vshl true x n = (x + (1 .<< (-1 - n))) .>> - n.
Proof.
  intros. unfold vshl. destruct (Z.leb_spec 0 n); [lia|]. rewrite Z.shiftr_div_pow2, Z.shiftl_1_l by lia. do 3 f_equal. lia.
Qed.
Lemma vshl_round_steps x n : n < 0 → vshl true x n = ((x .>> (- n - 1)) + 1) .>> 1.
Proof.
  intros. unfold vshl. destruct (Z.leb_spec 0 n); [lia|]. rewrite !Z.shiftr_div_pow2 by lia. by rewrite round_steps by lia.
Qed.

Section Lane.
Variables (t : elem) (x : Z).
Hypotheses (Ht : 0 < esize t) (Hx : fits_elem t x).
Abbreviation w := (esize t).

Lemma far_left round n : w ≤ n → wrap w (vshl round x n) = 0.
Proof using Ht. intros. rewrite vshl_left, Z.shiftl_mul_pow2 by lia. apply left_out. lia. Qed.

Lemma far_right n : n ≤ - w → vshl false x n = if x <? 0 then -1 else 0.
Proof using Ht Hx.
  intros Hn. rewrite vshl_right, Z.shiftr_div_pow2 by lia. destruct (bounds t Ht) as (H1 & H2 & H3 & H4 & _). unfold fits_elem in Hx.
  apply (div_sign _ _ (2 ^ w)); [lia|]. apply Z.pow_le_mono_r; lia.
Qed.

Lemma far_round n : n < - w ∨ n = - w ∧ signed t = true → vshl true x n = 0.
Proof using Ht Hx.
  intros Hn. unfold vshl. destruct (Z.leb_spec 0 n); [lia|]. apply round_far; [lia|]. destruct (bounds t Ht) as (H1 & H2 & H3 & H4 & Hs & _).
  unfold fits_elem in Hx. destruct Hn as [Hn|[-> Es]].
  - pose proof (Z.pow_le_mono_r 2 w (- n - 1) ltac:(lia) ltac:(lia)). lia.
  - destruct (Hs Es) as [El Eh]. replace (- - w - 1) with (w - 1) by lia. lia.
Qed.

Lemma top_round : signed t = false → vshl true x (- w) = x .>> (w - 1).
Proof using Ht Hx.
  intros Es. unfold vshl. destruct (Z.leb_spec 0 (- w)); [lia|]. rewrite Z.opp_involutive, Z.shiftr_div_pow2 by lia. apply round_top; [done|].
  destruct (bounds t Ht) as (H1 & H2 & H3 & H4 & _ & Hu & _). destruct (Hu Es). unfold fits_elem in Hx. lia.
Qed.

Lemma unsigned_pos : signed t = false → 0 ≤ x.
Proof using Ht Hx. intros Es. destruct (bounds t Ht) as (_ & _ & _ & _ & _ & Hu & _). destruct (Hu Es). unfold fits_elem in Hx. lia. Qed.

Lemma sign_right : signed t = true → x .>> (w - 1) = if x <? 0 then -1 else 0.
Proof using Ht Hx.
  intros Es. apply sign_shift; [done|]. destruct (bounds t Ht) as (_ & _ & _ & _ & Hs & _). destruct (Hs Es). unfold fits_elem in Hx. lia.
Qed.

Lemma shl_u_lane y : signed t = false → wrap w (shl_u t x y) = wrap w (vshl false x (s8 y)).
Proof using Ht Hx.
  intros Es. unfold shl_u. generalize (s8 y). intros n. pose proof (unsigned_pos Es) as Hp.
  destruct (Z.leb_spec w n); [by rewrite far_left|]. destruct (Z.leb_spec n (- w)); cbn [orb].
  - rewrite far_right by done. by destruct (Z.ltb_spec x 0); [lia|].
  - destruct (Z.ltb_spec n 0); [by rewrite vshl_right|by rewrite vshl_left].
Qed.

Lemma shl_s_lane y : signed t = true → wrap w (shl_s t x y) = wrap w (vshl false x (s8 y)).
Proof using Ht Hx.
  intros Es. unfold shl_s. generalize (s8 y). intros n. destruct (Z.leb_spec w n); [by rewrite far_left|].
  destruct (Z.leb_spec n (- w)); [by rewrite far_right, sign_right|]. destruct (Z.ltb_spec n 0); [by rewrite vshl_right|by rewrite vshl_left].
Qed.

Lemma rshl_s_lane y : signed t = true → wrap w (rshl_s t x y) = wrap w (vshl true x (s8 y)).
Proof using Ht Hx.
  intros Es. unfold rshl_s. generalize (s8 y). intros n. destruct (Z.leb_spec w n); [by rewrite far_left|].
  destruct (Z.leb_spec n (- w)); cbn [orb].
  - rewrite far_round; [done|]. destruct (decide (n = - w)); [by right|left; lia].
  - destruct (Z.ltb_spec n 0); [by rewrite vshl_round|by rewrite vshl_left].
Qed.

Lemma rshl_u_lane y : signed t = false → wrap w (rshl_u t x y) = wrap w (vshl true x (s8 y)).
Proof using Ht Hx.
  intros Es. unfold rshl_u. generalize (s8 y). intros n. destruct (Z.leb_spec w n); [by rewrite far_left|].
  destruct (Z.ltb_spec n (- w)); cbn [orb]; [rewrite far_round; [done|by left]|].
  destruct (Z.eqb_spec n (- w)) as [->|]; [rewrite top_round by done; do 2 f_equal; lia|].
  destruct (Z.ltb_spec n 0); [by rewrite vshl_round|by rewrite vshl_left].
Qed.

(** The three ways the saturating shifts end: to the right, to the left, and out of the element. *)
Lemma ends_right round n v fpscr : n < 0 → wrap w v = wrap w (vshl round x n) → saturates t (vshl round x n) fpscr (v, fpscr).
Proof using Ht Hx. intros Hn Hv. apply fits_saturates; [by apply right_fits|done]. Qed.

Definition top : Z := if 0 <? x then hi t else lo t.

Lemma ends_left round n s v z fpscr : 0 ≤ n < w → (x ≠ 0 → wrap w s = wrap w top) → v = conv t (x .<< n) → wrap w z = wrap w v →
  saturates t (vshl round x n) fpscr (if negb (v .>> n =? x) then (s, SET_QC fpscr) else (z, fpscr)).
Proof using Ht Hx.
  intros Hn Hs -> Hz. rewrite left_fits by done. rewrite vshl_left, Z.shiftl_mul_pow2 in * by lia.
  destruct (fitsb_spec t (x * 2 ^ n)) as [Hf|Hf]; cbn [negb]; split; cbn [fst snd].
  - by rewrite Hz, conv_small, sat_id.
  - by destruct (fitsb_spec t (x * 2 ^ n)).
  - destruct (left_sat t x Ht Hx n ltac:(lia) Hf) as [H0 ->]. by apply Hs.
  - by destruct (fitsb_spec t (x * 2 ^ n)).
Qed.

Lemma ends_out round n s z fpscr : w ≤ n → (x ≠ 0 → wrap w s = wrap w top) → (x = 0 → wrap w z = 0) →
  saturates t (vshl round x n) fpscr (if negb (x =? 0) then (s, SET_QC fpscr) else (z, fpscr)).
Proof using Ht Hx.
  intros Hn Hs Hz. rewrite vshl_left, Z.shiftl_mul_pow2 in * by lia. destruct (Z.eqb_spec x 0) as [E0|E0]; cbn [negb].
  - specialize (Hz E0). rewrite E0, Z.mul_0_l. assert (fits_elem t 0) as Hf by (destruct (bounds t Ht); unfold fits_elem; lia). split; cbn [fst snd].
    + by rewrite sat_id.
    + by destruct (fitsb_spec t 0).
  - pose proof (left_far t x Ht n Hn E0) as Hf. split; cbn [fst snd].
    + destruct (left_sat t x Ht Hx n ltac:(lia) Hf) as [_ ->]. by apply Hs.
    + by destruct (fitsb_spec t (x * 2 ^ n)).
Qed.

Lemma top_u : signed t = false → x ≠ 0 → wrap w (-1) = wrap w top.
Proof using Ht Hx.
  intros Es H0. destruct (bounds t Ht) as (_ & _ & _ & _ & _ & Hu & _). destruct (Hu Es) as [El Eh]. pose proof (unsigned_pos Es). unfold top.
  destruct (Z.ltb_spec 0 x); [|lia]. rewrite Eh. unfold wrap. rewrite <- (Z_mod_plus_full (-1) 1). f_equal. lia.
Qed.

(** Both ways the helpers write down the limit of a signed element. *)
Lemma top_s d : signed t = true → d = conv t (1 .<< (w - 1)) → (if 0 <? x then conv t (d - 1) else d) = top.
Proof using Ht.
  intros Es ->. destruct (bounds t Ht) as (_ & _ & _ & _ & Hs & _ & E & Hp). destruct (Hs Es) as [El Eh]. unfold top. rewrite El, Eh.
  assert (conv t (1 .<< (w - 1)) = - 2 ^ (w - 1)) as ->.
  { rewrite Z.shiftl_1_l. unfold conv. rewrite Es. rewrite swrap_cases by lia. destruct (Z.ltb_spec (2 ^ (w - 1)) (2 ^ (w - 1))); lia. }
  destruct (0 <? x); [|done]. rewrite <- conv_wrap by lia. replace (- 2 ^ (w - 1) - 1) with (2 ^ (w - 1) - 1 + (-1) * 2 ^ w) by lia.
  unfold wrap. rewrite Z_mod_plus_full. rewrite Z.mod_small by lia. apply conv_small; [done|]. unfold fits_elem. lia.
Qed.

Lemma qshl_u_lane fpscr y : signed t = false → saturates t (vshl false x (s8 y)) fpscr (qshl_u t fpscr x y).
Proof using Ht Hx.
  intros Es. unfold qshl_u. generalize (s8 y). intros n. pose proof (unsigned_pos Es) as Hp. pose proof (top_u Es) as Htop.
  destruct (Z.leb_spec w n); [|destruct (Z.leb_spec n (- w)); [|destruct (Z.ltb_spec n 0)]].
  - by apply ends_out.
  - apply ends_right; [lia|]. rewrite far_right by done. by destruct (Z.ltb_spec x 0); [lia|].
  - apply ends_right; [lia|]. by rewrite vshl_right.
  - by apply ends_left.
Qed.

Lemma qrshl_u_lane fpscr y : signed t = false → saturates t (vshl true x (s8 y)) fpscr (qrshl_u t fpscr x y).
Proof using Ht Hx.
  intros Es. unfold qrshl_u. generalize (s8 y). intros n. pose proof (top_u Es) as Htop.
  destruct (Z.leb_spec w n); [|destruct (Z.ltb_spec n (- w)); [|destruct (Z.eqb_spec n (- w)) as [->|]; [|destruct (Z.ltb_spec n 0)]]].
  - by apply ends_out.
  - apply ends_right; [lia|]. rewrite far_round; [done|by left].
  - apply ends_right; [lia|]. by rewrite top_round.
  - apply ends_right; [lia|]. by rewrite vshl_round.
  - by apply ends_left.
Qed.

Lemma qshl_s_lane fpscr y : signed t = true → w ≤ 32 → saturates t (vshl false x (s8 y)) fpscr (qshl_s t fpscr x y).
Proof using Ht Hx.
  intros Es Hw. unfold qshl_s. generalize (s8 y). intros n. cbv zeta.
  rewrite (top_s (conv t (u32 (1 .<< (w - 1))))); [|done|].
  2: { f_equal. rewrite Z.shiftl_1_l. apply wrap_small. split; [lia|]. apply Z.pow_lt_mono_r; lia. }
  destruct (Z.leb_spec w n); [|destruct (Z.leb_spec n (- w)); [|destruct (Z.ltb_spec n 0)]].
  - apply ends_out; [done|done|by intros ->].
  - apply ends_right; [lia|]. rewrite far_right by done. f_equal. rewrite Z.shiftr_div_pow2 by lia. unfold fits_elem in Hx.
    destruct (bounds t Ht) as (_ & _ & _ & _ & Hs & _). destruct (Hs Es). apply (div_sign _ _ (2 ^ (w - 1))); [lia|]. apply Z.pow_le_mono_r; lia.
  - apply ends_right; [lia|]. by rewrite vshl_right.
  - by apply ends_left.
Qed.

Lemma qrshl_s_lane fpscr y : signed t = true → saturates t (vshl true x (s8 y)) fpscr (qrshl_s t fpscr x y).
Proof using Ht Hx.
  intros Es. unfold qrshl_s. generalize (s8 y). intros n. cbv zeta. rewrite top_s by done.
  destruct (Z.leb_spec w n); [|destruct (Z.leb_spec n (- w)); [|destruct (Z.ltb_spec n 0)]].
  - by apply ends_out.
  - apply ends_right; [lia|]. rewrite far_round; [done|]. destruct (decide (n = - w)); [by right|left; lia].
  - apply ends_right; [lia|]. by rewrite vshl_round.
  - by apply ends_left.
Qed.
End Lane.

(** A negative value shifted is negative, so it saturates to zero. *)
Lemma vshl_neg x n : x < 0 → vshl false x n < 0.
Proof.
  intros Hx. unfold vshl. destruct (Z.leb_spec 0 n).
  - pose proof (Z.pow_pos_nonneg 2 n ltac:(lia) ltac:(done)). nia.
  - rewrite Z.add_0_r. apply Z.div_lt_upper_bound; [|lia]. apply Z.pow_pos_nonneg; lia.
Qed.

Lemma neg_saturates w v fpscr : 0 < w → v < 0 → saturates (Elem w false) v fpscr (0, SET_QC fpscr).
Proof.
  intros Hw Hv. unfold saturates, sat, fitsb, lo, hi. cbn [signed esize fst snd]. split; [f_equal; lia|]. by destruct (Z.leb_spec 0 v); [lia|].
Qed.

Lemma qshlu_s_lane w fpscr x y : 0 < w → 0 ≤ x < 2 ^ w →
  saturates (Elem w false) (vshl false (swrap w x) (s8 y)) fpscr (qshlu_s (Elem w false) fpscr x y).
Proof.
  intros Hw Hx. unfold qshlu_s. cbn [esize]. rewrite mask_bit, sign_bit, swrap_cases by (done || lia).
  destruct (Z.leb_spec (2 ^ (w - 1)) x), (Z.ltb_spec x (2 ^ (w - 1))); cbn [negb]; try lia.
  - apply neg_saturates; [done|]. apply vshl_neg. lia.
  - apply qshl_u_lane; try done. unfold fits_elem, lo, hi. simpl. lia.
Qed.

(** ** The helpers *)

Definition by_amount (round : bool) (x y : Z) : Z := vshl round x (s8 y).

Lemma word_fits size s a : 0 < size → fits_elem (Elem size s) (conv (Elem size s) a).
Proof. intros. by apply conv_fits. Qed.

Lemma word_unsigned size a : 0 < size → 0 ≤ a < 2 ^ size → conv (Elem size false) a = a.
Proof. intros. apply conv_small; [done|]. unfold fits_elem, lo, hi. simpl. lia. Qed.

Lemma shiftr_small w a n : 0 ≤ n → 0 ≤ a < 2 ^ w → 0 ≤ a .>> n < 2 ^ w.
Proof.
  intros Hn Ha. rewrite Z.shiftr_div_pow2 by done. pose proof (Z.pow_pos_nonneg 2 n ltac:(lia) Hn).
  split; [apply Z.div_pos; lia|]. apply Z.div_lt_upper_bound; [done|]. nia.
Qed.

Lemma neon_shl_u8_ok : lanewise 32 neon_u8 neon_u8 neon_u8 (by_amount false) neon_shl_u8.
Proof. apply vop; [done|]. intros x y Hx _. by apply shl_u_lane. Qed.
Lemma neon_shl_u16_ok : lanewise 32 neon_u16 neon_u16 neon_u16 (by_amount false) neon_shl_u16.
Proof. apply vop; [done|]. intros x y Hx _. by apply shl_u_lane. Qed.
Lemma neon_shl_u32_ok : lanewise 32 neon_u32 neon_u32 neon_u32 (by_amount false) neon_shl_u32.
Proof. apply vop; [done|]. intros x y Hx _. by apply shl_u_lane. Qed.
Lemma neon_shl_s8_ok : lanewise 32 neon_s8 neon_s8 neon_s8 (by_amount false) neon_shl_s8.
Proof. apply vop; [done|]. intros x y Hx _. by apply shl_s_lane. Qed.
Lemma neon_shl_s16_ok : lanewise 32 neon_s16 neon_s16 neon_s16 (by_amount false) neon_shl_s16.
Proof. apply vop; [done|]. intros x y Hx _. by apply shl_s_lane. Qed.
Lemma neon_shl_s32_ok : lanewise 32 neon_s32 neon_s32 neon_s32 (by_amount false) neon_shl_s32.
Proof. apply vop; [done|]. intros x y Hx _. by apply shl_s_lane. Qed.
Lemma neon_rshl_s8_ok : lanewise 32 neon_s8 neon_s8 neon_s8 (by_amount true) neon_rshl_s8.
Proof. apply vop; [done|]. intros x y Hx _. by apply rshl_s_lane. Qed.
Lemma neon_rshl_s16_ok : lanewise 32 neon_s16 neon_s16 neon_s16 (by_amount true) neon_rshl_s16.
Proof. apply vop; [done|]. intros x y Hx _. by apply rshl_s_lane. Qed.
Lemma neon_rshl_u8_ok : lanewise 32 neon_u8 neon_u8 neon_u8 (by_amount true) neon_rshl_u8.
Proof. apply vop; [done|]. intros x y Hx _. by apply rshl_u_lane. Qed.
Lemma neon_rshl_u16_ok : lanewise 32 neon_u16 neon_u16 neon_u16 (by_amount true) neon_rshl_u16.
Proof. apply vop; [done|]. intros x y Hx _. by apply rshl_u_lane. Qed.

Abbreviation word size s := (Elem size s).

Lemma neon_shl_u64_ok : lanewise 64 (word 64 false) (word 64 false) (word 64 false) (by_amount false) neon_shl_u64.
Proof.
  apply whole_lane; [done|]. intros a b Ha _. rewrite word_unsigned by done. unfold by_amount.
  rewrite <- (shl_u_lane (word 64 false) a) by (done || by rewrite <- (word_unsigned 64 a); [apply word_fits|..]).
  unfold neon_shl_u64, shl_u. cbn [esize]. destruct (_ || _); [done|]. destruct (Z.ltb_spec (s8 b) 0); [|done].
  symmetry. apply wrap_small, shiftr_small; lia.
Qed.

Lemma neon_shl_s64_ok : lanewise 64 (word 64 true) (word 64 false) (word 64 true) (by_amount false) neon_shl_s64.
Proof.
  apply whole_lane; [done|]. intros a b Ha _. unfold by_amount. rewrite <- (shl_s_lane (word 64 true)) by (done || by apply word_fits).
  unfold neon_shl_s64, shl_s. cbn [esize]. change (conv (word 64 true) a) with (s64 a). change (64 - 1) with 63.
  destruct (_ <=? _); [done|]. destruct (_ <=? _); [done|]. destruct (_ <? _); [done|]. apply (wrap_swrap 64). lia.
Qed.

(** The value that is rounded is wide enough, or is rounded in steps. *)
Lemma big_round_s n v : -32 < n < 0 → fits_elem neon_s32 v → s64 (v + s32 (1 .<< (-1 - n))) .>> - n = vshl true v n.
Proof.
  intros Hn Hv. rewrite vshl_round by lia. rewrite Z.shiftl_1_l. unfold fits_elem, lo, hi in Hv. cbn in Hv.
  pose proof (Z.pow_le_mono_r 2 (-1 - n) 30 ltac:(lia) ltac:(lia)). pose proof (Z.pow_pos_nonneg 2 (-1 - n) ltac:(lia) ltac:(lia)).
  unfold s32. rewrite (swrap_small 32) by (simpl; lia). unfold s64. by rewrite swrap_small by (simpl; lia).
Qed.

Lemma big_round_u n v : -32 < n < 0 → 0 ≤ v < 2 ^ 32 → u64 (v + u64 (s32 (1 .<< (-1 - n)))) .>> - n = vshl true v n.
Proof.
  intros Hn Hv. rewrite vshl_round by lia. rewrite Z.shiftl_1_l.
  pose proof (Z.pow_le_mono_r 2 (-1 - n) 30 ltac:(lia) ltac:(lia)). pose proof (Z.pow_pos_nonneg 2 (-1 - n) ltac:(lia) ltac:(lia)).
  unfold s32. rewrite (swrap_small 32) by (simpl; lia). unfold u64. rewrite (wrap_small 64 (2 ^ (-1 - n))) by lia. by rewrite wrap_small by lia.
Qed.

Lemma steps_s n v : n < 0 →
  (if v .>> (- n - 1) =? 2 ^ 63 - 1 then 0x4000000000000000 else ((v .>> (- n - 1)) + 1) .>> 1) = vshl true v n.
Proof. intros Hn. rewrite vshl_round_steps by done. by destruct (Z.eqb_spec (v .>> (- n - 1)) (2 ^ 63 - 1)) as [->|]. Qed.

Lemma steps_u n v : n < 0 → 0 ≤ v < 2 ^ 64 →
  (if v .>> (- n - 1) =? 2 ^ 64 - 1 then 0x8000000000000000 else u64 ((v .>> (- n - 1)) + 1) .>> 1) = vshl true v n.
Proof.
  intros Hn Hv. rewrite vshl_round_steps by done. destruct (Z.eqb_spec (v .>> (- n - 1)) (2 ^ 64 - 1)) as [->|]; [done|].
  pose proof (shiftr_small 64 v (- n - 1) ltac:(lia) Hv). unfold u64. by rewrite wrap_small by lia.
Qed.

Lemma neon_rshl_s32_ok : lanewise 32 (word 32 true) (word 32 false) (word 32 true) (by_amount true) neon_rshl_s32.
Proof.
  apply whole_lane; [done|]. intros a b Ha _. pose proof (word_fits 32 true a ltac:(done)) as Hf. unfold by_amount. rewrite <- (rshl_s_lane (word 32 true)) by done.
  unfold neon_rshl_s32, rshl_s. cbn [esize]. change (- (32)) with (-32). change (conv (word 32 true) a) with (s32 a) in *. generalize dependent (s32 a). intros v Hv. generalize (s8 b). intros n.
  destruct (Z.leb_spec 32 n); [done|]. destruct (Z.leb_spec n (-32)); [done|]. cbn [orb].
  destruct (Z.ltb_spec n 0); [|by apply (wrap_swrap 32)]. cbv zeta. rewrite big_round_s by (done || lia). rewrite <- vshl_round by done. by apply (wrap_swrap 32).
Qed.

Lemma neon_rshl_u32_ok : lanewise 32 (word 32 false) (word 32 false) (word 32 false) (by_amount true) neon_rshl_u32.
Proof.
  apply whole_lane; [done|]. intros a b Ha _. pose proof (word_fits 32 false a ltac:(done)) as Hf. unfold by_amount. rewrite <- (rshl_u_lane (word 32 false)) by done.
  rewrite word_unsigned by done. unfold neon_rshl_u32, rshl_u. cbn [esize]. change (- (32)) with (-32). generalize (s8 b). intros n.
  destruct (Z.leb_spec 32 n); [done|]. destruct (Z.ltb_spec n (-32)); [done|]. cbn [orb].
  destruct (Z.eqb_spec n (-32)) as [->|]; [symmetry; apply wrap_small, (shiftr_small 32); lia|].
  destruct (Z.ltb_spec n 0); [|done]. cbv zeta. rewrite big_round_u by lia. by rewrite <- vshl_round.
Qed.

Lemma neon_rshl_s64_ok : lanewise 64 (word 64 true) (word 64 false) (word 64 true) (by_amount true) neon_rshl_s64.
Proof.
  apply whole_lane; [done|]. intros a b Ha _. pose proof (word_fits 64 true a ltac:(done)) as Hf. unfold by_amount. rewrite <- (rshl_s_lane (word 64 true)) by done.
  unfold neon_rshl_s64, rshl_s. cbn [esize]. change (- (64)) with (-64). change (conv (word 64 true) a) with (s64 a). generalize (s64 a), (s8 b). intros v n.
  destruct (_ || _); [done|]. destruct (Z.ltb_spec n 0); [|by apply (wrap_swrap 64)]. cbv zeta. by rewrite steps_s, vshl_round.
Qed.

Lemma s8_u8 b : s8 (u8 b) = s8 b.
Proof. by apply (swrap_wrap 8). Qed.

Lemma neon_rshl_u64_ok : lanewise 64 (word 64 false) (word 64 false) (word 64 false) (by_amount true) neon_rshl_u64.
Proof.
  apply whole_lane; [done|]. intros a b Ha _. pose proof (word_fits 64 false a ltac:(done)) as Hf. unfold by_amount. rewrite <- (rshl_u_lane (word 64 false)) by done.
  rewrite word_unsigned in * by done. unfold neon_rshl_u64, rshl_u. rewrite s8_u8. cbn [esize]. change (- (64)) with (-64). generalize (s8 b). intros n.
  destruct (_ || _); [done|]. destruct (Z.eqb_spec n (-64)) as [->|]; [symmetry; apply wrap_small, (shiftr_small 64); lia|].
  destruct (Z.ltb_spec n 0); [|done]. cbv zeta. rewrite steps_u, <- vshl_round by done. symmetry. apply wrap_small.
  pose proof (right_fits (word 64 false) a ltac:(done) Hf true n ltac:(done)) as Hr. unfold fits_elem, lo, hi in Hr. cbn [signed esize] in Hr. lia.
Qed.

Lemma lanes_env t round (g : fn) : 0 < esize t →
  (∀ fpscr x y, fits_elem t x → saturates t (vshl round x (s8 y)) fpscr (g fpscr x y)) → saturating 32 t t t (by_amount round) (NEON_VOP_ENV t g).
Proof. intros Ht H. apply vop_env; [done..|]. intros fpscr x y Hx Hy. unfold by_amount. rewrite !conv_small by done. auto. Qed.

Lemma neon_qshl_u8_ok : saturating 32 neon_u8 neon_u8 neon_u8 (by_amount false) neon_qshl_u8.
Proof. apply lanes_env; [done|]. intros. by apply qshl_u_lane. Qed.
Lemma neon_qshl_u16_ok : saturating 32 neon_u16 neon_u16 neon_u16 (by_amount false) neon_qshl_u16.
Proof. apply lanes_env; [done|]. intros. by apply qshl_u_lane. Qed.
Lemma neon_qshl_u32_ok : saturating 32 neon_u32 neon_u32 neon_u32 (by_amount false) neon_qshl_u32.
Proof. apply lanes_env; [done|]. intros. by apply qshl_u_lane. Qed.
Lemma neon_qshl_s8_ok : saturating 32 neon_s8 neon_s8 neon_s8 (by_amount false) neon_qshl_s8.
Proof. apply lanes_env; [done|]. intros. by apply qshl_s_lane. Qed.
Lemma neon_qshl_s16_ok : saturating 32 neon_s16 neon_s16 neon_s16 (by_amount false) neon_qshl_s16.
Proof. apply lanes_env; [done|]. intros. by apply qshl_s_lane. Qed.
Lemma neon_qshl_s32_ok : saturating 32 neon_s32 neon_s32 neon_s32 (by_amount false) neon_qshl_s32.
Proof. apply lanes_env; [done|]. intros. by apply qshl_s_lane. Qed.
Lemma neon_qrshl_u8_ok : saturating 32 neon_u8 neon_u8 neon_u8 (by_amount true) neon_qrshl_u8.
Proof. apply lanes_env; [done|]. intros. by apply qrshl_u_lane. Qed.
Lemma neon_qrshl_u16_ok : saturating 32 neon_u16 neon_u16 neon_u16 (by_amount true) neon_qrshl_u16.
Proof. apply lanes_env; [done|]. intros. by apply qrshl_u_lane. Qed.
Lemma neon_qrshl_s8_ok : saturating 32 neon_s8 neon_s8 neon_s8 (by_amount true) neon_qrshl_s8.
Proof. apply lanes_env; [done|]. intros. by apply qrshl_s_lane. Qed.
Lemma neon_qrshl_s16_ok : saturating 32 neon_s16 neon_s16 neon_s16 (by_amount true) neon_qrshl_s16.
Proof. apply lanes_env; [done|]. intros. by apply qrshl_s_lane. Qed.

Lemma neon_qshlu_s8_ok : saturating 32 neon_s8 neon_u8 neon_u8 (by_amount false) neon_qshlu_s8.
Proof.
  apply vop_env; [done..|]. intros fpscr x y Hx Hy. unfold by_amount. rewrite (conv_small _ y) by done. apply (qshlu_s_lane 8); [done|].
  unfold fits_elem, lo, hi in Hx. simpl in Hx. lia.
Qed.
Lemma neon_qshlu_s16_ok : saturating 32 neon_s16 neon_u16 neon_u16 (by_amount false) neon_qshlu_s16.
Proof.
  apply vop_env; [done..|]. intros fpscr x y Hx Hy. unfold by_amount. rewrite (conv_small _ y) by done. apply (qshlu_s_lane 16); [done|].
  unfold fits_elem, lo, hi in Hx. simpl in Hx. lia.
Qed.

(** The word is the operand, so the result is in its range. *)
Lemma ends_if size (c : bool) (p q : Z * Z) : 0 ≤ p.1 < 2 ^ size → 0 ≤ q.1 < 2 ^ size → 0 ≤ (if c then p else q).1 < 2 ^ size.
Proof. by destruct c. Qed.

Lemma top_s64 a : 0 ≤ a < 2 ^ 64 → s64 a ≠ 0 → wrap 64 (u64 (s64 a .>> 63) .^ not64 SIGNBIT64) = wrap 64 (top (word 64 true) (s64 a)).
Proof.
  intros Ha. rewrite sat_by_sign64 by done. unfold top, lo, hi. cbn [signed esize]. unfold s64. rewrite swrap_cases by lia.
  change (2 ^ (64 - 1)) with (2 ^ 63). destruct (Z.ltb_spec a (2 ^ 63)).
  - intros H0. by destruct (Z.ltb_spec 0 a); [|lia].
  - intros _. by destruct (Z.ltb_spec 0 (a - 2 ^ 64)); [lia|].
Qed.
Lemma top_s32 a : 0 ≤ a < 2 ^ 32 → s32 a ≠ 0 → wrap 32 (u32 (s32 a .>> 31) .^ not32 SIGNBIT) = wrap 32 (top (word 32 true) (s32 a)).
Proof.
  intros Ha. destruct (sat_by_sign32 a Ha) as [_ ->]. unfold top, lo, hi. cbn [signed esize]. unfold s32. rewrite swrap_cases by lia.
  change (2 ^ (32 - 1)) with (2 ^ 31). destruct (Z.ltb_spec a (2 ^ 31)).
  - intros H0. by destruct (Z.ltb_spec 0 a); [|lia].
  - intros _. by destruct (Z.ltb_spec 0 (a - 2 ^ 32)); [lia|].
Qed.

Lemma neon_qshl_u64_ok : saturating 64 (word 64 false) (word 64 false) (word 64 false) (by_amount false) neon_qshl_u64.
Proof.
  apply whole_saturates; [done|]. intros fpscr a b Ha Hb. rewrite word_unsigned by done. assert (fits_elem (word 64 false) a) as Hf by (unfold fits_elem, lo, hi; simpl; lia).
  unfold by_amount, neon_qshl_u64. generalize (s8 b). intros n. pose proof (top_u (word 64 false) a ltac:(done) Hf eq_refl) as Htop. cbn [esize] in Htop.
  destruct (Z.leb_spec 64 n); [|destruct (Z.leb_spec n (-64)); [|destruct (Z.ltb_spec n 0)]].
  - split; [apply ends_out; [done..|by intros ->]|by apply ends_if].
  - split; [|done]. apply ends_right; [done..|lia|]. rewrite (far_right (word 64 false)) by done. by destruct (Z.ltb_spec a 0); [lia|].
  - split; [|apply shiftr_small; cbn [fst]; lia]. apply ends_right; [done..|]. by rewrite vshl_right.
  - split; [by apply ends_left|apply ends_if; [done|]]. by apply (wrap_range 64).
Qed.

Lemma neon_qrshl_u64_ok : saturating 64 (word 64 false) (word 64 false) (word 64 false) (by_amount true) neon_qrshl_u64.
Proof.
  apply whole_saturates; [done|]. intros fpscr a b Ha Hb. rewrite word_unsigned by done. assert (fits_elem (word 64 false) a) as Hf by (unfold fits_elem, lo, hi; simpl; lia).
  unfold by_amount, neon_qrshl_u64. generalize (s8 b). intros n. pose proof (top_u (word 64 false) a ltac:(done) Hf eq_refl) as Htop. cbn [esize] in Htop.
  destruct (Z.leb_spec 64 n); [|destruct (Z.ltb_spec n (-64)); [|destruct (Z.eqb_spec n (-64)) as [->|]; [|destruct (Z.ltb_spec n 0)]]].
  - split; [apply ends_out; [done..|by intros ->]|by apply ends_if].
  - split; [|done]. apply ends_right; [done..|lia|]. rewrite (far_round (word 64 false)); [done..|by left].
  - split; [|apply shiftr_small; cbn [fst]; lia]. apply ends_right; [done..|]. by rewrite (top_round (word 64 false)).
  - cbv zeta. rewrite steps_u by done. split; [by apply ends_right|].
    pose proof (right_fits (word 64 false) a ltac:(done) Hf true n ltac:(done)) as Hr. unfold fits_elem, lo, hi in Hr. cbn [signed esize fst] in *. lia.
  - split; [by apply ends_left|apply ends_if; [done|]]. by apply (wrap_range 64).
Qed.

Lemma neon_qrshl_u32_ok : saturating 32 (word 32 false) (word 32 false) (word 32 false) (by_amount true) neon_qrshl_u32.
Proof.
  apply whole_saturates; [done|]. intros fpscr a b Ha Hb. rewrite word_unsigned by done. assert (fits_elem (word 32 false) a) as Hf by (unfold fits_elem, lo, hi; simpl; lia).
  unfold by_amount, neon_qrshl_u32. generalize (s8 b). intros n. pose proof (top_u (word 32 false) a ltac:(done) Hf eq_refl) as Htop. cbn [esize] in Htop.
  destruct (Z.leb_spec 32 n); [|destruct (Z.ltb_spec n (-32)); [|destruct (Z.eqb_spec n (-32)) as [->|]; [|destruct (Z.ltb_spec n 0)]]].
  - split; [by apply ends_out|by apply ends_if].
  - split; [|done]. apply ends_right; [done..|lia|]. rewrite (far_round (word 32 false)); [done..|by left].
  - split; [|apply shiftr_small; cbn [fst]; lia]. apply ends_right; [done..|]. by rewrite (top_round (word 32 false)).
  - cbv zeta. rewrite big_round_u by lia. split; [|by apply (wrap_range 32)]. apply ends_right; [done..|]. apply wrap_wrap.
  - split; [by apply ends_left|apply ends_if; [done|]]. by apply (wrap_range 32).
Qed.

Lemma xor_range w a b : 0 ≤ w → 0 ≤ a < 2 ^ w → 0 ≤ b < 2 ^ w → 0 ≤ a .^ b < 2 ^ w.
Proof.
  intros Hw Ha Hb. split; [by apply Z.lxor_nonneg; lia|]. apply Z.bounded_iff_bits_nonneg; [lia|by apply Z.lxor_nonneg; lia|].
  intros n Hn. by rewrite Z.lxor_spec, (bit_above w a), (bit_above w b).
Qed.

Lemma limit64 v : 0 ≤ u64 v .^ not64 SIGNBIT64 < 2 ^ 64.
Proof. apply xor_range; [done|by apply (wrap_range 64)|done]. Qed.
Lemma limit32 v : 0 ≤ u32 v .^ not32 SIGNBIT < 2 ^ 32.
Proof. apply xor_range; [done|by apply (wrap_range 32)|done]. Qed.

Lemma neon_qshl_s64_ok : saturating 64 (word 64 true) (word 64 false) (word 64 true) (by_amount false) neon_qshl_s64.
Proof.
  apply whole_saturates; [done|]. intros fpscr a b Ha Hb. pose proof (word_fits 64 true a ltac:(done)) as Hf.
  unfold by_amount, neon_qshl_s64. rewrite s8_u8. generalize (s8 b). intros n. pose proof (top_s64 a Ha) as Htop. cbv zeta.
  change (conv (word 64 true) a) with (s64 a) in *. generalize dependent (s64 a). intros v Hf Htop.
  destruct (Z.leb_spec 64 n); [|destruct (Z.leb_spec n (-64)); [|destruct (Z.ltb_spec n 0)]].
  - split; [apply ends_out; [done..|by intros ->]|apply ends_if; [apply limit64|by apply (wrap_range 64)]].
  - split; [|by apply (wrap_range 64)]. apply ends_right; [done..|lia|]. rewrite (far_right (word 64 true)) by done.
    change 63 with (esize (word 64 true) - 1). rewrite sign_right by done. apply (wrap_wrap 64).
  - split; [|by apply (wrap_range 64)]. apply ends_right; [done..|]. rewrite vshl_right by done. apply (wrap_wrap 64).
  - split; [|apply ends_if; [apply limit64|by apply (wrap_range 64)]]. apply ends_left; try done. apply (wrap_wrap 64).
Qed.

Lemma neon_qrshl_s64_ok : saturating 64 (word 64 true) (word 64 false) (word 64 true) (by_amount true) neon_qrshl_s64.
Proof.
  apply whole_saturates; [done|]. intros fpscr a b Ha Hb. pose proof (word_fits 64 true a ltac:(done)) as Hf.
  unfold by_amount, neon_qrshl_s64. rewrite s8_u8. generalize (s8 b). intros n. pose proof (top_s64 a Ha) as Htop. cbv zeta.
  change (conv (word 64 true) a) with (s64 a) in *. generalize dependent (s64 a). intros v Hf Htop.
  destruct (Z.leb_spec 64 n); [|destruct (Z.leb_spec n (-64)); [|destruct (Z.ltb_spec n 0)]].
  - split; [apply ends_out; [done..|by intros ->]|apply ends_if; [apply limit64|by apply (wrap_range 64)]].
  - split; [|done]. apply ends_right; [done..|lia|]. rewrite (far_round (word 64 true)); [done..|]. cbn [esize]. destruct (decide (n = -64)); [by right|left; lia].
  - rewrite steps_s by done. split; [|by apply (wrap_range 64)]. apply ends_right; [done..|]. apply (wrap_wrap 64).
  - split; [|apply ends_if; [apply limit64|by apply (wrap_range 64)]]. apply ends_left; try done. apply (wrap_wrap 64).
Qed.

Lemma neon_qrshl_s32_ok : saturating 32 (word 32 true) (word 32 false) (word 32 true) (by_amount true) neon_qrshl_s32.
Proof.
  apply whole_saturates; [done|]. intros fpscr a b Ha Hb. pose proof (word_fits 32 true a ltac:(done)) as Hf.
  unfold by_amount, neon_qrshl_s32. generalize (s8 b). intros n. pose proof (top_s32 a Ha) as Htop. cbv zeta.
  change (conv (word 32 true) a) with (s32 a) in *. generalize dependent (s32 a). intros v Hf Htop.
  destruct (Z.leb_spec 32 n); [|destruct (Z.leb_spec n (-32)); [|destruct (Z.ltb_spec n 0)]].
  - split; [by apply ends_out|apply ends_if; [apply limit32|done]].
  - split; [|done]. apply ends_right; [done..|lia|]. rewrite (far_round (word 32 true)); [done..|]. cbn [esize]. destruct (decide (n = -32)); [by right|left; lia].
  - rewrite big_round_s by (done || lia). split; [|by apply (wrap_range 32)]. apply ends_right; [done..|]. apply (wrap_wrap 32).
  - split; [|apply ends_if; [apply limit32|by apply (wrap_range 32)]]. apply ends_left; try done. apply (wrap_wrap 32).
Qed.

(** The sign is tested first; without it the operand is what the unsigned helper takes. *)
Lemma signed_first size f (op op' : Z → Z → Z → Z * Z) :
  0 < size → (∀ x n, x < 0 → f x n < 0) → saturating size (word size false) (word size false) (word size false) f op →
  (∀ fpscr a b, op' fpscr a b = if swrap size a <? 0 then (0, SET_QC fpscr) else op fpscr a b) →
  saturating size (word size true) (word size false) (word size false) f op'.
Proof.
  intros Hs Hf Hop Hop' fpscr a b Ha Hb. rewrite Hop', Hop by done. rewrite !elems_one by done. cbn [zip_with forallb]. rewrite !pack_one, !(word_unsigned size) by done.
  change (conv (word size true) a) with (swrap size a). rewrite swrap_cases by done. destruct (Z.ltb_spec a (2 ^ (size - 1))).
  - by destruct (Z.ltb_spec a 0); [lia|].
  - destruct (Z.ltb_spec (a - 2 ^ size) 0); [|lia]. destruct (neg_saturates size (f (a - 2 ^ size) b) fpscr Hs) as [H1 H2]; [apply Hf; lia|].
    cbn [esize fst snd] in *. unfold id. by rewrite <- H1, H2, andb_true_r.
Qed.

Lemma neon_qshlu_s32_ok : saturating 32 (word 32 true) (word 32 false) (word 32 false) (by_amount false) neon_qshlu_s32.
Proof. apply (signed_first 32 _ neon_qshl_u32); [done| |apply neon_qshl_u32_ok|done]. intros x n. apply vshl_neg. Qed.
Lemma neon_qshlu_s64_ok : saturating 64 (word 64 true) (word 64 false) (word 64 false) (by_amount false) neon_qshlu_s64.
Proof. apply (signed_first 64 _ neon_qshl_u64); [done| |apply neon_qshl_u64_ok|done]. intros x n. apply vshl_neg. Qed.
