(* ===== verification/NeonSwar.v ===== *)
(** Arithmetic on whole words: masks keep carries, borrows and shifted bits inside the elements, so
    that one operation on words acts on every element. *)

From Stdlib Require Import ZArith Lia.
From stdpp Require Import base tactics numbers option list list_numbers.
From S2P Require Import Prelude Bits Neon NeonLanes NeonSat NeonShift.

(** ** Words and lists *)

Section Pack.
Variable t : elem.
Hypothesis Ht : 0 < esize t.
Abbreviation w := (esize t).
Abbreviation P := (NEON_PACK t).
Abbreviation in_elem v := (0 ≤ v < 2 ^ w).

Lemma pack_bit v vec n : 0 ≤ n → Z.testbit (P (v :: vec)) n = if n <? w then Z.testbit v n else Z.testbit (P vec) (n - w).
Proof using Ht.
  intros Hn. cbn [NEON_PACK]. rewrite Z.lor_spec, Z.shiftl_spec by done. unfold wrap. destruct (Z.ltb_spec n w).
  - by rewrite Z.mod_pow2_bits_low, (Z.testbit_neg_r _ (n - w)), orb_false_r by lia.
  - by rewrite Z.mod_pow2_bits_high by lia.
Qed.

(** Bitwise operations act on every element. *)
Lemma pack_bitwise (f : Z → Z → Z) (g : bool → bool → bool) xs ys :
  (∀ a b n, 0 ≤ n → Z.testbit (f a b) n = g (Z.testbit a n) (Z.testbit b n)) → g false false = false → length xs = length ys →
  f (P xs) (P ys) = P (zip_with f xs ys).
Proof using Ht.
  intros Hf Hg. revert ys. induction xs as [|x xs IH]; intros [|y ys] Hl; try done.
  - apply Z.bits_inj'. intros n Hn. by rewrite Hf, !Z.bits_0.
  - apply Z.bits_inj'. intros n Hn. cbn [zip_with]. rewrite Hf, !pack_bit by done. destruct (Z.ltb_spec n w); [by rewrite Hf|].
    rewrite <- (IH ys) by (by injection Hl). by rewrite Hf by lia.
Qed.
Lemma pack_land xs ys : length xs = length ys → P xs .& P ys = P (zip_with Z.land xs ys).
Proof using Ht. apply (pack_bitwise Z.land andb); [|done]. intros. apply Z.land_spec. Qed.
Lemma pack_lor xs ys : length xs = length ys → P xs .| P ys = P (zip_with Z.lor xs ys).
Proof using Ht. apply (pack_bitwise Z.lor orb); [|done]. intros. apply Z.lor_spec. Qed.
Lemma pack_lxor xs ys : length xs = length ys → P xs .^ P ys = P (zip_with Z.lxor xs ys).
Proof using Ht. apply (pack_bitwise Z.lxor xorb); [|done]. intros. apply Z.lxor_spec. Qed.

(** Sums and differences act on every element if there is no carry and no borrow. *)
Lemma pack_add xs ys : length xs = length ys → Forall (λ v, 0 ≤ v < 2 ^ (w - 1)) xs → Forall (λ v, 0 ≤ v < 2 ^ (w - 1)) ys →
  P xs + P ys = P (zip_with Z.add xs ys).
Proof using Ht.
  intros Hl Hx. revert ys Hl. pose proof (pow_half w Ht). induction Hx as [|x xs Hx Hxs IH]; intros [|y ys] Hl Hy; try done.
  apply Forall_cons in Hy as [Hy Hys]. cbn [zip_with]. rewrite !pack_cons, !wrap_small by (done || lia). rewrite <- IH by (done || by injection Hl). lia.
Qed.
Lemma pack_sub m xs ys : length xs = length ys → Forall (λ v, m ≤ v < 2 ^ w) xs → Forall (λ v, 0 ≤ v ≤ m) ys → 0 ≤ m < 2 ^ w →
  P xs - P ys = P (zip_with Z.sub xs ys).
Proof using Ht.
  intros Hl Hx. revert ys Hl. induction Hx as [|x xs Hx Hxs IH]; intros [|y ys] Hl Hy Hm; try done.
  apply Forall_cons in Hy as [Hy Hys]. cbn [zip_with]. rewrite !pack_cons, !wrap_small by (done || lia). rewrite <- IH by (done || by injection Hl). lia.
Qed.

(** So do shifts of elements that leave room. *)
Lemma pack_shiftl k xs : 0 ≤ k → Forall (λ v, 0 ≤ v ∧ v * 2 ^ k < 2 ^ w) xs → P xs .<< k = P ((λ v, v .<< k) <$> xs).
Proof using Ht.
  intros Hk H. induction H as [|x xs Hx H IH]; [by rewrite Z.shiftl_0_l|]. rewrite fmap_cons, !pack_cons, <- IH by done.
  pose proof (Z.pow_pos_nonneg 2 k ltac:(lia) Hk). rewrite !Z.shiftl_mul_pow2 by done. rewrite !wrap_small by nia. lia.
Qed.
Lemma pack_divide k xs : Forall (λ v, in_elem v ∧ (2 ^ k | v)) xs → (2 ^ k | P xs).
Proof using Ht.
  intros H. induction H as [|x xs [Hx Hd] H IH]; [apply Z.divide_0_r|]. rewrite pack_cons, wrap_small by done.
  apply Z.divide_add_r; [done|by apply Z.divide_mul_l].
Qed.
Lemma pack_shiftr k xs : 0 ≤ k → Forall (λ v, in_elem v ∧ (2 ^ k | v)) xs → P xs .>> k = P ((λ v, v .>> k) <$> xs).
Proof using Ht.
  intros Hk H. pose proof (Z.pow_pos_nonneg 2 k ltac:(lia) Hk). induction H as [|x xs [Hx [q Hq]] H IH]; [by rewrite Z.shiftr_0_l|].
  rewrite fmap_cons, !pack_cons by done. rewrite <- IH. destruct (pack_divide k xs H) as [p Hp]. rewrite !Z.shiftr_div_pow2 by done. rewrite Hp. subst x.
  rewrite !Z.div_mul by lia. rewrite !wrap_small by nia. symmetry. apply Z.div_unique_exact; lia.
Qed.

(** Bits that cross the border of an element are masked. *)
Lemma pack_shift_mask k xs m : 0 ≤ k → 0 ≤ m < 2 ^ (w - k) → (P xs .>> k) .& P (replicate (length xs) m) = P ((λ x, (x .>> k) .& m) <$> xs).
Proof using Ht.
  intros Hk Hm. apply Z.bits_inj'. intros n Hn. rewrite Z.land_spec, Z.shiftr_spec by done. revert n Hn. induction xs as [|x xs IH]; intros n Hn.
  { by rewrite !Z.bits_0. }
  cbn [length replicate]. rewrite fmap_cons, !pack_bit by lia. destruct (Z.ltb_spec n w).
  - rewrite Z.land_spec, Z.shiftr_spec by done. destruct (Z.ltb_spec (n + k) w); [done|]. by rewrite (bit_above (w - k) m n), !andb_false_r by lia.
  - destruct (Z.ltb_spec (n + k) w); [lia|]. rewrite <- IH by lia. do 2 f_equal. lia.
Qed.
End Pack.

(** ** Addition and subtraction *)

Lemma mask_value x k : 0 ≤ k → x .& 2 ^ k = if Z.testbit x k then 2 ^ k else 0.
Proof.
  intros Hk. apply Z.bits_inj'. intros n Hn. rewrite Z.land_spec. destruct (decide (n = k)) as [->|].
  - rewrite Z.pow2_bits_true, andb_true_r by done. destruct (Z.testbit x k); [by rewrite Z.pow2_bits_true|by rewrite Z.bits_0].
  - rewrite Z.pow2_bits_false, andb_false_r by done. destruct (Z.testbit x k); [by rewrite Z.pow2_bits_false|by rewrite Z.bits_0].
Qed.

Lemma or_value x k : 0 ≤ k → x .| 2 ^ k = if Z.testbit x k then x else x + 2 ^ k.
Proof.
  intros Hk. pose proof (mask_value x k Hk) as E. destruct (Z.testbit x k) eqn:Eb; [|by apply lor_add].
  apply Z.bits_inj'. intros n Hn. rewrite Z.lor_spec. destruct (decide (n = k)) as [->|]; [by rewrite Eb|]. by rewrite Z.pow2_bits_false, orb_false_r.
Qed.

Lemma flip_value w x : 0 < w → 0 ≤ x < 2 ^ w → x .^ 2 ^ (w - 1) = if 2 ^ (w - 1) <=? x then x - 2 ^ (w - 1) else x + 2 ^ (w - 1).
Proof.
  intros Hw Hx. pose proof (mask_value x (w - 1) ltac:(lia)) as E. rewrite sign_bit in E by done. destruct (Z.leb_spec (2 ^ (w - 1)) x).
  - assert ((x .^ 2 ^ (w - 1)) + 2 ^ (w - 1) = x); [|lia]. rewrite <- lor_add.
    + apply Z.bits_inj'. intros n Hn. rewrite Z.lor_spec, Z.lxor_spec. apply (f_equal (λ z, Z.testbit z n)) in E. rewrite Z.land_spec in E.
      by destruct (Z.testbit x n), (Z.testbit (2 ^ (w - 1)) n).
    + apply Z.bits_inj'. intros n Hn. rewrite Z.land_spec, Z.lxor_spec, Z.bits_0. apply (f_equal (λ z, Z.testbit z n)) in E. rewrite Z.land_spec in E.
      by destruct (Z.testbit x n), (Z.testbit (2 ^ (w - 1)) n).
  - rewrite <- lor_add by done. apply Z.bits_inj'. intros n Hn. rewrite Z.lor_spec, Z.lxor_spec. apply (f_equal (λ z, Z.testbit z n)) in E.
    rewrite Z.land_spec, Z.bits_0 in E. by destruct (Z.testbit x n), (Z.testbit (2 ^ (w - 1)) n).
Qed.

Lemma low_value w x : 0 < w → 0 ≤ x < 2 ^ w → x .& (2 ^ (w - 1) - 1) = if 2 ^ (w - 1) <=? x then x - 2 ^ (w - 1) else x.
Proof.
  intros Hw Hx. replace (2 ^ (w - 1) - 1) with (Z.ones (w - 1)) by (rewrite Z.ones_equiv; lia). rewrite Z.land_ones by lia. pose proof (pow_half w Hw).
  destruct (Z.leb_spec (2 ^ (w - 1)) x); [|apply Z.mod_small; lia]. symmetry. apply Z.mod_unique with 1; lia.
Qed.

Section Lane.
Variables (w x y : Z).
Hypotheses (Hw : 0 < w) (Hx : 0 ≤ x < 2 ^ w) (Hy : 0 ≤ y < 2 ^ w).
Abbreviation h := (2 ^ (w - 1)).

Lemma add_lane : ((x .& (h - 1)) + (y .& (h - 1))) .^ ((x .^ y) .& h) = wrap w (x + y).
Proof using Hw Hx Hy.
  pose proof (pow_half w Hw). rewrite !low_value, mask_value, Z.lxor_spec, !sign_bit by (done || lia). rewrite wrap_cases by lia.
  destruct (Z.leb_spec h x), (Z.leb_spec h y); cbn [xorb]; rewrite ?Z.lxor_0_r, ?flip_value by lia; compare; lia.
Qed.

Lemma sub_lane : ((x .| h) - (y .& (h - 1))) .^ ((x .^ (2 ^ w - 1 - y)) .& h) = wrap w (x - y).
Proof using Hw Hx Hy.
  pose proof (pow_half w Hw). rewrite !low_value, mask_value, or_value, Z.lxor_spec, !sign_bit by (done || lia). rewrite wrap_cases by lia.
  destruct (Z.leb_spec h x), (Z.leb_spec h y), (Z.leb_spec h (2 ^ w - 1 - y)); try lia; cbn [xorb]; rewrite ?Z.lxor_0_r, ?flip_value by lia; compare; lia.
Qed.
End Lane.

Ltac lens := repeat (rewrite length_zip_with || rewrite length_fmap || rewrite length_replicate); lia.

Section Words.
Variables (w : Z) (n : nat).
Hypotheses (Hw : 0 < w).
Abbreviation t := (Elem w false).
Abbreviation size := (w * Z.of_nat n).
Abbreviation P := (NEON_PACK t).
Abbreviation h := (2 ^ (w - 1)).

(** A word as a list of its elements. *)
Lemma as_list a : 0 ≤ a < 2 ^ size → ∃ xs, a = P xs ∧ elems size t a = xs ∧ length xs = n ∧ Forall (λ v, 0 ≤ v < 2 ^ w) xs.
Proof using Hw.
  intros Ha. exists (elems size t a). split_and!; [by rewrite (pack_elems size (Z.of_nat n)) by (done || lia)|done| |].
  - rewrite elems_length by (simpl; lia). cbn [esize]. rewrite Z.mul_comm, Z.div_mul by lia. lia.
  - eapply Forall_impl; [by apply elems_fit|]. intros v Hv. unfold fits_elem, lo, hi in Hv. simpl in Hv. lia.
Qed.

Lemma map_replicate (f : Z → Z → Z) xs m : length xs = n → zip_with f xs (replicate n m) = (λ x, f x m) <$> xs.
Proof. intros. by rewrite zip_with_replicate_r by lia. Qed.

Lemma pack_word xs : length xs = n → 0 ≤ P xs < 2 ^ size.
Proof using Hw. intros <-. by apply pack_range. Qed.

Lemma low_lanes xs : Forall (λ v, 0 ≤ v < 2 ^ w) xs → Forall (λ v, 0 ≤ v < h) ((λ x, x .& (h - 1)) <$> xs).
Proof using Hw.
  intros H. apply Forall_fmap. eapply Forall_impl; [done|]. intros v Hv. cbv beta in *. unfold compose. rewrite low_value by done. pose proof (pow_half w Hw). compare; lia.
Qed.
Lemma high_lanes xs : Forall (λ v, 0 ≤ v < 2 ^ w) xs → Forall (λ v, h ≤ v < 2 ^ w) ((λ x, x .| h) <$> xs).
Proof using Hw.
  intros H. apply Forall_fmap. eapply Forall_impl; [done|]. intros v Hv. cbv beta in *. unfold compose. rewrite or_value, sign_bit by (done || lia). pose proof (pow_half w Hw). compare; lia.
Qed.

Lemma swar_add a b : 0 ≤ a < 2 ^ size → 0 ≤ b < 2 ^ size →
  wrap size ((a .& P (replicate n (h - 1))) + (b .& P (replicate n (h - 1)))) .^ ((a .^ b) .& P (replicate n h))
  = P (zip_with Z.add (elems size t a) (elems size t b)).
Proof using Hw.
  intros Ha Hb. destruct (as_list a Ha) as (xs & -> & -> & Lx & Hx). destruct (as_list b Hb) as (ys & -> & -> & Ly & Hy).
  rewrite !(pack_land t) by (done || lens). rewrite !map_replicate by done. rewrite (pack_add t) by (done || lens || by apply low_lanes).
  rewrite wrap_small by (apply pack_word; lens). rewrite !(pack_lxor t) by (done || lens). rewrite (pack_land t), map_replicate by (done || lens).
  rewrite (pack_lxor t) by (done || lens). clear Ha Hb. revert ys Ly Hy. rewrite <- Lx. clear Lx.
  induction Hx as [|x xs Hx Hxs IH]; intros [|y ys] Ly Hy; try done. apply Forall_cons in Hy as [Hy Hys].
  rewrite !fmap_cons. cbn [zip_with]. rewrite fmap_cons. cbn [zip_with]. rewrite !(pack_cons t) by done. rewrite IH by (done || by injection Ly).
  cbn [esize]. by rewrite add_lane, wrap_wrap.
Qed.

Lemma complement b : 0 ≤ b < 2 ^ size → wrap size (Z.lnot b) = P ((λ y, 2 ^ w - 1 - y) <$> elems size t b).
Proof using Hw.
  intros Hb. unfold Z.lnot. rewrite wrap_cases by lia. destruct (Z.ltb_spec (Z.pred (- b)) 0); [|lia].
  destruct (as_list b Hb) as (ys & E & -> & Ly & Hy). subst b. assert (2 ^ size - 1 = P (replicate n (2 ^ w - 1))) as E.
  { clear - Hw. induction n as [|k IH]; [by rewrite Z.mul_0_r|]. cbn [replicate]. rewrite (pack_cons t) by done. rewrite <- IH. cbn [esize].
    rewrite wrap_small by lia. rewrite Nat2Z.inj_succ, Z.mul_succ_r, Z.pow_add_r by lia. lia. }
  replace (Z.pred (- P ys) + 2 ^ size) with (2 ^ size - 1 - P ys) by lia. rewrite E, (pack_sub t Hw (2 ^ w - 1)); [|lens| | |simpl; lia].
  - f_equal. rewrite zip_with_replicate_l by lia. done.
  - apply Forall_replicate. simpl. lia.
  - eapply Forall_impl; [done|]. cbv beta. lia.
Qed.

Lemma swar_sub a b : 0 ≤ a < 2 ^ size → 0 ≤ b < 2 ^ size →
  wrap size ((a .| P (replicate n h)) - (b .& P (replicate n (h - 1)))) .^ ((a .^ wrap size (Z.lnot b)) .& P (replicate n h))
  = P (zip_with Z.sub (elems size t a) (elems size t b)).
Proof using Hw.
  intros Ha Hb. rewrite complement by done. destruct (as_list a Ha) as (xs & -> & -> & Lx & Hx). destruct (as_list b Hb) as (ys & -> & -> & Ly & Hy).
  pose proof (pow_half w Hw). pose proof (Z.pow_pos_nonneg 2 (w - 1) ltac:(lia) ltac:(lia)).
  rewrite (pack_land t), (pack_lor t), !map_replicate by (done || lens).
  rewrite (pack_sub t Hw h); [|lens|by apply high_lanes|eapply Forall_impl; [by apply low_lanes|cbv beta; lia]|simpl; lia].
  rewrite wrap_small by (apply pack_word; lens). rewrite (pack_lxor t) by (done || lens). rewrite (pack_land t), map_replicate by (done || lens).
  rewrite (pack_lxor t) by (done || lens). clear Ha Hb. revert ys Ly Hy. rewrite <- Lx. clear Lx.
  induction Hx as [|x xs Hx Hxs IH]; intros [|y ys] Ly Hy; try done. apply Forall_cons in Hy as [Hy Hys].
  rewrite !fmap_cons. cbn [zip_with]. rewrite fmap_cons. cbn [zip_with]. rewrite !(pack_cons t) by done. rewrite IH by (done || by injection Ly).
  cbn [esize]. by rewrite sub_lane, wrap_wrap.
Qed.
End Words.

Lemma neon_add_u8_ok : lanewise 32 neon_u8 neon_u8 neon_u8 Z.add neon_add_u8.
Proof. intros a b Ha Hb. exact (swar_add 8 4 ltac:(done) a b Ha Hb). Qed.
Lemma neon_add_u16_ok : lanewise 32 neon_u16 neon_u16 neon_u16 Z.add neon_add_u16.
Proof. intros a b Ha Hb. exact (swar_add 16 2 ltac:(done) a b Ha Hb). Qed.
Lemma neon_addl_u16_ok : lanewise 64 neon_u16 neon_u16 neon_u16 Z.add neon_addl_u16.
Proof. intros a b Ha Hb. exact (swar_add 16 4 ltac:(done) a b Ha Hb). Qed.
Lemma neon_addl_u32_ok : lanewise 64 neon_u32 neon_u32 neon_u32 Z.add neon_addl_u32.
Proof. intros a b Ha Hb. exact (swar_add 32 2 ltac:(done) a b Ha Hb). Qed.
Lemma neon_subl_u16_ok : lanewise 64 neon_u16 neon_u16 neon_u16 Z.sub neon_subl_u16.
Proof. intros a b Ha Hb. exact (swar_sub 16 4 ltac:(done) a b Ha Hb). Qed.
Lemma neon_subl_u32_ok : lanewise 64 neon_u32 neon_u32 neon_u32 Z.sub neon_subl_u32.
Proof. intros a b Ha Hb. exact (swar_sub 32 2 ltac:(done) a b Ha Hb). Qed.

(** ** Fields that move *)

(** A mask selects the field of [k] bits at [m]. *)
Lemma field_at x k m : 0 ≤ k → 0 ≤ m → x .& (Z.ones k .<< m) = wrap k (x .>> m) .<< m.
Proof.
  intros Hk Hm. apply Z.bits_inj'. intros n Hn. rewrite Z.land_spec, !Z.shiftl_spec by done. destruct (Z.ltb_spec n m).
  - by rewrite !(Z.testbit_neg_r _ (n - m)), andb_false_r by lia.
  - unfold wrap. destruct (Z.ltb_spec (n - m) k).
    + rewrite Z.ones_spec_low, Z.mod_pow2_bits_low, Z.shiftr_spec, andb_true_r by lia. f_equal. lia.
    + by rewrite Z.ones_spec_high, Z.mod_pow2_bits_high, andb_false_r by lia.
Qed.
Lemma field_right x s k m : 0 ≤ s → 0 ≤ k → 0 ≤ m → (x .>> s) .& (Z.ones k .<< m) = wrap k (x .>> (s + m)) .<< m.
Proof. intros. by rewrite field_at, Z.shiftr_shiftr by lia. Qed.
Lemma field_left size x s k m : 0 ≤ s ≤ m → 0 ≤ k → m + k ≤ size → wrap size (x .<< s) .& (Z.ones k .<< m) = wrap k (x .>> (m - s)) .<< m.
Proof.
  intros. rewrite field_at by lia. f_equal. apply Z.bits_inj'. intros n Hn. unfold wrap. destruct (Z.ltb_spec n k).
  - rewrite !Z.mod_pow2_bits_low, !Z.shiftr_spec, Z.mod_pow2_bits_low, Z.shiftl_spec by lia. f_equal. lia.
  - by rewrite !Z.mod_pow2_bits_high by lia.
Qed.

(** Disjoint fields make up a packed word. *)
Lemma fields_2 w sg a b : wrap w a .| (wrap w b .<< w) = NEON_PACK (Elem w sg) [a; b].
Proof. cbn [NEON_PACK esize]. by rewrite Z.shiftl_0_l, Z.lor_0_r. Qed.
Lemma fields_4 w sg a b c d : 0 ≤ w →
  wrap w a .| (wrap w b .<< w) .| (wrap w c .<< (w + w)) .| (wrap w d .<< (w + w + w)) = NEON_PACK (Elem w sg) [a; b; c; d].
Proof.
  intros Hw. cbn [NEON_PACK esize]. rewrite Z.shiftl_0_l, Z.lor_0_r, !Z.shiftl_lor, !Z.shiftl_shiftl by lia. by rewrite !Z.lor_assoc, Z.add_assoc.
Qed.

Lemma narrow_range sg l : length l = 4%nat → 0 ≤ NEON_PACK (Elem 8 sg) l < 2 ^ 32.
Proof. intros E. pose proof (pack_range (Elem 8 sg) l ltac:(done)) as H. by rewrite E in H. Qed.
Lemma narrow_range16 sg l : length l = 2%nat → 0 ≤ NEON_PACK (Elem 16 sg) l < 2 ^ 32.
Proof. intros E. pose proof (pack_range (Elem 16 sg) l ltac:(done)) as H. by rewrite E in H. Qed.

(** The four bytes, or the two halfwords, that a 64-bit word is narrowed to. *)
Lemma narrow_bytes x s : 0 ≤ s →
  u32 (((x .>> s) .& 0xff) .| ((x .>> (s + 8)) .& 0xff00) .| ((x .>> (s + 16)) .& 0xff0000) .| ((x .>> (s + 24)) .& 0xff000000))
  = NEON_PACK neon_u8 [x .>> s; x .>> (s + 16); x .>> (s + 32); x .>> (s + 48)].
Proof.
  intros Hs. change 0xff with (Z.ones 8 .<< 0). change 0xff00 with (Z.ones 8 .<< 8). change 0xff0000 with (Z.ones 8 .<< 16). change 0xff000000 with (Z.ones 8 .<< 24).
  rewrite !field_right by lia. rewrite Z.shiftl_0_r, Z.add_0_r. replace (s + 8 + 8) with (s + 16) by lia. replace (s + 16 + 16) with (s + 32) by lia.
  replace (s + 24 + 24) with (s + 48) by lia. change (_ .| _) with (wrap 8 (x .>> s) .| (wrap 8 (x .>> s + 16) .<< 8) .| (wrap 8 (x .>> s + 32) .<< (8 + 8)) .| (wrap 8 (x .>> s + 48) .<< (8 + 8 + 8))).
  rewrite (fields_4 8 false) by done. apply wrap_small. by apply narrow_range.
Qed.
Lemma narrow_halves x s : 0 ≤ s →
  u32 (((x .>> s) .& 0xffff) .| ((x .>> (s + 16)) .& 0xffff0000)) = NEON_PACK neon_u16 [x .>> s; x .>> (s + 32)].
Proof.
  intros Hs. change 0xffff with (Z.ones 16 .<< 0). change 0xffff0000 with (Z.ones 16 .<< 16).
  rewrite !field_right by lia. rewrite Z.shiftl_0_r, Z.add_0_r. replace (s + 16 + 16) with (s + 32) by lia.
  rewrite (fields_2 16 false). apply wrap_small. by apply narrow_range16.
Qed.

Lemma wrap_narrow a b v : 0 ≤ a ≤ b → wrap a (wrap b v) = wrap a v.
Proof.
  intros H. unfold wrap. apply Z.bits_inj'. intros n Hn. destruct (Z.ltb_spec n a); [by rewrite !Z.mod_pow2_bits_low by lia|by rewrite !Z.mod_pow2_bits_high by lia].
Qed.
Lemma wrap_high a b s v : 0 ≤ s → 0 ≤ a → s + a ≤ b → wrap a (wrap b v .>> s) = wrap a (v .>> s).
Proof.
  intros. unfold wrap. apply Z.bits_inj'. intros n Hn. destruct (Z.ltb_spec n a); [|by rewrite !Z.mod_pow2_bits_high by lia].
  rewrite !Z.mod_pow2_bits_low, !Z.shiftr_spec, Z.mod_pow2_bits_low by lia. done.
Qed.

Lemma neon_narrow_u8_ok : lanewise1 64 neon_u16 neon_u8 id neon_narrow_u8.
Proof.
  intros x Hx. rewrite (elems64_4 false). transitivity (NEON_PACK neon_u8 [x .>> 0; x .>> 16; x .>> 32; x .>> 48]); [exact (narrow_bytes x 0 ltac:(done))|].
  apply pack_wrap; [done|]. cbn [fmap list_fmap]. unfold id, conv. cbn [signed esize neon_u8]. by rewrite !(wrap_narrow 8 16).
Qed.
Lemma neon_narrow_u16_ok : lanewise1 64 neon_u32 neon_u16 id neon_narrow_u16.
Proof.
  intros x Hx. rewrite (elems64_2 false). transitivity (NEON_PACK neon_u16 [x .>> 0; x .>> 32]); [exact (narrow_halves x 0 ltac:(done))|].
  apply pack_wrap; [done|]. cbn [fmap list_fmap]. unfold id, conv. cbn [signed esize neon_u16]. by rewrite !(wrap_narrow 16 32).
Qed.
Lemma neon_narrow_high_u8_ok : lanewise1 64 neon_u16 neon_u8 (λ v, v / 2 ^ 8) neon_narrow_high_u8.
Proof.
  intros x Hx. rewrite (elems64_4 false). transitivity (NEON_PACK neon_u8 [x .>> 8; x .>> 24; x .>> 40; x .>> 56]); [exact (narrow_bytes x 8 ltac:(done))|].
  apply pack_wrap; [done|]. cbn [fmap list_fmap]. unfold conv. cbn [signed esize neon_u8]. rewrite <- !(Z.shiftr_div_pow2 _ 8) by done.
  by rewrite !(wrap_high 8 16), !Z.shiftr_shiftr by done.
Qed.
Lemma neon_narrow_high_u16_ok : lanewise1 64 neon_u32 neon_u16 (λ v, v / 2 ^ 16) neon_narrow_high_u16.
Proof.
  intros x Hx. rewrite (elems64_2 false). transitivity (NEON_PACK neon_u16 [x .>> 16; x .>> 48]); [exact (narrow_halves x 16 ltac:(done))|].
  apply pack_wrap; [done|]. cbn [fmap list_fmap]. unfold conv. cbn [signed esize neon_u16]. rewrite <- !(Z.shiftr_div_pow2 _ 16) by done.
  by rewrite !(wrap_high 16 32), !Z.shiftr_shiftr by done.
Qed.

(** A word of 64 bits as a sum. *)
Lemma sum_4 x : 0 ≤ x < 2 ^ 64 → ∃ a b c d, x = a + b * 2 ^ 16 + c * 2 ^ 32 + d * 2 ^ 48 ∧ elems 64 neon_u16 x = [a; b; c; d] ∧
  x = NEON_PACK neon_u16 [a; b; c; d] ∧ 0 ≤ a < 2 ^ 16 ∧ 0 ≤ b < 2 ^ 16 ∧ 0 ≤ c < 2 ^ 16 ∧ 0 ≤ d < 2 ^ 16.
Proof.
  intros Hx. assert (NEON_PACK neon_u16 (elems 64 neon_u16 x) = x) as E by (by apply (pack_elems 64 4)). rewrite (elems64_4 false) in *. unfold conv in *. cbn [signed esize] in *.
  pose proof (λ s, wrap_range 16 (x .>> s) ltac:(done)) as Hr. do 4 eexists. split_and!; [|done|by symmetry|apply Hr..].
  rewrite !pack_cons in E by done. cbn [NEON_PACK esize neon_u16] in E. rewrite !wrap_wrap in E. lia.
Qed.
Lemma sum_2 x : 0 ≤ x < 2 ^ 64 → ∃ a b, x = a + b * 2 ^ 32 ∧ elems 64 neon_u32 x = [a; b] ∧ x = NEON_PACK neon_u32 [a; b] ∧ 0 ≤ a < 2 ^ 32 ∧ 0 ≤ b < 2 ^ 32.
Proof.
  intros Hx. assert (NEON_PACK neon_u32 (elems 64 neon_u32 x) = x) as E by (by apply (pack_elems 64 2)). rewrite (elems64_2 false) in *. unfold conv in *. cbn [signed esize] in *.
  pose proof (λ s, wrap_range 32 (x .>> s) ltac:(done)) as Hr. do 2 eexists. split_and!; [|done|by symmetry|apply Hr..].
  rewrite !pack_cons in E by done. cbn [NEON_PACK esize neon_u32] in E. rewrite !wrap_wrap in E. lia.
Qed.

Lemma clear_low v k w : 0 ≤ k ≤ w → 0 ≤ v < 2 ^ w → v .& (Z.ones (w - k) .<< k) = 2 ^ k * (v / 2 ^ k).
Proof.
  intros Hk Hv. rewrite field_at by lia. rewrite Z.shiftl_mul_pow2, Z.shiftr_div_pow2 by lia. rewrite wrap_small; [lia|].
  split; [apply Z.div_pos; lia|]. apply Z.div_lt_upper_bound; [lia|]. rewrite <- Z.pow_add_r by lia. replace (k + (w - k)) with w by lia. lia.
Qed.

(** What is below a field and what is above it do not matter. *)
Lemma field_of_sum m p low v rest : 0 < m → 0 < p → 0 ≤ low < m → ((low + m * v + 2 * m * p * rest) / (2 * m)) mod p = (v / 2) mod p.
Proof.
  intros Hm Hp Hl. rewrite (Z.mul_comm 2 m), <- Z.div_div by lia. replace (low + m * v + m * 2 * p * rest) with (low + (v + 2 * p * rest) * m) by lia.
  rewrite Z.div_add, (Z.div_small low), Z.add_0_l by lia. replace (v + 2 * p * rest) with (v + p * rest * 2) by lia. rewrite Z.div_add by lia.
  replace (p * rest) with (rest * p) by lia. by rewrite Z.mod_add by lia.
Qed.

Lemma neon_narrow_round_high_u8_ok : lanewise1 64 neon_u16 neon_u8 (λ v, (v + 2 ^ 7) / 2 ^ 8) neon_narrow_round_high_u8.
Proof.
  intros x Hx. destruct (sum_4 x Hx) as (a & b & c & d & _ & -> & E & Ha & Hb & Hc & Hd).
  assert (x .& 0xff80ff80ff80ff80 = 2 ^ 7 * (a / 2 ^ 7) + 2 ^ 7 * (b / 2 ^ 7) * 2 ^ 16 + 2 ^ 7 * (c / 2 ^ 7) * 2 ^ 32 + 2 ^ 7 * (d / 2 ^ 7) * 2 ^ 48) as Em.
  { change 0xff80ff80ff80ff80 with (NEON_PACK neon_u16 (replicate 4 (Z.ones (16 - 7) .<< 7))). rewrite E, pack_land by done. cbn [replicate zip_with].
    rewrite !(clear_low _ 7 16) by (done || lia). rewrite !pack_cons by done. cbn [NEON_PACK esize neon_u16]. rewrite !(wrap_small 16) by (Z.to_euclidean_division_equations; lia). lia. }
  unfold neon_narrow_round_high_u8. rewrite Em. clear Em E Hx x. set (s := u64 _).
  transitivity (NEON_PACK neon_u8 [s .>> 8; s .>> 24; s .>> 40; s .>> 56]); [exact (narrow_bytes s 8 ltac:(done))|].
  apply pack_wrap; [done|]. cbn [fmap list_fmap]. cbn [esize neon_u8]. unfold s, u64. rewrite !(wrap_high 8 64) by done. rewrite !Z.shiftr_div_pow2 by done. clear s.
  assert (∀ v, 0 ≤ v < 2 ^ 16 → 0 ≤ v / 2 ^ 7 < 2 ^ 9 ∧ (v + 2 ^ 7) / 2 ^ 8 = (v / 2 ^ 7 + 1) / 2) as Hv by (intros v Hv; split; Z.to_euclidean_division_equations; lia).
  destruct (Hv a Ha) as [Ra ->], (Hv b Hb) as [Rb ->], (Hv c Hc) as [Rc ->], (Hv d Hd) as [Rd ->].
  generalize dependent (a / 2 ^ 7). generalize dependent (b / 2 ^ 7). generalize dependent (c / 2 ^ 7). generalize dependent (d / 2 ^ 7). clear.
  intros d Hd c Hc b Hb a Ha. unfold wrap. f_equal; [|f_equal; [|f_equal; [|f_equal]]].
  - rewrite <- (field_of_sum (2 ^ 7) (2 ^ 8) 0 (a + 1) ((b + 1) * 2 ^ 7 + (c + 1) * 2 ^ 23 + (d + 1) * 2 ^ 39)) by lia. f_equal. f_equal. lia.
  - rewrite <- (field_of_sum (2 ^ 23) (2 ^ 8) ((a + 1) * 2 ^ 7) (b + 1) ((c + 1) * 2 ^ 7 + (d + 1) * 2 ^ 23)) by lia. f_equal. f_equal. lia.
  - rewrite <- (field_of_sum (2 ^ 39) (2 ^ 8) ((a + 1) * 2 ^ 7 + (b + 1) * 2 ^ 23) (c + 1) ((d + 1) * 2 ^ 7)) by lia. f_equal. f_equal. lia.
  - rewrite <- (field_of_sum (2 ^ 55) (2 ^ 8) ((a + 1) * 2 ^ 7 + (b + 1) * 2 ^ 23 + (c + 1) * 2 ^ 39) (d + 1) 0) by lia. f_equal. f_equal. lia.
Qed.

Lemma neon_narrow_round_high_u16_ok : lanewise1 64 neon_u32 neon_u16 (λ v, (v + 2 ^ 15) / 2 ^ 16) neon_narrow_round_high_u16.
Proof.
  intros x Hx. destruct (sum_2 x Hx) as (a & b & _ & -> & E & Ha & Hb).
  assert (x .& 0xffff8000ffff8000 = 2 ^ 15 * (a / 2 ^ 15) + 2 ^ 15 * (b / 2 ^ 15) * 2 ^ 32) as Em.
  { change 0xffff8000ffff8000 with (NEON_PACK neon_u32 (replicate 2 (Z.ones (32 - 15) .<< 15))). rewrite E, pack_land by done. cbn [replicate zip_with].
    rewrite !(clear_low _ 15 32) by (done || lia). rewrite !pack_cons by done. cbn [NEON_PACK esize neon_u32]. rewrite !(wrap_small 32) by (Z.to_euclidean_division_equations; lia). lia. }
  unfold neon_narrow_round_high_u16. rewrite Em. clear Em E Hx x. set (s := u64 _).
  transitivity (NEON_PACK neon_u16 [s .>> 16; s .>> 48]); [exact (narrow_halves s 16 ltac:(done))|].
  apply pack_wrap; [done|]. cbn [fmap list_fmap]. cbn [esize neon_u16]. unfold s, u64. rewrite !(wrap_high 16 64) by done. rewrite !Z.shiftr_div_pow2 by done. clear s.
  assert (∀ v, 0 ≤ v < 2 ^ 32 → 0 ≤ v / 2 ^ 15 < 2 ^ 17 ∧ (v + 2 ^ 15) / 2 ^ 16 = (v / 2 ^ 15 + 1) / 2) as Hv by (intros v Hv; split; Z.to_euclidean_division_equations; lia).
  destruct (Hv a Ha) as [Ra ->], (Hv b Hb) as [Rb ->]. generalize dependent (a / 2 ^ 15). generalize dependent (b / 2 ^ 15). clear.
  intros b Hb a Ha. unfold wrap. f_equal; [|f_equal].
  - rewrite <- (field_of_sum (2 ^ 15) (2 ^ 16) 0 (a + 1) ((b + 1) * 2 ^ 15)) by lia. f_equal. f_equal. lia.
  - rewrite <- (field_of_sum (2 ^ 47) (2 ^ 16) ((a + 1) * 2 ^ 15) (b + 1) 0) by lia. f_equal. f_equal. lia.
Qed.

(** ** Long operations *)

Lemma join_4 sg a b c d : 0 ≤ a < 2 ^ 16 → 0 ≤ b < 2 ^ 16 → 0 ≤ c < 2 ^ 16 → 0 ≤ d < 2 ^ 16 →
  a .| (b .<< 16) .| (c .<< 32) .| (d .<< 48) = NEON_PACK (Elem 16 sg) [a; b; c; d].
Proof. intros. rewrite <- (fields_4 16) by done. by rewrite !wrap_small. Qed.
Lemma join_2 sg a b : 0 ≤ a < 2 ^ 32 → 0 ≤ b < 2 ^ 32 → a .| (b .<< 32) = NEON_PACK (Elem 32 sg) [a; b].
Proof. intros. rewrite <- (fields_2 32) by done. by rewrite !wrap_small. Qed.

Ltac range := first [by apply (wrap_range 8)|by apply (wrap_range 16)|by apply (wrap_range 32)].
Ltac packed := apply pack_wrap; [done|]; cbn [fmap list_fmap zip_with]; unfold id; cbn [esize signed neon_u8 neon_u16 neon_u32]; rewrite ?Z.shiftr_0_r.

Lemma byte_in_half v : 0 ≤ u8 v < 2 ^ 16.
Proof. pose proof (wrap_range 8 v ltac:(done)). unfold u8. lia. Qed.

Lemma neon_widen_u8_ok : lanewise1 32 neon_u8 neon_u16 id neon_widen_u8.
Proof. intros x Hx. rewrite (elems_4 false). unfold neon_widen_u8. rewrite (join_4 false) by apply byte_in_half. by packed. Qed.
Lemma neon_widen_s8_ok : lanewise1 32 neon_s8 neon_u16 id neon_widen_s8.
Proof. intros x Hx. rewrite (elems_4 true). unfold neon_widen_s8. rewrite (join_4 false) by range. packed. unfold u16. by rewrite !wrap_wrap. Qed.
Lemma neon_widen_u16_ok : lanewise1 32 neon_u16 neon_u32 id neon_widen_u16.
Proof.
  intros x Hx. rewrite (elems_2 false). unfold neon_widen_u16. pose proof (wrap_range 16 x ltac:(done)). pose proof (wrap_range 16 (x .>> 16) ltac:(done)).
  rewrite (join_2 false) by (unfold u16; lia). by packed.
Qed.
Lemma neon_widen_s16_ok : lanewise1 32 neon_s16 neon_u32 id neon_widen_s16.
Proof.
  intros x Hx. rewrite (elems_2 true). unfold neon_widen_s16. cbv zeta.
  assert (u64 (u64 (s16 (x .>> 16)) .<< 32) = u32 (s16 (x .>> 16)) .<< 32) as ->.
  { apply Z.bits_inj'. intros n Hn. unfold u64, u32, wrap. rewrite Z.shiftl_spec by done. destruct (Z.ltb_spec n 64).
    - rewrite Z.mod_pow2_bits_low, Z.shiftl_spec by done. destruct (Z.ltb_spec n 32); [by rewrite !(Z.testbit_neg_r _ (n - 32)) by lia|].
      by rewrite !Z.mod_pow2_bits_low by lia.
    - by rewrite !Z.mod_pow2_bits_high by lia. }
  rewrite (join_2 false) by range. packed. unfold u32. by rewrite !wrap_wrap.
Qed.

Lemma DO_ABD_range t x y : 0 < esize t → 0 ≤ DO_ABD t x y < 2 ^ esize t.
Proof.
  intros Ht. unfold DO_ABD. cbv zeta. destruct (bounds t Ht) as (H1 & H2 & H3 & H4 & Hs & Hu & H5 & H6).
  pose proof (conv_fits t x Ht) as Hx. pose proof (conv_fits t y Ht) as Hy. unfold fits_elem in *.
  destruct (signed t); [destruct (Hs eq_refl)|destruct (Hu eq_refl)]; compare; lia.
Qed.
Lemma DO_ABD_value t x y : DO_ABD t x y = Z.abs (conv t x - conv t y).
Proof. unfold DO_ABD. cbv zeta. compare; lia. Qed.

Section Long.
Variables (sg : bool).

(** Four halfwords from bytes, two words from halfwords. *)
Lemma long_8 f (g : Z → Z → Z) op : (∀ x y, 0 ≤ g x y < 2 ^ 16) → (∀ x y, wrap 16 (g x y) = wrap 16 (f (conv (Elem 8 sg) x) (conv (Elem 8 sg) y))) →
  (∀ a b, op a b = g a b .| (g (a .>> 8) (b .>> 8) .<< 16) .| (g (a .>> 16) (b .>> 16) .<< 32) .| (g (a .>> 24) (b .>> 24) .<< 48)) →
  lanewise 32 (Elem 8 sg) (Elem 8 sg) (Elem 16 sg) f op.
Proof.
  intros Hr Hg Hop a b _ _. rewrite !elems_4, Hop, (join_4 sg) by done. apply pack_wrap; [done|]. cbn [fmap list_fmap zip_with esize]. by rewrite !Z.shiftr_0_r, !Hg.
Qed.
Lemma long_16 f (g : Z → Z → Z) op : (∀ x y, 0 ≤ g x y < 2 ^ 32) → (∀ x y, wrap 32 (g x y) = wrap 32 (f (conv (Elem 16 sg) x) (conv (Elem 16 sg) y))) →
  (∀ a b, op a b = g a b .| (g (a .>> 16) (b .>> 16) .<< 32)) → lanewise 32 (Elem 16 sg) (Elem 16 sg) (Elem 32 sg) f op.
Proof.
  intros Hr Hg Hop a b _ _. rewrite !elems_2, Hop, (join_2 sg) by done. apply pack_wrap; [done|]. cbn [fmap list_fmap zip_with esize]. by rewrite !Z.shiftr_0_r, !Hg.
Qed.
End Long.

Definition difference (x y : Z) : Z := Z.abs (x - y).

Lemma neon_abdl_u16_ok : lanewise 32 neon_u8 neon_u8 neon_u16 difference neon_abdl_u16.
Proof.
  apply (long_8 false _ (DO_ABD neon_u8)); [|intros; by rewrite DO_ABD_value|done]. intros x y. pose proof (DO_ABD_range neon_u8 x y ltac:(done)). simpl in *. lia.
Qed.
Lemma neon_abdl_s16_ok : lanewise 32 neon_s8 neon_s8 neon_s16 difference neon_abdl_s16.
Proof.
  apply (long_8 true _ (DO_ABD neon_s8)); [|intros; by rewrite DO_ABD_value|done]. intros x y. pose proof (DO_ABD_range neon_s8 x y ltac:(done)). simpl in *. lia.
Qed.
Lemma neon_abdl_u32_ok : lanewise 32 neon_u16 neon_u16 neon_u32 difference neon_abdl_u32.
Proof.
  apply (long_16 false _ (DO_ABD neon_u16)); [|intros; by rewrite DO_ABD_value|done]. intros x y. pose proof (DO_ABD_range neon_u16 x y ltac:(done)). simpl in *. lia.
Qed.
Lemma neon_abdl_s32_ok : lanewise 32 neon_s16 neon_s16 neon_s32 difference neon_abdl_s32.
Proof.
  apply (long_16 true _ (DO_ABD neon_s16)); [|intros; by rewrite DO_ABD_value|done]. intros x y. pose proof (DO_ABD_range neon_s16 x y ltac:(done)). simpl in *. lia.
Qed.
Lemma neon_abdl_u64_ok : lanewise 32 neon_u32 neon_u32 (Elem 64 false) difference neon_abdl_u64.
Proof. intros a b _ _. rewrite !(elems_one 32 false) by done. cbn [zip_with]. rewrite pack_one. unfold neon_abdl_u64. by rewrite DO_ABD_value. Qed.
Lemma neon_abdl_s64_ok : lanewise 32 neon_s32 neon_s32 (Elem 64 true) difference neon_abdl_s64.
Proof. intros a b _ _. rewrite !(elems_one 32 true) by done. cbn [zip_with]. rewrite pack_one. unfold neon_abdl_s64. by rewrite DO_ABD_value. Qed.

Lemma DO_MULL_value t x y : DO_MULL t x y = wrap (2 * esize t) (conv t x * conv t y).
Proof. unfold DO_MULL, wrap. cbv zeta. by rewrite <- Zmult_mod. Qed.

Lemma neon_mull_u8_ok : lanewise 32 neon_u8 neon_u8 neon_u16 Z.mul neon_mull_u8.
Proof. apply (long_8 false _ (DO_MULL neon_u8)); [intros; range|intros; rewrite DO_MULL_value; apply wrap_wrap|done]. Qed.
Lemma neon_mull_s8_ok : lanewise 32 neon_s8 neon_s8 neon_s16 Z.mul neon_mull_s8.
Proof. apply (long_8 true _ (DO_MULL neon_s8)); [intros; range|intros; rewrite DO_MULL_value; apply wrap_wrap|done]. Qed.
Lemma neon_mull_u16_ok : lanewise 32 neon_u16 neon_u16 neon_u32 Z.mul neon_mull_u16.
Proof. apply (long_16 false _ (DO_MULL neon_u16)); [intros; range|intros; rewrite DO_MULL_value; apply wrap_wrap|done]. Qed.
Lemma neon_mull_s16_ok : lanewise 32 neon_s16 neon_s16 neon_s32 Z.mul neon_mull_s16.
Proof. apply (long_16 true _ (DO_MULL neon_s16)); [intros; range|intros; rewrite DO_MULL_value; apply wrap_wrap|done]. Qed.

Lemma wrap_opp w v : wrap w (- wrap w v) = wrap w (- v).
Proof. unfold wrap. by rewrite <- !Z.sub_0_l, Zminus_mod_idemp_r. Qed.

Lemma neon_negl_u16_ok : lanewise1 64 neon_u16 neon_u16 Z.opp neon_negl_u16.
Proof. intros x Hx. rewrite (elems64_4 false). unfold neon_negl_u16. rewrite (join_4 false) by range. packed. unfold u16, conv. cbn [signed esize]. by rewrite !wrap_wrap, !wrap_opp. Qed.
Lemma neon_negl_u32_ok : lanewise1 64 neon_u32 neon_u32 Z.opp neon_negl_u32.
Proof. intros x Hx. rewrite (elems64_2 false). unfold neon_negl_u32. rewrite (join_2 false) by range. packed. unfold u32, conv. cbn [signed esize]. by rewrite !wrap_wrap, !wrap_opp. Qed.

(** ** Bits of bytes *)

Definition popcount (v : Z) : Z := foldr Z.add 0 ((λ i, Z.b2z (Z.testbit v i)) <$> seqZ 0 8).
Definition reverse_bits (v : Z) : Z := foldr Z.lor 0 ((λ i, Z.b2z (Z.testbit v i) .<< (7 - i)) <$> seqZ 0 8).

Abbreviation bytes := (NEON_PACK neon_u8).
Abbreviation in_byte := (λ v, 0 ≤ v < 2 ^ 8).

Lemma all_bytes (f : Z → bool) : forallb f (seqZ 0 256) = true → ∀ v, 0 ≤ v < 2 ^ 8 → f v = true.
Proof. intros H v Hv. rewrite forallb_forall in H. apply H, list_elem_of_In, elem_of_seqZ. lia. Qed.

Lemma masked_range v m w : 0 ≤ w → 0 ≤ m < 2 ^ w → 0 ≤ v .& m < 2 ^ w.
Proof. intros _ Hm. pose proof (land_range v m ltac:(lia)). lia. Qed.

(** A step of the counting. *)
Lemma count_step xs k m : length xs = 4%nat → 0 ≤ k → 0 ≤ m < 2 ^ (8 - k) → m < 2 ^ 7 →
  u32 ((bytes xs .& bytes (replicate 4 m)) + ((bytes xs .>> k) .& bytes (replicate 4 m))) = bytes ((λ v, (v .& m) + ((v .>> k) .& m)) <$> xs).
Proof.
  intros Hl Hk Hm Hm7. pose proof (pack_shift_mask neon_u8 ltac:(done) k xs m Hk Hm) as E. rewrite Hl in E. rewrite E, pack_land by (done || by rewrite Hl).
  rewrite (map_replicate 4) by done. rewrite pack_add; [|done|by rewrite !length_fmap|apply Forall_fmap, Forall_true; intros; apply (masked_range _ m 7); lia..].
  unfold u32. rewrite wrap_small; [|by apply narrow_range; rewrite length_zip_with, !length_fmap, Hl]. f_equal. clear. induction xs as [|x xs IH]; [done|].
  rewrite !fmap_cons. cbn [zip_with]. by rewrite IH.
Qed.

Lemma as_bytes x : 0 ≤ x < 2 ^ 32 → ∃ xs, x = bytes xs ∧ elems 32 neon_u8 x = xs ∧ length xs = 4%nat ∧ Forall in_byte xs.
Proof. exact (as_list 8 4 ltac:(done) x). Qed.

(** An equation of bytes is checked on all of them. *)
Lemma bytes_ext (f g : Z → Z) xs : forallb (λ v, f v =? g v) (seqZ 0 256) = true → Forall in_byte xs → f <$> xs = g <$> xs.
Proof.
  intros H Hxs. apply list_fmap_ext. intros i v Hv. apply list_elem_of_lookup_2 in Hv. rewrite Forall_forall in Hxs. by apply Z.eqb_eq, (all_bytes _ H), Hxs.
Qed.

Lemma neon_cnt_u8_ok : lanewise1 32 neon_u8 neon_u8 popcount neon_cnt_u8.
Proof.
  intros x Hx. destruct (as_bytes x Hx) as (xs & -> & -> & Hl & Hxs). unfold neon_cnt_u8.
  change 0x55555555 with (bytes (replicate 4 0x55)). change 0x33333333 with (bytes (replicate 4 0x33)). change 0x0f0f0f0f with (bytes (replicate 4 0x0f)).
  cbv zeta. rewrite !count_step by (done || by rewrite ?length_fmap). f_equal. rewrite <- !list_fmap_compose. by apply bytes_ext.
Qed.

(** Part of a byte, moved: to the right, and to the left. *)
Lemma move_right xs k m : length xs = 4%nat → 0 ≤ k ≤ 8 → 0 ≤ m < 2 ^ 8 → (2 ^ k | m) →
  (bytes xs .& bytes (replicate 4 m)) .>> k = bytes ((λ v, (v .& m) .>> k) <$> xs).
Proof.
  intros Hl Hk Hm [q Hq]. rewrite pack_land by (done || by rewrite Hl). rewrite (map_replicate 4) by done. rewrite pack_shiftr; [by rewrite <- list_fmap_compose|done|lia|].
  apply Forall_fmap, Forall_true. intros v. cbv [compose]. split; [by apply (masked_range v m 8)|].
  apply Z.mod_divide; [lia|]. rewrite <- Z.land_ones by lia. rewrite <- Z.land_assoc, Hq, Z.land_ones, Z.mod_mul by lia. apply Z.land_0_r.
Qed.
Lemma move_left xs k m : length xs = 4%nat → 0 ≤ k ≤ 8 → 0 ≤ m < 2 ^ (8 - k) →
  (bytes xs .& bytes (replicate 4 m)) .<< k = bytes ((λ v, (v .& m) .<< k) <$> xs).
Proof.
  intros Hl Hk Hm. rewrite pack_land by (done || by rewrite Hl). rewrite (map_replicate 4) by done. rewrite pack_shiftl; [by rewrite <- list_fmap_compose|done|lia|].
  apply Forall_fmap, Forall_true. intros v. cbv [compose]. pose proof (masked_range v m (8 - k) ltac:(lia) Hm). split; [lia|]. cbn [esize neon_u8].
  replace (2 ^ 8) with (2 ^ (8 - k) * 2 ^ k) by (rewrite <- Z.pow_add_r by lia; f_equal; lia). apply Z.mul_lt_mono_pos_r; lia.
Qed.
Lemma or_bytes (f g : Z → Z) xs : bytes (f <$> xs) .| bytes (g <$> xs) = bytes ((λ v, f v .| g v) <$> xs).
Proof. rewrite pack_lor by (done || by rewrite !length_fmap). f_equal. induction xs as [|x xs IH]; [done|]. rewrite !fmap_cons. cbn [zip_with]. by rewrite IH. Qed.

Lemma neon_rbit_u8_ok : lanewise1 32 neon_u8 neon_u8 reverse_bits neon_rbit_u8.
Proof.
  intros x Hx. destruct (as_bytes x Hx) as (xs & -> & -> & Hl & Hxs). unfold neon_rbit_u8.
  change 0xf0f0f0f0 with (bytes (replicate 4 0xf0)). change 0x0f0f0f0f with (bytes (replicate 4 0x0f)). cbv zeta.
  rewrite move_right, move_left, or_bytes by (done || by exists 15).
  change 0x88888888 with (bytes (replicate 4 0x88)). change 0x44444444 with (bytes (replicate 4 0x44)).
  change 0x22222222 with (bytes (replicate 4 0x22)). change 0x11111111 with (bytes (replicate 4 0x11)).
  rewrite !move_right, !move_left, !or_bytes by (done || (by rewrite length_fmap) || (by exists 17) || (by exists 34)).
  f_equal. rewrite <- list_fmap_compose. by apply bytes_ext.
Qed.

(** ** Sums of neighbours *)

(** [op] combines the neighbours in the first word, then those in the second. *)
Definition pairwise (size : Z) (t : elem) (f : Z → Z → Z) (op : Z → Z → Z) : Prop :=
  ∀ a b, 0 ≤ a < 2 ^ size → 0 ≤ b < 2 ^ size → op a b = NEON_PACK t (NEON_PDO f (elems size t a) ++ NEON_PDO f (elems size t b)).

Lemma pack_shift_out t v vec : 0 < esize t → NEON_PACK t (v :: vec) .>> esize t = NEON_PACK t vec.
Proof.
  intros Ht. rewrite pack_cons, Z.shiftr_div_pow2, Z.div_add, Z.div_small by (lia || apply wrap_range; lia). lia.
Qed.

Ltac sums := rewrite !pack_cons by done; cbn [NEON_PACK esize neon_u16 neon_u32]; rewrite ?(wrap_small 16), ?(wrap_small 32) by lia; lia.
Ltac masks := rewrite ?Z.land_0_r, ?Z.land_0_l; change 0xffff with (Z.ones 16); rewrite ?Z.land_ones, ?Z.mod_small by lia.

Lemma even_sum x a b c d : x = NEON_PACK neon_u16 [a; b; c; d] → 0 ≤ a < 2 ^ 16 → 0 ≤ b < 2 ^ 16 → 0 ≤ c < 2 ^ 16 → 0 ≤ d < 2 ^ 16 →
  (x .& 0x0000ffff0000ffff) + ((x .>> 16) .& 0x0000ffff0000ffff) = (a + b) + (c + d) * 2 ^ 32.
Proof.
  intros -> Ha Hb Hc Hd. assert (NEON_PACK neon_u16 [a; b; c; d] .>> 16 = NEON_PACK neon_u16 [b; c; d; 0]) as ->.
  { exact (pack_shift_out neon_u16 a [b; c; d] ltac:(done)). }
  change 0x0000ffff0000ffff with (NEON_PACK neon_u16 [0xffff; 0; 0xffff; 0]). rewrite !pack_land by done. cbn [zip_with]. masks. sums.
Qed.

Lemma odd_sum x a b c d : x = NEON_PACK neon_u16 [a; b; c; d] → 0 ≤ a < 2 ^ 16 → 0 ≤ b < 2 ^ 16 → 0 ≤ c < 2 ^ 16 → 0 ≤ d < 2 ^ 16 →
  (x .& 0xffff0000ffff0000) + (u64 (x .<< 16) .& 0xffff0000ffff0000) = (a + b) * 2 ^ 16 + (c + d) * 2 ^ 48.
Proof.
  intros -> Ha Hb Hc Hd. assert (u64 (NEON_PACK neon_u16 [a; b; c; d] .<< 16) = NEON_PACK neon_u16 [0; a; b; c]) as ->.
  { unfold u64, wrap. rewrite Z.shiftl_mul_pow2 by done. symmetry. apply Z.mod_unique with d; [left; exact (pack_range neon_u16 [0; a; b; c] ltac:(done))|]. sums. }
  change 0xffff0000ffff0000 with (NEON_PACK neon_u16 [0; 0xffff; 0; 0xffff]). rewrite !pack_land by done. cbn [zip_with]. masks. sums.
Qed.

Lemma neon_paddl_u16_ok : pairwise 64 neon_u16 Z.add neon_paddl_u16.
Proof.
  intros x y Hx Hy. destruct (sum_4 x Hx) as (a & b & c & d & _ & -> & Ex & Ha & Hb & Hc & Hd). destruct (sum_4 y Hy) as (e & f & g & h & _ & -> & Ey & He & Hf & Hg & Hh).
  unfold neon_paddl_u16. cbv zeta. rewrite (even_sum _ _ _ _ _ Ex), (odd_sum _ _ _ _ _ Ey) by done. cbn [NEON_PDO app]. clear Ex Ey Hx Hy x y.
  unfold u64. rewrite (wrap_small 64 (a + b + (c + d) * 2 ^ 32)) by lia.
  change 0xffff with (Z.ones 16 .<< 0). change 0xffff0000 with (Z.ones 16 .<< 16). change 0xffff00000000 with (Z.ones 16 .<< 32). change 0xffff000000000000 with (Z.ones 16 .<< 48).
  rewrite field_left, field_right, !field_at by done. rewrite Z.shiftl_0_r, Z.shiftr_0_r. change (16 + 16) with 32. change (32 - 16) with 16.
  rewrite (join_4 false) by range. apply pack_wrap; [done|]. cbn [fmap list_fmap esize neon_u16].
  rewrite !wrap_wrap, !wrap_high by done. rewrite !Z.shiftr_div_pow2 by done. unfold wrap. f_equal; [|f_equal; [|f_equal; [|f_equal]]].
  - rewrite <- (Z_mod_plus_full (a + b) ((c + d) * 2 ^ 16)). f_equal. lia.
  - rewrite Z.div_add, Z.div_small by lia. done.
  - replace ((e + f) * 2 ^ 16 + (g + h) * 2 ^ 48) with ((e + f + (g + h) * 2 ^ 16 * 2 ^ 16) * 2 ^ 16) by lia. rewrite Z.div_mul by lia. apply Z_mod_plus_full.
  - rewrite Z.div_add, Z.div_small by lia. done.
Qed.

Lemma neon_paddl_u32_ok : pairwise 64 neon_u32 Z.add neon_paddl_u32.
Proof.
  intros x y Hx Hy. destruct (sum_2 x Hx) as (a & b & Ex & -> & _ & Ha & Hb). destruct (sum_2 y Hy) as (c & d & Ey & -> & _ & Hc & Hd). subst x y.
  unfold neon_paddl_u32. cbn [NEON_PDO app]. cbv zeta. rewrite !Z.shiftr_div_pow2 by done. rewrite !Z.div_add, !Z.div_small, !Z.add_0_l by lia.
  rewrite !pack_cons by done. cbn [NEON_PACK esize neon_u32]. rewrite Z.shiftl_mul_pow2 by done. unfold u32, u64.
  replace (a + b * 2 ^ 32 + b) with (a + b + b * 2 ^ 32) by lia. replace (c + d * 2 ^ 32 + d) with (c + d + d * 2 ^ 32) by lia.
  assert (∀ u v, wrap 32 (u + v * 2 ^ 32) = wrap 32 u) as E by (intros; apply Z_mod_plus_full). rewrite !E.
  pose proof (wrap_range 32 (a + b) ltac:(done)). pose proof (wrap_range 32 (c + d) ltac:(done)). rewrite wrap_small by lia. lia.
Qed.

(** ** Halving *)

Definition half_sum (x y : Z) : Z := (x + y) / 2.
Definition half_sum_up (x y : Z) : Z := (x + y + 1) / 2.
Definition half_difference (x y : Z) : Z := (x - y) / 2.

Lemma low_bit v : (v .& 1 =? 0) = negb (Z.odd v).
Proof. change 1 with (1 .<< 0). by rewrite mask_bit, Z.bit0_odd. Qed.
Lemma odd_land x y : Z.odd (x .& y) = Z.odd x && Z.odd y.
Proof. by rewrite <- !Z.bit0_odd, Z.land_spec. Qed.
Lemma odd_lor x y : Z.odd (x .| y) = Z.odd x || Z.odd y.
Proof. by rewrite <- !Z.bit0_odd, Z.lor_spec. Qed.
Lemma odd_lnot x : Z.odd (Z.lnot x) = negb (Z.odd x).
Proof. by rewrite <- !Z.bit0_odd, Z.lnot_spec. Qed.
Lemma odd_not32 x : Z.odd (not32 x) = negb (Z.odd x).
Proof. rewrite <- !Z.bit0_odd. apply not_bit. lia. Qed.

(** In two steps, without a carry. *)
Ltac halves x y :=
  rewrite ?low_bit, ?odd_land, ?odd_lor, ?odd_lnot, ?odd_not32, ?negb_involutive; rewrite !Z.shiftr_div_pow2 by done;
  pose proof (Zmod_odd x); pose proof (Zmod_odd y); pose proof (Z.div_mod x 2 ltac:(lia)); pose proof (Z.div_mod y 2 ltac:(lia)); change (2 ^ 1) with 2;
  destruct (Z.odd x), (Z.odd y); cbn [andb orb negb].

Lemma hadd_halves x y : (x .>> 1) + (y .>> 1) + (if negb (x .& y .& 1 =? 0) then 1 else 0) = half_sum x y.
Proof. unfold half_sum. halves x y; Z.to_euclidean_division_equations; lia. Qed.
Lemma rhadd_halves x y : (x .>> 1) + (y .>> 1) + (if negb ((x .| y) .& 1 =? 0) then 1 else 0) = half_sum_up x y.
Proof. unfold half_sum_up. halves x y; Z.to_euclidean_division_equations; lia. Qed.
Lemma hsub_halves x y : (x .>> 1) - (y .>> 1) - (if negb (Z.lnot x .& y .& 1 =? 0) then 1 else 0) = half_difference x y.
Proof. unfold half_difference. halves x y; Z.to_euclidean_division_equations; lia. Qed.

(** Helpers on whole words, of signed and of unsigned arguments. *)
Lemma word_s32 f (g : Z → Z → Z) : (∀ x y, wrap 32 (g x y) = wrap 32 (f x y)) → lanewise 32 neon_s32 neon_s32 neon_s32 f (λ a b, u32 (g (s32 a) (s32 b))).
Proof. intros H a b Ha Hb. rewrite !(elems_one 32 true) by done. cbn [zip_with]. rewrite pack_one. apply H. Qed.
Lemma word_u32 f (g : Z → Z → Z) : (∀ x y, 0 ≤ x < 2 ^ 32 → 0 ≤ y < 2 ^ 32 → g x y = wrap 32 (f x y)) → lanewise 32 neon_u32 neon_u32 neon_u32 f g.
Proof.
  intros H a b Ha Hb. rewrite !(elems_one 32 false) by done. cbn [zip_with]. rewrite pack_one. cbn [conv signed esize]. rewrite (wrap_small 32 a), (wrap_small 32 b) by done. by apply H.
Qed.

Lemma neon_hadd_s32_ok : lanewise 32 neon_s32 neon_s32 neon_s32 half_sum (λ a b, u32 (neon_hadd_s32 (s32 a) (s32 b))).
Proof.
  apply word_s32. intros x y. rewrite <- hadd_halves. unfold neon_hadd_s32, s32. cbv zeta. destruct (negb _); rewrite ?Z.add_0_r, !(wrap_swrap 32); try done.
  by rewrite <- wrap_add, wrap_swrap, wrap_add.
Qed.
Lemma neon_rhadd_s32_ok : lanewise 32 neon_s32 neon_s32 neon_s32 half_sum_up (λ a b, u32 (neon_rhadd_s32 (s32 a) (s32 b))).
Proof.
  apply word_s32. intros x y. rewrite <- rhadd_halves. unfold neon_rhadd_s32, s32. cbv zeta. destruct (negb _); rewrite ?Z.add_0_r, !(wrap_swrap 32); try done.
  by rewrite <- wrap_add, wrap_swrap, wrap_add.
Qed.
Lemma neon_hsub_s32_ok : lanewise 32 neon_s32 neon_s32 neon_s32 half_difference (λ a b, u32 (neon_hsub_s32 (s32 a) (s32 b))).
Proof.
  apply word_s32. intros x y. rewrite <- hsub_halves. unfold neon_hsub_s32, s32. cbv zeta. destruct (negb _); rewrite ?Z.sub_0_r, !(wrap_swrap 32); try done.
  rewrite <- !Z.add_opp_r. by rewrite <- wrap_add, wrap_swrap, wrap_add.
Qed.
Lemma neon_hadd_u32_ok : lanewise 32 neon_u32 neon_u32 neon_u32 half_sum neon_hadd_u32.
Proof.
  apply word_u32. intros x y _ _. rewrite <- hadd_halves. unfold neon_hadd_u32, u32. cbv zeta. destruct (negb _); rewrite ?Z.add_0_r; try done. apply wrap_add.
Qed.
Lemma neon_rhadd_u32_ok : lanewise 32 neon_u32 neon_u32 neon_u32 half_sum_up neon_rhadd_u32.
Proof.
  apply word_u32. intros x y _ _. rewrite <- rhadd_halves. unfold neon_rhadd_u32, u32. cbv zeta. destruct (negb _); rewrite ?Z.add_0_r; try done. apply wrap_add.
Qed.
Lemma neon_hsub_u32_ok : lanewise 32 neon_u32 neon_u32 neon_u32 half_difference neon_hsub_u32.
Proof.
  apply word_u32. intros x y _ _. rewrite <- hsub_halves. unfold neon_hsub_u32, u32. cbv zeta. rewrite !low_bit, !odd_land, odd_not32, odd_lnot.
  destruct (negb _); rewrite ?Z.sub_0_r; try done. rewrite <- !Z.add_opp_r. apply wrap_add.
Qed.

Lemma halving t f g : 0 < esize t → (∀ x y, g x y = f x y .>> 1) → lanewise 32 t t t (λ x y, f x y / 2) (NEON_VOP t g).
Proof. intros Ht H. apply vop; [done|]. intros x y _ _. rewrite H, Z.shiftr_div_pow2; done. Qed.
