(* ===== verification/NeonPoly.v ===== *)
(** Multiplication of polynomials over the field with two elements: the loops that multiply all the
    elements at once, and the product of two double words in two halves. *)

From Stdlib Require Import ZArith Lia.
From stdpp Require Import base tactics numbers option list list_numbers.
From S2P Require Import Prelude Bits Neon NeonLanes NeonSat NeonShift NeonSwar.

(** The product: the sum, without carries, of the shifted copies of [y] that the bits of [x] select. *)
Definition clmul (n : nat) (x y : Z) : Z :=
  foldr Z.lxor 0 ((λ i, if Z.testbit x i then y .<< i else 0) <$> seqZ 0 (Z.of_nat n)).

Lemma clmul_step n x y : clmul (S n) x y = (if Z.odd x then y else 0) .^ clmul n (x .>> 1) (y .<< 1).
Proof.
  unfold clmul. rewrite Nat2Z.inj_succ, seqZ_cons by lia. rewrite fmap_cons. cbn [foldr]. rewrite Z.bit0_odd, Z.shiftl_0_r. f_equal.
  change (Z.succ 0) with (1 + 0). rewrite Z.pred_succ, <- fmap_add_seqZ, <- list_fmap_compose. f_equal. apply list_fmap_ext. intros k i Hi. cbv [compose].
  apply list_elem_of_lookup_2, elem_of_seqZ in Hi. rewrite Z.shiftr_spec, Z.shiftl_shiftl by lia. by rewrite (Z.add_comm 1 i), (Z.add_comm i 1).
Qed.

Lemma clmul_0 n y : clmul n 0 y = 0.
Proof. revert y. induction n as [|n IH]; intros y; [done|]. rewrite clmul_step. cbn [Z.odd]. by rewrite Z.shiftr_0_l, IH. Qed.

Lemma wrap_lxor w a b : 0 ≤ w → wrap w (a .^ b) = wrap w a .^ wrap w b.
Proof.
  intros Hw. unfold wrap. apply Z.bits_inj'. intros n Hn. rewrite Z.lxor_spec. destruct (Z.ltb_spec n w).
  - by rewrite !Z.mod_pow2_bits_low, Z.lxor_spec by lia.
  - by rewrite !Z.mod_pow2_bits_high by lia.
Qed.

Lemma wrap_shiftl w y : 0 ≤ w → wrap w (wrap w y .<< 1) = wrap w (y .<< 1).
Proof. intros Hw. rewrite !Z.shiftl_mul_pow2 by done. unfold wrap. by rewrite Zmult_mod_idemp_l. Qed.

(** Only the low bits of an operand matter to the low bits of the product. *)
Lemma clmul_wrap w n x y : 0 ≤ w → wrap w (clmul n x (wrap w y)) = wrap w (clmul n x y).
Proof.
  intros Hw. revert x y. induction n as [|n IH]; intros x y; [done|]. rewrite !clmul_step, !wrap_lxor by done. f_equal.
  - destruct (Z.odd x); [apply wrap_wrap|done].
  - by rewrite <- IH, wrap_shiftl, IH.
Qed.

(** ** The elements, one bit at a time *)

Abbreviation halfwords := (NEON_PACK neon_u16).

(** The masks that the lowest bits select. *)
Definition select (ones x : Z) : Z := if Z.odd x then ones else 0.

Lemma odd_elements t xs x i : 0 < esize t → xs !! i = Some x → Z.testbit (NEON_PACK t xs) (esize t * Z.of_nat i) = Z.odd x.
Proof.
  intros Ht. revert i. induction xs as [|v xs IH]; intros [|i] Hi; try done.
  - injection Hi as ->. rewrite pack_bit by lia. rewrite Z.mul_0_r, Z.bit0_odd. by destruct (Z.ltb_spec 0 (esize t)); [|lia].
  - rewrite pack_bit by lia. destruct (Z.ltb_spec (esize t * Z.of_nat (S i)) (esize t)); [nia|]. rewrite <- (IH i) by done. f_equal. lia.
Qed.

Section Four.
Variables x0 x1 x2 x3 : Z.
Abbreviation xs := [x0; x1; x2; x3].

Lemma lowest_bits : let b := Z.testbit (bytes xs) in b 0 = Z.odd x0 ∧ b 8 = Z.odd x1 ∧ b 16 = Z.odd x2 ∧ b 24 = Z.odd x3.
Proof.
  pose proof (λ i x, odd_elements neon_u8 xs x i ltac:(done)) as Ho.
  exact (conj (Ho 0%nat x0 eq_refl) (conj (Ho 1%nat x1 eq_refl) (conj (Ho 2%nat x2 eq_refl) (Ho 3%nat x3 eq_refl)))).
Qed.

Lemma mask_8 : mask_if (bytes xs) 24 0xff 24 (mask_if (bytes xs) 16 0xff 16 (mask_if (bytes xs) 8 0xff 8 (mask_if (bytes xs) 0 0xff 0 0))) = bytes (select 0xff <$> xs).
Proof.
  destruct lowest_bits as (H0 & H1 & H2 & H3). unfold mask_if. rewrite !mask_bit, !negb_involutive, H0, H1, H2, H3 by done. cbn [fmap list_fmap]. unfold select.
  by destruct (Z.odd x0), (Z.odd x1), (Z.odd x2), (Z.odd x3).
Qed.
Lemma mask_16 : mask_if (bytes xs) 24 0xffff 48 (mask_if (bytes xs) 16 0xffff 32 (mask_if (bytes xs) 8 0xffff 16 (mask_if (bytes xs) 0 0xffff 0 0)))
  = halfwords (select 0xffff <$> xs).
Proof.
  destruct lowest_bits as (H0 & H1 & H2 & H3). unfold mask_if. rewrite !mask_bit, !negb_involutive, H0, H1, H2, H3 by done. cbn [fmap list_fmap]. unfold select.
  by destruct (Z.odd x0), (Z.odd x1), (Z.odd x2), (Z.odd x3).
Qed.
End Four.

(** The same for lists of four elements. *)
Lemma as_four {A} (l : list A) : length l = 4%nat → ∃ a b c d, l = [a; b; c; d].
Proof. destruct l as [|a [|b [|c [|d []]]]]; try done. by exists a, b, c, d. Qed.

Lemma halve_all xs : length xs = 4%nat → Forall in_byte xs → (bytes xs .>> 1) .& 0x7f7f7f7f = bytes ((λ x, x .>> 1) <$> xs).
Proof.
  intros Hl Hx. change 0x7f7f7f7f with (bytes (replicate 4 0x7f)). rewrite <- Hl. rewrite pack_shift_mask by done. f_equal. by apply bytes_ext.
Qed.

Lemma mask_absorbs size a m : 0 ≤ m < 2 ^ size → wrap size a .& m = a .& m.
Proof.
  intros Hm. apply Z.bits_inj'. intros n Hn. rewrite !Z.land_spec. unfold wrap. destruct (Z.ltb_spec n size).
  - by rewrite Z.mod_pow2_bits_low.
  - by rewrite (bit_above size m), !andb_false_r.
Qed.

(** A mask that clears the lowest bit of every element keeps a shift inside. *)
Lemma double_mask t xs m : 0 < esize t → Z.odd m = false →
  (NEON_PACK t xs .<< 1) .& NEON_PACK t (replicate (length xs) m) = NEON_PACK t ((λ x, (x .<< 1) .& m) <$> xs).
Proof.
  intros Ht Hm. apply Z.bits_inj'. intros n Hn. rewrite Z.land_spec, Z.shiftl_spec by done. revert n Hn. induction xs as [|x xs IH]; intros n Hn.
  { by rewrite !Z.bits_0. }
  cbn [length replicate]. rewrite fmap_cons, (pack_bit t Ht m), (pack_bit t Ht ((x .<< 1) .& m)) by lia. destruct (Z.eqb_spec n 0) as [->|].
  { rewrite (Z.testbit_neg_r (NEON_PACK t (x :: xs)) (0 - 1)) by lia. destruct (Z.ltb_spec 0 (esize t)); [|lia]. by rewrite Z.land_spec, Z.shiftl_spec, (Z.testbit_neg_r x) by lia. }
  rewrite pack_bit by lia. destruct (Z.ltb_spec n (esize t)).
  - destruct (Z.ltb_spec (n - 1) (esize t)); [|lia]. by rewrite Z.land_spec, Z.shiftl_spec by lia.
  - destruct (Z.eqb_spec n (esize t)) as [->|].
    + rewrite <- IH by lia. rewrite Z.sub_diag. destruct xs as [|x' xs]; [by rewrite !andb_false_r|]. cbn [length replicate].
      rewrite (pack_bit t Ht m) by lia. destruct (Z.ltb_spec 0 (esize t)); [|lia]. by rewrite Z.bit0_odd, Hm, !andb_false_r.
    + destruct (Z.ltb_spec (n - 1) (esize t)); [lia|]. rewrite <- IH by lia. do 2 f_equal. lia.
Qed.

Lemma double_all ys : length ys = 4%nat → Forall in_byte ys → u32 (bytes ys .<< 1) .& 0xfefefefe = bytes ((λ y, wrap 8 (y .<< 1)) <$> ys).
Proof.
  intros Hl Hy. unfold u32. rewrite mask_absorbs by done. change 0xfefefefe with (bytes (replicate 4 0xfe)). rewrite <- Hl. rewrite double_mask by done.
  f_equal. by apply bytes_ext.
Qed.

(** ** The loops *)

Lemma pack_zero t xs : 0 < esize t → Forall (λ v, 0 ≤ v < 2 ^ esize t) xs → NEON_PACK t xs = 0 → Forall (λ v, v = 0) xs.
Proof.
  intros Ht H. induction H as [|x xs Hx H IH]; intros E; [done|]. rewrite pack_cons, wrap_small in E by done.
  pose proof (pack_range t xs Ht). assert (x = 0 ∧ NEON_PACK t xs = 0) as [-> E'] by nia. constructor; auto.
Qed.

(** What is added to the result when [n] bits of every [x] are left. *)
Definition products (n : nat) (xs ys rs : list Z) : list Z := zip_with Z.lxor rs (zip_with (clmul n) xs ys).

Lemma products_0 n xs ys rs : Forall (λ v, v = 0) xs → length xs = length ys → length rs = length ys → products n xs ys rs = rs.
Proof.
  unfold products. intros H. revert ys rs. induction H as [|x xs -> H IH]; intros [|y ys] [|r rs] Hl Hr; try done. cbn [zip_with]. rewrite clmul_0, Z.lxor_0_r. f_equal. apply IH; auto with lia.
Qed.

Lemma small_zero xs : Forall (λ v, 0 ≤ v < 2 ^ Z.of_nat 0) xs → Forall (λ v, v = 0) xs.
Proof. intros H. eapply Forall_impl; [done|]. simpl. lia. Qed.

Lemma halve_small n xs : Forall (λ v, 0 ≤ v < 2 ^ Z.of_nat (S n)) xs → Forall (λ v, 0 ≤ v < 2 ^ Z.of_nat n) ((λ x, x .>> 1) <$> xs).
Proof.
  intros H. apply Forall_fmap. eapply Forall_impl; [done|]. intros v Hv. cbv beta in *. unfold compose. rewrite Z.shiftr_div_pow2 by done.
  rewrite Nat2Z.inj_succ, Z.pow_succ_r in Hv by lia. change (2 ^ 1) with 2. Z.to_euclidean_division_equations. lia.
Qed.

Lemma select_land w x y : 0 ≤ w → 0 ≤ y < 2 ^ w → y .& select (2 ^ w - 1) x = if Z.odd x then y else 0.
Proof.
  intros Hw Hy. unfold select. destruct (Z.odd x); [|apply Z.land_0_r]. replace (2 ^ w - 1) with (Z.ones w) by (rewrite Z.ones_equiv; lia).
  by rewrite Z.land_ones, Z.mod_small.
Qed.

(** A step of the loop, in one element. *)
Lemma lane_8 n x y r : 0 ≤ y < 2 ^ 8 →
  wrap 8 ((r .^ (y .& select 0xff x)) .^ clmul n (x .>> 1) (wrap 8 (y .<< 1))) = wrap 8 (r .^ clmul (S n) x y).
Proof.
  intros Hy. change 0xff with (2 ^ 8 - 1). rewrite select_land, clmul_step, !wrap_lxor, clmul_wrap by done. by rewrite Z.lxor_assoc.
Qed.

Lemma mul_p8_loop_ok fuel xs ys rs : (fuel ≤ 8)%nat → length xs = 4%nat → length ys = 4%nat → length rs = 4%nat →
  Forall (λ v, 0 ≤ v < 2 ^ Z.of_nat fuel) xs → Forall in_byte ys →
  mul_p8_loop fuel (bytes xs) (bytes ys) (bytes rs) = Some (bytes (products fuel xs ys rs)).
Proof.
  revert xs ys rs. induction fuel as [|fuel IH]; intros xs ys rs Hf Lx Ly Lr Hx Hy; cbn [mul_p8_loop].
  - destruct (Z.eqb_spec (bytes xs) 0) as [_|E]; [by rewrite products_0 by (by apply small_zero || lia)|]. exfalso. apply E.
    destruct (as_four xs Lx) as (a & b & c & d & ->). apply small_zero in Hx. repeat (apply Forall_cons in Hx as [-> Hx]). done.
  - assert (Forall in_byte xs) as Hxb.
    { eapply Forall_impl; [done|]. intros v Hv. cbv beta in *. pose proof (Z.pow_le_mono_r 2 (Z.of_nat (S fuel)) 8 ltac:(lia) ltac:(lia)). lia. }
    destruct (Z.eqb_spec (bytes xs) 0) as [E|_]; [rewrite products_0; [done|by apply (pack_zero neon_u8)|lia..]|].
    destruct (as_four xs Lx) as (a & b & c & d & ->). rewrite mask_8, halve_all, double_all, (pack_land neon_u8), (pack_lxor neon_u8) by (done || lens).
    cbv zeta. rewrite IH by (done || lia || lens || (by apply halve_small) || (apply Forall_fmap, Forall_true; intros; by apply (wrap_range 8))).
    f_equal. apply pack_wrap; [done|]. destruct (as_four ys Ly) as (y0 & y1 & y2 & y3 & ->). destruct (as_four rs Lr) as (r0 & r1 & r2 & r3 & ->).
    cbn [products zip_with fmap list_fmap esize neon_u8]. repeat (apply Forall_cons in Hy as [? Hy]). by rewrite !lane_8.
Qed.

Lemma products_start n xs ys : length xs = 4%nat → length ys = 4%nat → products n xs ys [0; 0; 0; 0] = zip_with (clmul n) xs ys.
Proof. intros Lx Ly. destruct (as_four xs Lx) as (a & b & c & d & ->), (as_four ys Ly) as (e & f & g & h & ->). done. Qed.

Lemma neon_mul_p8_ok a b : 0 ≤ a < 2 ^ 32 → 0 ≤ b < 2 ^ 32 →
  neon_mul_p8 a b = Some (NEON_PACK neon_u8 (zip_with (clmul 8) (elems 32 neon_u8 a) (elems 32 neon_u8 b))).
Proof.
  intros Ha Hb. destruct (as_bytes a Ha) as (xs & -> & -> & Lx & Hx). destruct (as_bytes b Hb) as (ys & -> & -> & Ly & Hy).
  unfold neon_mul_p8. rewrite <- products_start by done. exact (mul_p8_loop_ok 8 xs ys [0; 0; 0; 0] ltac:(lia) Lx Ly eq_refl Hx Hy).
Qed.

(** The other operand has been widened, and is shifted by less than it has room for. *)
Lemma lane_16 n x y r : 0 ≤ y < 2 ^ 16 → (r .^ (y .& select 0xffff x)) .^ clmul n (x .>> 1) (y .<< 1) = r .^ clmul (S n) x y.
Proof. intros Hy. change 0xffff with (2 ^ 16 - 1). rewrite select_land, clmul_step by done. by rewrite Z.lxor_assoc. Qed.

Lemma double_room n y : (S n ≤ 8)%nat → 0 ≤ y < 2 ^ (16 - Z.of_nat (S n)) → 0 ≤ y .<< 1 < 2 ^ (16 - Z.of_nat n) ∧ y * 2 < 2 ^ 16 ∧ 0 ≤ y < 2 ^ 16.
Proof.
  intros Hn Hy. replace (16 - Z.of_nat n) with (Z.succ (16 - Z.of_nat (S n))) by lia. rewrite Z.pow_succ_r, Z.shiftl_mul_pow2 by lia.
  pose proof (Z.pow_le_mono_r 2 (16 - Z.of_nat (S n)) 15 ltac:(lia) ltac:(lia)). lia.
Qed.

Lemma mull_p8_loop_ok fuel xs ys rs : (fuel ≤ 8)%nat → length xs = 4%nat → length ys = 4%nat → length rs = 4%nat →
  Forall (λ v, 0 ≤ v < 2 ^ Z.of_nat fuel) xs → Forall (λ v, 0 ≤ v < 2 ^ (16 - Z.of_nat fuel)) ys →
  mull_p8_loop fuel (bytes xs) (halfwords ys) (halfwords rs) = Some (halfwords (products fuel xs ys rs)).
Proof.
  revert xs ys rs. induction fuel as [|fuel IH]; intros xs ys rs Hf Lx Ly Lr Hx Hy; cbn [mull_p8_loop].
  - destruct (Z.eqb_spec (bytes xs) 0) as [_|E]; [by rewrite products_0 by (by apply small_zero || lia)|]. exfalso. apply E.
    destruct (as_four xs Lx) as (a & b & c & d & ->). apply small_zero in Hx. repeat (apply Forall_cons in Hx as [-> Hx]). done.
  - assert (Forall in_byte xs) as Hxb.
    { eapply Forall_impl; [done|]. intros v Hv. cbv beta in *. pose proof (Z.pow_le_mono_r 2 (Z.of_nat (S fuel)) 8 ltac:(lia) ltac:(lia)). lia. }
    destruct (Z.eqb_spec (bytes xs) 0) as [E|_]; [rewrite products_0; [done|by apply (pack_zero neon_u8)|lia..]|].
    destruct (as_four xs Lx) as (a & b & c & d & ->). rewrite mask_16, halve_all, (pack_land neon_u16), (pack_lxor neon_u16) by (done || lens). cbv zeta.
    rewrite (pack_shiftl neon_u16) by (done || (eapply Forall_impl; [done|]; intros v Hv; pose proof (double_room fuel v Hf Hv); simpl in *; lia)).
    unfold u64. rewrite wrap_small by (pose proof (pack_range neon_u16 ((λ y, y .<< 1) <$> ys) ltac:(done)) as R; rewrite length_fmap, Ly in R; exact R).
    rewrite IH; [|lia|lens..|by apply halve_small|apply Forall_fmap; eapply Forall_impl; [done|]; intros v Hv; apply (double_room fuel v Hf Hv)].
    f_equal. f_equal. destruct (as_four ys Ly) as (y0 & y1 & y2 & y3 & ->). destruct (as_four rs Lr) as (r0 & r1 & r2 & r3 & ->).
    cbn [products zip_with fmap list_fmap]. repeat (apply Forall_cons in Hy as [?%(double_room fuel) Hy]; [|done]). rewrite !lane_16; [done|..]; lia.
Qed.

Lemma neon_mull_p8_ok a b : 0 ≤ a < 2 ^ 32 → 0 ≤ b < 2 ^ 32 →
  neon_mull_p8 a b = Some (NEON_PACK neon_u16 (zip_with (clmul 8) (elems 32 neon_u8 a) (elems 32 neon_u8 b))).
Proof.
  intros Ha Hb. assert ((b .& 0xff) .| ((b .& 0xff00) .<< 8) .| ((b .& 0xff0000) .<< 16) .| ((b .& 0xff000000) .<< 24) = halfwords (elems 32 neon_u8 b)) as E.
  { rewrite (elems_4 false). change 0xff with (Z.ones 8 .<< 0). change 0xff00 with (Z.ones 8 .<< 8). change 0xff0000 with (Z.ones 8 .<< 16).
    change 0xff000000 with (Z.ones 8 .<< 24). rewrite !field_at, !Z.shiftl_shiftl, Z.shiftl_0_r by done. apply (join_4 false); apply byte_in_half. }
  unfold neon_mull_p8. rewrite E. destruct (as_bytes a Ha) as (xs & -> & -> & Lx & Hx). destruct (as_bytes b Hb) as (ys & -> & -> & Ly & Hy).
  rewrite <- products_start by done. exact (mull_p8_loop_ok 8 xs ys [0; 0; 0; 0] ltac:(lia) Lx Ly eq_refl Hx Hy).
Qed.

(** ** Double words *)

Lemma pmull_loop_sum op1 first part : 0 ≤ first →
  pmull_loop op1 first part = foldr Z.lxor 0 ((λ i, if Z.testbit op1 i then part i else 0) <$> seqZ first (64 - first)).
Proof.
  intros Hf. unfold pmull_loop.
  assert (∀ l r, (∀ i, i ∈ l → 0 ≤ i) → foldl (λ res bitnum, if negb (op1 .& (1 .<< bitnum) =? 0) then res .^ part bitnum else res) r l
    = r .^ foldr Z.lxor 0 ((λ i, if Z.testbit op1 i then part i else 0) <$> l)) as E.
  { induction l as [|i l IH]; intros r Hl; [by rewrite Z.lxor_0_r|]. rewrite fmap_cons. cbn [foldl foldr]. rewrite IH by (intros j Hj; apply Hl; by right).
    rewrite mask_bit, negb_involutive by (apply Hl; by left). destruct (Z.testbit op1 i); by rewrite ?Z.lxor_assoc, ?Z.lxor_0_l. }
  rewrite E; [apply Z.lxor_0_l|]. intros i Hi%elem_of_seqZ. lia.
Qed.

Lemma sum_map (h : Z → Z) (f g : Z → Z) l : h 0 = 0 → (∀ a b, h (a .^ b) = h a .^ h b) → (∀ i, i ∈ l → h (f i) = g i) →
  h (foldr Z.lxor 0 (f <$> l)) = foldr Z.lxor 0 (g <$> l).
Proof.
  intros H0 Hx. induction l as [|i l IH]; intros Hl; [done|]. rewrite !fmap_cons. cbn [foldr]. rewrite Hx, Hl by (by left). f_equal. apply IH. intros j Hj. apply Hl. by right.
Qed.

Lemma neon_pmull_64_lo_ok a b : neon_pmull_64_lo a b = wrap 64 (clmul 64 a b).
Proof.
  unfold neon_pmull_64_lo. rewrite pmull_loop_sum by done. symmetry.
  apply (sum_map (wrap 64)); [done|intros; by apply wrap_lxor|]. intros i _. by destruct (Z.testbit a i).
Qed.

Lemma neon_pmull_64_hi_ok a b : 0 ≤ b < 2 ^ 64 → neon_pmull_64_hi a b = clmul 64 a b .>> 64.
Proof.
  intros Hb. unfold neon_pmull_64_hi. rewrite pmull_loop_sum by done. unfold clmul. change (Z.of_nat 64) with 64.
  rewrite (seqZ_cons 0 64) by done. rewrite fmap_cons. cbn [foldr]. change (Z.succ 0) with 1. change (Z.pred 64) with (64 - 1).
  rewrite Z.shiftr_lxor. assert ((if Z.testbit a 0 then b .<< 0 else 0) .>> 64 = 0) as ->.
  { rewrite Z.shiftl_0_r, Z.shiftr_div_pow2 by done. destruct (Z.testbit a 0); [by apply Z.div_small|done]. }
  rewrite Z.lxor_0_l. symmetry. apply (sum_map (λ v, v .>> 64)); [done|intros; apply Z.shiftr_lxor|]. intros i Hi%elem_of_seqZ.
  destruct (Z.testbit a i); [|done]. apply Z.bits_inj'. intros n Hn. rewrite !Z.shiftr_spec, Z.shiftl_spec by lia. f_equal. lia.
Qed.
