(* ===== verification/NeonZip.v ===== *)
(** Zipping and unzipping: the helpers interleave the elements of two vectors, each of one or two
    double-word registers, or take them apart. *)

From Stdlib Require Import ZArith Lia.
From stdpp Require Import base tactics numbers option sets list list_numbers.
From S2P Require Import Prelude Bits Neon NeonLanes NeonSat NeonShift NeonSwar.

(** ** Vectors *)

Definition reg (regs : list Z) (r : Z) : Z := default 0 (arr_get regs r).

(** The elements of [w] bits of the registers [rs], in order. *)
Definition vector (w : Z) (regs : list Z) (rs : list Z) : list Z := concat ((λ r, elems 64 (Elem w false) (reg regs r)) <$> rs).

Definition interleave (xs ys : list Z) : list Z := concat (zip_with (λ x y, [x; y]) xs ys).

(** Registers that exist, and are written once each. *)
Definition available (regs rs : list Z) : Prop := NoDup rs ∧ Forall (λ r, 0 ≤ r < Z.of_nat (length regs)) rs.

Definition others_kept (regs regs' rs : list Z) : Prop := length regs' = length regs ∧ ∀ r, r ∉ rs → reg regs' r = reg regs r.

Definition zips (w : Z) (span : Z → list Z) (zip : list Z → Z → Z → option (list Z)) : Prop :=
  ∀ regs rd rm, available regs (span rd ++ span rm) →
  ∃ regs', zip regs rd rm = Some regs' ∧ others_kept regs regs' (span rd ++ span rm) ∧
    vector w regs' (span rd ++ span rm) = interleave (vector w regs (span rd)) (vector w regs (span rm)).

Definition unzips (w : Z) (span : Z → list Z) (unzip : list Z → Z → Z → option (list Z)) : Prop :=
  ∀ regs rd rm, available regs (span rd ++ span rm) →
  ∃ regs', unzip regs rd rm = Some regs' ∧ others_kept regs regs' (span rd ++ span rm) ∧
    interleave (vector w regs' (span rd)) (vector w regs' (span rm)) = vector w regs (span rd ++ span rm).

Definition single (r : Z) : list Z := [r].
Definition double (r : Z) : list Z := [r; r + 1].

(** ** Registers *)

Lemma reg_get regs r : 0 ≤ r < Z.of_nat (length regs) → arr_get regs r = Some (reg regs r).
Proof. intros H. unfold reg. destruct (arr_get_is_Some regs r H) as [v ->]. done. Qed.

Lemma reg_set regs r v : 0 ≤ r < Z.of_nat (length regs) →
  ∃ regs', arr_set regs r v = Some regs' ∧ length regs' = length regs ∧ ∀ r', reg regs' r' = if r' =? r then v else reg regs r'.
Proof.
  intros H. exists (<[Z.to_nat r := v]> regs). split_and!; [by apply arr_set_Some|by rewrite length_insert|]. intros r'. unfold reg, arr_get.
  destruct (Z.ltb_spec r' 0); [by destruct (Z.eqb_spec r' r); [lia|]|]. destruct (Z.eqb_spec r' r) as [->|]; [by rewrite list_lookup_insert_eq by lia|].
  by rewrite list_lookup_insert_ne by lia.
Qed.

Lemma write_2 regs rd rm d m : available regs [rd; rm] →
  ∃ regs', (regs ← arr_set regs rm m; arr_set regs rd d) = Some regs' ∧ others_kept regs regs' [rd; rm] ∧ reg regs' rd = d ∧ reg regs' rm = m.
Proof.
  intros [Hn Hr]. repeat (apply Forall_cons in Hr as [? Hr]). apply NoDup_cons in Hn as [Hn _]. assert (rd ≠ rm) by set_solver.
  destruct (reg_set regs rm m) as (r1 & -> & L1 & E1); [done|]. cbn [mbind option_bind]. destruct (reg_set r1 rd d) as (r2 & -> & L2 & E2); [by rewrite L1|].
  exists r2. split; [done|]. split; [split; [congruence|]|].
  - intros r Hr'. rewrite E2, E1. destruct (Z.eqb_spec r rd), (Z.eqb_spec r rm); set_solver.
  - rewrite !E2, !E1, !Z.eqb_refl. by destruct (Z.eqb_spec rm rd).
Qed.

Lemma write_4 regs rd rm d0 d1 m0 m1 : available regs [rd; rd + 1; rm; rm + 1] →
  ∃ regs', (regs ← arr_set regs rm m0; regs ← arr_set regs (rm + 1) m1; regs ← arr_set regs rd d0; arr_set regs (rd + 1) d1) = Some regs' ∧
    others_kept regs regs' [rd; rd + 1; rm; rm + 1] ∧
    reg regs' rd = d0 ∧ reg regs' (rd + 1) = d1 ∧ reg regs' rm = m0 ∧ reg regs' (rm + 1) = m1.
Proof.
  intros [Hn Hr]. repeat (apply Forall_cons in Hr as [? Hr]). repeat (apply NoDup_cons in Hn as [? Hn]). assert (rd ≠ rm ∧ rd ≠ rm + 1 ∧ rd + 1 ≠ rm) as (? & ? & ?) by set_solver.
  destruct (reg_set regs rm m0) as (r1 & -> & L1 & E1); [done|]. cbn [mbind option_bind]. destruct (reg_set r1 (rm + 1) m1) as (r2 & -> & L2 & E2); [by rewrite L1|]. cbn [mbind option_bind].
  destruct (reg_set r2 rd d0) as (r3 & -> & L3 & E3); [by rewrite L2, L1|]. cbn [mbind option_bind]. destruct (reg_set r3 (rd + 1) d1) as (r4 & -> & L4 & E4); [by rewrite L3, L2, L1|].
  exists r4. split; [done|]. split; [split; [congruence|]|].
  - intros r Hr'. rewrite E4, E3, E2, E1. compare; set_solver.
  - rewrite !E4, !E3, !E2, !E1. compare; try done; lia.
Qed.

(** ** Elements *)

Lemma ELEM_conv V N w : 0 ≤ w → ELEM V N w = conv (Elem w false) (V .>> (N * w)).
Proof. intros Hw. unfold ELEM. rewrite Z.shiftl_1_l. replace (2 ^ w - 1) with (Z.ones w) by (rewrite Z.ones_equiv; lia). by rewrite Z.land_ones. Qed.

Definition part (w z i : Z) : Z := conv (Elem w false) (z .>> (w * i)).

Lemma part_range w z i : 0 ≤ w → 0 ≤ part w z i < 2 ^ w.
Proof. apply wrap_range. Qed.
Lemma ELEM_part z i w : 0 ≤ w → ELEM z i w = part w z i.
Proof. intros. rewrite ELEM_conv by done. unfold part. by rewrite Z.mul_comm. Qed.

Lemma elems_part w z : elems 64 (Elem w false) z = part w z <$> seqZ 0 (64 / w).
Proof. done. Qed.

(** The elements that were put together come out again. *)
Lemma elems_joined w l : 0 < w → 64 = w * Z.of_nat (length l) → Forall (λ v, 0 ≤ v < 2 ^ w) l → elems 64 (Elem w false) (NEON_PACK (Elem w false) l) = l.
Proof.
  intros Hw -> Hl. rewrite (elems_pack (Z.of_nat (length l)) (Elem w false)) by done. induction Hl as [|v l Hv Hl IH]; [done|]. rewrite fmap_cons, IH. f_equal.
  by apply wrap_small.
Qed.

Lemma join_8 a b c d e f g h : Forall (λ v, 0 ≤ v < 2 ^ 8) [a; b; c; d; e; f; g; h] →
  a .| (b .<< 8) .| (c .<< 16) .| (d .<< 24) .| (e .<< 32) .| (f .<< 40) .| (g .<< 48) .| (h .<< 56) = NEON_PACK (Elem 8 false) [a; b; c; d; e; f; g; h].
Proof.
  intros H. repeat (apply Forall_cons in H as [? H]). cbn [NEON_PACK esize]. rewrite !wrap_small by done.
  by rewrite Z.shiftl_0_l, Z.lor_0_r, !Z.shiftl_lor, !Z.shiftl_shiftl, !Z.lor_assoc by done.
Qed.

(** ** Helpers on one register each, and on two *)

Section Spans.
Variable w : Z.
Hypothesis Hw : 0 < w.
Abbreviation E := (elems 64 (Elem w false)).
Abbreviation P := (NEON_PACK (Elem w false)).
Definition whole_reg (l : list Z) : Prop := 64 = w * Z.of_nat (length l) ∧ Forall (λ v, 0 ≤ v < 2 ^ w) l.

Lemma vector_app regs rs rs' : vector w regs (rs ++ rs') = vector w regs rs ++ vector w regs rs'.
Proof. unfold vector. by rewrite fmap_app, concat_app. Qed.
Lemma vector_single regs r : vector w regs (single r) = E (reg regs r).
Proof. unfold vector, single. cbn [fmap list_fmap concat]. apply app_nil_r. Qed.
Lemma vector_double regs r : vector w regs (double r) = E (reg regs r) ++ E (reg regs (r + 1)).
Proof. unfold vector, double. cbn [fmap list_fmap concat]. by rewrite app_nil_r. Qed.

Section One.
Variables (d m : Z → Z → list Z) (op : list Z → Z → Z → option (list Z)).
Hypothesis Hop : ∀ regs rd rm, op regs rd rm =
  (zm ← arr_get regs rm; zd ← arr_get regs rd; regs ← arr_set regs rm (P (m zd zm)); arr_set regs rd (P (d zd zm))).
Hypothesis Hregs : ∀ zd zm, whole_reg (d zd zm) ∧ whole_reg (m zd zm).

Lemma one_written regs rd rm : available regs (single rd ++ single rm) →
  ∃ regs', op regs rd rm = Some regs' ∧ others_kept regs regs' (single rd ++ single rm) ∧
    E (reg regs' rd) = d (reg regs rd) (reg regs rm) ∧ E (reg regs' rm) = m (reg regs rd) (reg regs rm).
Proof using Hw Hop Hregs.
  change (single rd ++ single rm) with [rd; rm]. intros Ha. pose proof Ha as [_ Hr]. repeat (apply Forall_cons in Hr as [? Hr]).
  rewrite Hop. rewrite (reg_get regs rm) by done. cbn [mbind option_bind]. rewrite (reg_get regs rd) by done. cbn [mbind option_bind].
  destruct (write_2 regs rd rm (P (d (reg regs rd) (reg regs rm))) (P (m (reg regs rd) (reg regs rm))) Ha) as (regs' & -> & Hk & Ed & Em).
  destruct (Hregs (reg regs rd) (reg regs rm)) as [[] []]. exists regs'. rewrite Ed, Em, !elems_joined by done. done.
Qed.

Lemma zips_single : (∀ zd zm, d zd zm ++ m zd zm = interleave (E zd) (E zm)) → zips w single op.
Proof using Hw Hop Hregs.
  intros H regs rd rm Ha. destruct (one_written regs rd rm Ha) as (regs' & Eo & Hk & Ed & Em). exists regs'. split_and!; [done..|].
  by rewrite vector_app, !vector_single, Ed, Em.
Qed.
Lemma unzips_single : (∀ zd zm, interleave (d zd zm) (m zd zm) = E zd ++ E zm) → unzips w single op.
Proof using Hw Hop Hregs.
  intros H regs rd rm Ha. destruct (one_written regs rd rm Ha) as (regs' & Eo & Hk & Ed & Em). exists regs'. split_and!; [done..|].
  by rewrite vector_app, !vector_single, Ed, Em.
Qed.
End One.

Section Two.
Variables (d0 d1 m0 m1 : Z → Z → Z → Z → list Z) (op : list Z → Z → Z → option (list Z)).
Hypothesis Hop : ∀ regs rd rm, op regs rd rm =
  (zm0 ← arr_get regs rm; zm1 ← arr_get regs (rm + 1); zd0 ← arr_get regs rd; zd1 ← arr_get regs (rd + 1);
   regs ← arr_set regs rm (P (m0 zd0 zd1 zm0 zm1)); regs ← arr_set regs (rm + 1) (P (m1 zd0 zd1 zm0 zm1));
   regs ← arr_set regs rd (P (d0 zd0 zd1 zm0 zm1)); arr_set regs (rd + 1) (P (d1 zd0 zd1 zm0 zm1))).
Hypothesis Hregs : ∀ a b c d, whole_reg (d0 a b c d) ∧ whole_reg (d1 a b c d) ∧ whole_reg (m0 a b c d) ∧ whole_reg (m1 a b c d).

Lemma two_written regs rd rm : available regs (double rd ++ double rm) →
  ∃ regs', op regs rd rm = Some regs' ∧ others_kept regs regs' (double rd ++ double rm) ∧
    let f (g : Z → Z → Z → Z → list Z) := g (reg regs rd) (reg regs (rd + 1)) (reg regs rm) (reg regs (rm + 1)) in
    E (reg regs' rd) = f d0 ∧ E (reg regs' (rd + 1)) = f d1 ∧ E (reg regs' rm) = f m0 ∧ E (reg regs' (rm + 1)) = f m1.
Proof using Hw Hop Hregs.
  change (double rd ++ double rm) with [rd; rd + 1; rm; rm + 1]. intros Ha. pose proof Ha as [_ Hr]. repeat (apply Forall_cons in Hr as [? Hr]).
  rewrite Hop. rewrite (reg_get regs rm) by done. cbn [mbind option_bind]. rewrite (reg_get regs (rm + 1)) by done. cbn [mbind option_bind].
  rewrite (reg_get regs rd) by done. cbn [mbind option_bind]. rewrite (reg_get regs (rd + 1)) by done. cbn [mbind option_bind].
  generalize (reg regs rd), (reg regs (rd + 1)), (reg regs rm), (reg regs (rm + 1)). intros a b c d.
  destruct (write_4 regs rd rm (P (d0 a b c d)) (P (d1 a b c d)) (P (m0 a b c d)) (P (m1 a b c d)) Ha) as (regs' & -> & Hk & E0 & E1 & E2 & E3).
  destruct (Hregs a b c d) as ([] & [] & [] & []). exists regs'. cbv zeta. rewrite E0, E1, E2, E3, !elems_joined by done. done.
Qed.

Lemma zips_double : (∀ a b c d, d0 a b c d ++ d1 a b c d ++ m0 a b c d ++ m1 a b c d = interleave (E a ++ E b) (E c ++ E d)) → zips w double op.
Proof using Hw Hop Hregs.
  intros H regs rd rm Ha. destruct (two_written regs rd rm Ha) as (regs' & Eo & Hk & E0 & E1 & E2 & E3). exists regs'. split_and!; [done..|].
  rewrite vector_app, !vector_double, E0, E1, E2, E3. by rewrite <- H, <- app_assoc.
Qed.
Lemma unzips_double : (∀ a b c d, interleave (d0 a b c d ++ d1 a b c d) (m0 a b c d ++ m1 a b c d) = E a ++ E b ++ E c ++ E d) → unzips w double op.
Proof using Hw Hop Hregs.
  intros H regs rd rm Ha. destruct (two_written regs rd rm Ha) as (regs' & Eo & Hk & E0 & E1 & E2 & E3). exists regs'. split_and!; [done..|].
  rewrite vector_app, !vector_double, E0, E1, E2, E3. by rewrite H, <- app_assoc.
Qed.
End Two.
End Spans.

(** The helpers read the registers, and put parts of them together. *)
Ltac parts := repeat first [apply Forall_cons; split|apply Forall_nil_2|by apply part_range].
Ltac reads := repeat match goal with |- context [arr_get ?regs ?r] => destruct (arr_get regs r); [cbn [mbind option_bind]|done] end.
Ltac joins := rewrite !ELEM_part by done; first [rewrite !join_8 by parts|rewrite !(join_4 false) by (by apply part_range)|rewrite !(join_2 false) by (by apply part_range)]; done.
Ltac spans := intros; split_and!; (split; [done|parts]).

Lemma neon_zip8_ok : zips 8 single neon_zip8.
Proof.
  apply (zips_single 8 ltac:(done)
    (λ d m, [part 8 d 0; part 8 m 0; part 8 d 1; part 8 m 1; part 8 d 2; part 8 m 2; part 8 d 3; part 8 m 3])
    (λ d m, [part 8 d 4; part 8 m 4; part 8 d 5; part 8 m 5; part 8 d 6; part 8 m 6; part 8 d 7; part 8 m 7])); [|spans|done].
  intros regs rd rm. unfold neon_zip8. reads. joins.
Qed.
Lemma neon_unzip8_ok : unzips 8 single neon_unzip8.
Proof.
  apply (unzips_single 8 ltac:(done)
    (λ d m, [part 8 d 0; part 8 d 2; part 8 d 4; part 8 d 6; part 8 m 0; part 8 m 2; part 8 m 4; part 8 m 6])
    (λ d m, [part 8 d 1; part 8 d 3; part 8 d 5; part 8 d 7; part 8 m 1; part 8 m 3; part 8 m 5; part 8 m 7])); [|spans|done].
  intros regs rd rm. unfold neon_unzip8. reads. joins.
Qed.
Lemma neon_zip16_ok : zips 16 single neon_zip16.
Proof.
  apply (zips_single 16 ltac:(done)
    (λ d m, [part 16 d 0; part 16 m 0; part 16 d 1; part 16 m 1])
    (λ d m, [part 16 d 2; part 16 m 2; part 16 d 3; part 16 m 3])); [|spans|done].
  intros regs rd rm. unfold neon_zip16. reads. joins.
Qed.
Lemma neon_unzip16_ok : unzips 16 single neon_unzip16.
Proof.
  apply (unzips_single 16 ltac:(done)
    (λ d m, [part 16 d 0; part 16 d 2; part 16 m 0; part 16 m 2])
    (λ d m, [part 16 d 1; part 16 d 3; part 16 m 1; part 16 m 3])); [|spans|done].
  intros regs rd rm. unfold neon_unzip16. reads. joins.
Qed.
Lemma neon_qzip8_ok : zips 8 double neon_qzip8.
Proof.
  apply (zips_double 8 ltac:(done)
    (λ a b c d, [part 8 a 0; part 8 c 0; part 8 a 1; part 8 c 1; part 8 a 2; part 8 c 2; part 8 a 3; part 8 c 3])
    (λ a b c d, [part 8 a 4; part 8 c 4; part 8 a 5; part 8 c 5; part 8 a 6; part 8 c 6; part 8 a 7; part 8 c 7])
    (λ a b c d, [part 8 b 0; part 8 d 0; part 8 b 1; part 8 d 1; part 8 b 2; part 8 d 2; part 8 b 3; part 8 d 3])
    (λ a b c d, [part 8 b 4; part 8 d 4; part 8 b 5; part 8 d 5; part 8 b 6; part 8 d 6; part 8 b 7; part 8 d 7])); [|spans|done].
  intros regs rd rm. unfold neon_qzip8. reads. joins.
Qed.
Lemma neon_qunzip8_ok : unzips 8 double neon_qunzip8.
Proof.
  apply (unzips_double 8 ltac:(done)
    (λ a b c d, [part 8 a 0; part 8 a 2; part 8 a 4; part 8 a 6; part 8 b 0; part 8 b 2; part 8 b 4; part 8 b 6])
    (λ a b c d, [part 8 c 0; part 8 c 2; part 8 c 4; part 8 c 6; part 8 d 0; part 8 d 2; part 8 d 4; part 8 d 6])
    (λ a b c d, [part 8 a 1; part 8 a 3; part 8 a 5; part 8 a 7; part 8 b 1; part 8 b 3; part 8 b 5; part 8 b 7])
    (λ a b c d, [part 8 c 1; part 8 c 3; part 8 c 5; part 8 c 7; part 8 d 1; part 8 d 3; part 8 d 5; part 8 d 7])); [|spans|done].
  intros regs rd rm. unfold neon_qunzip8. reads. joins.
Qed.
Lemma neon_qzip16_ok : zips 16 double neon_qzip16.
Proof.
  apply (zips_double 16 ltac:(done)
    (λ a b c d, [part 16 a 0; part 16 c 0; part 16 a 1; part 16 c 1])
    (λ a b c d, [part 16 a 2; part 16 c 2; part 16 a 3; part 16 c 3])
    (λ a b c d, [part 16 b 0; part 16 d 0; part 16 b 1; part 16 d 1])
    (λ a b c d, [part 16 b 2; part 16 d 2; part 16 b 3; part 16 d 3])); [|spans|done].
  intros regs rd rm. unfold neon_qzip16. reads. joins.
Qed.
Lemma neon_qunzip16_ok : unzips 16 double neon_qunzip16.
Proof.
  apply (unzips_double 16 ltac:(done)
    (λ a b c d, [part 16 a 0; part 16 a 2; part 16 b 0; part 16 b 2])
    (λ a b c d, [part 16 c 0; part 16 c 2; part 16 d 0; part 16 d 2])
    (λ a b c d, [part 16 a 1; part 16 a 3; part 16 b 1; part 16 b 3])
    (λ a b c d, [part 16 c 1; part 16 c 3; part 16 d 1; part 16 d 3])); [|spans|done].
  intros regs rd rm. unfold neon_qunzip16. reads. joins.
Qed.
Lemma neon_qzip32_ok : zips 32 double neon_qzip32.
Proof.
  apply (zips_double 32 ltac:(done)
    (λ a b c d, [part 32 a 0; part 32 c 0])
    (λ a b c d, [part 32 a 1; part 32 c 1])
    (λ a b c d, [part 32 b 0; part 32 d 0])
    (λ a b c d, [part 32 b 1; part 32 d 1])); [|spans|done].
  intros regs rd rm. unfold neon_qzip32. reads. joins.
Qed.
Lemma neon_qunzip32_ok : unzips 32 double neon_qunzip32.
Proof.
  apply (unzips_double 32 ltac:(done)
    (λ a b c d, [part 32 a 0; part 32 b 0])
    (λ a b c d, [part 32 c 0; part 32 d 0])
    (λ a b c d, [part 32 a 1; part 32 b 1])
    (λ a b c d, [part 32 c 1; part 32 d 1])); [|spans|done].
  intros regs rd rm. unfold neon_qunzip32. reads. joins.
Qed.
