(* ===== verification/NeonTheorems.v ===== *)
(** What every vector helper computes, in one table for each way a helper treats its operands. *)

From Stdlib Require Import ZArith Lia.
From stdpp Require Import base tactics numbers option list list_numbers.
From S2P Require Import Prelude Bits Neon NeonLanes NeonSat NeonShift NeonSwar NeonPoly NeonZip.

(** ** Counting leading bits *)

Definition bit_length (v : Z) : Z := if v =? 0 then 0 else Z.log2 v + 1.
Definition leading_zeros (w v : Z) : Z := w - bit_length v.
(** The copies of the sign below it. *)
Definition leading_signs (w v : Z) : Z := leading_zeros w (if v <? 0 then - v - 1 else v) - 1.

Lemma bit_length_half v : 0 < v → bit_length v = bit_length (v .>> 1) + 1.
Proof.
  intros Hv. unfold bit_length. destruct (Z.eqb_spec v 0); [lia|]. destruct (Z.eqb_spec v 1) as [->|]; [done|].
  rewrite Z.shiftr_div_pow2 by done. change (2 ^ 1) with 2. pose proof (Z.log2_shiftr v 1 Hv) as El. rewrite Z.shiftr_div_pow2 in El by done. change (2 ^ 1) with 2 in El.
  assert (1 ≤ Z.log2 v) by (apply (Z.log2_le_mono 2); lia). destruct (Z.eqb_spec (v / 2) 0) as [E|]; [|lia]. Z.to_euclidean_division_equations. lia.
Qed.

(** The fuel of the loop is the size of the operand. *)
Lemma clz_loop_value fuel n x : 0 ≤ x < 2 ^ Z.of_nat fuel → clz_loop fuel n x = n - bit_length x.
Proof.
  revert n x. induction fuel as [|fuel IH]; intros n x Hx; cbn [clz_loop].
  - assert (x = 0) as -> by (simpl in Hx; lia). unfold bit_length. simpl. lia.
  - destruct (Z.eqb_spec x 0) as [->|]; [unfold bit_length; simpl; lia|]. rewrite IH; [rewrite (bit_length_half x) by lia; lia|].
    rewrite Nat2Z.inj_succ, Z.pow_succ_r in Hx by lia. rewrite Z.shiftr_div_pow2 by done. change (2 ^ 1) with 2. Z.to_euclidean_division_equations. lia.
Qed.

(** ** Helpers that work on every element *)

Definition all_ones (b : bool) : Z := if b then -1 else 0.
Definition cmp_gt (x y : Z) : Z := all_ones (y <? x).
Definition cmp_ge (x y : Z) : Z := all_ones (y <=? x).
Definition cmp_eq (x y : Z) : Z := all_ones (x =? y).
Definition meets (x y : Z) : Z := all_ones (negb (x .& y =? 0)).

Lemma min_fn_min x y : min_fn x y = Z.min x y.
Proof. unfold min_fn. compare; lia. Qed.
Lemma max_fn_max x y : max_fn x y = Z.max x y.
Proof. unfold max_fn. compare; lia. Qed.
Lemma abd_difference x y : abd x y = difference x y.
Proof. unfold abd, difference. compare; lia. Qed.

Lemma vop_ext t f g : 0 < esize t → (∀ x y, g x y = f x y) → lanewise 32 t t t f (NEON_VOP t g).
Proof. intros Ht H. apply vop; [done|]. intros x y _ _. by rewrite H. Qed.
Lemma pop_ext t f g : (∀ x y, g x y = f x y) → pairwise 32 t f (NEON_POP t g).
Proof.
  intros H a b _ _. unfold NEON_POP, NEON_UNPACK. f_equal.
  assert (∀ k l, (length l ≤ k)%nat → NEON_PDO g l = NEON_PDO f l) as E.
  { induction k as [|k IH]; intros [|x [|y l]] Hl; try done; simpl in Hl; [lia|]. cbn [NEON_PDO]. rewrite H, IH by lia. done. }
  by rewrite !(E _ _ (Nat.le_refl _)).
Qed.

Lemma hadd_ok t : 0 < esize t → lanewise 32 t t t half_sum (NEON_VOP t hadd).
Proof. intros. by apply (halving t Z.add). Qed.
Lemma rhadd_ok t : 0 < esize t → lanewise 32 t t t half_sum_up (NEON_VOP t rhadd).
Proof. intros. by apply (halving t (λ x y, x + y + 1)). Qed.
Lemma hsub_ok t : 0 < esize t → lanewise 32 t t t half_difference (NEON_VOP t hsub).
Proof. intros. by apply (halving t Z.sub). Qed.

Lemma neon_clz_u8_ok : lanewise1 32 neon_u8 neon_u8 (leading_zeros 8) neon_clz_u8.
Proof. apply vop1; [done|]. intros x Hx. unfold do_clz8, leading_zeros, u8. rewrite clz_loop_value; [|by apply (wrap_range 8)]. rewrite (wrap_small 8 x); [done|]. unfold fits_elem, lo, hi in Hx. simpl in Hx. lia. Qed.
Lemma neon_clz_u16_ok : lanewise1 32 neon_u16 neon_u16 (leading_zeros 16) neon_clz_u16.
Proof. apply vop1; [done|]. intros x Hx. unfold do_clz16, leading_zeros, u16. rewrite clz_loop_value; [|by apply (wrap_range 16)]. rewrite (wrap_small 16 x); [done|]. unfold fits_elem, lo, hi in Hx. simpl in Hx. lia. Qed.
Lemma magnitude x : (if x <? 0 then Z.lnot x else x) = (if x <? 0 then - x - 1 else x).
Proof. unfold Z.lnot. destruct (x <? 0); lia. Qed.
Lemma neon_cls_s8_ok : lanewise1 32 neon_s8 neon_s8 (leading_signs 8) neon_cls_s8.
Proof.
  apply vop1; [done|]. intros x Hx. unfold fits_elem, lo, hi in Hx. simpl in Hx. unfold do_clz8, leading_signs, leading_zeros, u8. rewrite magnitude.
  rewrite clz_loop_value; [|by apply (wrap_range 8)]. rewrite (wrap_small 8 (if x <? 0 then - x - 1 else x)); [done|]. compare; lia.
Qed.
Lemma neon_cls_s16_ok : lanewise1 32 neon_s16 neon_s16 (leading_signs 16) neon_cls_s16.
Proof.
  apply vop1; [done|]. intros x Hx. unfold fits_elem, lo, hi in Hx. simpl in Hx. unfold do_clz16, leading_signs, leading_zeros, u16. rewrite magnitude.
  rewrite clz_loop_value; [|by apply (wrap_range 16)]. rewrite (wrap_small 16 (if x <? 0 then - x - 1 else x)); [done|]. compare; lia.
Qed.
Lemma neon_cls_s32_ok : lanewise1 32 neon_s32 neon_s32 (leading_signs 32) neon_cls_s32.
Proof.
  intros x Hx. rewrite (elems_one 32 true) by done. cbn [fmap list_fmap]. rewrite pack_one. unfold neon_cls_s32, leading_signs, leading_zeros. cbv zeta.
  change (conv (word 32 true) x) with (s32 x). unfold s32. rewrite swrap_cases by lia. change (2 ^ (32 - 1)) with (2 ^ 31). unfold not32, u32, Z.lnot. rewrite (wrap_cases 32 (Z.pred (- x))) by lia.
  assert (∀ v v' : Z, v = v' → 0 ≤ v < 2 ^ 32 → wrap 32 (clz_loop 32 32 v - 1) = wrap 32 (32 - bit_length v' - 1)) as H.
  { intros v v' <- Hv. by rewrite clz_loop_value. }
  apply H; compare; lia.
Qed.

(** ** The tables *)

(** Size of the operands, types of the elements, the exact function, the helper. *)
Definition saturating_helpers : list (Z * elem * elem * elem * (Z → Z → Z) * (Z → Z → Z → Z * Z)) :=
  [ (32, neon_u8, neon_u8, neon_u8, Z.add, neon_qadd_u8);
    (32, neon_s8, neon_s8, neon_s8, Z.add, neon_qadd_s8);
    (32, neon_u16, neon_u16, neon_u16, Z.add, neon_qadd_u16);
    (32, neon_s16, neon_s16, neon_s16, Z.add, neon_qadd_s16);
    (32, neon_u32, neon_u32, neon_u32, Z.add, neon_qadd_u32);
    (32, neon_s32, neon_s32, neon_s32, Z.add, neon_qadd_s32);
    (64, (Elem 64 false), (Elem 64 false), (Elem 64 false), Z.add, neon_qadd_u64);
    (64, (Elem 64 true), (Elem 64 true), (Elem 64 true), Z.add, neon_qadd_s64);
    (32, neon_u8, neon_u8, neon_u8, Z.sub, neon_qsub_u8);
    (32, neon_s8, neon_s8, neon_s8, Z.sub, neon_qsub_s8);
    (32, neon_u16, neon_u16, neon_u16, Z.sub, neon_qsub_u16);
    (32, neon_s16, neon_s16, neon_s16, Z.sub, neon_qsub_s16);
    (32, neon_u32, neon_u32, neon_u32, Z.sub, neon_qsub_u32);
    (32, neon_s32, neon_s32, neon_s32, Z.sub, neon_qsub_s32);
    (64, (Elem 64 false), (Elem 64 false), (Elem 64 false), Z.sub, neon_qsub_u64);
    (64, (Elem 64 true), (Elem 64 true), (Elem 64 true), Z.sub, neon_qsub_s64);
    (32, neon_s8, neon_u8, neon_u8, Z.add, neon_uqadd_s8);
    (32, neon_u8, neon_s8, neon_s8, Z.add, neon_sqadd_u8);
    (32, neon_s16, neon_u16, neon_u16, Z.add, neon_uqadd_s16);
    (32, neon_u16, neon_s16, neon_s16, Z.add, neon_sqadd_u16);
    (32, neon_s32, neon_u32, neon_u32, Z.add, neon_uqadd_s32);
    (32, neon_u32, neon_s32, neon_s32, Z.add, neon_sqadd_u32);
    (64, (Elem 64 true), (Elem 64 false), (Elem 64 false), Z.add, neon_uqadd_s64);
    (64, (Elem 64 false), (Elem 64 true), (Elem 64 true), Z.add, neon_sqadd_u64);
    (32, neon_u8, neon_u8, neon_u8, (by_amount false), neon_qshl_u8);
    (32, neon_u16, neon_u16, neon_u16, (by_amount false), neon_qshl_u16);
    (32, neon_u32, neon_u32, neon_u32, (by_amount false), neon_qshl_u32);
    (64, (Elem 64 false), (Elem 64 false), (Elem 64 false), (by_amount false), neon_qshl_u64);
    (32, neon_s8, neon_s8, neon_s8, (by_amount false), neon_qshl_s8);
    (32, neon_s16, neon_s16, neon_s16, (by_amount false), neon_qshl_s16);
    (32, neon_s32, neon_s32, neon_s32, (by_amount false), neon_qshl_s32);
    (64, (Elem 64 true), (Elem 64 false), (Elem 64 true), (by_amount false), neon_qshl_s64);
    (32, neon_u8, neon_u8, neon_u8, (by_amount true), neon_qrshl_u8);
    (32, neon_u16, neon_u16, neon_u16, (by_amount true), neon_qrshl_u16);
    (32, (Elem 32 false), (Elem 32 false), (Elem 32 false), (by_amount true), neon_qrshl_u32);
    (64, (Elem 64 false), (Elem 64 false), (Elem 64 false), (by_amount true), neon_qrshl_u64);
    (32, neon_s8, neon_s8, neon_s8, (by_amount true), neon_qrshl_s8);
    (32, neon_s16, neon_s16, neon_s16, (by_amount true), neon_qrshl_s16);
    (32, (Elem 32 true), (Elem 32 false), (Elem 32 true), (by_amount true), neon_qrshl_s32);
    (64, (Elem 64 true), (Elem 64 false), (Elem 64 true), (by_amount true), neon_qrshl_s64);
    (32, neon_s8, neon_u8, neon_u8, (by_amount false), neon_qshlu_s8);
    (32, neon_s16, neon_u16, neon_u16, (by_amount false), neon_qshlu_s16);
    (32, (Elem 32 true), (Elem 32 false), (Elem 32 false), (by_amount false), neon_qshlu_s32);
    (64, (Elem 64 true), (Elem 64 false), (Elem 64 false), (by_amount false), neon_qshlu_s64);
    (32, neon_s16, neon_s16, neon_s16, (dmulh 16 false), neon_qdmulh_s16);
    (32, neon_s16, neon_s16, neon_s16, (dmulh 16 true), neon_qrdmulh_s16);
    (32, neon_s32, neon_s32, neon_s32, (dmulh 32 false), neon_qdmulh_s32);
    (32, neon_s32, neon_s32, neon_s32, (dmulh 32 true), neon_qrdmulh_s32);
    (64, neon_s32, neon_s32, neon_s32, Z.add, neon_addl_saturate_s32);
    (64, (Elem 64 true), (Elem 64 true), (Elem 64 true), Z.add, neon_addl_saturate_s64) ].

(** The same with one operand. *)
Definition saturating_helpers1 : list (Z * elem * elem * (Z → Z) * (Z → Z → Z * Z)) :=
  [ (32, neon_s8, neon_s8, Z.abs, neon_qabs_s8);
    (32, neon_s16, neon_s16, Z.abs, neon_qabs_s16);
    (32, neon_s32, neon_s32, Z.abs, neon_qabs_s32);
    (64, (Elem 64 true), (Elem 64 true), Z.abs, neon_qabs_s64);
    (32, neon_s8, neon_s8, Z.opp, neon_qneg_s8);
    (32, neon_s16, neon_s16, Z.opp, neon_qneg_s16);
    (32, neon_s32, neon_s32, Z.opp, neon_qneg_s32);
    (64, (Elem 64 true), (Elem 64 true), Z.opp, neon_qneg_s64);
    (64, neon_s16, neon_u8, id, neon_unarrow_sat8);
    (64, neon_u16, neon_u8, id, neon_narrow_sat_u8);
    (64, neon_s16, neon_s8, id, neon_narrow_sat_s8);
    (64, neon_s32, neon_u16, id, neon_unarrow_sat16);
    (64, neon_u32, neon_u16, id, neon_narrow_sat_u16);
    (64, neon_s32, neon_s16, id, neon_narrow_sat_s16);
    (64, (Elem 64 true), neon_u32, id, neon_unarrow_sat32);
    (64, (Elem 64 false), neon_u32, id, neon_narrow_sat_u32);
    (64, (Elem 64 true), neon_s32, id, neon_narrow_sat_s32) ].

(** Helpers that do not saturate. *)
Definition lane_helpers : list (Z * elem * elem * elem * (Z → Z → Z) * (Z → Z → Z)) :=
  [ (32, neon_u8, neon_u8, neon_u8, (by_amount false), neon_shl_u8);
    (32, neon_u16, neon_u16, neon_u16, (by_amount false), neon_shl_u16);
    (32, neon_u32, neon_u32, neon_u32, (by_amount false), neon_shl_u32);
    (64, (Elem 64 false), (Elem 64 false), (Elem 64 false), (by_amount false), neon_shl_u64);
    (32, neon_s8, neon_s8, neon_s8, (by_amount false), neon_shl_s8);
    (32, neon_s16, neon_s16, neon_s16, (by_amount false), neon_shl_s16);
    (32, neon_s32, neon_s32, neon_s32, (by_amount false), neon_shl_s32);
    (64, (Elem 64 true), (Elem 64 false), (Elem 64 true), (by_amount false), neon_shl_s64);
    (32, neon_u8, neon_u8, neon_u8, (by_amount true), neon_rshl_u8);
    (32, neon_u16, neon_u16, neon_u16, (by_amount true), neon_rshl_u16);
    (32, (Elem 32 false), (Elem 32 false), (Elem 32 false), (by_amount true), neon_rshl_u32);
    (64, (Elem 64 false), (Elem 64 false), (Elem 64 false), (by_amount true), neon_rshl_u64);
    (32, neon_s8, neon_s8, neon_s8, (by_amount true), neon_rshl_s8);
    (32, neon_s16, neon_s16, neon_s16, (by_amount true), neon_rshl_s16);
    (32, (Elem 32 true), (Elem 32 false), (Elem 32 true), (by_amount true), neon_rshl_s32);
    (64, (Elem 64 true), (Elem 64 false), (Elem 64 true), (by_amount true), neon_rshl_s64);
    (32, neon_u8, neon_u8, neon_u8, half_sum, neon_hadd_u8);
    (32, neon_u16, neon_u16, neon_u16, half_sum, neon_hadd_u16);
    (32, neon_s8, neon_s8, neon_s8, half_sum, neon_hadd_s8);
    (32, neon_s16, neon_s16, neon_s16, half_sum, neon_hadd_s16);
    (32, neon_u32, neon_u32, neon_u32, half_sum, neon_hadd_u32);
    (32, neon_s32, neon_s32, neon_s32, half_sum, (λ a b, u32 (neon_hadd_s32 (s32 a) (s32 b))));
    (32, neon_u8, neon_u8, neon_u8, half_sum_up, neon_rhadd_u8);
    (32, neon_u16, neon_u16, neon_u16, half_sum_up, neon_rhadd_u16);
    (32, neon_s8, neon_s8, neon_s8, half_sum_up, neon_rhadd_s8);
    (32, neon_s16, neon_s16, neon_s16, half_sum_up, neon_rhadd_s16);
    (32, neon_u32, neon_u32, neon_u32, half_sum_up, neon_rhadd_u32);
    (32, neon_s32, neon_s32, neon_s32, half_sum_up, (λ a b, u32 (neon_rhadd_s32 (s32 a) (s32 b))));
    (32, neon_u8, neon_u8, neon_u8, half_difference, neon_hsub_u8);
    (32, neon_u16, neon_u16, neon_u16, half_difference, neon_hsub_u16);
    (32, neon_s8, neon_s8, neon_s8, half_difference, neon_hsub_s8);
    (32, neon_s16, neon_s16, neon_s16, half_difference, neon_hsub_s16);
    (32, neon_u32, neon_u32, neon_u32, half_difference, neon_hsub_u32);
    (32, neon_s32, neon_s32, neon_s32, half_difference, (λ a b, u32 (neon_hsub_s32 (s32 a) (s32 b))));
    (32, neon_u8, neon_u8, neon_u8, cmp_gt, neon_cgt_u8);
    (32, neon_u16, neon_u16, neon_u16, cmp_gt, neon_cgt_u16);
    (32, neon_u32, neon_u32, neon_u32, cmp_gt, neon_cgt_u32);
    (32, neon_s8, neon_s8, neon_s8, cmp_gt, neon_cgt_s8);
    (32, neon_s16, neon_s16, neon_s16, cmp_gt, neon_cgt_s16);
    (32, neon_s32, neon_s32, neon_s32, cmp_gt, neon_cgt_s32);
    (32, neon_u8, neon_u8, neon_u8, cmp_ge, neon_cge_u8);
    (32, neon_u16, neon_u16, neon_u16, cmp_ge, neon_cge_u16);
    (32, neon_u32, neon_u32, neon_u32, cmp_ge, neon_cge_u32);
    (32, neon_s8, neon_s8, neon_s8, cmp_ge, neon_cge_s8);
    (32, neon_s16, neon_s16, neon_s16, cmp_ge, neon_cge_s16);
    (32, neon_s32, neon_s32, neon_s32, cmp_ge, neon_cge_s32);
    (32, neon_u8, neon_u8, neon_u8, Z.min, neon_min_u8);
    (32, neon_u16, neon_u16, neon_u16, Z.min, neon_min_u16);
    (32, neon_u32, neon_u32, neon_u32, Z.min, neon_min_u32);
    (32, neon_s8, neon_s8, neon_s8, Z.min, neon_min_s8);
    (32, neon_s16, neon_s16, neon_s16, Z.min, neon_min_s16);
    (32, neon_s32, neon_s32, neon_s32, Z.min, neon_min_s32);
    (32, neon_u8, neon_u8, neon_u8, Z.max, neon_max_u8);
    (32, neon_u16, neon_u16, neon_u16, Z.max, neon_max_u16);
    (32, neon_u32, neon_u32, neon_u32, Z.max, neon_max_u32);
    (32, neon_s8, neon_s8, neon_s8, Z.max, neon_max_s8);
    (32, neon_s16, neon_s16, neon_s16, Z.max, neon_max_s16);
    (32, neon_s32, neon_s32, neon_s32, Z.max, neon_max_s32);
    (32, neon_u8, neon_u8, neon_u8, difference, neon_abd_u8);
    (32, neon_u16, neon_u16, neon_u16, difference, neon_abd_u16);
    (32, neon_u32, neon_u32, neon_u32, difference, neon_abd_u32);
    (32, neon_s8, neon_s8, neon_s8, difference, neon_abd_s8);
    (32, neon_s16, neon_s16, neon_s16, difference, neon_abd_s16);
    (32, neon_s32, neon_s32, neon_s32, difference, neon_abd_s32);
    (32, neon_u8, neon_u8, neon_u8, meets, neon_tst_u8);
    (32, neon_u16, neon_u16, neon_u16, meets, neon_tst_u16);
    (32, neon_u32, neon_u32, neon_u32, meets, neon_tst_u32);
    (32, neon_u8, neon_u8, neon_u8, cmp_eq, neon_ceq_u8);
    (32, neon_u16, neon_u16, neon_u16, cmp_eq, neon_ceq_u16);
    (32, neon_u32, neon_u32, neon_u32, cmp_eq, neon_ceq_u32);
    (32, neon_u8, neon_u8, neon_u8, Z.sub, neon_sub_u8);
    (32, neon_u16, neon_u16, neon_u16, Z.sub, neon_sub_u16);
    (32, neon_u8, neon_u8, neon_u8, Z.mul, neon_mul_u8);
    (32, neon_u16, neon_u16, neon_u16, Z.mul, neon_mul_u16);
    (32, neon_u8, neon_u8, neon_u8, Z.add, neon_add_u8);
    (32, neon_u16, neon_u16, neon_u16, Z.add, neon_add_u16);
    (64, neon_u16, neon_u16, neon_u16, Z.add, neon_addl_u16);
    (64, neon_u32, neon_u32, neon_u32, Z.add, neon_addl_u32);
    (64, neon_u16, neon_u16, neon_u16, Z.sub, neon_subl_u16);
    (64, neon_u32, neon_u32, neon_u32, Z.sub, neon_subl_u32);
    (32, neon_u8, neon_u8, neon_u16, difference, neon_abdl_u16);
    (32, neon_u16, neon_u16, neon_u32, difference, neon_abdl_u32);
    (32, neon_u32, neon_u32, (Elem 64 false), difference, neon_abdl_u64);
    (32, neon_u8, neon_u8, neon_u16, Z.mul, neon_mull_u8);
    (32, neon_u16, neon_u16, neon_u32, Z.mul, neon_mull_u16);
    (32, neon_s8, neon_s8, neon_s16, difference, neon_abdl_s16);
    (32, neon_s16, neon_s16, neon_s32, difference, neon_abdl_s32);
    (32, neon_s32, neon_s32, (Elem 64 true), difference, neon_abdl_s64);
    (32, neon_s8, neon_s8, neon_s16, Z.mul, neon_mull_s8);
    (32, neon_s16, neon_s16, neon_s32, Z.mul, neon_mull_s16) ].

(** The same with one operand. *)
Definition lane_helpers1 : list (Z * elem * elem * (Z → Z) * (Z → Z)) :=
  [ (32, neon_s8, neon_s8, Z.abs, neon_abs_s8);
    (32, neon_s16, neon_s16, Z.abs, neon_abs_s16);
    (32, neon_u8, neon_u8, (leading_zeros 8), neon_clz_u8);
    (32, neon_u16, neon_u16, (leading_zeros 16), neon_clz_u16);
    (32, neon_s8, neon_s8, (leading_signs 8), neon_cls_s8);
    (32, neon_s16, neon_s16, (leading_signs 16), neon_cls_s16);
    (32, neon_s32, neon_s32, (leading_signs 32), neon_cls_s32);
    (32, neon_u8, neon_u8, popcount, neon_cnt_u8);
    (32, neon_u8, neon_u8, reverse_bits, neon_rbit_u8);
    (64, neon_u16, neon_u8, id, neon_narrow_u8);
    (64, neon_u16, neon_u8, (λ v, v / 2 ^ 8), neon_narrow_high_u8);
    (64, neon_u16, neon_u8, (λ v, (v + 2 ^ 7) / 2 ^ 8), neon_narrow_round_high_u8);
    (32, neon_u8, neon_u16, id, neon_widen_u8);
    (32, neon_s8, neon_u16, id, neon_widen_s8);
    (64, neon_u16, neon_u16, Z.opp, neon_negl_u16);
    (64, neon_u32, neon_u16, id, neon_narrow_u16);
    (64, neon_u32, neon_u16, (λ v, v / 2 ^ 16), neon_narrow_high_u16);
    (64, neon_u32, neon_u16, (λ v, (v + 2 ^ 15) / 2 ^ 16), neon_narrow_round_high_u16);
    (32, neon_u16, neon_u32, id, neon_widen_u16);
    (32, neon_s16, neon_u32, id, neon_widen_s16);
    (64, neon_u32, neon_u32, Z.opp, neon_negl_u32) ].

(** Helpers on neighbours. *)
Definition pair_helpers : list (Z * elem * (Z → Z → Z) * (Z → Z → Z)) :=
  [ (32, neon_u8, Z.add, neon_padd_u8);
    (32, neon_u16, Z.add, neon_padd_u16);
    (32, neon_u8, Z.min, neon_pmin_u8);
    (32, neon_u16, Z.min, neon_pmin_u16);
    (32, neon_s8, Z.min, neon_pmin_s8);
    (32, neon_s16, Z.min, neon_pmin_s16);
    (32, neon_u8, Z.max, neon_pmax_u8);
    (32, neon_u16, Z.max, neon_pmax_u16);
    (32, neon_s8, Z.max, neon_pmax_s8);
    (32, neon_s16, Z.max, neon_pmax_s16);
    (64, neon_u16, Z.add, neon_paddl_u16);
    (64, neon_u32, Z.add, neon_paddl_u32) ].

(** Pairs of helpers, with the size of the elements and the registers that make up a vector. *)
Definition zip_helpers : list (Z * (Z → list Z) * (list Z → Z → Z → option (list Z)) * (list Z → Z → Z → option (list Z))) :=
  [ (8, single, neon_zip8, neon_unzip8); (16, single, neon_zip16, neon_unzip16);
    (8, double, neon_qzip8, neon_qunzip8); (16, double, neon_qzip16, neon_qunzip16); (32, double, neon_qzip32, neon_qunzip32) ].

(** ** Theorems *)

(** C21: Every saturating vector helper (addition and subtraction, also of operands of different
    signedness, shifts by a register with and without rounding, doubling multiplication, absolute
    value, negation, narrowing; elements of 8 to 64 bits) gives, in every element, the value of the
    result type nearest to the exact value, and sets the saturation flag exactly when some element
    has been changed by that; the rest of the status word is kept. *)
Theorem neon_saturating_exact :
  Forall (λ '(size, t1, t2, t, f, op), saturating size t1 t2 t f op) saturating_helpers ∧
  Forall (λ '(size, t1, t, f, op), saturating1 size t1 t f op) saturating_helpers1.
Proof.
  split.
  - repeat apply Forall_cons_2;
    [exact qadd_u8_ok|exact qadd_s8_ok|exact qadd_u16_ok|exact qadd_s16_ok|exact qadd_u32_ok|exact qadd_s32_ok|exact qadd_u64_ok|
    exact qadd_s64_ok|exact qsub_u8_ok|exact qsub_s8_ok|exact qsub_u16_ok|exact qsub_s16_ok|exact qsub_u32_ok|exact qsub_s32_ok|
    exact qsub_u64_ok|exact qsub_s64_ok|exact uqadd_s8_ok|exact sqadd_u8_ok|exact uqadd_s16_ok|exact sqadd_u16_ok|exact uqadd_s32_ok|
    exact sqadd_u32_ok|exact uqadd_s64_ok|exact sqadd_u64_ok|exact neon_qshl_u8_ok|exact neon_qshl_u16_ok|exact neon_qshl_u32_ok|
    exact neon_qshl_u64_ok|exact neon_qshl_s8_ok|exact neon_qshl_s16_ok|exact neon_qshl_s32_ok|exact neon_qshl_s64_ok|
    exact neon_qrshl_u8_ok|exact neon_qrshl_u16_ok|exact neon_qrshl_u32_ok|exact neon_qrshl_u64_ok|exact neon_qrshl_s8_ok|
    exact neon_qrshl_s16_ok|exact neon_qrshl_s32_ok|exact neon_qrshl_s64_ok|exact neon_qshlu_s8_ok|exact neon_qshlu_s16_ok|
    exact neon_qshlu_s32_ok|exact neon_qshlu_s64_ok|exact qdmulh_s16_ok|exact qrdmulh_s16_ok|exact qdmulh_s32_ok|exact qrdmulh_s32_ok|
    exact addl_saturate_s32_ok|exact addl_saturate_s64_ok|apply Forall_nil_2].
  - repeat apply Forall_cons_2;
    [exact qabs_s8_ok|exact qabs_s16_ok|exact qabs_s32_ok|exact qabs_s64_ok|exact qneg_s8_ok|exact qneg_s16_ok|exact qneg_s32_ok|
    exact qneg_s64_ok|exact unarrow_sat8_ok|exact narrow_sat_u8_ok|exact narrow_sat_s8_ok|exact unarrow_sat16_ok|
    exact narrow_sat_u16_ok|exact narrow_sat_s16_ok|exact unarrow_sat32_ok|exact narrow_sat_u32_ok|exact narrow_sat_s32_ok|
    apply Forall_nil_2].
Qed.

(** C24: Every other vector helper computes the function of the table in every element, modulo the
    size of an element of the result: shifts by any amount in a byte, halving sums without a carry,
    comparisons, sums and differences of all the elements by one addition of words, differences and
    products of twice the size, counting and reversal of bits by masks, leading zeros and signs,
    narrowing with rounding; and the helpers on neighbours combine those of the first operand, then
    those of the second. *)
Theorem neon_lanes_exact :
  Forall (λ '(size, t1, t2, t, f, op), lanewise size t1 t2 t f op) lane_helpers ∧
  Forall (λ '(size, t1, t, f, op), lanewise1 size t1 t f op) lane_helpers1 ∧
  Forall (λ '(size, t, f, op), pairwise size t f op) pair_helpers.
Proof.
  split_and!.
  - repeat apply Forall_cons_2;
    [exact neon_shl_u8_ok|exact neon_shl_u16_ok|exact neon_shl_u32_ok|exact neon_shl_u64_ok|exact neon_shl_s8_ok|exact neon_shl_s16_ok|
    exact neon_shl_s32_ok|exact neon_shl_s64_ok|exact neon_rshl_u8_ok|exact neon_rshl_u16_ok|exact neon_rshl_u32_ok|
    exact neon_rshl_u64_ok|exact neon_rshl_s8_ok|exact neon_rshl_s16_ok|exact neon_rshl_s32_ok|exact neon_rshl_s64_ok|by apply hadd_ok|
    by apply hadd_ok|by apply hadd_ok|by apply hadd_ok|exact neon_hadd_u32_ok|exact neon_hadd_s32_ok|by apply rhadd_ok|
    by apply rhadd_ok|by apply rhadd_ok|by apply rhadd_ok|exact neon_rhadd_u32_ok|exact neon_rhadd_s32_ok|by apply hsub_ok|
    by apply hsub_ok|by apply hsub_ok|by apply hsub_ok|exact neon_hsub_u32_ok|exact neon_hsub_s32_ok|by apply vop_ext; [|intros; done]|
    by apply vop_ext; [|intros; done]|by apply vop_ext; [|intros; done]|by apply vop_ext; [|intros; done]|
    by apply vop_ext; [|intros; done]|by apply vop_ext; [|intros; done]|by apply vop_ext; [|intros; done]|
    by apply vop_ext; [|intros; done]|by apply vop_ext; [|intros; done]|by apply vop_ext; [|intros; done]|
    by apply vop_ext; [|intros; done]|by apply vop_ext; [|intros; done]|by apply vop_ext; [|intros; apply min_fn_min]|
    by apply vop_ext; [|intros; apply min_fn_min]|by apply vop_ext; [|intros; apply min_fn_min]|
    by apply vop_ext; [|intros; apply min_fn_min]|by apply vop_ext; [|intros; apply min_fn_min]|
    by apply vop_ext; [|intros; apply min_fn_min]|by apply vop_ext; [|intros; apply max_fn_max]|
    by apply vop_ext; [|intros; apply max_fn_max]|by apply vop_ext; [|intros; apply max_fn_max]|
    by apply vop_ext; [|intros; apply max_fn_max]|by apply vop_ext; [|intros; apply max_fn_max]|
    by apply vop_ext; [|intros; apply max_fn_max]|by apply vop_ext; [|intros; apply abd_difference]|
    by apply vop_ext; [|intros; apply abd_difference]|by apply vop_ext; [|intros; apply abd_difference]|
    by apply vop_ext; [|intros; apply abd_difference]|by apply vop_ext; [|intros; apply abd_difference]|
    by apply vop_ext; [|intros; apply abd_difference]|by apply vop_ext; [|intros; done]|by apply vop_ext; [|intros; done]|
    by apply vop_ext; [|intros; done]|by apply vop_ext; [|intros; done]|by apply vop_ext; [|intros; done]|
    by apply vop_ext; [|intros; done]|by apply vop_ext|by apply vop_ext|by apply vop_ext|by apply vop_ext|exact neon_add_u8_ok|
    exact neon_add_u16_ok|exact neon_addl_u16_ok|exact neon_addl_u32_ok|exact neon_subl_u16_ok|exact neon_subl_u32_ok|
    exact neon_abdl_u16_ok|exact neon_abdl_u32_ok|exact neon_abdl_u64_ok|exact neon_mull_u8_ok|exact neon_mull_u16_ok|
    exact neon_abdl_s16_ok|exact neon_abdl_s32_ok|exact neon_abdl_s64_ok|exact neon_mull_s8_ok|exact neon_mull_s16_ok|
    apply Forall_nil_2].
  - repeat apply Forall_cons_2;
    [apply vop1; [done|]; intros x _; unfold abs_fn; compare; f_equal; lia|
    apply vop1; [done|]; intros x _; unfold abs_fn; compare; f_equal; lia|exact neon_clz_u8_ok|exact neon_clz_u16_ok|
    exact neon_cls_s8_ok|exact neon_cls_s16_ok|exact neon_cls_s32_ok|exact neon_cnt_u8_ok|exact neon_rbit_u8_ok|
    exact neon_narrow_u8_ok|exact neon_narrow_high_u8_ok|exact neon_narrow_round_high_u8_ok|exact neon_widen_u8_ok|
    exact neon_widen_s8_ok|exact neon_negl_u16_ok|exact neon_narrow_u16_ok|exact neon_narrow_high_u16_ok|
    exact neon_narrow_round_high_u16_ok|exact neon_widen_u16_ok|exact neon_widen_s16_ok|exact neon_negl_u32_ok|apply Forall_nil_2].
  - repeat apply Forall_cons_2;
    [by apply pop_ext|by apply pop_ext|apply pop_ext; intros; apply min_fn_min|apply pop_ext; intros; apply min_fn_min|
    apply pop_ext; intros; apply min_fn_min|apply pop_ext; intros; apply min_fn_min|apply pop_ext; intros; apply max_fn_max|
    apply pop_ext; intros; apply max_fn_max|apply pop_ext; intros; apply max_fn_max|apply pop_ext; intros; apply max_fn_max|
    exact neon_paddl_u16_ok|exact neon_paddl_u32_ok|apply Forall_nil_2].
Qed.

(** C38: The loops that multiply polynomials end within eight rounds and give, in every element, the
    carry-less product: its low byte, or all its bits in a halfword; and the two helpers on double
    words give the low and the high half of one product of 128 bits. *)
Theorem neon_polynomials_exact a b c d :
  0 ≤ a < 2 ^ 32 → 0 ≤ b < 2 ^ 32 → 0 ≤ c < 2 ^ 64 → 0 ≤ d < 2 ^ 64 →
  neon_mul_p8 a b = Some (NEON_PACK neon_u8 (zip_with (clmul 8) (elems 32 neon_u8 a) (elems 32 neon_u8 b))) ∧
  neon_mull_p8 a b = Some (NEON_PACK neon_u16 (zip_with (clmul 8) (elems 32 neon_u8 a) (elems 32 neon_u8 b))) ∧
  neon_pmull_64_lo c d + neon_pmull_64_hi c d * 2 ^ 64 = clmul 64 c d.
Proof.
  intros Ha Hb Hc Hd. split_and!; [by apply neon_mul_p8_ok|by apply neon_mull_p8_ok|]. rewrite neon_pmull_64_lo_ok, neon_pmull_64_hi_ok by done.
  rewrite Z.shiftr_div_pow2 by done. unfold wrap. pose proof (Z.div_mod (clmul 64 c d) (2 ^ 64) ltac:(done)). lia.
Qed.

Lemma neon_polynomials_exact_witness :
  neon_mul_p8 0x12345678 0x9abcdef0 = Some (NEON_PACK neon_u8 (zip_with (clmul 8) [0x78; 0x56; 0x34; 0x12] [0xf0; 0xde; 0xbc; 0x9a])) ∧
  neon_pmull_64_lo 3 (2 ^ 63) + neon_pmull_64_hi 3 (2 ^ 63) * 2 ^ 64 = 3 * 2 ^ 63.
Proof.
  destruct (neon_polynomials_exact 0x12345678 0x9abcdef0 3 (2 ^ 63)) as (H1 & _ & H3); [done..|].
  exact (conj H1 H3).
Defined.

(** C39: Zipping two vectors of one or of two registers puts their elements in turn into both, the
    first vector first, and unzipping takes them apart, so that zipping the result gives back what
    was there; registers that do not belong to the vectors are kept, and no access leaves the
    register file. *)
Theorem neon_zip_exact : Forall (λ '(w, span, zip, unzip), zips w span zip ∧ unzips w span unzip) zip_helpers.
Proof.
  repeat apply Forall_cons_2; [exact (conj neon_zip8_ok neon_unzip8_ok)|exact (conj neon_zip16_ok neon_unzip16_ok)|exact (conj neon_qzip8_ok neon_qunzip8_ok)
    |exact (conj neon_qzip16_ok neon_qunzip16_ok)|exact (conj neon_qzip32_ok neon_qunzip32_ok)|apply Forall_nil_2].
Qed.

(** ** Examples *)

Example qadd_saturates : neon_qadd_s8 0 0x7f017f80 0x010201ff = (0x7f037f80, CPSR_Q).
Proof. done. Qed.
Example zip_registers : neon_zip8 [0x0706050403020100; 0; 0x1716151413121110] 0 2 = Some [0x1303120211011000; 0; 0x1707160615051404].
Proof. by vm_compute. Qed.
