(* ===== verification/GuestTheorems.v ===== *)
(** What the integer helpers of the guest CPU compute. *)

From Stdlib Require Import ZArith Lia.
From stdpp Require Import base tactics numbers option list list_numbers.
From S2P Require Import Prelude Bits Neon NeonLanes NeonSat NeonShift NeonSwar GuestArith.

(** ** Saturation *)

(** The value limited to a range, and the sticky flag: set when the value was outside. *)
Definition clamp (low high v : Z) : Z := Z.max low (Z.min high v).
Definition sticky (low high v QF : Z) : Z := if (low <=? v) && (v <=? high) then QF else 1.

Abbreviation imin := (- 2 ^ 31).
Abbreviation imax := (2 ^ 31 - 1).
Abbreviation umax := (2 ^ 32 - 1).

Ltac operands := unfold clamp, sticky, conv; signs 32; change (32 - 1) with 31.

Section Saturation.
Variables QF a b : Z.
Hypotheses (Ha : 0 ≤ a < 2 ^ 32) (Hb : 0 ≤ b < 2 ^ 32).

Lemma add_setq_exact : add_setq QF a b = (wrap 32 (a + b), sticky imin imax (s32 a + s32 b) QF).
Proof using Ha Hb. unfold add_setq. operands. finish. Qed.
Lemma add_saturate_exact : add_saturate QF a b = (wrap 32 (clamp imin imax (s32 a + s32 b)), sticky imin imax (s32 a + s32 b) QF).
Proof using Ha Hb. unfold add_saturate. destruct (sat_by_sign32 a Ha) as [-> _]. operands. finish. Qed.
Lemma sub_saturate_exact : sub_saturate QF a b = (wrap 32 (clamp imin imax (s32 a - s32 b)), sticky imin imax (s32 a - s32 b) QF).
Proof using Ha Hb. unfold sub_saturate. destruct (sat_by_sign32 a Ha) as [-> _]. operands. finish. Qed.
Lemma add_usaturate_exact : add_usaturate QF a b = (clamp 0 umax (a + b), sticky 0 umax (a + b) QF).
Proof using Ha Hb. unfold add_usaturate. change (not32 0) with umax. operands. finish. Qed.
Lemma sub_usaturate_exact : sub_usaturate QF a b = (clamp 0 umax (a - b), sticky 0 umax (a - b) QF).
Proof using Ha Hb. unfold sub_usaturate. operands. finish. Qed.
End Saturation.

(** The flag is also set for the smallest value, which the double of [- 2 ^ 30] still is. *)
Lemma double_saturate_exact QF v : imin ≤ v ≤ imax → double_saturate QF v = (wrap 32 (clamp imin imax (2 * v)), sticky (imin + 1) imax (2 * v) QF).
Proof.
  intros Hv. unfold double_saturate, clamp, sticky, u32. rewrite Z.shiftl_mul_pow2 by done. change (2 ^ 1) with 2. change (s32 0xc0000000) with (- 2 ^ 30).
  change (not32 SIGNBIT) with imax. change SIGNBIT with (2 ^ 31). rewrite !wrap_cases by lia. finish.
Qed.

(** Saturation to [n] bits, signed with [n] bits below the sign, or unsigned. *)
Lemma power_32 n : 0 ≤ n ≤ 31 → u32 (u32 (1 .<< n) - 1) = 2 ^ n - 1 ∧ 0 < 2 ^ n ≤ 2 ^ 31.
Proof.
  intros Hn. pose proof (Z.pow_le_mono_r 2 n 31 ltac:(lia) ltac:(lia)). pose proof (Z.pow_pos_nonneg 2 n ltac:(lia) ltac:(lia)).
  rewrite Z.shiftl_1_l. unfold u32. rewrite (wrap_small 32 (2 ^ n)) by lia. rewrite wrap_small by lia. done.
Qed.

Lemma do_ssat_exact QF v n : 0 ≤ n ≤ 31 → imin ≤ v ≤ imax →
  do_ssat QF v n = (wrap 32 (clamp (- 2 ^ n) (2 ^ n - 1) v), sticky (- 2 ^ n) (2 ^ n - 1) v QF).
Proof.
  intros Hn Hv. destruct (power_32 n Hn) as [E Hp]. unfold do_ssat. cbv zeta. rewrite E. rewrite Z.shiftr_div_pow2 by lia. unfold clamp, sticky, not32, Z.lnot, u32.
  pose proof (Z.div_mod v (2 ^ n) ltac:(lia)). pose proof (Z.mod_pos_bound v (2 ^ n) ltac:(lia)).
  destruct (Z.ltb_spec 0 (v / 2 ^ n)); [|destruct (Z.ltb_spec (v / 2 ^ n) (-1))].
  - assert (2 ^ n ≤ v) by nia. rewrite !wrap_cases by lia. compare; try lia. f_equal; lia.
  - assert (v < - 2 ^ n) by nia. rewrite !wrap_cases by lia. compare; try lia; f_equal; lia.
  - assert (- 2 ^ n ≤ v < 2 ^ n) by nia. rewrite !wrap_cases by lia. compare; try lia; f_equal; lia.
Qed.

Lemma do_usat_exact QF v n : 0 ≤ n ≤ 31 → imin ≤ v ≤ imax → do_usat QF v n = (clamp 0 (2 ^ n - 1) v, sticky 0 (2 ^ n - 1) v QF).
Proof.
  intros Hn Hv. destruct (power_32 n Hn) as [E Hp]. unfold do_usat. cbv zeta. rewrite E. unfold clamp, sticky, u32. rewrite !wrap_cases by lia. compare; try lia; f_equal; lia.
Qed.

Lemma s32_range x : imin ≤ s32 x ≤ imax.
Proof. pose proof (swrap_range 32 x ltac:(done)). unfold s32. change (2 ^ (32 - 1)) with (2 ^ 31) in *. lia. Qed.

(** Both halfwords. *)
Definition halves (f : Z → Z) (x : Z) : Z := NEON_PACK neon_u16 (f <$> elems 32 neon_s16 x).

Lemma high_half_s x : s32 x .>> 16 = s16 (x .>> 16).
Proof.
  unfold s32, s16, swrap. rewrite !Z.shiftr_div_pow2 by done. change (2 ^ (32 - 1)) with (2 ^ 31). change (2 ^ (16 - 1)) with (2 ^ 15).
  Z.to_euclidean_division_equations. lia.
Qed.

Lemma halves_2 (f : Z → Z) x : halves f x = wrap 16 (f (s16 x)) .| (wrap 16 (f (s16 (x .>> 16))) .<< 16).
Proof. unfold halves. rewrite (elems_2 true). cbn [fmap list_fmap]. by rewrite Z.shiftr_0_r, (fields_2 16 false). Qed.

Lemma join_halves l h : u16 (wrap 32 l) .| u32 (wrap 32 h .<< 16) = wrap 16 l .| (wrap 16 h .<< 16).
Proof.
  unfold u16, u32. rewrite wrap_narrow by done. f_equal. apply Z.bits_inj'. intros n Hn. unfold wrap. destruct (Z.ltb_spec n 32).
  - rewrite Z.mod_pow2_bits_low, !Z.shiftl_spec by done. destruct (Z.ltb_spec n 16); [by rewrite !(Z.testbit_neg_r _ (n - 16)) by lia|].
    by rewrite !Z.mod_pow2_bits_low by lia.
  - by rewrite Z.mod_pow2_bits_high, Z.shiftl_spec, Z.mod_pow2_bits_high by lia.
Qed.

(** The flag, when several values are saturated one after the other. *)
Definition sticky_all (low high : Z) (vs : list Z) (QF : Z) : Z := foldl (λ QF v, sticky low high v QF) QF vs.

Lemma s16_range x : imin ≤ s16 x ≤ imax.
Proof. pose proof (swrap_range 16 x ltac:(done)). unfold s16. change (2 ^ (16 - 1)) with (2 ^ 15) in *. lia. Qed.

Lemma ssat16_exact QF x n : 0 ≤ n ≤ 31 →
  ssat16 QF x n = (halves (clamp (- 2 ^ n) (2 ^ n - 1)) x, sticky_all (- 2 ^ n) (2 ^ n - 1) (elems 32 neon_s16 x) QF).
Proof.
  intros Hn. unfold ssat16. rewrite high_half_s, do_ssat_exact by (done || apply s16_range). cbv iota beta. rewrite do_ssat_exact by (done || apply s16_range).
  cbv iota beta. rewrite join_halves, halves_2, (elems_2 true), Z.shiftr_0_r. done.
Qed.
Lemma usat16_exact QF x n : 0 ≤ n ≤ 31 →
  usat16 QF x n = (halves (clamp 0 (2 ^ n - 1)) x, sticky_all 0 (2 ^ n - 1) (elems 32 neon_s16 x) QF).
Proof.
  intros Hn. unfold usat16. rewrite high_half_s, do_usat_exact by (done || apply s16_range). cbv iota beta. rewrite do_usat_exact by (done || apply s16_range).
  cbv iota beta. rewrite halves_2, (elems_2 true), Z.shiftr_0_r. rewrite <- join_halves. destruct (power_32 n Hn) as [_ Hp].
  rewrite (wrap_small 32 (clamp 0 (2 ^ n - 1) (s16 x))), (wrap_small 32 (clamp 0 (2 ^ n - 1) (s16 (x .>> 16)))) by (unfold clamp; lia). done.
Qed.

(** C36: The saturating helpers of the guest CPU give the exact value limited to the range of the
    instruction and set the flag Q exactly when the value was outside of it, leaving it alone
    otherwise: addition and subtraction, signed and unsigned, and saturation to a number of bits, of
    a word or of both its halfwords; doubling gives the right value but also sets Q when the double
    is the smallest value without being saturated to it. *)
Theorem guest_saturation_exact QF a b n :
  0 ≤ a < 2 ^ 32 → 0 ≤ b < 2 ^ 32 → 0 ≤ n ≤ 31 →
  add_setq QF a b = (wrap 32 (a + b), sticky imin imax (s32 a + s32 b) QF) ∧
  add_saturate QF a b = (wrap 32 (clamp imin imax (s32 a + s32 b)), sticky imin imax (s32 a + s32 b) QF) ∧
  sub_saturate QF a b = (wrap 32 (clamp imin imax (s32 a - s32 b)), sticky imin imax (s32 a - s32 b) QF) ∧
  double_saturate QF (s32 a) = (wrap 32 (clamp imin imax (2 * s32 a)), sticky (imin + 1) imax (2 * s32 a) QF) ∧
  add_usaturate QF a b = (clamp 0 umax (a + b), sticky 0 umax (a + b) QF) ∧
  sub_usaturate QF a b = (clamp 0 umax (a - b), sticky 0 umax (a - b) QF) ∧
  ssat QF a n = (wrap 32 (clamp (- 2 ^ n) (2 ^ n - 1) (s32 a)), sticky (- 2 ^ n) (2 ^ n - 1) (s32 a) QF) ∧
  usat QF a n = (clamp 0 (2 ^ n - 1) (s32 a), sticky 0 (2 ^ n - 1) (s32 a) QF) ∧
  ssat16 QF a n = (halves (clamp (- 2 ^ n) (2 ^ n - 1)) a, sticky_all (- 2 ^ n) (2 ^ n - 1) (elems 32 neon_s16 a) QF) ∧
  usat16 QF a n = (halves (clamp 0 (2 ^ n - 1)) a, sticky_all 0 (2 ^ n - 1) (elems 32 neon_s16 a) QF).
Proof.
  intros Ha Hb Hn. pose proof (s32_range a).
  split_and!; [by apply add_setq_exact|by apply add_saturate_exact|by apply sub_saturate_exact|by apply double_saturate_exact|by apply add_usaturate_exact
    |by apply sub_usaturate_exact|by apply do_ssat_exact|by apply do_usat_exact|by apply ssat16_exact|by apply usat16_exact].
Qed.

Lemma guest_saturation_exact_witness :
  add_saturate 0 0x7fffffff 1 = (0x7fffffff, 1) ∧ double_saturate 0 (s32 0xc0000000) = (0x80000000, 1) ∧ ssat16 0 0x7fff8000 7 = (0x007fff80, 1).
Proof.
  destruct (guest_saturation_exact 0 0x7fffffff 1 7) as (_ & H1 & _); [done..|]. destruct (guest_saturation_exact 0 0xc0000000 1 7) as (_ & _ & _ & H2 & _); [done..|].
  destruct (guest_saturation_exact 0 0x7fff8000 1 7) as (_ & _ & _ & _ & _ & _ & _ & _ & H3 & _); [done..|]. exact (conj H1 (conj H2 H3)).
Defined.

(** ** Shifts by a register *)

Lemma bit_of x k : 0 ≤ k → (x .>> k) .& 1 = Z.b2z (Z.testbit x k).
Proof. intros Hk. change 1 with (Z.ones 1). rewrite Z.land_ones by done. change (2 ^ 1) with 2. by rewrite <- Z.bit0_mod, Z.shiftr_spec, Z.add_0_l by done. Qed.

(** The word after itself, shifted. *)
Definition rotate (x n : Z) : Z := wrap 32 ((x + x * 2 ^ 32) .>> (n mod 32)).

Section Shifts.
Variables (CF x i : Z).
Hypotheses (Hx : 0 ≤ x < 2 ^ 32) (Hi : 0 ≤ i).
Abbreviation n := (i mod 2 ^ 8).

Lemma amount : i .& 0xff = n ∧ 0 ≤ n < 2 ^ 8.
Proof using Hi. split; [by apply (Z.land_ones i 8)|by apply Z.mod_pos_bound]. Qed.

Lemma shl_cc_exact : n ≠ 0 → shl_cc CF x i = (wrap 32 (x .<< n), Z.b2z (Z.testbit (x .<< n) 32)).
Proof using Hx Hi.
  intros H0. destruct amount as [E Hn]. unfold shl_cc. rewrite E. clear E. revert H0 Hn. generalize (i mod 2 ^ 8). intros n H0 Hn. rewrite Z.shiftl_spec by done.
  destruct (Z.leb_spec 32 n).
  - rewrite Z.shiftl_mul_pow2, left_out by lia. f_equal. destruct (Z.eqb_spec n 32) as [->|].
    + exact (bit_of x 0 ltac:(done)).
    + by rewrite Z.testbit_neg_r by lia.
  - destruct (Z.eqb_spec n 0); [done|]. cbn [negb]. by rewrite bit_of by lia.
Qed.

Lemma shr_cc_exact : n ≠ 0 → shr_cc CF x i = (x .>> n, Z.b2z (Z.testbit x (n - 1))).
Proof using Hx Hi.
  intros H0. destruct amount as [E Hn]. unfold shr_cc. rewrite E. clear E. revert H0 Hn. generalize (i mod 2 ^ 8). intros n H0 Hn. destruct (Z.leb_spec 32 n).
  - rewrite (Z.shiftr_div_pow2 x n), Z.div_small by (lia || (pose proof (Z.pow_le_mono_r 2 32 n ltac:(lia) ltac:(lia)); lia)). f_equal.
    destruct (Z.eqb_spec n 32) as [->|]; [by apply bit_of|]. by rewrite (bit_above 32) by lia.
  - destruct (Z.eqb_spec n 0); [done|]. cbn [negb]. by rewrite bit_of by lia.
Qed.

Lemma sar_cc_exact : n ≠ 0 → sar_cc CF x i = (wrap 32 (s32 x .>> n), Z.b2z (Z.testbit (s32 x) (n - 1))).
Proof using Hx Hi.
  intros H0. destruct amount as [E Hn]. unfold sar_cc. rewrite E. clear E. revert H0 Hn. generalize (i mod 2 ^ 8). intros n H0 Hn.
  pose proof (s32_range x) as Hs. assert (∀ k, 0 ≤ k < 32 → Z.testbit (s32 x) k = Z.testbit x k) as Hb.
  { intros k Hk. unfold s32. rewrite <- (Z.mod_pow2_bits_low _ 32 k), <- (Z.mod_pow2_bits_low x 32 k) by lia. f_equal. by apply (wrap_swrap 32). }
  destruct (Z.leb_spec 32 n).
  - assert (∀ k, 31 ≤ k → s32 x .>> k = if s32 x <? 0 then -1 else 0) as Hk.
    { intros k Hk. rewrite Z.shiftr_div_pow2 by lia. apply (div_sign _ _ (2 ^ 31)); [lia|]. apply Z.pow_le_mono_r; lia. }
    rewrite !Hk, bit_of by lia. rewrite <- (Hb 31) by lia. f_equal. f_equal.
    rewrite <- (Z.add_0_l 31), <- (Z.shiftr_spec (s32 x) 31), Hk by lia. replace (n - 1) with (0 + (n - 1)) by lia. by rewrite <- (Z.shiftr_spec (s32 x) (n - 1)), Hk by lia.
  - destruct (Z.eqb_spec n 0); [done|]. cbn [negb]. by rewrite bit_of, Hb by lia.
Qed.

Lemma ror_cc_exact : n ≠ 0 → ror_cc CF x i = (rotate x n, Z.b2z (Z.testbit (rotate x n) 31)).
Proof using Hx Hi.
  intros H0. destruct amount as [E Hn]. unfold ror_cc. rewrite E. clear E. revert H0 Hn. generalize (i mod 2 ^ 8). intros n H0 Hn. cbv zeta.
  assert (n .& 0x1f = n mod 32) as -> by (apply (Z.land_ones n 5); done). pose proof (Z.mod_pos_bound n 32 ltac:(done)) as Hm.
  assert (∀ k, 0 ≤ k < 32 → Z.testbit (rotate x n) k = if k + n mod 32 <? 32 then Z.testbit x (k + n mod 32) else Z.testbit x (k + n mod 32 - 32)) as Hb.
  { intros k Hk. unfold rotate, wrap. rewrite Z.mod_pow2_bits_low, Z.shiftr_spec by lia. rewrite <- (shiftl_lor 32) by lia. rewrite Z.lor_spec, Z.shiftl_spec by lia.
    destruct (Z.ltb_spec (k + n mod 32) 32); [by rewrite (Z.testbit_neg_r x (_ - 32)), orb_false_r by lia|by rewrite (bit_above 32 x) by lia]. }
  rewrite Hb by lia. destruct (Z.eqb_spec (n mod 32) 0) as [E0|].
  - rewrite E0. destruct (Z.eqb_spec n 0); [done|]. cbn [negb]. rewrite bit_of by done. unfold rotate. rewrite E0, Z.shiftr_0_r. unfold wrap. rewrite Z_mod_plus_full, Z.mod_small by done. done.
  - destruct (Z.ltb_spec (31 + n mod 32) 32); [lia|]. rewrite bit_of by lia. f_equal; [|do 2 f_equal; lia]. apply Z.bits_inj'. intros k Hk.
    destruct (Z.ltb_spec k 32).
    + rewrite Hb, Z.lor_spec, Z.shiftr_spec by lia. unfold u32, wrap. rewrite Z.mod_pow2_bits_low, Z.shiftl_spec by lia. destruct (Z.ltb_spec (k + n mod 32) 32).
      * by rewrite (Z.testbit_neg_r x (_ - _)), orb_false_r by lia.
      * rewrite (bit_above 32 x) by lia. cbn [orb]. f_equal. lia.
    + unfold rotate, u32. rewrite Z.lor_spec, !(bit_above 32) by (lia || (apply wrap_range; lia) || (apply shiftr_small; lia)). done.
Qed.
End Shifts.

(** C37: Shifts by a register use the low byte of the amount. An amount of zero keeps the value and the
    carry; with any other, also 32 and more, the value is shifted or rotated by all of it and the
    carry is the last bit moved out. *)
Theorem guest_shifts_exact CF x i :
  0 ≤ x < 2 ^ 32 → 0 ≤ i →
  let n := i mod 2 ^ 8 in
  (n = 0 → shl_cc CF x i = (x, CF) ∧ shr_cc CF x i = (x, CF) ∧ sar_cc CF x i = (x, CF) ∧ ror_cc CF x i = (x, CF)) ∧
  (n ≠ 0 →
    shl_cc CF x i = (wrap 32 (x .<< n), Z.b2z (Z.testbit (x .<< n) 32)) ∧
    shr_cc CF x i = (x .>> n, Z.b2z (Z.testbit x (n - 1))) ∧
    sar_cc CF x i = (wrap 32 (s32 x .>> n), Z.b2z (Z.testbit (s32 x) (n - 1))) ∧
    ror_cc CF x i = (rotate x n, Z.b2z (Z.testbit (rotate x n) 31))).
Proof.
  intros Hx Hi n. split; intros Hn.
  - destruct (amount i Hi) as [E _]. unfold shl_cc, shr_cc, sar_cc, ror_cc. rewrite E. change (i mod 2 ^ 8) with n. by rewrite Hn.
  - split_and!; [by apply shl_cc_exact|by apply shr_cc_exact|by apply sar_cc_exact|by apply ror_cc_exact].
Qed.

Lemma guest_shifts_exact_witness : shl_cc 0 1 0x120 = (0, 1) ∧ ror_cc 0 0x80000001 33 = (0xc0000000, 1).
Proof.
  destruct (guest_shifts_exact 0 1 0x120) as [_ H1]; [done..|]. destruct (guest_shifts_exact 0 0x80000001 33) as [_ H2]; [done..|].
  destruct (H1 ltac:(done)) as (E1 & _). destruct (H2 ltac:(done)) as (_ & _ & _ & E2). exact (conj E1 E2).
Defined.

(** ** Bytes and bits *)

Lemma bytes_4 x : 0 ≤ x < 2 ^ 32 → ∃ a b c d, x = bytes [a; b; c; d] ∧ elems 32 neon_u8 x = [a; b; c; d] ∧ Forall in_byte [a; b; c; d].
Proof. intros Hx. destruct (as_bytes x Hx) as ([|a [|b [|c [|d []]]]] & E & El & Hl & Hb); try done. by exists a, b, c, d. Qed.

Lemma elems_bytes l : length l = 4%nat → Forall in_byte l → elems 32 neon_u8 (bytes l) = l.
Proof.
  intros Hl Hb. change 32 with (esize neon_u8 * 4). rewrite (elems_pack 4) by (done || by rewrite Hl). clear Hl. induction Hb as [|v l Hv Hl IH]; [done|].
  rewrite fmap_cons, IH. f_equal. by apply (wrap_small 8).
Qed.

(** The order of the bytes is reversed, then the bits of each. *)
Lemma rbit_exact x : 0 ≤ x < 2 ^ 32 → rbit x = NEON_PACK neon_u8 (reverse (reverse_bits <$> elems 32 neon_u8 x)).
Proof.
  intros Hx. assert (rbit x = neon_rbit_u8 (NEON_PACK neon_u8 (reverse (elems 32 neon_u8 x)))) as ->.
  { unfold rbit, neon_rbit_u8. cbv zeta.
    assert (((x .& 0xff000000) .>> 24) .| ((x .& 0x00ff0000) .>> 8) .| ((x .& 0x0000ff00) .<< 8) .| ((x .& 0x000000ff) .<< 24)
      = NEON_PACK neon_u8 (reverse (elems 32 neon_u8 x))) as ->; [|done].
    rewrite (elems_4 false). change 0x000000ff with (Z.ones 8 .<< 0). change 0x0000ff00 with (Z.ones 8 .<< 8). change 0x00ff0000 with (Z.ones 8 .<< 16).
    change 0xff000000 with (Z.ones 8 .<< 24). rewrite !field_at by done. rewrite (Z.shiftr_shiftl_r _ 24), (Z.shiftr_shiftl_l _ 16), !Z.shiftl_shiftl by done.
    rewrite Z.shiftr_0_r. symmetry. etransitivity; [symmetry; apply (fields_4 8 false); done|]. unfold conv. cbn [signed esize]. rewrite !wrap_wrap. done. }
  rewrite neon_rbit_u8_ok; [|split; [by apply pack_range|]; apply (narrow_range false); by rewrite (elems_4 false)]. f_equal.
  destruct (as_bytes x Hx) as (xs & _ & -> & Hl & Hb). rewrite elems_bytes by (by rewrite ?length_reverse || by apply Forall_reverse). by rewrite fmap_reverse.
Qed.

(** The sum of the differences of the bytes. *)
Lemma usad8_exact a b : usad8 a b = foldr Z.add 0 (zip_with difference (elems 32 neon_u8 a) (elems 32 neon_u8 b)).
Proof.
  rewrite !(elems_4 false). unfold usad8, do_usad, difference, conv. cbn [zip_with foldr signed esize]. rewrite !Z.shiftr_0_r. unfold u8, u32.
  pose proof (λ v, wrap_range 8 v ltac:(done)) as R.
  pose proof (R a). pose proof (R (a .>> 8)). pose proof (R (a .>> 16)). pose proof (R (a .>> 24)).
  pose proof (R b). pose proof (R (b .>> 8)). pose proof (R (b .>> 16)). pose proof (R (b .>> 24)).
  rewrite wrap_small; compare; lia.
Qed.

(** Every byte comes from the operand its flag names. *)
Definition byte_mask (b : bool) : Z := if b then 0xff else 0.

Lemma sel_mask flags :
  let mask := if negb (flags .& 1 =? 0) then 0xff else 0 in
  let mask := if negb (flags .& 2 =? 0) then mask .| 0xff00 else mask in
  let mask := if negb (flags .& 4 =? 0) then mask .| 0xff0000 else mask in
  let mask := if negb (flags .& 8 =? 0) then mask .| 0xff000000 else mask in
  mask = bytes (byte_mask ∘ Z.testbit flags <$> seqZ 0 4) ∧ not32 mask = bytes (byte_mask ∘ negb ∘ Z.testbit flags <$> seqZ 0 4).
Proof.
  pose proof (λ k, mask_bit flags k) as E. pose proof (E 0 ltac:(done)) as E0. pose proof (E 1 ltac:(done)) as E1. pose proof (E 2 ltac:(done)) as E2.
  pose proof (E 3 ltac:(done)) as E3. change (1 .<< 0) with 1 in E0. change (1 .<< 1) with 2 in E1. change (1 .<< 2) with 4 in E2. change (1 .<< 3) with 8 in E3. cbv zeta.
  rewrite E0, E1, E2, E3. change (seqZ 0 4) with [0; 1; 2; 3]. cbn [fmap list_fmap]. unfold compose.
  by destruct (Z.testbit flags 0), (Z.testbit flags 1), (Z.testbit flags 2), (Z.testbit flags 3).
Qed.

Lemma choose_byte (c : bool) x y : in_byte x → in_byte y → (x .& byte_mask c) .| (y .& byte_mask (negb c)) = if c then x else y.
Proof.
  intros Hx Hy. change 0xff with (Z.ones 8). destruct c; cbn [negb byte_mask]; rewrite Z.land_0_r, ?Z.lor_0_r, ?Z.lor_0_l; change 0xff with (Z.ones 8);
    rewrite Z.land_ones by done; by apply Z.mod_small.
Qed.

Definition choose (flags i : Z) (p : Z * Z) : Z := if Z.testbit flags i then p.1 else p.2.

Lemma sel_flags_exact flags a b : 0 ≤ a < 2 ^ 32 → 0 ≤ b < 2 ^ 32 →
  sel_flags flags a b = NEON_PACK neon_u8 (zip_with (choose flags) (seqZ 0 4) (zip (elems 32 neon_u8 a) (elems 32 neon_u8 b))).
Proof.
  intros Ha Hb. destruct (bytes_4 a Ha) as (a0 & a1 & a2 & a3 & -> & -> & Fa). destruct (bytes_4 b Hb) as (b0 & b1 & b2 & b3 & -> & -> & Fb). clear Ha Hb.
  repeat (apply Forall_cons in Fa as [? Fa]). repeat (apply Forall_cons in Fb as [? Fb]). unfold sel_flags. destruct (sel_mask flags) as [-> ->].
  change (seqZ 0 4) with [0; 1; 2; 3]. cbn [fmap list_fmap]. unfold compose. rewrite !pack_land, pack_lor by done. cbn [zip_with]. by rewrite !choose_byte.
Qed.

(** A byte of the table, or of the default when the index is outside. *)
Definition table_byte (regs : list Z) (rn maxindex index d : Z) : Z :=
  if index <? maxindex then default 0 (elems 64 neon_u8 (default 0 (arr_get regs (rn + index / 8))) !! Z.to_nat (index mod 8)) else d.

Lemma elems_lookup size t v i : 0 < esize t → 0 ≤ i < size / esize t → elems size t v !! Z.to_nat i = Some (conv t (v .>> (esize t * i))).
Proof. intros Ht Hi. unfold elems. rewrite list_lookup_fmap, lookup_seqZ_lt by lia. cbn [fmap option_fmap option_map]. by rewrite Z.add_0_l, Z2Nat.id by lia. Qed.

Lemma byte_shifted v s : 0 ≤ s ≤ 24 → 0 ≤ v < 2 ^ 8 → u32 (v .<< s) = v .<< s.
Proof.
  intros Hs Hv. apply wrap_small. rewrite Z.shiftl_mul_pow2 by lia. pose proof (Z.pow_le_mono_r 2 s 24 ltac:(lia) ltac:(lia)). pose proof (Z.pow_pos_nonneg 2 s ltac:(lia) ltac:(lia)). nia.
Qed.

Section Table.
Variables (regs : list Z) (rn maxindex : Z).
Hypotheses (Hrn : 0 ≤ rn) (Hregs : ∀ i, 0 ≤ i < maxindex → rn + i / 8 < Z.of_nat (length regs)).

Lemma tbl_byte_exact ireg def s val : 0 ≤ s ≤ 24 →
  tbl_byte regs ireg def rn maxindex s val = Some (val .| (wrap 8 (table_byte regs rn maxindex (wrap 8 (ireg .>> s)) (wrap 8 (def .>> s))) .<< s)).
Proof using Hrn Hregs.
  intros Hs. unfold tbl_byte, table_byte. change 0xff with (Z.ones 8). rewrite (Z.land_ones (ireg .>> s)) by done. change (_ mod 2 ^ 8) with (wrap 8 (ireg .>> s)).
  pose proof (wrap_range 8 (ireg .>> s) ltac:(done)) as Hi. generalize dependent (wrap 8 (ireg .>> s)). intros i Hi. cbv zeta. destruct (Z.ltb_spec i maxindex).
  - rewrite Z.shiftr_div_pow2 by done. change (2 ^ 3) with 8. destruct (arr_get_is_Some regs (rn + i / 8)) as [d ->].
    { split; [|apply Hregs; lia]. pose proof (Z.div_pos i 8). lia. }
    cbn [mbind option_bind default]. pose proof (Z.mod_pos_bound i 8 ltac:(done)). rewrite elems_lookup by (done || cbn [esize neon_u8]; change (64 / 8) with 8; lia).
    cbn [default]. change 7 with (Z.ones 3). rewrite !Z.land_ones, (Z.shiftl_mul_pow2 _ 3) by done. change (2 ^ 3) with 8. rewrite (Z.mul_comm (i mod 8) 8).
    rewrite byte_shifted by (done || by apply (wrap_range 8)). unfold conv. cbn [signed esize neon_u8]. unfold id. by rewrite wrap_wrap.
  - rewrite wrap_wrap. do 2 f_equal. assert (u32 (Z.ones 8 .<< s) = Z.ones 8 .<< s) as -> by (by apply byte_shifted). apply field_at; lia.
Qed.

Lemma neon_tbl_exact ireg def :
  neon_tbl regs ireg def rn maxindex = Some (NEON_PACK neon_u8 (zip_with (table_byte regs rn maxindex) (elems 32 neon_u8 ireg) (elems 32 neon_u8 def))).
Proof using Hrn Hregs.
  unfold neon_tbl. rewrite tbl_byte_exact by done. cbn [mbind option_bind]. rewrite tbl_byte_exact by done. cbn [mbind option_bind].
  rewrite tbl_byte_exact by done. cbn [mbind option_bind]. rewrite tbl_byte_exact by done. rewrite !(elems_4 false). cbn [zip_with].
  rewrite Z.lor_0_l, (Z.shiftl_0_r (wrap 8 _)). f_equal. exact (fields_4 8 false _ _ _ _ ltac:(done)).
Qed.
End Table.

(** C40: The helpers on bytes and bits: reversing a word reverses its bytes and the bits of each; the
    sum of absolute differences adds those of the four bytes; selection takes every byte from the
    operand that its flag GE names; a table lookup gives, for every index, the byte of the table of
    registers or, when the index is not below the limit, that of the default, and reads no other
    register. *)
Theorem guest_bytes_exact flags a b regs rn maxindex :
  0 ≤ a < 2 ^ 32 → 0 ≤ b < 2 ^ 32 → 0 ≤ rn → (∀ i, 0 ≤ i < maxindex → rn + i / 8 < Z.of_nat (length regs)) →
  rbit a = NEON_PACK neon_u8 (reverse (reverse_bits <$> elems 32 neon_u8 a)) ∧
  usad8 a b = foldr Z.add 0 (zip_with difference (elems 32 neon_u8 a) (elems 32 neon_u8 b)) ∧
  sel_flags flags a b = NEON_PACK neon_u8 (zip_with (choose flags) (seqZ 0 4) (zip (elems 32 neon_u8 a) (elems 32 neon_u8 b))) ∧
  neon_tbl regs a b rn maxindex = Some (NEON_PACK neon_u8 (zip_with (table_byte regs rn maxindex) (elems 32 neon_u8 a) (elems 32 neon_u8 b))).
Proof. intros Ha Hb Hrn Hregs. split_and!; [by apply rbit_exact|by apply usad8_exact|by apply sel_flags_exact|by apply neon_tbl_exact]. Qed.

Lemma guest_bytes_exact_witness :
  rbit 0x00000001 = 0x80000000 ∧ neon_tbl [0; 0x1716151413121110] 0x08010007 0xaabbccdd 1 8 = Some 0xaa111017.
Proof.
  destruct (guest_bytes_exact 0 1 0 [] 0 0) as (H1 & _); [done..|intros i Hi; lia|].
  destruct (guest_bytes_exact 0 0x08010007 0xaabbccdd [0; 0x1716151413121110] 1 8) as (_ & _ & _ & H2); [done..| |exact (conj H1 H2)].
  intros i Hi. rewrite Z.div_small by lia. done.
Defined.
