(* ===== verification/GuestSimd.v ===== *)
(** The parallel additions and subtractions of the guest CPU: six families of macros, each included
    by the same six operations, compared with one description of a lane. *)

From Stdlib Require Import ZArith Lia.
From stdpp Require Import base tactics numbers option list list_numbers.
From S2P Require Import Prelude Bits Neon NeonLanes NeonSat NeonShift NeonSwar GuestArith.

(** ** Description *)

(** What a family does to a lane: the type of its operands, the value stored for an exact sum or
    difference, and when the flags GE of the lane are set. *)
Record kind_of_lane := Lane {
  lane_signed : bool;
  stored : elem → Z → Z;
  ge_add : Z → Z → bool;
  ge_sub : Z → Z → bool;
}.

Definition never (w v : Z) : bool := false.
Definition not_negative (w v : Z) : bool := 0 <=? v.
Definition carries (w v : Z) : bool := 2 ^ w <=? v.
Definition halved (t : elem) (v : Z) : Z := v / 2.

Definition saturating_signed : kind_of_lane := Lane true sat never never.
Definition saturating_unsigned : kind_of_lane := Lane false sat never never.
Definition modulo_signed : kind_of_lane := Lane true (λ _ v, v) not_negative not_negative.
(** The flags of the unsigned families are the carry of a sum and the absence of a borrow. *)
Definition modulo_unsigned : kind_of_lane := Lane false (λ _ v, v) carries not_negative.
Definition halving_signed : kind_of_lane := Lane true halved never never.
Definition halving_unsigned : kind_of_lane := Lane false halved never never.

Section Describe.
Variables (k : kind_of_lane) (w : Z).
Definition lane_type : elem := Elem w (lane_signed k).
Definition sum_of (x y : Z) : Z := conv lane_type x + conv lane_type y.
Definition difference_of (x y : Z) : Z := conv lane_type x - conv lane_type y.
End Describe.

(** A lane: the value to store, and whether its flags are set. *)
Definition added (k : kind_of_lane) (w x y : Z) : Z * bool := (stored k (lane_type k w) (sum_of k w x y), ge_add k w (sum_of k w x y)).
Definition subtracted (k : kind_of_lane) (w x y : Z) : Z * bool :=
  (stored k (lane_type k w) (difference_of k w x y), ge_sub k w (difference_of k w x y)).

(** The result of an operation: the lanes packed, and their flags, [4 / n] bits for each of [n]. *)
Definition lanes_result (w : Z) (lanes : list (Z * bool)) : simd :=
  (NEON_PACK (Elem w false) lanes.*1,
   NEON_PACK (Elem (w / 8) false) ((λ b : bool, if b then 2 ^ (w / 8) - 1 else 0) <$> lanes.*2)).

(** ** The macros *)

(** A macro stores one lane and sets its flags. *)
Definition stores_lane (w : Z) (lane : Z → Z → Z * bool) (macro : Z → Z → Z → simd → simd) : Prop :=
  ∀ a b n st, macro a b n st =
    (st.1 .| (wrap w (lane a b).1 .<< (n * w)), st.2 .| ((if (lane a b).2 then 2 ^ (w / 8) - 1 else 0) .<< (n * (w / 8)))).

Definition implements (k : kind_of_lane) (f : family) : Prop :=
  stores_lane 16 (added k 16) (ADD16 f) ∧ stores_lane 16 (subtracted k 16) (SUB16 f) ∧
  stores_lane 8 (added k 8) (ADD8 f) ∧ stores_lane 8 (subtracted k 8) (SUB8 f).

Lemma no_flags (g n : Z) : g = g .| (0 .<< n).
Proof. by rewrite Z.shiftl_0_l, Z.lor_0_r. Qed.

(** A macro without flags. *)
Lemma plain_lane w v lane : (∀ a b, wrap w (v a b) = wrap w (lane a b).1) → (∀ a b, (lane a b).2 = false) →
  stores_lane w lane (λ a b n, RESULT (v a b) n w).
Proof. intros Hv Hg a b n [r g]. unfold RESULT. cbn [fst snd]. by rewrite Hv, Hg, <- no_flags. Qed.

(** A macro with flags. *)
Section Flags.
Variables (v : Z → Z → Z) (c : Z → Z → bool) (lane : Z → Z → Z * bool).

Lemma flag_lane w (bits : Z → Z) : (∀ n, bits n = (2 ^ (w / 8) - 1) .<< (n * (w / 8))) →
  (∀ a b, wrap w (v a b) = wrap w (lane a b).1) → (∀ a b, (lane a b).2 = c a b) →
  stores_lane w lane (λ a b n st, let st := RESULT (v a b) n w st in if c a b then set_ge (bits n) st else st).
Proof.
  intros Hb Hv Hg a b n [r g]. cbv zeta. unfold RESULT, set_ge. rewrite Hg. destruct (c a b); cbn [fst snd]; by rewrite Hv, ?Hb, <- ?no_flags.
Qed.
Lemma flag_lane_16 : (∀ a b, wrap 16 (v a b) = wrap 16 (lane a b).1) → (∀ a b, (lane a b).2 = c a b) →
  stores_lane 16 lane (λ a b n st, let st := RESULT (v a b) n 16 st in if c a b then set_ge (3 .<< (n * 2)) st else st).
Proof. by apply flag_lane. Qed.
Lemma flag_lane_8 : (∀ a b, wrap 8 (v a b) = wrap 8 (lane a b).1) → (∀ a b, (lane a b).2 = c a b) →
  stores_lane 8 lane (λ a b n st, let st := RESULT (v a b) n 8 st in if c a b then set_ge (1 .<< n) st else st).
Proof. apply flag_lane. intros n. change (8 / 8) with 1. by rewrite Z.mul_1_r. Qed.
End Flags.

(** ** The families *)

Ltac saturated w :=
  intros x y Hx Hy; unfold sat, lo, hi; cbn [esize signed neon_s8 neon_s16 neon_u8 neon_u16]; signs w; change (2 ^ (8 - 1)) with (2 ^ 7); change (2 ^ (16 - 1)) with (2 ^ 15);
  rewrite ?(wrap_cases w (_ + _)), ?(wrap_cases w (_ - _)) by lia; compare; rewrite ?wrap_cases by lia; compare; lia.

Lemma add16_sat_value x y : 0 ≤ x < 2 ^ 16 → 0 ≤ y < 2 ^ 16 → wrap 16 (add16_sat x y) = wrap 16 (sat neon_s16 (swrap 16 x + swrap 16 y)).
Proof. unfold add16_sat, u16. change 0x8000 with (1 .<< (16 - 1)). revert x y. saturated 16. Qed.
Lemma sub16_sat_value x y : 0 ≤ x < 2 ^ 16 → 0 ≤ y < 2 ^ 16 → wrap 16 (sub16_sat x y) = wrap 16 (sat neon_s16 (swrap 16 x - swrap 16 y)).
Proof. unfold sub16_sat, u16. change 0x8000 with (1 .<< (16 - 1)). revert x y. saturated 16. Qed.
Lemma add8_sat_value x y : 0 ≤ x < 2 ^ 8 → 0 ≤ y < 2 ^ 8 → wrap 8 (add8_sat x y) = wrap 8 (sat neon_s8 (swrap 8 x + swrap 8 y)).
Proof. unfold add8_sat, u8. change 0x80 with (1 .<< (8 - 1)). revert x y. saturated 8. Qed.
Lemma sub8_sat_value x y : 0 ≤ x < 2 ^ 8 → 0 ≤ y < 2 ^ 8 → wrap 8 (sub8_sat x y) = wrap 8 (sat neon_s8 (swrap 8 x - swrap 8 y)).
Proof. unfold sub8_sat, u8. change 0x80 with (1 .<< (8 - 1)). revert x y. saturated 8. Qed.
Lemma add16_usat_value x y : 0 ≤ x < 2 ^ 16 → 0 ≤ y < 2 ^ 16 → wrap 16 (add16_usat x y) = wrap 16 (sat neon_u16 (x + y)).
Proof. unfold add16_usat, u16. revert x y. saturated 16. Qed.
Lemma sub16_usat_value x y : 0 ≤ x < 2 ^ 16 → 0 ≤ y < 2 ^ 16 → wrap 16 (sub16_usat x y) = wrap 16 (sat neon_u16 (x - y)).
Proof. unfold sub16_usat, u16. revert x y. saturated 16. Qed.
Lemma add8_usat_value x y : 0 ≤ x < 2 ^ 8 → 0 ≤ y < 2 ^ 8 → wrap 8 (add8_usat x y) = wrap 8 (sat neon_u8 (x + y)).
Proof. unfold add8_usat, u8. revert x y. saturated 8. Qed.
Lemma sub8_usat_value x y : 0 ≤ x < 2 ^ 8 → 0 ≤ y < 2 ^ 8 → wrap 8 (sub8_usat x y) = wrap 8 (sat neon_u8 (x - y)).
Proof. unfold sub8_usat, u8. revert x y. saturated 8. Qed.

Lemma in_lane w v : 0 ≤ w → 0 ≤ wrap w v < 2 ^ w.
Proof. apply wrap_range. Qed.

Lemma q_ok : implements saturating_signed q_family.
Proof.
  split_and!; apply plain_lane; try done; intros a b;
    [rewrite add16_sat_value by (by apply in_lane)|rewrite sub16_sat_value by (by apply in_lane)|rewrite add8_sat_value by (by apply in_lane)|rewrite sub8_sat_value by (by apply in_lane)];
    unfold u16, u8; by rewrite !swrap_wrap.
Qed.
Lemma uq_ok : implements saturating_unsigned uq_family.
Proof.
  split_and!; apply plain_lane; try done; intros a b;
    [by apply add16_usat_value; apply in_lane|by apply sub16_usat_value; apply in_lane|by apply add8_usat_value; apply in_lane|by apply sub8_usat_value; apply in_lane].
Qed.
Lemma sh_ok : implements halving_signed sh_family.
Proof. split_and!; apply plain_lane; try done; intros a b; by rewrite Z.shiftr_div_pow2. Qed.
Lemma uh_ok : implements halving_unsigned uh_family.
Proof.
  split_and!; apply plain_lane; try done; intros a b; unfold u32, added, subtracted, halved; cbn [fst stored halving_unsigned];
    rewrite wrap_high by lia; by rewrite Z.shiftr_div_pow2.
Qed.
Lemma s_ok : implements modulo_signed s_family.
Proof.
  split_and!; [apply (flag_lane_16 (λ a b, s16 a + s16 b) (λ a b, 0 <=? s16 a + s16 b))|apply (flag_lane_16 (λ a b, s16 a - s16 b) (λ a b, 0 <=? s16 a - s16 b))
    |apply (flag_lane_8 (λ a b, s8 a + s8 b) (λ a b, 0 <=? s8 a + s8 b))|apply (flag_lane_8 (λ a b, s8 a - s8 b) (λ a b, 0 <=? s8 a - s8 b))]; auto.
Qed.

(** The carry of a sum, and the borrow of a difference, above the lane. *)
Lemma carry_above w x y : w = 8 ∨ w = 16 → 0 ≤ x < 2 ^ w → 0 ≤ y < 2 ^ w → (u32 (x + y) .>> w =? 1) = (2 ^ w <=? x + y).
Proof.
  intros [-> | ->] Hx Hy; unfold u32; rewrite wrap_small, Z.shiftr_div_pow2 by lia; apply eq_true_iff_eq; rewrite Z.eqb_eq, Z.leb_le;
    Z.to_euclidean_division_equations; lia.
Qed.
Lemma borrow_above w x y : w = 8 ∨ w = 16 → 0 ≤ x < 2 ^ w → 0 ≤ y < 2 ^ w → (u32 (x - y) .>> w =? 0) = (0 <=? x - y).
Proof.
  intros [-> | ->] Hx Hy; unfold u32; rewrite wrap_cases, Z.shiftr_div_pow2 by lia; (destruct (Z.leb_spec 0 (x - y)); [apply Z.eqb_eq|apply Z.eqb_neq]);
    compare; Z.to_euclidean_division_equations; lia.
Qed.

Lemma u_ok : implements modulo_unsigned u_family.
Proof.
  split_and!; [apply (flag_lane_16 (λ a b, u32 (u16 a + u16 b)) (λ a b, u32 (u16 a + u16 b) .>> 16 =? 1))
    |apply (flag_lane_16 (λ a b, u32 (u16 a - u16 b)) (λ a b, u32 (u16 a - u16 b) .>> 16 =? 0))
    |apply (flag_lane_8 (λ a b, u32 (u8 a + u8 b)) (λ a b, u32 (u8 a + u8 b) .>> 8 =? 1))
    |apply (flag_lane_8 (λ a b, u32 (u8 a - u8 b)) (λ a b, u32 (u8 a - u8 b) .>> 8 =? 0))]; try (by auto);
    intros a b; try (by apply wrap_narrow); symmetry; (apply carry_above || apply borrow_above); by (auto || apply in_lane).
Qed.

(** ** The operations *)

Definition ge_bits (w : Z) (b : bool) : Z := if b then 2 ^ (w / 8) - 1 else 0.

Lemma ge_bits_16 b : wrap 2 (ge_bits 16 b) = ge_bits 16 b.
Proof. by destruct b. Qed.
Lemma ge_bits_8 b : wrap 1 (ge_bits 8 b) = ge_bits 8 b.
Proof. by destruct b. Qed.

Lemma result_16 l0 l1 :
  (0 .| (wrap 16 l0.1 .<< (0 * 16)) .| (wrap 16 l1.1 .<< (1 * 16)), 0 .| (ge_bits 16 l0.2 .<< (0 * (16 / 8))) .| (ge_bits 16 l1.2 .<< (1 * (16 / 8))))
  = lanes_result 16 [l0; l1].
Proof.
  unfold lanes_result. cbn [fmap list_fmap]. rewrite !Z.lor_0_l, !Z.mul_0_l, !Z.shiftl_0_r, !Z.mul_1_l. change (16 / 8) with 2.
  rewrite <- (ge_bits_16 l0.2), <- (ge_bits_16 l1.2). by rewrite (fields_2 16 false), (fields_2 2 false).
Qed.
Lemma result_8 l0 l1 l2 l3 :
  (0 .| (wrap 8 l0.1 .<< (0 * 8)) .| (wrap 8 l1.1 .<< (1 * 8)) .| (wrap 8 l2.1 .<< (2 * 8)) .| (wrap 8 l3.1 .<< (3 * 8)),
   0 .| (ge_bits 8 l0.2 .<< (0 * (8 / 8))) .| (ge_bits 8 l1.2 .<< (1 * (8 / 8))) .| (ge_bits 8 l2.2 .<< (2 * (8 / 8))) .| (ge_bits 8 l3.2 .<< (3 * (8 / 8))))
  = lanes_result 8 [l0; l1; l2; l3].
Proof.
  unfold lanes_result. cbn [fmap list_fmap]. rewrite !Z.lor_0_l, !Z.mul_0_l, !Z.shiftl_0_r, !Z.mul_1_l. change (8 / 8) with 1.
  rewrite <- (ge_bits_8 l0.2), <- (ge_bits_8 l1.2), <- (ge_bits_8 l2.2), <- (ge_bits_8 l3.2).
  rewrite <- (fields_4 8 false), <- (fields_4 1 false) by done. done.
Qed.

Section Operations.
Variables (k : kind_of_lane) (f : family) (a b : Z).
Hypothesis Hf : implements k f.

Lemma add16_exact : add16 f a b = lanes_result 16 [added k 16 a b; added k 16 (a .>> 16) (b .>> 16)].
Proof using Hf. destruct Hf as (Ha & _). unfold add16. rewrite !Ha. apply result_16. Qed.
Lemma sub16_exact : sub16 f a b = lanes_result 16 [subtracted k 16 a b; subtracted k 16 (a .>> 16) (b .>> 16)].
Proof using Hf. destruct Hf as (_ & Hs & _). unfold sub16. rewrite !Hs. apply result_16. Qed.
Lemma addsubx_exact : addsubx f a b = lanes_result 16 [subtracted k 16 a (b .>> 16); added k 16 (a .>> 16) b].
Proof using Hf. destruct Hf as (Ha & Hs & _). unfold addsubx. rewrite Hs, Ha. apply result_16. Qed.
Lemma subaddx_exact : subaddx f a b = lanes_result 16 [added k 16 a (b .>> 16); subtracted k 16 (a .>> 16) b].
Proof using Hf. destruct Hf as (Ha & Hs & _). unfold subaddx. rewrite Ha, Hs. apply result_16. Qed.
Lemma add8_exact :
  add8 f a b = lanes_result 8 [added k 8 a b; added k 8 (a .>> 8) (b .>> 8); added k 8 (a .>> 16) (b .>> 16); added k 8 (a .>> 24) (b .>> 24)].
Proof using Hf. destruct Hf as (_ & _ & Ha & _). unfold add8. rewrite !Ha. apply result_8. Qed.
Lemma sub8_exact :
  sub8 f a b = lanes_result 8 [subtracted k 8 a b; subtracted k 8 (a .>> 8) (b .>> 8); subtracted k 8 (a .>> 16) (b .>> 16); subtracted k 8 (a .>> 24) (b .>> 24)].
Proof using Hf. destruct Hf as (_ & _ & _ & Hs). unfold sub8. rewrite !Hs. apply result_8. Qed.
End Operations.

Definition families : list (kind_of_lane * family) :=
  [ (saturating_signed, q_family); (saturating_unsigned, uq_family); (modulo_signed, s_family); (modulo_unsigned, u_family);
    (halving_signed, sh_family); (halving_unsigned, uh_family) ].

(** C34: The parallel additions and subtractions of all six families (saturating, modulo and halving,
    signed and unsigned) work on every byte or halfword by itself: it becomes the saturated, the
    wrapped or the halved exact sum or difference, and in the modulo families the flags GE of the
    lane say whether a signed result is not negative, an unsigned sum carries, an unsigned difference
    does not borrow; the exchanging forms combine a halfword with the other one of the second
    operand, adding in one and subtracting in the other. *)
Theorem parallel_arithmetic_exact :
  Forall (λ '(k, f), ∀ a b,
    add16 f a b = lanes_result 16 [added k 16 a b; added k 16 (a .>> 16) (b .>> 16)] ∧
    sub16 f a b = lanes_result 16 [subtracted k 16 a b; subtracted k 16 (a .>> 16) (b .>> 16)] ∧
    addsubx f a b = lanes_result 16 [subtracted k 16 a (b .>> 16); added k 16 (a .>> 16) b] ∧
    subaddx f a b = lanes_result 16 [added k 16 a (b .>> 16); subtracted k 16 (a .>> 16) b] ∧
    add8 f a b = lanes_result 8 [added k 8 a b; added k 8 (a .>> 8) (b .>> 8); added k 8 (a .>> 16) (b .>> 16); added k 8 (a .>> 24) (b .>> 24)] ∧
    sub8 f a b = lanes_result 8 [subtracted k 8 a b; subtracted k 8 (a .>> 8) (b .>> 8); subtracted k 8 (a .>> 16) (b .>> 16); subtracted k 8 (a .>> 24) (b .>> 24)])
  families.
Proof.
  assert (Forall (λ '(k, f), implements k f) families) as H.
  { repeat apply Forall_cons_2; [exact q_ok|exact uq_ok|exact s_ok|exact u_ok|exact sh_ok|exact uh_ok|apply Forall_nil_2]. }
  eapply Forall_impl; [exact H|]. intros [k f] Hf a b.
  split_and!; [by apply add16_exact|by apply sub16_exact|by apply addsubx_exact|by apply subaddx_exact|by apply add8_exact|by apply sub8_exact].
Qed.

Example uadd8_flags : add8 u_family 0xff010080 0x01020080 = (0x00030000, 9).
Proof. done. Qed.
Example qsubaddx_values : subaddx q_family 0x80007fff 0x00010001 = (0x80007fff, 0).
Proof. done. Qed.
