(* ===== verification/CpsrTheorems.v ===== *)
(** Reading the program status register after writing it: the bits that a mask selects are taken
    from the value, the others are kept, although most of them live in fields of their own. *)

From Stdlib Require Import ZArith Lia.
From stdpp Require Import base tactics numbers option list list_numbers.
From S2P Require Import Prelude Bits Neon NeonLanes NeonSat NeonShift NeonSwar Cpsr.

(** ** Fields *)

(** The ranges of the fields; the bits that are kept elsewhere are clear in [uncached_cpsr]. *)
Record cpsr_ok (env : CPUARMState) : Prop := {
  ok_uncached : 0 ≤ uncached_cpsr env < 2 ^ 32;
  ok_cached : uncached_cpsr env .& CACHED_CPSR_BITS = 0;
  ok_CF : 0 ≤ CF env < 2 ^ 1;
  ok_QF : 0 ≤ QF env < 2 ^ 1;
  ok_thumb : 0 ≤ thumb env < 2 ^ 1;
  ok_GE : 0 ≤ GE env < 2 ^ 4;
  ok_condexec : 0 ≤ condexec_bits env < 2 ^ 8;
}.

(** Where a bit of the register is kept. *)
Definition field_bit (env : CPUARMState) (n : Z) : bool :=
  if n =? 31 then Z.testbit (NF env) 31
  else if n =? 30 then ZF env =? 0
  else if n =? 29 then Z.testbit (CF env) 0
  else if n =? 28 then Z.testbit (VF env) 31
  else if n =? 27 then Z.testbit (QF env) 0
  else if 25 <=? n then Z.testbit (condexec_bits env) (n - 25)
  else if 20 <=? n then Z.testbit (uncached_cpsr env) n
  else if 16 <=? n then Z.testbit (GE env) (n - 16)
  else if 10 <=? n then Z.testbit (condexec_bits env) (n - 8)
  else if n =? 9 then Z.testbit (uncached_cpsr env) 9
  else if 6 <=? n then Z.testbit (daif env) n
  else if n =? 5 then Z.testbit (thumb env) 0
  else Z.testbit (uncached_cpsr env) n.

(** The bits of a word, one by one. *)
Lemma word_cases (P : Z → Prop) : Forall P (seqZ 0 32) → ∀ n, 0 ≤ n < 32 → P n.
Proof. intros H n Hn. rewrite Forall_forall in H. apply H, elem_of_seqZ. lia. Qed.

(** Bits of constants are computed, bits outside a field are clear. *)
Ltac known_bits :=
  repeat match goal with
  | |- context [Z.testbit (Zpos ?p) ?k] => let b := eval vm_compute in (Z.testbit (Zpos p) k) in change (Z.testbit (Zpos p) k) with b
  end; rewrite ?andb_false_r, ?andb_true_r, ?orb_false_r, ?orb_false_l.

Lemma cached_bit env n : cpsr_ok env → Z.testbit CACHED_CPSR_BITS n = true → Z.testbit (uncached_cpsr env) n = false.
Proof. intros Hok Hn. pose proof (f_equal (λ z, Z.testbit z n) (ok_cached _ Hok)) as H. simpl in H. by rewrite Z.land_spec, Hn, andb_true_r, Z.bits_0 in H. Qed.

Lemma read_bit env n : cpsr_ok env → 0 ≤ n < 32 → Z.testbit (cpsr_read env) n = field_bit env n.
Proof.
  intros Hok. revert n. pose proof (λ n, cached_bit env n Hok) as Hc. destruct Hok as [Hu _ HC HQ HT HG HE]. unfold cpsr_read, u32, wrap.
  pose proof (λ n, bit_above 1 _ n HC) as BC. pose proof (λ n, bit_above 1 _ n HQ) as BQ. pose proof (λ n, bit_above 1 _ n HT) as BT.
  pose proof (λ n, bit_above 4 _ n HG) as BG. pose proof (λ n, bit_above 8 _ n HE) as BE.
  assert (∀ (c : bool) n, 1 ≤ n → Z.testbit (if c then 1 else 0) n = false) as BZ.
  { intros c n Hn. destruct c; [by apply (bit_above 1)|apply Z.bits_0]. }
  assert (∀ z n, n < 0 → Z.testbit z n = false) as BN by (intros; by apply Z.testbit_neg_r).
  apply word_cases. change (seqZ 0 32) with [0;1;2;3;4;5;6;7;8;9;10;11;12;13;14;15;16;17;18;19;20;21;22;23;24;25;26;27;28;29;30;31].
  change CPSR_AIF with 0x1c0. repeat apply Forall_cons_2; [..|apply Forall_nil_2];
    (rewrite Z.mod_pow2_bits_low by lia; rewrite !Z.lor_spec, !Z.shiftl_spec, Z.shiftr_spec, !Z.land_spec by lia);
    repeat match goal with
    | |- context [Z.testbit ?z ?k] => rewrite (BN z k) by lia
    | |- context [Z.testbit (CF env) ?k] => rewrite (BC k) by lia
    | |- context [Z.testbit (QF env) ?k] => rewrite (BQ k) by lia
    | |- context [Z.testbit (thumb env) ?k] => rewrite (BT k) by lia
    | |- context [Z.testbit (GE env) ?k] => rewrite (BG k) by lia
    | |- context [Z.testbit (condexec_bits env) ?k] => rewrite (BE k) by lia
    | |- context [Z.testbit (if ?c then 1 else 0) ?k] => rewrite (BZ c k) by lia
    end; known_bits.
  all: try done.
  all: rewrite ?Hc by done.
  all: try done.
  change (field_bit env 30) with (ZF env =? 0). by destruct (ZF env =? 0).
Qed.

(** ** The bits that are written *)

(** A field that is written as a whole when the mask selects any of it. *)
Definition whole_field (mask field : Z) : Z := if mask .& field =? 0 then 0 else field.

(** A mode that does not exist is not entered, another one than the user mode ends the program. *)
Definition mode_changes (env : CPUARMState) (val mask : Z) : bool := negb ((uncached_cpsr env .^ val) .& mask .& CPSR_M =? 0).
Definition mode_refused (env : CPUARMState) (val mask : Z) : bool := mode_changes env val mask && bad_mode_switch env (val .& CPSR_M).
Definition leaves_user_mode (env : CPUARMState) (val mask : Z) : bool :=
  mode_changes env val mask && negb (bad_mode_switch env (val .& CPSR_M)) && negb (val .& CPSR_M =? ARM_CPU_MODE_USR).

(** What is left of the mask for the bits that have no field. *)
Definition uncached_mask (env : CPUARMState) (val mask : Z) : Z :=
  let mask := check_daif env val mask in
  (if mode_refused env val mask then mask .& not32 CPSR_M else mask) .& not32 CACHED_CPSR_BITS.

(** The bits that are written. *)
Definition effective_mask (env : CPUARMState) (val mask : Z) : Z :=
  whole_field mask CPSR_NZCV .| whole_field mask CPSR_Q .| whole_field mask CPSR_T .| whole_field mask CPSR_IT_0_1
  .| whole_field mask CPSR_IT_2_7 .| whole_field mask CPSR_GE .| (check_daif env val mask .& CPSR_AIF) .| uncached_mask env val mask.

(** The flags after the first part of the helper. *)
Lemma write_flags_fields env val mask :
  write_flags env val mask =
  {| uncached_cpsr := uncached_cpsr env;
     NF := if mask .& CPSR_NZCV =? 0 then NF env else val;
     ZF := if mask .& CPSR_NZCV =? 0 then ZF env else not32 val .& CPSR_Z;
     CF := if mask .& CPSR_NZCV =? 0 then CF env else (val .>> 29) .& 1;
     VF := if mask .& CPSR_NZCV =? 0 then VF env else u32 (val .<< 3) .& 0x80000000;
     QF := if mask .& CPSR_Q =? 0 then QF env else if negb (val .& CPSR_Q =? 0) then 1 else 0;
     GE := if mask .& CPSR_GE =? 0 then GE env else (val .>> 16) .& 0xf;
     thumb := if mask .& CPSR_T =? 0 then thumb env else if negb (val .& CPSR_T =? 0) then 1 else 0;
     condexec_bits :=
       let low := if mask .& CPSR_IT_0_1 =? 0 then condexec_bits env else (condexec_bits env .& not32 3) .| ((val .>> 25) .& 3) in
       if mask .& CPSR_IT_2_7 =? 0 then low else (low .& 3) .| ((val .>> 8) .& 0xfc);
     daif := daif env; scr_el3 := scr_el3 env; sctlr_ns := sctlr_ns env; features := features env |}.
Proof.
  destruct env. unfold write_flags. destruct (mask .& CPSR_NZCV =? 0), (mask .& CPSR_Q =? 0), (mask .& CPSR_T =? 0), (mask .& CPSR_IT_0_1 =? 0),
    (mask .& CPSR_IT_2_7 =? 0), (mask .& CPSR_GE =? 0); reflexivity.
Qed.

(** The registers after the helper. *)
Definition written (env : CPUARMState) (val mask : Z) : CPUARMState :=
  (write_flags env val mask)
    <| daif := (daif env .& not32 (CPSR_AIF .& check_daif env val mask)) .| (val .& CPSR_AIF .& check_daif env val mask) |>
    <| uncached_cpsr := (uncached_cpsr env .& not32 (uncached_mask env val mask)) .| (val .& uncached_mask env val mask) |>.

Lemma check_daif_flags env val mask m : check_daif (write_flags env val mask) val m = check_daif env val m.
Proof. rewrite write_flags_fields. reflexivity. Qed.

Lemma cpsr_write_value env val mask :
  cpsr_write env val mask = if leaves_user_mode env val (check_daif env val mask) then None else Some (written env val mask).
Proof.
  unfold cpsr_write, written, uncached_mask, leaves_user_mode, mode_refused, mode_changes. cbv zeta. rewrite check_daif_flags.
  generalize (check_daif env val mask). intros m. rewrite write_flags_fields. destruct env.
  cbv [upd_member eta CPUARMState_settable Cpsr.daif Cpsr.uncached_cpsr Cpsr.CF Cpsr.VF Cpsr.NF Cpsr.ZF Cpsr.QF Cpsr.GE Cpsr.thumb Cpsr.condexec_bits
    Cpsr.scr_el3 Cpsr.sctlr_ns Cpsr.features]. unfold switch_mode.
  change (bad_mode_switch _ (val .& CPSR_M)) with (bad_mode_switch (Build_CPUARMState 0 0 0 0 0 0 0 0 0 0 0 0 0) (val .& CPSR_M)).
  generalize (bad_mode_switch (Build_CPUARMState 0 0 0 0 0 0 0 0 0 0 0 0 0) (val .& CPSR_M)). intros bad.
  match goal with |- context [negb (?x =? 0) && bad] => generalize (x =? 0); intros same end.
  generalize (val .& CPSR_M =? ARM_CPU_MODE_USR). intros user. destruct same, bad, user; reflexivity.
Qed.

(** ** Bits *)

Lemma whole_bit mask field n : Z.testbit (whole_field mask field) n = negb (mask .& field =? 0) && Z.testbit field n.
Proof. unfold whole_field. destruct (mask .& field =? 0); [apply Z.bits_0|done]. Qed.

(** A part of a field that is taken from the value. *)
Lemma part_bit v s k m : 0 ≤ s → 0 ≤ k → Z.testbit m k = true → Z.testbit ((v .>> s) .& m) k = Z.testbit v (k + s).
Proof. intros Hs Hk Hm. by rewrite Z.land_spec, Z.shiftr_spec, Hm, andb_true_r. Qed.

(** A flag that is a field by itself. *)
Lemma flag_bit v k : 0 ≤ k → Z.testbit (if negb (v .& (1 .<< k) =? 0) then 1 else 0) 0 = Z.testbit v k.
Proof. intros Hk. rewrite mask_bit, negb_involutive by done. by destruct (Z.testbit v k). Qed.

(** Bits that are merged under a mask. *)
Lemma merge_bit a v m n : 0 ≤ n < 32 → Z.testbit ((a .& not32 m) .| (v .& m)) n = if Z.testbit m n then Z.testbit v n else Z.testbit a n.
Proof.
  intros Hn. rewrite Z.lor_spec, !Z.land_spec. unfold not32, u32. rewrite not_bit by done. destruct (Z.testbit m n); cbn [negb]; by rewrite ?andb_false_r, ?andb_true_r, ?orb_false_r.
Qed.

Section Written.
Variables (env : CPUARMState) (val mask : Z).
Hypotheses (Hok : cpsr_ok env) (Hval : 0 ≤ val < 2 ^ 32).

Lemma uncached_mask_bit n : Z.testbit CACHED_CPSR_BITS n = true → 0 ≤ n < 32 → Z.testbit (uncached_mask env val mask) n = false.
Proof using. intros Hc Hn. unfold uncached_mask, not32, u32. rewrite Z.land_spec, (not_bit 32 CACHED_CPSR_BITS) by done. by rewrite Hc, andb_false_r. Qed.

Lemma uncached_mask_range : 0 ≤ uncached_mask env val mask < 2 ^ 32.
Proof using. apply masked_range; done. Qed.

Lemma written_fields :
  written env val mask =
  {| uncached_cpsr := (uncached_cpsr env .& not32 (uncached_mask env val mask)) .| (val .& uncached_mask env val mask);
     NF := if mask .& CPSR_NZCV =? 0 then NF env else val;
     ZF := if mask .& CPSR_NZCV =? 0 then ZF env else not32 val .& CPSR_Z;
     CF := if mask .& CPSR_NZCV =? 0 then CF env else (val .>> 29) .& 1;
     VF := if mask .& CPSR_NZCV =? 0 then VF env else u32 (val .<< 3) .& 0x80000000;
     QF := if mask .& CPSR_Q =? 0 then QF env else if negb (val .& CPSR_Q =? 0) then 1 else 0;
     GE := if mask .& CPSR_GE =? 0 then GE env else (val .>> 16) .& 0xf;
     thumb := if mask .& CPSR_T =? 0 then thumb env else if negb (val .& CPSR_T =? 0) then 1 else 0;
     condexec_bits :=
       let low := if mask .& CPSR_IT_0_1 =? 0 then condexec_bits env else (condexec_bits env .& not32 3) .| ((val .>> 25) .& 3) in
       if mask .& CPSR_IT_2_7 =? 0 then low else (low .& 3) .| ((val .>> 8) .& 0xfc);
     daif := (daif env .& not32 (CPSR_AIF .& check_daif env val mask)) .| (val .& CPSR_AIF .& check_daif env val mask);
     scr_el3 := scr_el3 env; sctlr_ns := sctlr_ns env; features := features env |}.
Proof using. unfold written. rewrite write_flags_fields. reflexivity. Qed.

Lemma written_ok : cpsr_ok (written env val mask).
Proof using Hok Hval.
  destruct Hok as [Hu Hc HC HQ HT HG HE]. pose proof uncached_mask_range as Hm. rewrite written_fields.
  split; cbn [uncached_cpsr CF QF thumb GE condexec_bits]; cbv zeta.
  - apply lor_range; [done|rewrite Z.land_comm; by apply masked_range|by apply masked_range].
  - apply Z.bits_inj'. intros n Hn. rewrite Z.land_spec, Z.bits_0. destruct (Z.testbit CACHED_CPSR_BITS n) eqn:E; [|apply andb_false_r]. rewrite andb_true_r.
    destruct (Z.ltb_spec n 32); [|by rewrite (bit_above 32) in E]. rewrite merge_bit, uncached_mask_bit by done. by apply cached_bit.
  - destruct (_ =? 0); [done|]. by apply masked_range.
  - destruct (mask .& CPSR_Q =? 0); [done|]. by destruct (negb _).
  - destruct (mask .& CPSR_T =? 0); [done|]. by destruct (negb _).
  - destruct (_ =? 0); [done|]. by apply masked_range.
  - destruct (mask .& CPSR_IT_2_7 =? 0); [destruct (mask .& CPSR_IT_0_1 =? 0); [done|]|]; apply lor_range; try done; try by apply masked_range.
    rewrite Z.land_comm. by apply masked_range.
Qed.
(** Which of the masks decides about a bit. *)
Definition deciding_bit (n : Z) : bool :=
  let some_of field := negb (mask .& field =? 0) in
  if 28 <=? n then some_of CPSR_NZCV
  else if n =? 27 then some_of CPSR_Q
  else if 25 <=? n then some_of CPSR_IT_0_1
  else if 20 <=? n then Z.testbit (uncached_mask env val mask) n
  else if 16 <=? n then some_of CPSR_GE
  else if 10 <=? n then some_of CPSR_IT_2_7
  else if n =? 9 then Z.testbit (uncached_mask env val mask) n
  else if 6 <=? n then Z.testbit (check_daif env val mask) n
  else if n =? 5 then some_of CPSR_T
  else Z.testbit (uncached_mask env val mask) n.

Lemma effective_bit n : 0 ≤ n < 32 → Z.testbit (effective_mask env val mask) n = deciding_bit n.
Proof using.
  intros Hn. unfold effective_mask. rewrite !Z.lor_spec, !whole_bit, Z.land_spec. pose proof uncached_mask_bit as Hu. revert n Hn Hu. unfold deciding_bit.
  generalize (uncached_mask env val mask), (check_daif env val mask), (mask .& CPSR_NZCV =? 0), (mask .& CPSR_Q =? 0), (mask .& CPSR_T =? 0),
    (mask .& CPSR_IT_0_1 =? 0), (mask .& CPSR_IT_2_7 =? 0), (mask .& CPSR_GE =? 0). intros um cd c1 c2 c3 c4 c5 c6 n Hn Hu.
  destruct (Z.testbit CACHED_CPSR_BITS n) eqn:Ec; [rewrite Hu by done|]; clear Hu; revert n Hn Ec; apply (word_cases (λ n, _ → _));
    change (seqZ 0 32) with [0;1;2;3;4;5;6;7;8;9;10;11;12;13;14;15;16;17;18;19;20;21;22;23;24;25;26;27;28;29;30;31];
    repeat apply Forall_cons_2; try apply Forall_nil_2; cbn; intros [=]; by rewrite ?andb_false_r, ?andb_true_r, ?orb_false_r.
Qed.
Lemma condexec_bit k : 0 ≤ k < 8 →
  Z.testbit (condexec_bits (written env val mask)) k =
  if negb (mask .& (if k <? 2 then CPSR_IT_0_1 else CPSR_IT_2_7) =? 0) then Z.testbit val (if k <? 2 then k + 25 else k + 8) else Z.testbit (condexec_bits env) k.
Proof using.
  intros Hk. rewrite written_fields. cbn [condexec_bits]. cbv zeta.
  assert (∀ b, Z.testbit (if b : bool then condexec_bits env else (condexec_bits env .& not32 3) .| ((val .>> 25) .& 3)) k =
    if negb b && (k <? 2) then Z.testbit val (k + 25) else Z.testbit (condexec_bits env) k) as Hlow.
  { intros [|]; [done|]. rewrite merge_bit by lia. change 3 with (Z.ones 2). destruct (Z.ltb_spec k 2).
    - by rewrite Z.ones_spec_low, Z.shiftr_spec by lia.
    - by rewrite Z.ones_spec_high by lia. }
  destruct (mask .& CPSR_IT_2_7 =? 0) eqn:E2.
  - rewrite Hlow. destruct (k <? 2); [by rewrite andb_true_r|by rewrite E2, andb_false_r].
  - rewrite Z.lor_spec, !Z.land_spec, Hlow, Z.shiftr_spec by lia. change 3 with (Z.ones 2). change 0xfc with (Z.ones 6 .<< 2). rewrite Z.shiftl_spec by lia.
    destruct (Z.ltb_spec k 2).
    + by rewrite Z.ones_spec_low, (Z.testbit_neg_r _ (k - 2)), andb_false_r, orb_false_r, !andb_true_r by lia.
    + by rewrite Z.ones_spec_high, Z.ones_spec_low, !andb_false_r, andb_true_r, E2 by lia.
Qed.

Lemma written_bit n : 0 ≤ n < 32 → field_bit (written env val mask) n = if deciding_bit n then Z.testbit val n else field_bit env n.
Proof using Hval.
  intros Hn. unfold field_bit, deciding_bit. cbv zeta. pose proof condexec_bit as Hc. rewrite written_fields in *.
  cbn [condexec_bits NF ZF CF VF QF GE thumb daif uncached_cpsr] in *. cbv zeta in *.
  destruct (Z.eqb_spec n 31) as [->|]; [by destruct (mask .& CPSR_NZCV =? 0)|].
  destruct (Z.eqb_spec n 30) as [->|].
  { cbn [Z.leb Z.compare Pos.compare Pos.compare_cont]. destruct (mask .& CPSR_NZCV =? 0); cbn [negb]; [done|]. unfold CPSR_Z. rewrite mask_bit by done.
    unfold not32, u32. rewrite not_bit by lia. apply negb_involutive. }
  destruct (Z.eqb_spec n 29) as [->|]; [cbn [Z.leb Z.compare Pos.compare Pos.compare_cont]; destruct (mask .& CPSR_NZCV =? 0); cbn [negb]; [done|by apply (part_bit val 29 0 1)]|].
  destruct (Z.eqb_spec n 28) as [->|].
  { cbn [Z.leb Z.compare Pos.compare Pos.compare_cont]. destruct (mask .& CPSR_NZCV =? 0); cbn [negb]; [done|]. rewrite Z.land_spec. unfold u32, wrap.
    by rewrite Z.mod_pow2_bits_low, Z.shiftl_spec, andb_true_r by lia. }
  destruct (Z.leb_spec 28 n); [lia|]. destruct (Z.eqb_spec n 27) as [->|]; [destruct (mask .& CPSR_Q =? 0); cbn [negb]; [done|by apply flag_bit]|].
  destruct (Z.leb_spec 25 n).
  { rewrite Hc by lia. destruct (Z.ltb_spec (n - 25) 2); [|lia]. by rewrite Z.sub_add. }
  destruct (Z.leb_spec 20 n); [by apply merge_bit|].
  destruct (Z.leb_spec 16 n).
  { destruct (mask .& CPSR_GE =? 0); cbn [negb]; [done|]. rewrite (part_bit val 16) by (lia || (change 0xf with (Z.ones 4); apply Z.ones_spec_low; lia)). by rewrite Z.sub_add. }
  destruct (Z.leb_spec 10 n).
  { rewrite Hc by lia. destruct (Z.ltb_spec (n - 8) 2); [lia|]. by rewrite Z.sub_add. }
  destruct (Z.eqb_spec n 9) as [->|]; [by apply merge_bit|].
  destruct (Z.leb_spec 6 n).
  { rewrite <- Z.land_assoc, merge_bit, Z.land_spec by lia. assert (n = 6 ∨ n = 7 ∨ n = 8) as [-> |[-> | ->]] by lia; done. }
  destruct (Z.eqb_spec n 5) as [->|]; [destruct (mask .& CPSR_T =? 0); cbn [negb]; [done|by apply flag_bit]|]. by apply merge_bit.
Qed.
End Written.

Lemma cpsr_read_range env : 0 ≤ cpsr_read env < 2 ^ 32.
Proof. by apply (wrap_range 32). Qed.

(** C33: Writing the program status register under a mask and reading it again gives the value in the
    bits that are written and what was there in the others; the flags N, Z, C and V, the flags GE and
    the parts of the if-then state are written as wholes when the mask selects any of their bits, the
    bits A and F only as far as the security extensions allow, a mode that does not exist is not
    entered, and the fields keep their ranges. The program ends exactly when the mode is changed to
    another one than that of user programs. *)
Theorem cpsr_write_read env val mask :
  cpsr_ok env → 0 ≤ val < 2 ^ 32 →
  match cpsr_write env val mask with
  | None => leaves_user_mode env val (check_daif env val mask) = true
  | Some env' =>
      leaves_user_mode env val (check_daif env val mask) = false ∧ cpsr_ok env' ∧
      cpsr_read env' = (cpsr_read env .& not32 (effective_mask env val mask)) .| (val .& effective_mask env val mask)
  end.
Proof.
  intros Hok Hval. rewrite cpsr_write_value. destruct (leaves_user_mode _ _ _); [done|]. pose proof (written_ok env val mask Hok Hval) as Hok'. split_and!; [done..|].
  apply Z.bits_inj'. intros n Hn. destruct (Z.ltb_spec n 32).
  - rewrite merge_bit, !read_bit, effective_bit by done. by apply written_bit.
  - rewrite Z.lor_spec, !Z.land_spec. rewrite !(bit_above 32 (cpsr_read _)), (bit_above 32 val) by (done || apply cpsr_read_range). done.
Qed.

Definition example_state : CPUARMState :=
  {| uncached_cpsr := ARM_CPU_MODE_USR; CF := 1; VF := 0; NF := 0x80000000; ZF := 1; QF := 0; GE := 5; thumb := 0; condexec_bits := 0;
     daif := 0; scr_el3 := 0; sctlr_ns := 0; features := 0 |}.
Lemma example_state_ok : cpsr_ok example_state.
Proof. by split. Qed.

(** The flag Q and the flags GE are written, and those of the last comparison although the mask names one of them. *)
Lemma cpsr_write_read_witness : ∃ env', cpsr_write example_state 0x480a0010 0x480f0000 = Some env' ∧ cpsr_ok env' ∧ cpsr_read env' = 0x480a0010.
Proof.
  pose proof (cpsr_write_read example_state 0x480a0010 0x480f0000 example_state_ok ltac:(done)) as H.
  destruct (cpsr_write example_state 0x480a0010 0x480f0000) as [env'|] eqn:E; [|by vm_compute in E].
  destruct H as (_ & Hok & Hr). exists env'. split_and!; [done..|]. rewrite Hr. by vm_compute.
Defined.
