(* ===== verification/PipelineTheorems.v ===== *)
(** The out-of-order pipeline as a whole: what the theorems of the stages say about a run. *)

From Stdlib Require Import ZArith Lia String.
From stdpp Require Import base tactics functions option list gmap.
From S2P Require Import Prelude DList Config Double InstQueue InstQueueRep InstQueueInit CacheSim Darm Inst InstTheorems Rob TraceAnalyzer BufferManager PipelineInv PipelineCommit PipelineExec PipelineRing PipelineIssue PipelineTrace PipelineExpand PipelineCycle PipelineRun Record.

(** ** A machine to try things on *)

(** The static variables of the analyzer at program start. *)
Definition zero_ta : TA :=
  MkTA zero_queues ∅ 1 (MkROB (replicate 60 None) 0 0 0 0) (replicate 60 (replicate 60 false)) []
    0 0 0 0 0 0 0 0 0 0 0 0 0 0 0 0 0 0 0 0 0 [] 0 0 0 0 0 dzero 0 0 0 0 None 0 0.

Definition example_cache (lat : Z) : cache_config :=
  {| perfect := 0; num_set := 64; size_blk := 32; cc_assoc := 4; replacement_policy := []; cc_latency := lat |}.

Definition example_config : perfmodel_config :=
  {| sample := {| sample_length := 1000; default_period := 100000; initial_effective_dispatch_width := dzero |};
     core := {| frontend_width := 3; backend_width := 8; rob_size := 40; iq_size := 32 |};
     numfu := {| numfu_intalu := 2; numfu_intmultdiv := 1; numfu_mem_rwport := 1 |};
     latency := {| lat_intalu := 1; lat_branch := 1; lat_intmult := 3; lat_intdiv := 12; lat_mem := 2; lat_coproc := 1 |};
     etc := {| syscall_penalty := 0 |};
     dl1 := example_cache 2; il1 := example_cache 2; ul2 := example_cache 20;
     mem := {| mem_latency := 100 |};
     bpred := {| bimod_table_size := 2048; mispredict_penalty := 15 |};
     existDL1 := true; existIL1 := true; existUL2 := true |}.

Lemma zero_ta_blank : blank zero_ta.
Proof. constructor; try done. split; [done|]. by apply Forall_replicate. Qed.

Lemma example_sensible : sensible example_config.
Proof. constructor; simpl; lia. Qed.

(** ** Runs *)

Section Runs.
Context (junk : Inst) (shl_32 : Z → Z) (ctz_0 : Z).
Context (Hjs : length (src_reg junk) = 16%nat) (Hjd : length (dst_reg junk) = 16%nat)
  (Hja : length (eff_addr junk) = 16%nat).

(** A sample: the events are recorded and the trace is analyzed. *)
Definition run_sample (fuel : nat) (es : list event) (b : BM) : option (Z * Z * BM) :=
  b ← record_events junk es b;
  '(last, penalty, s) ← trace_analysis junk shl_32 ctz_0 fuel (ta b) 0;
  Some (last, penalty, b <| ta := s |>).

(** One sample after the other. *)
Fixpoint run_samples (fuel : nat) (ess : list (list event)) (b : BM) : option (list (Z * Z) * BM) :=
  match ess with
  | [] => Some ([], b)
  | es :: ess =>
      '(last, penalty, b) ← run_sample fuel es b;
      '(rs, b) ← run_samples fuel ess b;
      Some ((last, penalty) :: rs, b)
  end.

(** A sample the buffer can hold, of instructions that can be decoded, whose recording makes
    sense on a list of instructions. *)
Definition good_sample (lat : Z) (fuel : nat) (es : list event) : Prop :=
  Forall (event_decodes junk shl_32 ctz_0) es ∧
  ∃ l, spec_events junk es [] = Some l ∧ Z.of_nat (length l) + 16 ≤ 1000001 ∧
    inst_bound lat * Z.of_nat (length l) < Z.of_nat fuel ∧ inst_bound lat * Z.of_nat (length l) + 1 < 2 ^ 30.

(** What a sample reports. *)
Definition good_result (fuel : nat) (r : Z * Z) : Prop :=
  1 ≤ r.1 ≤ Z.of_nat fuel ∧ 0 ≤ r.2 ≤ 40.

Section Caps.
Context (caps : qid → Z) (Hcap : caps TRACE = 1000001).
Local Abbreviation recording := (@recording (capped QV caps) shl_32 ctz_0).

Lemma run_sample_ok fuel es b V T :
  recording b V T [] → good_sample (latency_l1_miss (ta b)) fuel es →
  ∃ last penalty b' V' T', run_sample fuel es b = Some (last, penalty, b') ∧ recording b' V' T' [] ∧
    good_result fuel (last, penalty) ∧ insts (ta b') = ∅ ∧
    num_committed_insts (ta b') = num_fetched_insts (ta b') ∧ latency_l1_miss (ta b') = latency_l1_miss (ta b).
Proof.
  intros HR (Hd & l & Hl & Hroom & Hf & Hb).
  destruct (record_events_ok junk shl_32 ctz_0 Hjs Hjd Hja es b V T [] l HR Hd Hl) as (b1 & V1 & tr & E1 & HR1 & El & Hfp & Hlat).
  { right. destruct (ld_qv _ _ _ _ _ _ _ (re_loaded _ _ _ _ _ _ HR)) as [_ Hc]. unfold queue. rewrite Hc, Hcap. done. }
  subst l. rewrite length_fmap in *. rewrite <-Hlat in Hf, Hb.
  destruct (trace_analysis_run junk shl_32 ctz_0 Hjs Hjd Hja fuel (ta b1) V1 T tr (re_loaded _ _ _ _ _ _ HR1) Hf Hb)
    as (last & penalty & s' & V' & T' & E2 & Hld & HT & Hcm & Hi & Hlast & Hcy & Hp & Hlat').
  exists last, penalty, (b1 <| ta := s' |>), V', T'. unfold run_sample. rewrite E1. bs. rewrite E2. bs.
  split; [done|]. split; [|split; [|split; [done|split; [done|]]]].
  - split; [done|done|]. change (fp (b1 <| ta := s' |>)) with (fp b1). apply HR1.
  - split; [simpl; lia|done].
  - simpl. congruence.
Qed.

Lemma run_samples_ok fuel ess b V T :
  recording b V T [] → Forall (good_sample (latency_l1_miss (ta b)) fuel) ess → insts (ta b) = ∅ →
  ∃ rs b' V' T', run_samples fuel ess b = Some (rs, b') ∧ recording b' V' T' [] ∧
    length rs = length ess ∧ Forall (good_result fuel) rs ∧ insts (ta b') = ∅.
Proof.
  revert b V T. induction ess as [|es ess IH]; intros b V T HR Hg Hi; simpl; [by exists [], b, V, T|].
  apply Forall_cons in Hg as [Hg Hgs].
  destruct (run_sample_ok fuel es b V T HR Hg) as (last & penalty & b1 & V1 & T1 & -> & HR1 & Hr & Hi1 & _ & Hlat). bs.
  rewrite <-Hlat in Hgs. destruct (IH b1 V1 T1 HR1 Hgs Hi1) as (rs & b' & V' & T' & -> & HR' & Hlen & Hrs & Hi'). bs.
  eexists _, b', V', T'. split; [done|]. split; [done|]. split; [by rewrite <-Hlen|]. by split; [constructor|].
Qed.
End Caps.

End Runs.

(** [add r0, r1, r2; ldr r3, [r0]; push {r4, lr}; b], the branch mispredicted; then [mul]. *)
Definition example_sample : list event :=
  [ECode 0 32768 3766550530 L1Hit; ECode 1 32772 3851431936 L1Hit; EAddr 65536 L1Miss;
   ECode 2 32776 3912056848 L1Hit; EAddr 131064 L1Hit; EAddr 131068 L1Hit;
   ECode 3 32780 3925868544 L1Hit; EBpred false].


(** ** Stages *)

(** Three instructions in flight, across the end of a reorder buffer of four entries: one
    that has been written back, one waiting, and one that needs the second. *)
Definition waiting (idx : Z) : Inst := zero_inst <| state := Dispatch |> <| decoded := true |> <| rob_idx := idx |>.
Definition example_flight : list pinst :=
  [(1%positive, (waiting 3) <| state := Complete |>); (2%positive, waiting 0); (3%positive, waiting 1)].

Definition example_queues : QMem :=
  default zero_queues ('(m, _) ← push_back_inst zero_queues IQ 2; '(m, _) ← push_back_inst m IQ 3; Some m).

Definition example_machine : TA :=
  zero_ta <| qm := example_queues |> <| insts := list_to_map example_flight |> <| ibrk := 4%positive |>
    <| rob := MkROB (<[0%nat := Some 2%positive]> (<[1%nat := Some 3%positive]> (<[3%nat := Some 1%positive]> (replicate 60 None)))) 3 2 3 4 |>
    <| dep_mat := <[1%nat := <[0%nat := true]> (replicate 60 false)]> (replicate 60 (replicate 60 false)) |>
    <| fu := [init_FU SimpleALU 2 2; init_FU ComplexALU 1 3; init_FU FPUnit 2 10; init_FU LoadUnit 1 1;
              init_FU StoreUnit 1 3; init_FU BranchUnit 1 1; init_FU EtcUnit 1 1] |>
    <| dispatch_width := 3 |> <| issue_width := 8 |> <| wb_width := 8 |> <| commit_width := 8 |>
    <| num_inst_type := replicate 13 0 |> <| num_fetched_insts := 3 |> <| num_dispatched_insts := 3 |>.

Lemma example_queues_rep :
  ∃ V T, QV example_queues V T ∧ (∀ q, T q = true) ∧ (V IQ).*2 = [Some 2%positive; Some 3%positive] ∧
    (∀ q, q ≠ IQ → V q = []) ∧ (∀ q, capacity (queues example_queues q) = 0).
Proof.
  destruct (law_push_back zero_queues _ _ IQ 2 zero_queues_rep) as (m1 & e1 & E1 & H1 & C1 & _); [done|done|by left|].
  destruct (law_push_back m1 _ _ IQ 3 H1) as (m2 & e2 & E2 & H2 & C2 & _); [done|done|left; by rewrite C1|].
  assert (E : example_queues = m2) by (unfold example_queues; rewrite E1; bs; rewrite E2; done).
  rewrite E. eexists _, _. split; [exact H2|]. split; [done|]. split; [done|]. split.
  - by intros [].
  - intros q. by rewrite C2, C1.
Qed.

Lemma example_machine_inv shl_32 ctz_0 :
  ∃ V T, Inv QV 0 (decodable shl_32 ctz_0) example_machine V T [] example_flight.
Proof.
  destruct example_queues_rep as (V & T & HQ & HT & Hiq & Hem & Hcap). exists V, T.
  assert (Hv : ∀ q, q ≠ IQ → V q = []) by done.
  constructor; try done.
  - by rewrite Hv.
  - by rewrite Hiq.
  - by rewrite Hv.
  - by rewrite Hv.
  - by rewrite Hv.
  - repeat constructor; set_solver.
  - intros p Hp. repeat (apply elem_of_cons in Hp as [->|Hp]; [done|]). by apply elem_of_nil in Hp.
  - split; simpl; try lia; try done. intros [|[|[|k]]] x; simpl; try done; intros [= <-]; done.
  - split; [done|]. change (dep_mat example_machine) with (<[1%nat := <[0%nat := true]> (replicate 60 false)]> (replicate 60 (replicate 60 false))).
    apply Forall_insert; [by apply Forall_replicate|done].
  - split; [done|]. intros [] f [= <-]; simpl; split_and!; lia || done.
  - repeat constructor; done || lia.
  - exists [], []. split; [done|]. split; [done|]. split; [done|]. left. by apply Hcap.
Qed.

(** C6: Commit is in order: [commit_insts] takes the longest prefix of the instructions in
    flight, oldest first, whose results have been written back, but at most [commit_width]
    of them; they leave the reorder buffer and the load and store queues, their memory is
    released, the committed counter grows by their number, and everything younger stays. *)
Theorem commit_in_order lat decodes s V T tr R :
  Inv QV lat decodes s V T tr R →
  ∃ s' V' n, commit_insts s = Some s' ∧ Inv QV lat decodes s' V' T tr (drop n R) ∧
    Z.of_nat n ≤ commit_width s ∧ Forall retired (take n R) ∧
    (Z.of_nat n < commit_width s → ∀ x R', drop n R = x :: R' → ¬ retired x) ∧
    insts s' = list_to_map (tr ++ drop n R) ∧
    num_committed_insts s' = num_committed_insts s + Z.of_nat n.
Proof.
  intros HI. pose proof (cfg_commit _ _ (inv_cfg _ _ _ _ _ _ _ _ HI)) as Hw.
  destruct (commit_loop_inv lat decodes (Z.to_nat (commit_width s)) s V T tr R HI)
    as (s' & V' & n & He & HI' & Hn & _ & Hr & _ & _ & Hc & _ & Hmax).
  exists s', V', n. split; [done|]. split; [done|]. split; [lia|]. split; [done|]. split; [intros ? x R'; apply Hmax; lia|].
  split; [apply HI'|done].
Qed.

Lemma commit_in_order_witness :
  ∃ s' n, commit_insts example_machine = Some s' ∧ insts s' = list_to_map (drop n example_flight) ∧
    num_committed_insts s' = Z.of_nat n.
Proof.
  destruct (example_machine_inv (λ _, 0) 32) as (V & T & HI).
  destruct (commit_in_order _ _ _ _ _ _ _ HI) as (s' & V' & n & He & _ & _ & _ & _ & Hi & Hc).
  exists s', n. split; [exact He|]. split; [exact Hi|exact Hc].
Defined.

(** C7: No cycle is wasted: while instructions remain, one pass over the stages (commit,
    write-back, execution, issue, dispatch) succeeds, keeps the invariant of the machine and
    strictly reduces the work that is left, so the machine can neither get stuck nor run
    forever; every unit can accept instructions again and the clock advances by one. *)
Theorem cycle_makes_progress lat junk shl_32 ctz_0 s V T tr R :
  length (src_reg junk) = 16%nat → length (dst_reg junk) = 16%nat → length (eff_addr junk) = 16%nat →
  Inv QV lat (decodable shl_32 ctz_0) s V T tr R → fresh_units s →
  ∃ s' V' T' tr' R', one_cycle junk shl_32 ctz_0 s = Some s' ∧
    Inv QV lat (decodable shl_32 ctz_0) s' V' T' tr' R' ∧ fresh_units s' ∧
    cur_cycle s' = u64 (cur_cycle s + 1) ∧ (tr ++ R ≠ [] → 0 ≤ work lat tr' R' < work lat tr R).
Proof.
  intros H1 H2 H3 HI Hf.
  destruct (one_cycle_inv lat junk shl_32 ctz_0 H1 H2 H3 s V T tr R HI Hf)
    as (s' & V' & T' & tr' & R' & He & HI' & Hf' & Hc & _ & Hlt & _).
  exists s', V', T', tr', R'. split; [done|]. split; [done|]. split; [done|]. split; [done|]. intros Hne.
  pose proof (work_bound lat junk shl_32 ctz_0 H1 H2 H3 s' V' T' tr' R' HI'). specialize (Hlt Hne). lia.
Qed.

Lemma cycle_makes_progress_witness :
  ∃ s', one_cycle zero_inst (λ _, 0) 32 example_machine = Some s' ∧ cur_cycle s' = 1.
Proof.
  destruct (example_machine_inv (λ _, 0) 32) as (V & T & HI).
  destruct (cycle_makes_progress 0 zero_inst (λ _, 0) 32 _ _ _ _ _ eq_refl eq_refl eq_refl HI)
    as (s' & _ & _ & _ & _ & He & _ & _ & Hc & _).
  - repeat constructor.
  - exists s'. split; [exact He|]. rewrite Hc. reflexivity.
Defined.

(** C27: [has_dependency] is exact: an instruction at position [k] of the reorder buffer waits
    exactly when one of the older instructions in it is marked in the dependency matrix, has
    no result to forward yet, and lies at a smaller index of the circular buffer. *)
Theorem has_dependency_exact lat decodes s V T tr R k b :
  Inv QV lat decodes s V T tr R → R !! k = Some b →
  has_dependency s b.1 = Some (existsb (blocks s b.2) (take k R)).
Proof.
  intros HI Hk. apply (has_dependency_spec s R (inv_ring _ _ _ _ _ _ _ _ HI) (inv_dep _ _ _ _ _ _ _ _ HI)); [|done].
  intros x Hx. by eapply inv_get.
Qed.

Lemma has_dependency_exact_witness : has_dependency example_machine 3 = Some true.
Proof.
  destruct (example_machine_inv (λ _, 0) 32) as (V & T & HI).
  exact (has_dependency_exact _ _ _ _ _ _ _ 2 (3%positive, waiting 1) HI eq_refl).
Defined.

(** The age test of the dependency matrix is wrong across the end of the circular buffer:
    for an entry that is older than another one, [in_order] answers whether its index is
    smaller, so it denies the order of every pair of which only the younger one has wrapped
    around (and the dependency between them is ignored). *)
Theorem in_order_ignores_wrap r R k k' :
  ring_ok r R → (k < k')%nat → (k' < length R)%nat →
  in_order (start_idx r) (slot r k) (slot r k') = (slot r k <? slot r k') ∧
  (start_idx r + Z.of_nat k < rob_cap r → rob_cap r ≤ start_idx r + Z.of_nat k' →
   in_order (start_idx r) (slot r k) (slot r k') = false).
Proof.
  intros Hr Hk Hk'. pose proof (ring_len _ _ Hr) as Hl.
  assert (E : in_order (start_idx r) (slot r k) (slot r k') = (slot r k <? slot r k')) by (apply in_order_slots; [apply Hr|done|lia]).
  split; [done|]. intros H1 H2. rewrite E. apply Z.ltb_ge.
  rewrite (slot_cases r (ring_start _ _ Hr) k), (slot_cases r (ring_start _ _ Hr) k') by lia. destruct Hr.
  repeat case_decide; lia.
Qed.

Lemma in_order_ignores_wrap_witness : in_order 3 3 0 = false.
Proof.
  destruct (example_machine_inv (λ _, 0) 32) as (V & T & HI).
  apply (in_order_ignores_wrap (rob example_machine) example_flight 0 1 (inv_ring _ _ _ _ _ _ _ _ HI));
    [lia|vm_compute; lia|reflexivity|discriminate].
Defined.
