(* ===== verification/BufferTheorems.v ===== *)
(** The trace buffer: recording, and reading a log back. *)

From Stdlib Require Import ZArith Lia String Ascii.
From stdpp Require Import base tactics functions option list gmap.
From S2P Require Import Prelude Config InstQueue InstQueueRep InstQueueInit CacheSim Darm Inst InstTheorems Rob TraceAnalyzer BufferManager BufferText PipelineInv PipelineExpand PipelineRun Record PipelineTheorems.

(** Everything the processor reports fits into 32 bits. *)
Definition event_wf (e : event) : Prop :=
  match e with
  | ECode seq_ pc_ code_ _ => 0 ≤ seq_ < 2 ^ 32 ∧ 0 ≤ pc_ < 2 ^ 32 ∧ 0 ≤ code_ < 2 ^ 32
  | EBpred _ => True
  | EAddr addr _ => 0 ≤ addr < 2 ^ 32
  end.

Section Replay.
Context {Q : QMem → view → tails → Prop} {QL : QueueLaws Q}.
Context (junk : Inst) (shl_32 : Z → Z) (ctz_0 : Z).
Context (Hjs : length (src_reg junk) = 16%nat) (Hjd : length (dst_reg junk) = 16%nat)
  (Hja : length (eff_addr junk) = 16%nat).
Local Abbreviation recording := (@recording Q shl_32 ctz_0).

(** A line of the log does what the event it was printed for did. *)
Lemma read_event_line e b :
  event_wf e →
  read_line junk (event_line e) b =
    ('(ok, b) ← record_event junk e b; Some (match e with ECode _ _ _ _ => ok | _ => true end, b)).
Proof.
  destruct e as [seq_ pc_ code_ miss|correct|addr miss]; simpl.
  - intros (H1 & H2 & H3). rewrite read_code_line by done. by destruct (push_code junk b seq_ pc_ code_ miss) as [[]|].
  - intros _. rewrite read_bpred_line. by destruct (push_bpred b correct) as [[]|].
  - intros H. rewrite read_memaddr_line by done. by destruct (push_memaddr b addr miss) as [[]|].
Qed.

Lemma recording_fp b V T tr f : recording b V T tr → f ≠ Some Closed → recording (b <| fp := f |>) V T tr.
Proof. by intros [] ?. Qed.

Lemma read_lines_ok es b V T tr l :
  recording b V T tr → Forall (event_decodes junk shl_32 ctz_0) es → Forall event_wf es →
  spec_events junk es tr.*2 = Some l → fits_trace b (length l) →
  ∃ b' V' tr', read_lines junk (event_line <$> es) b = Some b' ∧ recording b' V' T tr' ∧ tr'.*2 = l ∧
    fp b' = Some (Reading []).
Proof.
  revert b V tr. induction es as [|e es IH]; intros b V tr HR Hd Hw Hs Hfit.
  { injection Hs as <-. eexists _, V, tr. split; [done|]. split; [by apply recording_fp|done]. }
  apply Forall_cons in Hd as [Hd Hds]. apply Forall_cons in Hw as [Hw Hws]. simpl in Hs.
  destruct (spec_event junk e tr.*2) as [l1|] eqn:E; [|done]. simpl in Hs.
  assert (Hlen : (length l1 ≤ length l)%nat) by (by eapply spec_events_length). cbn [fmap list_fmap read_lines].
  set (b0 := b <| fp := Some (Reading (event_line <$> es)) |>).
  assert (HR0 : recording b0 V T tr) by (by apply recording_fp).
  destruct (event_ok junk shl_32 ctz_0 Hjs Hjd Hja e b0 V T tr l1 HR0 Hd E) as (b1 & V1 & tr1 & E1 & HR1 & El & Hfp & _ & Hc).
  { destruct Hfit; [by left|right]. change (queue (ta b0) TRACE) with (queue (ta b) TRACE). lia. }
  rewrite read_event_line, E1 by done. bs. rewrite <-El in Hs.
  destruct (IH b1 V1 tr1 HR1 Hds Hws Hs) as (b' & V' & tr' & Hb' & HR' & El' & Hfp').
  { unfold fits_trace. by rewrite Hc. }
  exists b', V', tr'. split; [|done]. by destruct e.
Qed.
End Replay.

Section Theorems.
Context (junk : Inst) (shl_32 : Z → Z) (ctz_0 : Z).
Context (Hjs : length (src_reg junk) = 16%nat) (Hjd : length (dst_reg junk) = 16%nat)
  (Hja : length (eff_addr junk) = 16%nat).
Local Abbreviation recording := (@recording QV shl_32 ctz_0).

(** C23: The trace buffer records what the processor reports: pushing a sequence of
    instructions, branch outcomes and addresses leaves exactly the list of instructions the
    sequence describes (each with the outcome and the addresses reported after it, its cache
    miss level the worst of them), in order, and writes one line to the log for each event. *)
Theorem buffer_records es b V T tr l :
  recording b V T tr → Forall (event_decodes junk shl_32 ctz_0) es →
  spec_events junk es tr.*2 = Some l → fits_trace b (length l) →
  ∃ b' V' tr', record_events junk es b = Some b' ∧ recording b' V' T tr' ∧ tr'.*2 = l ∧
    get_current_queue_size (queue (ta b') TRACE) = Z.of_nat (length l) ∧
    fp b' = logged (fp b) (event_line <$> es).
Proof.
  intros HR Hd Hs Hf.
  destruct (record_events_ok junk shl_32 ctz_0 Hjs Hjd Hja es b V T tr l HR Hd Hs Hf) as (b' & V' & tr' & He & HR' & El & Hfp & _).
  exists b', V', tr'. split; [done|]. split; [done|]. split; [done|]. split; [|done].
  pose proof (re_loaded _ _ _ _ _ _ HR') as Hld. unfold get_current_queue_size, queue.
  rewrite (law_size _ _ _ TRACE (ld_qv _ _ _ _ _ _ _ Hld)), <-(length_fmap snd), (ld_trace _ _ _ _ _ _ _ Hld), <-El.
  by rewrite !length_fmap.
Qed.

(** C18: A log can be replayed: when one machine records a sequence of events into a new log,
    a second machine that reads this log with [fill_trace_buffer_from_file] ends up with
    the same list of instructions in its buffer, and returns their number. *)
Theorem log_round_trip es b1 V1 T1 b2 V2 T2 l :
  recording b1 V1 T1 [] → fp b1 = Some (Writing []) →
  recording b2 V2 T2 [] → on_the_fly_inst b2 = None →
  Forall (event_decodes junk shl_32 ctz_0) es → Forall event_wf es → spec_events junk es [] = Some l →
  fits_trace b1 (length l) → fits_trace b2 (length l) →
  ∃ b1' lines b2' V' tr',
    record_events junk es b1 = Some b1' ∧ fp b1' = Some (Writing lines) ∧
    fill_trace_buffer_from_file junk (b2 <| fp := Some (Reading lines) |>) = Some (Z.of_nat (length l), b2') ∧
    recording b2' V' T2 tr' ∧ tr'.*2 = l.
Proof.
  intros HR1 Hf1 HR2 Hfly Hd Hw Hs Hfit1 Hfit2.
  destruct (record_events_ok junk shl_32 ctz_0 Hjs Hjd Hja es b1 V1 T1 [] l HR1 Hd Hs Hfit1) as (b1' & V1' & tr1 & E1 & _ & _ & Hfp & _).
  destruct (read_lines_ok junk shl_32 ctz_0 Hjs Hjd Hja es (b2 <| fp := Some (Reading (event_line <$> es)) |>) V2 T2 [] l)
    as (b2' & V2' & tr2 & E2 & HR2' & El & _); try done.
  { by apply recording_fp. }
  exists b1', (event_line <$> es), b2', V2', tr2. split; [done|]. split; [by rewrite Hfp, Hf1|]. split; [|done].
  unfold fill_trace_buffer_from_file. change (on_the_fly_inst (_ <| fp := _ |>)) with (on_the_fly_inst b2). rewrite Hfly. bs.
  change (fp (_ <| fp := _ |>)) with (Some (Reading (event_line <$> es))). bs. rewrite E2. bs. pose proof (re_loaded _ _ _ _ _ _ HR2') as Hld. unfold get_current_queue_size, queue.
  rewrite (law_size _ _ _ TRACE (ld_qv _ _ _ _ _ _ _ Hld)), <-(length_fmap snd), (ld_trace _ _ _ _ _ _ _ Hld), <-El.
  by rewrite !length_fmap.
Qed.
End Theorems.

(** Two machines after start-up. *)
Lemma booted f : f ≠ Some Closed → ∃ b V T, @recording QV (λ _, 0) 32 b V T [] ∧ fp b = f ∧ on_the_fly_inst b = None ∧
  capacity (queue (ta b) TRACE) = 1000001.
Proof.
  intros Hf. destruct (init_loaded (λ _, 0) 32 example_config zero_ta f None zero_ta_blank example_sensible) as (s1 & V & T & _ & Hld & HT & _).
  exists (init_trace_buffer (MkBM s1 f None)), V, T. split; [|done]. split; [|done|done].
  destruct Hld as [? [HQ _]]. by constructor.
Qed.

(** What the example describes. *)
Definition example_list : list Inst := Eval vm_compute in default [] (spec_events zero_inst example_sample []).

Lemma buffer_records_witness :
  ∃ b b', record_events zero_inst example_sample b = Some b' ∧ get_current_queue_size (queue (ta b') TRACE) = 4.
Proof.
  destruct (booted None) as (b & V & T & HR & _ & _ & Hc); [done|].
  destruct (buffer_records zero_inst (λ _, 0) 32 eq_refl eq_refl eq_refl example_sample b V T []
    example_list HR) as (b' & V' & tr' & He & _ & _ & Hn & _).
  - repeat apply Forall_cons_2; try apply Forall_nil_2; try exact I; eexists; vm_compute; reflexivity.
  - vm_compute. reflexivity.
  - right. rewrite Hc. vm_compute. discriminate.
  - exists b, b'. split; [exact He|exact Hn].
Defined.

Lemma log_round_trip_witness :
  ∃ b1 b1' lines b2 b2', record_events zero_inst example_sample b1 = Some b1' ∧ fp b1' = Some (Writing lines) ∧
    fill_trace_buffer_from_file zero_inst (b2 <| fp := Some (Reading lines) |>) = Some (4, b2').
Proof.
  destruct (booted (Some (Writing []))) as (b1 & V1 & T1 & HR1 & Hf1 & _ & Hc1); [done|].
  destruct (booted None) as (b2 & V2 & T2 & HR2 & _ & Hy2 & Hc2); [done|].
  destruct (log_round_trip zero_inst (λ _, 0) 32 eq_refl eq_refl eq_refl example_sample b1 V1 T1 b2 V2 T2
    example_list HR1 Hf1 HR2 Hy2) as (b1' & lines & b2' & _ & _ & H1 & H2 & H3 & _).
  - repeat apply Forall_cons_2; try apply Forall_nil_2; try exact I; eexists; vm_compute; reflexivity.
  - repeat apply Forall_cons_2; try apply Forall_nil_2; try exact I; simpl; lia.
  - vm_compute. reflexivity.
  - right. rewrite Hc1. vm_compute. discriminate.
  - right. rewrite Hc2. vm_compute. discriminate.
  - exists b1, b1', lines, b2, b2'. split; [exact H1|]. split; [exact H2|exact H3].
Defined.
