(* ===== verification/Perfmodel.v ===== *)
(** The performance model (hsim-stub/perfmodel.c): cycles estimated from the instruction
    count, the simulated misses, and rates measured on samples. *)

From Stdlib Require Import ZArith Lia String Ascii.
From Stdlib Require Import Floats.SpecFloat.
From stdpp Require Import base tactics option list.
From S2P Require Import Prelude Double Config Cache CacheSim Bpred.

(** An [int] result; anything else is signed overflow. *)
Definition int_op (z : Z) : option Z := if (- 2 ^ 31 <=? z) && (z <? 2 ^ 31) then Some z else None.

Record SampledStat := MkStat {
  st_insts : Z;
  st_il1_miss : Z;
  st_dl1_miss : Z;
  st_ul2_miss : Z;
  st_mispred : Z;
}.

#[export] Instance SampledStat_settable : Settable SampledStat := λ s,
  MkStat (st_insts s) (st_il1_miss s) (st_dl1_miss s) (st_ul2_miss s) (st_mispred s).

(** The global variables. *)
Record PM := MkPM {
  sum_effective_dispatch_width : double;
  sum_bpred_penalty : Z;
  num_sampling : Z;
  num_total_branch : Z;
  num_insts : Z;
  effective_dispatch_width : double;
  bpred_penalty : Z;
  sample_stat : SampledStat;
  sum_ipc : double;
  num_ipc : Z;
}.

#[export] Instance PM_settable : Settable PM := λ s,
  MkPM (sum_effective_dispatch_width s) (sum_bpred_penalty s) (num_sampling s) (num_total_branch s)
    (num_insts s) (effective_dispatch_width s) (bpred_penalty s) (sample_stat s) (sum_ipc s) (num_ipc s).

(** Zero-initialised. *)
Definition pm0 : PM := MkPM dzero 0 0 0 0 dzero 0 (MkStat 0 0 0 0 0) dzero 0.

(** ** The command line *)

(** [strcpy (command, buf)] or [strcat (command, buf)] of ["%s "], into [size] bytes; [buf] has
    the same size. *)
Definition append_arg (size : nat) (command : string) (arg : string) : option string :=
  let buf := (arg ++ " ")%string in
  if (String.length buf <? size)%nat then
    let command := (command ++ buf)%string in
    if (String.length command <? size)%nat then Some command else None
  else None.

Fixpoint append_args (size : nat) (command : string) (args : list string) : option string :=
  match args with
  | [] => Some command
  | a :: args => c ← append_arg size command a; append_args size c args
  end.

(** The text in [command]; it stays unset when there are no arguments. *)
Definition build_command (argv : list string) : option string :=
  let command_length := foldr (λ a n, (String.length a + 1 + n)%nat) 0%nat argv in
  append_args command_length "" (tail argv).

(** ** Initialisation *)

Section Init.
Variables (junk_blk : Cache_blk_t) (junk_set : Cache_set_t) (junk : Cache_t).
Variable wide_shift : Z → Z.

(** The configuration file is loaded, then the caches and the predictor are set up. *)
Definition perfmodel_initialize (doc : option xmlNode) (perfmodel : perfmodel_config) (argv : list string) (h : Heap)
  : option (perfmodel_config * PM * Heap * CacheSim * bpred_t * string) :=
  let s := pm0 <| num_insts := 0 |> in
  '(_, perfmodel) ← load_configfile doc perfmodel;
  command ← build_command argv;
  let s := s <| bpred_penalty := u32 (mispredict_penalty (bpred perfmodel)) |>
             <| effective_dispatch_width := initial_effective_dispatch_width (sample perfmodel) |> in
  '(h, c) ← cachesim_initialize junk_blk junk_set junk perfmodel h;
  Some (perfmodel, s, h, c, bpredsim_initialize wide_shift, command).
End Init.

(** ** Estimates *)

(** The terms, each in its C type before it is added as a [double]. *)
Definition base_cycles (s : PM) : double := ddiv (of_int (num_insts s)) (effective_dispatch_width s).
Definition il1_cycles (c : CacheSim) : Z := u64 (cachesim_il1_num_miss c * cachesim_il1_miss_latency c).
Definition ul2_cycles (c : CacheSim) : Z := u64 (cachesim_ul2_num_miss c * cachesim_ul2_miss_latency c).
Definition bpred_cycles (s : PM) (p : bpred_t) : Z := u32 (bpredsim_num_mispred p * bpred_penalty s).

Definition perfmodel_getCycle (s : PM) (c : CacheSim) (p : bpred_t) : option Z :=
  to_u64 (dadd (dadd (dadd (base_cycles s) (of_int (il1_cycles c))) (of_int (ul2_cycles c)))
    (of_int (bpred_cycles s p))).

Definition perfmodel_getSimpleCycle (s : PM) (c : CacheSim) (p : bpred_t) : option Z :=
  to_u64 (dadd (dadd (base_cycles s) (of_int (il1_cycles c))) (of_int (bpred_cycles s p))).

(** ** Samples *)

(** [enable_save_files] is 0: no trace file is opened or closed. *)
Definition perfmodel_sample_start (s : PM) (c : CacheSim) (p : bpred_t) : PM :=
  s <| sample_stat := MkStat (s32 (num_insts s)) (s32 (cachesim_il1_num_miss c)) (s32 (cachesim_dl1_num_miss c))
         (s32 (cachesim_ul2_num_miss c)) (bpredsim_num_mispred p) |>.

(** Differences are taken in 64 bits and stored as an [int]; [num_dl1_miss] is left as it is. *)
Definition perfmodel_sample_end (s : PM) (c : CacheSim) (p : bpred_t) : option PM :=
  let st := sample_stat s in
  m ← int_op (bpredsim_num_mispred p - st_mispred st);
  Some (s <| sample_stat := MkStat (s32 (u64 (num_insts s - st_insts st)))
         (s32 (u64 (cachesim_il1_num_miss c - st_il1_miss st))) (st_dl1_miss st)
         (s32 (u64 (cachesim_ul2_num_miss c - st_ul2_miss st))) m |>).

Definition perfmodel_update (s : PM) (_cycle _bpred_penalty : Z) : option PM :=
  let l_num_insts := st_insts (sample_stat s) in
  let l_num_mispred := st_mispred (sample_stat s) in
  let D := ddiv (of_int l_num_insts) (of_int _cycle) in
  n ← int_op (num_ipc s + 1);
  let s := s <| sum_ipc := dadd (sum_ipc s) D |> <| num_ipc := n |> in
  s ← (if negb (_bpred_penalty =? 0) then
         q ← int_op (l_num_mispred * _bpred_penalty);
         q ← int_op (sum_bpred_penalty s + q);
         b ← int_op (num_total_branch s + l_num_mispred);
         Some (s <| sum_bpred_penalty := q |> <| num_total_branch := b |>)
       else Some s);
  k ← int_op (num_sampling s + 1);
  let s := s <| sum_effective_dispatch_width := dadd (sum_effective_dispatch_width s) (ddiv done_ D) |>
             <| num_sampling := k |> in
  let s := s <| effective_dispatch_width := ddiv (of_int k) (sum_effective_dispatch_width s) |> in
  if negb (num_total_branch s =? 0) then
    q ← int_op (Z.quot (sum_bpred_penalty s) (num_total_branch s));
    Some (s <| bpred_penalty := u32 q |>)
  else Some s.

(** [free (command)], then the caches and the predictor are released. *)
Definition perfmodel_end (h : Heap) (c : CacheSim) : option Heap := cachesim_end h c.
