(* ===== verification/PerfmodelInv.v ===== *)
(** The estimates of the performance model stay in range: a sample never makes the measured
    dispatch width vanish or overflow, and the cycle count is always defined. *)

From Stdlib Require Import ZArith Lia Znumtheory.
From Stdlib Require Import Floats.SpecFloat.
From stdpp Require Import base tactics option list numbers.
From S2P Require Import Prelude Double DoubleRange DoublePos Config Cache CacheSim Bpred Perfmodel.

Lemma int_op_ok z : - 2 ^ 31 ≤ z < 2 ^ 31 → int_op z = Some z.
Proof. intros. unfold int_op. by rewrite (proj2 (Z.leb_le _ z)), (proj2 (Z.ltb_lt z _)) by lia. Qed.

(** ** Ranges of the rates *)

Record rates (s : PM) : Prop := {
  ra_width : spans (-30) (2 ^ 51) (effective_dispatch_width s);
  ra_num : 0 ≤ num_sampling s;
  ra_sum : num_sampling s = 0 ∧ sum_effective_dispatch_width s = dzero ∨
           1 ≤ num_sampling s ∧ spans (-20) (num_sampling s * 2 ^ 30) (sum_effective_dispatch_width s);
  ra_ipc : 0 ≤ num_ipc s;
  ra_branch : 0 ≤ num_total_branch s;
  ra_penalty : 0 ≤ sum_bpred_penalty s ≤ 40 * num_total_branch s;
}.

Lemma grid_mul j n : 0 ≤ j ≤ 100 → 0 ≤ n < 2 ^ 53 → grid j (n * 2 ^ j).
Proof.
  intros. pose proof (pow2_pos j ltac:(lia)). split; [lia|]. split; [|by exists n].
  rewrite Z.pow_add_r by lia. split; [lia|]. apply Z.mul_lt_mono_pos_r; lia.
Qed.

(** Instructions per cycle, and cycles per instruction. *)
Lemma sample_width n c :
  1 ≤ n ≤ 2 ^ 20 → 1 ≤ c ≤ 2 ^ 30 →
  spans (-30) (2 ^ 20) (ddiv (of_int n) (of_int c)) ∧
  spans (-20) (2 ^ 30) (ddiv done_ (ddiv (of_int n) (of_int c))).
Proof.
  intros Hn Hc. assert (HD : spans (-30) (2 ^ 20) (ddiv (of_int n) (of_int c))).
  { destruct (of_int_pos n) as (mx & ex & -> & Hex & Hmx); [lia|]. destruct (of_int_pos c) as (my & ey & -> & Hey & Hmy); [lia|].
    pose proof (of_int_scaled n _ _ Hex Hmx) as Hx. pose proof (of_int_scaled c _ _ Hey Hmy) as Hy. pose proof (pow2_pos K ltac:(done)).
    apply (div_between (-30) 20); [lia|apply (grid_mul 20 1); lia|lia|lia|rewrite Hx, Hy; nia|rewrite Hx, Hy].
    assert (E : 2 ^ K = 2 ^ 30 * 2 ^ (-30 + K)) by (rewrite <-Z.pow_add_r by (unfold K; lia); f_equal; lia).
    pose proof (pow2_pos (-30 + K) ltac:(unfold K; lia)).
    transitivity (2 ^ (-30 + K) * (2 ^ 30 * 2 ^ K)); [apply Z.mul_le_mono_nonneg_l; [lia|]; apply Z.mul_le_mono_nonneg_r; lia|].
    replace (2 ^ (-30 + K) * (2 ^ 30 * 2 ^ K)) with (1 * 2 ^ K * 2 ^ K) by (rewrite E at 1; lia).
    apply Z.mul_le_mono_nonneg_r; [lia|]. apply Z.mul_le_mono_nonneg_r; lia. }
  split; [done|]. destruct (ddiv (of_int n) (of_int c)) as [s| | |[] my ey]; try done. destruct HD as (Hey & Hlo & Hhi).
  assert (ey < 53 + 20) by (eapply (bounded_exponent 20 (2 ^ 20)); [apply (grid_mul 20 1); lia|unfold K; lia|exact Hhi]).
  unfold done_. destruct (of_int_pos 1) as (mx & ex & -> & Hex & Hmx); [lia|].
  pose proof (of_int_scaled 1 _ _ Hex Hmx) as Hx. rewrite Z.mul_1_l in Hx.
  assert (E : 2 ^ K = 2 ^ 30 * 2 ^ (-30 + K)) by (rewrite <-Z.pow_add_r by (unfold K; lia); f_equal; lia).
  assert (E' : 2 ^ K = 2 ^ (-20 + K) * 2 ^ 20) by (rewrite <-Z.pow_add_r by (unfold K; lia); f_equal; lia).
  pose proof (pow2_pos (-20 + K) ltac:(unfold K; lia)). pose proof (pow2_pos K ltac:(done)).
  apply (div_between (-20) 30); [lia|apply (grid_mul 30 1); lia|lia|lia|rewrite Hx, E; lia|rewrite Hx].
  transitivity (2 ^ (-20 + K) * (2 ^ 20 * 2 ^ K)); [apply Z.mul_le_mono_nonneg_l; lia|]. rewrite E' at 2. lia.
Qed.

(** The width over [k] samples. *)
Lemma mean_width k x :
  1 ≤ k < 2 ^ 31 → spans (-20) (k * 2 ^ 30) x → spans (-30) (2 ^ 51) (ddiv (of_int k) x).
Proof.
  intros Hk Hx. destruct x as [s| | |[] my ey]; try done. destruct Hx as (Hey & Hlo & Hhi).
  assert (ey < 53 + 30) by (eapply (bounded_exponent 30 (k * 2 ^ 30)); [apply grid_mul; lia|unfold K; lia|exact Hhi]).
  destruct (of_int_pos k) as (mx & ex & -> & Hex & Hmx); [lia|]. pose proof (of_int_scaled k _ _ Hex Hmx) as Hx.
  assert (E : 2 ^ K = 2 ^ 30 * 2 ^ (-30 + K)) by (rewrite <-Z.pow_add_r by (unfold K; lia); f_equal; lia).
  assert (E' : 2 ^ K = 2 ^ 20 * 2 ^ (-20 + K)) by (rewrite <-Z.pow_add_r by (unfold K; lia); f_equal; lia).
  pose proof (pow2_pos (-30 + K) ltac:(unfold K; lia)). pose proof (pow2_pos (-20 + K) ltac:(unfold K; lia)).
  pose proof (pow2_pos K ltac:(done)).
  apply (div_between (-30) 51); [lia|apply (grid_mul 51 1); lia|lia|lia| |]; rewrite Hx.
  - transitivity (2 ^ 31 * 2 ^ K); [apply Z.mul_le_mono_nonneg_r; lia|]. rewrite E'. lia.
  - transitivity (2 ^ (-30 + K) * (k * 2 ^ 30 * 2 ^ K)); [apply Z.mul_le_mono_nonneg_l; lia|].
    apply Z.eq_le_incl. rewrite E at 2. lia.
Qed.

Lemma perfmodel_update_ok s cycle penalty :
  rates s → 1 ≤ st_insts (sample_stat s) ≤ 2 ^ 20 → 1 ≤ cycle ≤ 2 ^ 30 → 0 ≤ penalty ≤ 40 →
  0 ≤ st_mispred (sample_stat s) → 40 * (num_total_branch s + st_mispred (sample_stat s)) < 2 ^ 31 →
  num_sampling s + 1 < 2 ^ 31 → num_ipc s + 1 < 2 ^ 31 →
  ∃ s', perfmodel_update s cycle penalty = Some s' ∧ rates s' ∧ num_insts s' = num_insts s ∧
    sample_stat s' = sample_stat s ∧ num_sampling s' = num_sampling s + 1 ∧ num_ipc s' = num_ipc s + 1 ∧
    num_total_branch s ≤ num_total_branch s' ≤ num_total_branch s + st_mispred (sample_stat s) ∧
    (bpred_penalty s' = bpred_penalty s ∨ 0 ≤ bpred_penalty s' ≤ 40).
Proof.
  intros [Hw Hn Hs Hi Hb Hp] Hin Hc Hpen Hm Ho Hk1 Hk2. unfold perfmodel_update.
  destruct (sample_width _ _ Hin Hc) as [_ Hcpi].
  assert (Hsum : spans (-20) ((num_sampling s + 1) * 2 ^ 30)
    (dadd (sum_effective_dispatch_width s) (ddiv done_ (ddiv (of_int (st_insts (sample_stat s))) (of_int cycle))))).
  { replace ((num_sampling s + 1) * 2 ^ 30) with (num_sampling s * 2 ^ 30 + 2 ^ 30) by lia.
    apply (add_between (-20) 30); [lia|lia| | |done|].
    - replace (num_sampling s * 2 ^ 30 + 2 ^ 30) with ((num_sampling s + 1) * 2 ^ 30) by lia. apply grid_mul; lia.
    - destruct Hs as [[_ ->]|[_ Hs]]; [done|]. by eapply between_within.
    - destruct Hs as [[_ ->]|[_ Hs]]; [by left|right; by eexists]. }
  pose proof (mean_width (num_sampling s + 1) _ ltac:(lia) Hsum) as Hmean.
  rewrite (int_op_ok (num_ipc s + 1)) by lia. cbn [mbind option_bind].
  set (D := ddiv (of_int (st_insts (sample_stat s))) (of_int cycle)) in *.
  set (s1 := s <| sum_ipc := _ |> <| num_ipc := _ |>).
  set (l := st_mispred (sample_stat s)) in *.
  assert (Hmid : ∃ q b, (if negb (penalty =? 0) then
         q ← int_op (l * penalty); q ← int_op (sum_bpred_penalty s1 + q); b ← int_op (num_total_branch s1 + l);
         Some (s1 <| sum_bpred_penalty := q |> <| num_total_branch := b |>) else Some s1) =
       Some (s1 <| sum_bpred_penalty := q |> <| num_total_branch := b |>) ∧
       0 ≤ q ≤ 40 * b ∧ num_total_branch s ≤ b ≤ num_total_branch s + l).
  { change (sum_bpred_penalty s1) with (sum_bpred_penalty s). change (num_total_branch s1) with (num_total_branch s).
    destruct (penalty =? 0); cbn [negb].
    - exists (sum_bpred_penalty s), (num_total_branch s). split; [by destruct s|lia].
    - assert (0 ≤ l * penalty ≤ 40 * l) by nia.
      rewrite int_op_ok by lia. cbn [mbind option_bind]. rewrite int_op_ok by lia. cbn [mbind option_bind].
      rewrite int_op_ok by lia. cbn [mbind option_bind]. eexists _, _. split; [reflexivity|lia]. }
  destruct Hmid as (q & b & -> & Hq & Hbb). cbn [mbind option_bind].
  change (num_sampling (s1 <| sum_bpred_penalty := q |> <| num_total_branch := b |>)) with (num_sampling s).
  rewrite (int_op_ok (num_sampling s + 1)) by lia. cbn [mbind option_bind]. cbv zeta.
  set (s2 := s1 <| sum_bpred_penalty := q |> <| num_total_branch := b |> <| sum_effective_dispatch_width := _ |>
    <| num_sampling := _ |> <| effective_dispatch_width := _ |>).
  assert (Hr : ∀ v, rates (s2 <| bpred_penalty := v |>)).
  { intros v. split; [exact Hmean|simpl; lia|right; split; [simpl; lia|exact Hsum]|simpl; lia|simpl; lia|simpl; lia]. }
  change (num_total_branch s2) with b. change (sum_bpred_penalty s2) with q. destruct (Z.eqb_spec b 0); cbn [negb].
  - exists s2. split; [done|]. split; [exact (Hr (bpred_penalty s))|].
    split_and!; try reflexivity; [simpl; lia..|by left].
  - rewrite Z.quot_div_nonneg by lia. pose proof (Z.div_pos q b ltac:(lia) ltac:(lia)).
    pose proof (Z.div_le_upper_bound q b 40 ltac:(lia) ltac:(lia)).
    rewrite int_op_ok by lia. cbn [mbind option_bind]. eexists. split; [reflexivity|]. split; [apply Hr|].
    split_and!; try reflexivity; [simpl; lia..|]. right. simpl. unfold u32, wrap. rewrite Z.mod_small; lia.
Qed.

(** ** The estimates *)

Lemma big_int_within j n : 0 ≤ j ≤ 100 → 0 ≤ n ≤ 2 ^ j → within 0 (2 ^ j) (of_int n).
Proof.
  intros Hj Hn. pose proof (grid_mul j 1 ltac:(lia) ltac:(lia)) as G. rewrite Z.mul_1_l in G.
  apply (normalize_within 0 j); [apply grid_0|done|lia|]. unfold scaled. rewrite !Z.add_0_l.
  pose proof (pow2_pos K ltac:(done)). nia.
Qed.

Lemma within_to_u64 b d : 0 ≤ b < 2 ^ 64 → within 0 b d → ∃ v, to_u64 d = Some v ∧ 0 ≤ v ≤ b.
Proof.
  intros Hb. destruct d as [s| | |s m e]; try done; [exists 0; split; [done|lia]|]. intros [He Hs].
  assert (0 < scaled (Z.pos m) e) by (unfold scaled; pose proof (pow2_pos (e + K) ltac:(unfold K; lia)); nia).
  destruct s; [lia|]. pose proof (trunc_bounds m e b He Hs) as Ht. unfold to_u64, trunc. set (v := if 0 <=? e then _ else _) in *. clearbody v. cbn [mbind option_bind].
  exists v. by rewrite (proj2 (Z.leb_le 0 v)), (proj2 (Z.ltb_lt v (2 ^ 64))) by lia.
Qed.

Lemma base_within s :
  spans (-30) (2 ^ 51) (effective_dispatch_width s) → 0 ≤ num_insts s < 2 ^ 31 → within 0 (2 ^ 61) (base_cycles s).
Proof.
  intros Hw Hn. unfold base_cycles. destruct (effective_dispatch_width s) as [x| | |[] my ey]; try done.
  destruct Hw as (Hey & Hlo & Hhi).
  destruct (decide (num_insts s = 0)) as [->|]; [done|]. pose proof (pow2_pos K ltac:(done)).
  assert (ey < 53 + 51) by (eapply (bounded_exponent 51 (2 ^ 51)); [apply (grid_mul 51 1); lia|unfold K; lia|exact Hhi]).
  destruct (of_int_pos (num_insts s)) as (mx & ex & -> & Hex & Hmx); [lia|].
  pose proof (of_int_scaled _ _ _ Hex Hmx) as Hx.
  assert (E : 2 ^ K = 2 ^ 30 * 2 ^ (-30 + K)) by (rewrite <-Z.pow_add_r by (unfold K; lia); f_equal; lia).
  assert (E' : 2 ^ K = 2 ^ 100 * 2 ^ (-100 + K)) by (rewrite <-Z.pow_add_r by (unfold K; lia); f_equal; lia).
  pose proof (pow2_pos (-100 + K) ltac:(unfold K; lia)).
  apply (between_within (-100)). apply (div_between (-100) 61); [lia|apply (grid_mul 61 1); lia|lia|lia| |]; rewrite Hx.
  - transitivity (2 ^ 31 * 2 ^ K); [apply Z.mul_le_mono_nonneg_r; lia|]. rewrite E. lia.
  - transitivity (2 ^ (-100 + K) * (2 ^ 51 * 2 ^ K)); [apply Z.mul_le_mono_nonneg_l; lia|].
    transitivity (1 * 2 ^ K * 2 ^ K); [|apply Z.mul_le_mono_nonneg_r; [lia|]; apply Z.mul_le_mono_nonneg_r; lia].
    rewrite E' at 2. lia.
Qed.

(** Both estimates are defined. *)
Lemma cycles_defined s c p :
  spans (-30) (2 ^ 51) (effective_dispatch_width s) → 0 ≤ num_insts s < 2 ^ 31 →
  il1_cycles c ≤ 2 ^ 60 → ul2_cycles c ≤ 2 ^ 60 →
  (∃ v, perfmodel_getCycle s c p = Some v ∧ 0 ≤ v ≤ 2 ^ 63) ∧
  (∃ v, perfmodel_getSimpleCycle s c p = Some v ∧ 0 ≤ v ≤ 2 ^ 62).
Proof.
  intros Hw Hn Hi Hu. pose proof (base_within s Hw Hn) as Hb.
  assert (H1 : within 0 (2 ^ 60) (of_int (il1_cycles c))) by (apply big_int_within; [lia|]; split; [apply Z.mod_pos_bound|]; done).
  assert (H2 : within 0 (2 ^ 60) (of_int (ul2_cycles c))) by (apply big_int_within; [lia|]; split; [apply Z.mod_pos_bound|]; done).
  assert (H3 : within 0 (2 ^ 32) (of_int (bpred_cycles s p))).
  { apply big_int_within; [lia|]. unfold bpred_cycles, u32, wrap. pose proof (Z.mod_pos_bound (bpredsim_num_mispred p * bpred_penalty s) (2 ^ 32) ltac:(done)). lia. }
  assert (H4 : within 0 (2 ^ 61 + 2 ^ 60) (dadd (base_cycles s) (of_int (il1_cycles c)))).
  { apply (add_within 0 60 0 (2 ^ 61) 0 (2 ^ 60)); try done; [apply grid_0|]. apply (grid_mul 60 3); lia. }
  split; apply within_to_u64; [lia| |lia|].
  - apply (add_within 0 62 0 (2 ^ 62) 0 (2 ^ 62)); try done; [apply grid_0|apply (grid_mul 62 2); lia| |by eapply within_weaken; [..|exact H3]].
    apply (add_within 0 60 0 (2 ^ 61 + 2 ^ 60) 0 (2 ^ 60)); try done; [apply grid_0|]. apply (grid_mul 60 4); lia.
  - apply (add_within 0 60 0 (2 ^ 61 + 2 ^ 60) 0 (2 ^ 60)); try done; [apply grid_0|apply (grid_mul 60 4); lia|].
    by eapply within_weaken; [..|exact H3].
Qed.
