(* ===== verification/Sampling.v ===== *)
(** The helpers the translated code calls (target-arm/op_helper.c): every instruction and data
    access reaches the caches and the branch predictor, and samples are recorded and handed to
    the analyzer's thread (trace_analyzer/trace_analyzer_thread_if.c). *)

From Stdlib Require Import ZArith Lia String.
From stdpp Require Import base tactics option list gmap.
From S2P Require Import Prelude Config Cache CacheSim Bpred InstQueue Inst Rob TraceAnalyzer BufferManager Perfmodel.

(** The state of the simulator: the components, the static variables of the helpers, and the
    analyzer's thread.  [running] is a thread that has been created and not joined: until it is
    joined it may access the trace buffer and the analyzer at any time. *)
Record Sim := MkSim {
  heap : Heap;
  caches : CacheSim;
  predictor : bpred_t;
  pm : PM;
  buffer : BM;
  num_sampled_inst : Z;
  is_sampled : bool;
  previous_pc : Z;
  cur_PC : Z;
  is_branch : bool;
  is_cond : Z;
  num_thread : Z;
  running : bool;
  arg_cycle : Z;
  arg_bpred_penalty : Z;
}.

#[export] Instance Sim_settable : Settable Sim := λ s,
  MkSim (heap s) (caches s) (predictor s) (pm s) (buffer s) (num_sampled_inst s) (is_sampled s)
    (previous_pc s) (cur_PC s) (is_branch s) (is_cond s) (num_thread s) (running s) (arg_cycle s)
    (arg_bpred_penalty s).

(** Program start, after [perfmodel_initialize]. *)
Definition sim0 (h : Heap) (c : CacheSim) (p : bpred_t) (s : PM) (b : BM) : Sim :=
  MkSim h c p s b 0 false 0 0 false 0 0 false 0 0.

(** The main thread uses the trace buffer; doing so while the analyzer runs is a data race. *)
Definition with_buffer (f : BM → option BM) (s : Sim) : option Sim :=
  if running s then None else b ← f (buffer s); Some (s <| buffer := b |>).

Section Helpers.
Variable perfmodel : perfmodel_config.
(** Uninitialised memory, and the values of undefined shifts. *)
Variables (junk_miss : CacheMissType) (junk : Inst) (shl_32 : Z → Z) (ctz_0 : Z).
(** A bound on the cycles of one analysis. *)
Variable fuel : nat.

(** ** The analyzer's thread *)

Definition trace_analyzer_thread_start (s : Sim) : option Sim :=
  n ← int_op (num_thread s + 1);
  if running s then None else Some (s <| num_thread := n |> <| running := true |>).

(** What the thread does, from its creation to the join. *)
Definition trace_analysis_wrapper (s : Sim) : option Sim :=
  '(cycle, penalty, a) ← trace_analysis junk shl_32 ctz_0 fuel (ta (buffer s)) 0;
  Some (s <| buffer := (buffer s) <| ta := a |> |> <| arg_cycle := cycle |> <| arg_bpred_penalty := penalty |>).

(** The values of [*cycle] and [*bpred_penalty] afterwards; a join without a thread is undefined. *)
Definition trace_analyzer_thread_end (s : Sim) (cycle penalty : Z) : option (Z * Z * Sim) :=
  if negb (num_thread s =? 0) then
    if running s then
      s ← trace_analysis_wrapper s;
      n ← int_op (num_thread s - 1);
      Some (arg_cycle s, arg_bpred_penalty s, s <| num_thread := n |> <| running := false |>)
    else None
  else Some (cycle, penalty, s).

(** ** Memory accesses; [r1] and [r2] are what [rand()] returns *)

Definition dcache_access (s : Sim) (addr : Z) (is_write : bool) (r1 r2 : Z) : option (bool * Sim) :=
  cycle ← perfmodel_getSimpleCycle (pm s) (caches s) (predictor s);
  '(miss_type, h, c) ← cachesim_daccess perfmodel junk_miss (heap s) (caches s) cycle addr is_write r1 r2;
  let s := s <| heap := h |> <| caches := c |> in
  s ← (if is_sampled s then with_buffer (λ b, '(_, b) ← push_memaddr b addr miss_type; Some b) s else Some s);
  Some (bool_decide (miss_type = L1Hit), s).

Definition helper_dcache_read_access (s : Sim) (addr r1 r2 : Z) : option Sim :=
  '(_, s) ← dcache_access s addr false r1 r2; Some s.

Definition helper_dcache_write_access (s : Sim) (addr r1 r2 : Z) : option Sim :=
  '(_, s) ← dcache_access s addr true r1 r2; Some s.

Definition icache_access (s : Sim) (addr r1 r2 : Z) : option (CacheMissType * Sim) :=
  cycle ← perfmodel_getSimpleCycle (pm s) (caches s) (predictor s);
  '(miss_type, h, c) ← cachesim_iaccess perfmodel junk_miss (heap s) (caches s) cycle addr r1 r2;
  Some (miss_type, s <| heap := h |> <| caches := c |>).

Definition helper_cycle_increment (s : Sim) (pc r1 r2 : Z) : option Sim :=
  '(_, s) ← icache_access s pc r1 r2; Some s.

(** ** Instructions *)

Definition helper_set_branch_inst (s : Sim) (_is_cond : Z) : Sim :=
  s <| is_branch := true |> <| is_cond := _is_cond |>.

(** The branch before this instruction has its outcome. *)
Definition resolve_branch (s : Sim) (pc : Z) : option Sim :=
  if is_branch s then
    '(correct, p) ← bpredsim_access (predictor s) (cur_PC s) pc (negb (is_cond s =? 0));
    let s := s <| predictor := p |> in
    s ← (if is_sampled s && negb (is_cond s =? 0) then
           with_buffer (λ b, '(_, b) ← push_bpred b correct; Some b) s
         else Some s);
    Some (s <| is_branch := false |>)
  else Some s.

(** The instruction cache is looked up once per fetch buffer. *)
Definition fetch (s : Sim) (pc r1 r2 : Z) : option (CacheMissType * Sim) :=
  if negb (previous_pc s =? fetchbufferalignpc pc) then
    '(miss_type, s) ← icache_access s pc r1 r2;
    Some (miss_type, s <| previous_pc := fetchbufferalignpc pc |>)
  else Some (L1Hit, s).

Definition start_sample (s : Sim) : Sim :=
  s <| is_sampled := true |> <| pm := perfmodel_sample_start (pm s) (caches s) (predictor s) |>.

Definition first_sample (s : Sim) : option Sim :=
  if num_insts (pm s) =? 0 then
    s ← with_buffer (λ b,
      a ← init_trace_analyzer perfmodel (ta b);
      Some (init_trace_buffer (b <| ta := a |>))) s;
    Some (start_sample s)
  else Some s.

(** A complete sample is given to the analyzer. *)
Definition finish_sample (s : Sim) : option Sim :=
  if num_sampled_inst s =? sample_length (sample perfmodel) then
    let s := s <| is_sampled := false |> in
    q ← perfmodel_sample_end (pm s) (caches s) (predictor s);
    s ← trace_analyzer_thread_start (s <| pm := q |>);
    Some (s <| num_sampled_inst := 0 |>)
  else Some s.

(** At the end of a period the result is awaited and the next sample begins.  The period is
    converted to the unsigned type of [num_insts]. *)
Definition next_sample (s : Sim) : option Sim :=
  if negb (num_insts (pm s) =? 0) then
    let period := u64 (default_period (sample perfmodel)) in
    if period =? 0 then None
    else if num_insts (pm s) mod period =? 0 then
      '(cycle, penalty, s) ← trace_analyzer_thread_end s 0 0;
      q ← perfmodel_update (pm s) cycle penalty;
      Some (start_sample (s <| pm := q |>))
    else Some s
  else Some s.

(** [code] is the instruction word [get_inst_byte] reads at [pc]. *)
Definition record_inst (s : Sim) (pc code : Z) (miss_type : CacheMissType) : option Sim :=
  if is_sampled s then
    n ← int_op (num_sampled_inst s + 1);
    s ← with_buffer (λ b, '(_, b) ← push_code junk b (u32 (num_sampled_inst s)) pc code miss_type; Some b) s;
    Some (s <| num_sampled_inst := n |>)
  else Some s.

Definition helper_inst_increment (s : Sim) (pc code r1 r2 : Z) : option Sim :=
  s ← resolve_branch s pc;
  let s := s <| cur_PC := pc |> in
  '(miss_type, s) ← fetch s pc r1 r2;
  s ← first_sample s;
  s ← finish_sample s;
  s ← next_sample s;
  s ← record_inst s pc code miss_type;
  Some (s <| pm := (pm s) <| num_insts := u64 (num_insts (pm s) + 1) |> |>).

(** ** Program end *)

Definition perfmodel_sample_wrapup (s : Sim) : option Sim :=
  if is_sampled s then
    q ← perfmodel_sample_end (pm s) (caches s) (predictor s);
    s ← trace_analyzer_thread_start (s <| pm := q |>);
    '(cycle, penalty, s) ← trace_analyzer_thread_end s 0 0;
    q ← perfmodel_update (pm s) cycle penalty;
    Some (s <| pm := q |>)
  else Some s.

(** The instruction count and the estimate that are printed, and the heap that is left. *)
Definition gdb_exit (s : Sim) : option (Z * Z * Heap * Sim) :=
  s ← perfmodel_sample_wrapup s;
  estimated_cycle ← perfmodel_getCycle (pm s) (caches s) (predictor s);
  h ← perfmodel_end (heap s) (caches s);
  Some (num_insts (pm s), estimated_cycle, h, s).
End Helpers.
