(* ===== verification/SamplingInv.v ===== *)
(** The invariant of the running simulator: where it stands between two helper calls, and
    what each step of [helper_inst_increment] does to it. *)

From Stdlib Require Import ZArith Lia String.
From stdpp Require Import base tactics functions numbers option list gmap.
From S2P Require Import Prelude DList Double DoubleRange DoublePos Config Cache CacheLife CacheTheorems CacheSim CacheSimTheorems Bpred BpredTheorems InstQueue InstQueueRep InstQueueInit Darm Inst Rob TraceAnalyzer PipelineInv PipelineExpand PipelineRun BufferManager Record Perfmodel PerfmodelInv Sampling.

Lemma s32_id z : - 2 ^ 31 ≤ z < 2 ^ 31 → s32 z = z.
Proof. intros. unfold s32, swrap. rewrite Z.mod_small; lia. Qed.

Lemma u64_id z : 0 ≤ z < 2 ^ 64 → u64 z = z.
Proof. intros. by apply Z.mod_small. Qed.

(** ** Latencies do not change *)

Lemma cache_access_config rob id h c ty addr rnd hit h' c' :
  cache_access rob id h c ty addr rnd = Some (hit, h', c') → config c' = config c.
Proof.
  unfold cache_access. cbv zeta. intros H. repeat (case_match; simplify_option_eq; try done).
  all: unfold count_miss; repeat case_match; done.
Qed.

Definition lats (c : CacheSim) : Z * Z := (cachesim_il1_miss_latency c, cachesim_ul2_miss_latency c).

Lemma of_cache_config f c c' : config c' = config c → of_cache (f ∘ config) (Some c') = of_cache (f ∘ config) (Some c).
Proof. intros E. simpl. by rewrite E. Qed.

Lemma ul2_access_lats pf h c cyc ty addr r ms ms' h' c' :
  ul2_access pf h c cyc ty addr r ms = Some (ms', h', c') → lats c' = lats c.
Proof.
  unfold ul2_access. destruct (ul2_cache c) as [k|] eqn:E; [|by intros [= _ _ <-]].
  case_decide; [|by intros [= _ _ <-]].
  destruct (cache_access _ _ _ _ _ _ _) as [[[hit h1] k']|] eqn:Ea; [|done]. simpl. intros [= _ _ <-].
  apply cache_access_config in Ea. unfold lats, cachesim_il1_miss_latency, cachesim_ul2_miss_latency. simpl.
  by rewrite E, Ea.
Qed.

Lemma do_access_lats pf jm h c a m h' c' : do_access pf jm h c a = Some (m, h', c') → lats c' = lats c.
Proof.
  destruct a as [cyc addr r r2|cyc addr w r r2]; simpl; unfold cachesim_iaccess, cachesim_daccess; cbv zeta.
  - destruct (il1_cache c) as [k|] eqn:E; [|intros H; by apply ul2_access_lats in H].
    destruct (cache_access _ _ _ _ _ _ _) as [[[hit h1] k']|] eqn:Ea; [|done]. csimpl. intros ->%ul2_access_lats.
    apply cache_access_config in Ea. unfold lats, cachesim_il1_miss_latency, cachesim_ul2_miss_latency. simpl. by rewrite E, Ea.
  - destruct (dl1_cache c) as [k|] eqn:E; [|intros H; by apply ul2_access_lats in H].
    destruct (cache_access _ _ _ _ _ _ _) as [[[hit h1] k']|] eqn:Ea; [|done]. csimpl. intros ->%ul2_access_lats. reflexivity.
Qed.

Lemma cache_initialize_config jb js h junk nm n b k pol hl ml h' c :
  cache_initialize jb js h junk nm n b k pol hl ml = Some (h', c) → miss_lat (config c) = ml.
Proof.
  unfold cache_initialize. destruct (log2i b); [|done]. destruct (log2i n); [|done]. csimpl.
  destruct (for_lt _ _ _) as [[h1 sets]|]; [|done]. csimpl. by intros [= _ <-].
Qed.

(** ** A workable configuration *)

Record workable (perfmodel : perfmodel_config) : Prop := {
  wk_sensible : sensible perfmodel;
  wk_length : 1 ≤ sample_length (sample perfmodel) ≤ default_period (sample perfmodel);
  wk_period : default_period (sample perfmodel) < 2 ^ 31;
  wk_room : sample_length (sample perfmodel) + 16 ≤ 1000001;
  wk_cycles : inst_bound (cc_latency (ul2 perfmodel)) * sample_length (sample perfmodel) + 1 < 2 ^ 30;
  wk_exist : existIL1 perfmodel = true ∧ existDL1 perfmodel = true ∧ existUL2 perfmodel = true;
  wk_geom : geom_ok (il1 perfmodel) ∧ geom_ok (dl1 perfmodel) ∧ geom_ok (ul2 perfmodel);
  wk_lat : 0 ≤ cc_latency (il1 perfmodel) < 2 ^ 27 ∧ cc_latency (ul2 perfmodel) < 2 ^ 27 ∧
           0 ≤ mem_latency (mem perfmodel) < 2 ^ 27;
  wk_width : spans (-30) (2 ^ 51) (initial_effective_dispatch_width (sample perfmodel));
}.

Section Glue.
Context (perfmodel : perfmodel_config) (Hwk : workable perfmodel).
Context (junk_miss : CacheMissType) (junk : Inst) (shl_32 : Z → Z) (ctz_0 : Z) (fuel : nat) (base : Heap).
Context (Hjs : length (src_reg junk) = 16%nat) (Hjd : length (dst_reg junk) = 16%nat)
  (Hja : length (eff_addr junk) = 16%nat).
Context (Hfuel : inst_bound (cc_latency (ul2 perfmodel)) * sample_length (sample perfmodel) < Z.of_nat fuel).
Local Abbreviation L := (sample_length (sample perfmodel)).
Local Abbreviation P := (default_period (sample perfmodel)).
Local Abbreviation recording := (@recording (capped QV (boot_caps perfmodel)) shl_32 ctz_0).

(** ** The caches after [n] accesses *)

Definition mem_ok (n : Z) (h : Heap) (c : CacheSim) : Prop :=
  ∃ H, hier_ex base (geom_of (il1 perfmodel)) (geom_of (dl1 perfmodel)) (geom_of (ul2 perfmodel)) h c H ∧
    hist_len H ≤ 2 * n ∧ 0 ≤ (lats c).1 ≤ 2 ^ 29 ∧ 0 ≤ (lats c).2 ≤ 2 ^ 29.

Lemma mem_access n h c a :
  mem_ok n h c → CacheSimTheorems.access_ok a → n < 2 ^ 30 →
  ∃ m h' c', do_access perfmodel junk_miss h c a = Some (m, h', c') ∧ mem_ok (n + 1) h' c'.
Proof.
  intros (H & Hh & Hlen & Hl) Ha Hn.
  destruct (hier_step base _ _ _ perfmodel junk_miss h c H a Hh Ha) as (h' & c' & He & Hh'); [lia|].
  eexists _, h', c'. split; [exact He|]. eexists. split; [exact Hh'|].
  pose proof (spec_access_len (geom_of (il1 perfmodel)) (geom_of (dl1 perfmodel)) (geom_of (ul2 perfmodel)) H a).
  rewrite (do_access_lats _ _ _ _ _ _ _ _ He). split; [lia|done].
Qed.

Lemma mem_cycles n h c : mem_ok n h c → n ≤ 2 ^ 30 → il1_cycles c ≤ 2 ^ 60 ∧ ul2_cycles c ≤ 2 ^ 60.
Proof.
  intros (H & (ci & cd & c2 & Xi & Xd & X2 & [-> Hi Hd H2 _ _]) & Hlen & Hli & Hl2) Hn.
  pose proof (slot_num_access _ _ _ _ _ Hi) as Ni. pose proof (slot_num_access _ _ _ _ _ H2) as N2.
  pose proof (slot_counters _ _ _ _ _ Hi) as Ci. pose proof (slot_counters _ _ _ _ _ H2) as C2.
  unfold hist_len in Hlen. unfold counters_ok in *. unfold lats in *. simpl in Hli, Hl2.
  unfold il1_cycles, ul2_cycles, cachesim_il1_num_miss, cachesim_ul2_num_miss. cbn [of_cache from_option il1_cache ul2_cache].
  set (x := cachesim_il1_miss_latency _) in *. set (y := cachesim_ul2_miss_latency _) in *.
  assert (0 ≤ Cache.num_read_miss ci * x ≤ 2 ^ 31 * 2 ^ 29) by (split; [nia|apply Z.mul_le_mono_nonneg; lia]).
  assert (0 ≤ Cache.num_miss_star c2 * y ≤ 2 ^ 31 * 2 ^ 29) by (split; [nia|apply Z.mul_le_mono_nonneg; lia]).
  rewrite !u64_id by lia. lia.
Qed.

Lemma mem_init jb js jc :
  heap_ok base → ∃ h c, cachesim_initialize jb js jc perfmodel base = Some (h, c) ∧ mem_ok 0 h c.
Proof.
  intros Hb. destruct Hwk as [_ _ _ _ _ (E1 & E2 & E3) (G1 & G2 & G3) (L1 & L2 & L3) _].
  destruct (hier_init jb js jc perfmodel base Hb E1 E2 E3 G1 G2 G3) as (h & c & He & Hh).
  exists h, c. split; [done|]. exists (Hist [] [] []). split; [done|]. split; [done|].
  pose proof (se_lat _ (wk_sensible _ Hwk)) as Hl2. revert He. unfold cachesim_initialize. rewrite E1, E2, E3.
  destruct (cache_initialize _ _ base _ _ _ _ _ _ _ _) as [[h1 c1]|] eqn:C1; [|done]. csimpl.
  destruct (cache_initialize _ _ h1 _ _ _ _ _ _ _ _) as [[h2 c2]|] eqn:C2; [|done]. csimpl.
  destruct (cache_initialize _ _ h2 _ _ _ _ _ _ _ _) as [[h3 c3]|] eqn:C3; [|done]. csimpl. intros [= _ <-].
  apply cache_initialize_config in C1, C3. unfold lats, cachesim_il1_miss_latency, cachesim_ul2_miss_latency, l1_miss_lat in *.
  rewrite E3 in C1. simpl. rewrite C1, C3. unfold u32, wrap. rewrite !Z.mod_small by lia. rewrite !s32_id by lia. lia.
Qed.

(** ** Where the simulator stands *)

(** After [n] memory accesses, [k] samples, [nb] branches and [ni] instructions. *)
Record counts (n k nb ni : Z) (s : Sim) : Prop := {
  co_mem : mem_ok n (heap s) (caches s);
  co_bp : bp_ok (predictor s);
  co_miss : 0 ≤ num_miss (predictor s);
  co_branch : num_miss (predictor s) + (if is_branch s then 1 else 0) ≤ nb;
  co_rates : rates (pm s);
  co_samples : num_sampling (pm s) ≤ k ∧ num_ipc (pm s) ≤ k;
  co_insts : num_insts (pm s) = ni;
}.

(** No instruction has been executed. *)
Record cold (s : Sim) : Prop := {
  cd_insts : num_insts (pm s) = 0;
  cd_sampled : is_sampled s = false;
  cd_num : num_sampled_inst s = 0;
  cd_thread : num_thread s = 0;
  cd_running : running s = false;
  cd_blank : blank (ta (buffer s));
  cd_open : fp (buffer s) ≠ Some Closed;
  cd_total : num_total_branch (pm s) = 0;
}.

(** The instructions [tr] of a sample have been recorded, the last one with at most [da] data
    accesses. *)
Record sampling (da : Z) (s : Sim) (tr : list pinst) : Prop := {
  sa_sampled : is_sampled s = true;
  sa_running : running s = false;
  sa_thread : num_thread s = 0;
  sa_rec : ∃ V T, recording (buffer s) V T tr;
  sa_lat : latency_l1_miss (ta (buffer s)) = cc_latency (ul2 perfmodel);
  sa_num : num_sampled_inst s = Z.of_nat (length tr);
  sa_len : num_sampled_inst s ≤ L;
  sa_da : ∀ l x, tr = l ++ [x] → num_eff_addr x.2 ≤ da;
  sa_period : ∃ k, 0 ≤ k ∧ num_insts (pm s) = P * k + num_sampled_inst s;
  sa_start : st_insts (sample_stat (pm s)) = num_insts (pm s) - num_sampled_inst s;
  sa_mis : num_total_branch (pm s) ≤ st_mispred (sample_stat (pm s)) ≤ num_miss (predictor s);
}.

(** A complete sample is being analyzed. *)
Record analyzing (s : Sim) : Prop := {
  an_sampled : is_sampled s = false;
  an_num : num_sampled_inst s = 0;
  an_thread : num_thread s = 1;
  an_running : running s = true;
  an_rec : ∃ V T tr, recording (buffer s) V T tr ∧ Z.of_nat (length tr) = L;
  an_lat : latency_l1_miss (ta (buffer s)) = cc_latency (ul2 perfmodel);
  an_insts : 0 < num_insts (pm s);
  an_len : st_insts (sample_stat (pm s)) = L;
  an_mis : 0 ≤ st_mispred (sample_stat (pm s)) ∧
           num_total_branch (pm s) + st_mispred (sample_stat (pm s)) ≤ num_miss (predictor s);
}.

Definition busy (da : Z) (s : Sim) : Prop := (∃ tr, sampling da s tr ∧ tr ≠ []) ∨ analyzing s.
Definition phase (da : Z) (s : Sim) : Prop := cold s ∨ busy da s.

Lemma mispred_id n k nb ni s : counts n k nb ni s → nb < 2 ^ 31 → bpredsim_num_mispred (predictor s) = num_miss (predictor s).
Proof. intros [] ?. unfold bpredsim_num_mispred. apply s32_id. destruct (is_branch s); lia. Qed.

Lemma counts_cycles n k nb ni s :
  counts n k nb ni s → n ≤ 2 ^ 30 → 0 ≤ ni < 2 ^ 31 →
  (∃ v, perfmodel_getCycle (pm s) (caches s) (predictor s) = Some v ∧ 0 ≤ v ≤ 2 ^ 63) ∧
  ∃ v, perfmodel_getSimpleCycle (pm s) (caches s) (predictor s) = Some v ∧ 0 ≤ v ≤ 2 ^ 62.
Proof.
  intros [Hm _ _ _ [] _ Hi] Hn Hni. destruct (mem_cycles _ _ _ Hm Hn). apply cycles_defined; [done|lia|done|done].
Qed.

(** The phase does not depend on the caches. *)
Lemma phase_mem da s h c : phase da s → phase da (s <| heap := h |> <| caches := c |>).
Proof.
  intros [[]|[(tr & [] & Hne)|[]]]; [left; by split|right; left; exists tr; split; [by split|done]|right; right; by split].
Qed.

(** ** Data accesses *)

Lemma dcache_access_ok n k nb ni da s addr w r1 r2 :
  counts n k nb ni s → phase da s → n < 2 ^ 30 → 0 ≤ ni < 2 ^ 31 → 0 ≤ addr → 0 ≤ r1 → 0 ≤ r2 → da < 16 →
  ∃ hit s', dcache_access perfmodel junk_miss s addr w r1 r2 = Some (hit, s') ∧ counts (n + 1) k nb ni s' ∧ phase (da + 1) s'.
Proof.
  intros Hc Hp Hn Hni Ha Hr1 Hr2 Hda. unfold dcache_access.
  destruct (counts_cycles _ _ _ _ _ Hc ltac:(lia) Hni) as [_ (cyc & -> & _)]. bs.
  destruct (mem_access n (heap s) (caches s) (DAccess cyc addr w r1 r2)) as (m & h' & c' & He & Hm'); [apply Hc|done|lia|].
  simpl in He. rewrite He. bs. set (s1 := s <| heap := h' |> <| caches := c' |>). cbv zeta.
  assert (Hc1 : counts (n + 1) k nb ni s1) by (destruct Hc; by split).
  destruct Hp as [Hp|[(tr & Hp & Hne)|Hp]].
  - change (is_sampled s1) with (is_sampled s). rewrite (cd_sampled _ Hp). bs. eexists _, s1. split; [done|]. split; [done|].
    left. destruct Hp. by split.
  - destruct tr as [|x tr _] using rev_ind; [done|]. destruct Hp as [Hs Hrun Hth (V & T & Hrec) Hlat Hnum Hlen Hd Hper Hst Hmis].
    change (is_sampled s1) with (is_sampled s). rewrite Hs. unfold with_buffer. change (running s1) with (running s). rewrite Hrun.
    specialize (Hd tr x eq_refl).
    assert (Hsh : shaped x.2).
    { pose proof (ld_insts _ _ _ _ _ _ _ (re_loaded _ _ _ _ _ _ Hrec)) as HF. apply Forall_app in HF as [_ HF]. apply Forall_cons in HF as [HF _]. apply HF. }
    assert (Hi : ∃ i', set_inst_eff_addr x.2 addr m = Some i' ∧ num_eff_addr i' = num_eff_addr x.2 + 1).
    { unfold set_inst_eff_addr, arr_set. destruct Hsh as [_ _ Hsa _ _ Hna]. rewrite Hsa.
      rewrite (proj2 (Z.ltb_ge (num_eff_addr x.2) 0)), (proj2 (Z.leb_gt (Z.of_nat 16) (num_eff_addr x.2))) by lia.
      simpl. eexists. split; [done|]. done. }
    destruct Hi as (i' & Hi & Hin).
    destruct (memaddr_ok junk shl_32 ctz_0 Hjs Hjd Hja (buffer s) V T tr x addr m i' Hrec Hi) as (b' & Hb & Hrec' & Hfp & Hlat').
    change (buffer s1) with (buffer s). rewrite Hb. bs. eexists _, _. split; [done|]. split; [destruct Hc1; by split|].
    right. left. exists (tr ++ [(x.1, i')]). split; [|by destruct tr]. split; try done.
    + by exists V, T.
    + simpl. congruence.
    + simpl. rewrite Hnum, !length_app. done.
    + intros l y [_ [= <-]]%app_inj_2; [|done]. simpl. lia.
  - change (is_sampled s1) with (is_sampled s). rewrite (an_sampled _ Hp). bs. eexists _, s1. split; [done|]. split; [done|].
    right. right. destruct Hp. by split.
Qed.

(** ** The steps of an instruction *)

Lemma resolve_branch_ok n k nb ni da s pc :
  counts n k nb ni s → phase da s → nb < 2 ^ 31 →
  ∃ s', resolve_branch s pc = Some s' ∧ counts n k nb ni s' ∧ phase da s'.
Proof.
  intros Hc Hp Hnb. unfold resolve_branch. destruct (is_branch s) eqn:Hb; [|by exists s].
  destruct Hc as [Hm Hbp Hms Hbr Hra Hsa Hi]. rewrite Hb in Hbr.
  destruct (BpredTheorems.access_ok (predictor s) (cur_PC s) pc (negb (is_cond s =? 0)) Hbp) as (r & p' & -> & Hbp' & _ & _ & Hm' & _). bs.
  set (s1 := s <| predictor := p' |>). cbv zeta.
  assert (Hmm : num_miss (predictor s) ≤ num_miss p' ≤ num_miss (predictor s) + 1).
  { rewrite Hm'. destruct r; [lia|]. unfold u32, wrap. rewrite Z.mod_small by lia. lia. }
  assert (Hcs : ∀ b, counts n k nb ni (s1 <| buffer := b |> <| is_branch := false |>)) by (intros b; split; simpl; try done; lia).
  destruct Hp as [Hp|[(tr & Hp & Hne)|Hp]].
  - change (is_sampled s1) with (is_sampled s). rewrite (cd_sampled _ Hp). bs. eexists. split; [done|].
    split; [apply (Hcs (buffer s))|]. left. destruct Hp. by split.
  - destruct tr as [|x tr _] using rev_ind; [done|]. destruct Hp as [Hs Hrun Hth (V & T & Hrec) Hlat Hnum Hlen Hd Hper Hst Hmis].
    change (is_sampled s1) with (is_sampled s). rewrite Hs. change (is_cond s1) with (is_cond s).
    destruct (is_cond s =? 0); simpl.
    + eexists. split; [done|]. split; [apply (Hcs (buffer s))|]. right. left. exists (tr ++ [x]). split; [|by destruct tr].
      split; simpl; try done; [by exists V, T|lia].
    + unfold with_buffer. change (running s1) with (running s). change (buffer s1) with (buffer s). rewrite Hrun.
      destruct (bpred_ok shl_32 ctz_0 (buffer s) V T tr x r Hrec) as (b' & Hb' & Hrec' & Hfp & Hlat'). rewrite Hb'. bs.
      eexists. split; [done|]. split; [apply (Hcs b')|]. right. left.
      exists (tr ++ [(x.1, set_inst_bpred_mispred x.2 (negb r))]). split; [|by destruct tr].
      split; simpl; try done; [by exists V, T|congruence|rewrite Hnum, !length_app; done| |lia].
      intros l y [_ [= <-]]%app_inj_2; [|done]. exact (Hd tr x eq_refl).
  - change (is_sampled s1) with (is_sampled s). rewrite (an_sampled _ Hp). bs. eexists. split; [done|].
    split; [apply (Hcs (buffer s))|]. right. right. destruct Hp. split; simpl; try done. lia.
Qed.

Lemma fetch_ok n k nb ni da s pc r1 r2 :
  counts n k nb ni s → phase da s → n < 2 ^ 30 → 0 ≤ ni < 2 ^ 31 → 0 ≤ pc → 0 ≤ r1 → 0 ≤ r2 →
  ∃ m s', fetch perfmodel junk_miss s pc r1 r2 = Some (m, s') ∧ counts (n + 1) k nb ni s' ∧ phase da s'.
Proof.
  intros Hc Hp Hn Hni Ha Hr1 Hr2. unfold fetch, icache_access. case_match.
  - destruct (counts_cycles _ _ _ _ _ Hc ltac:(lia) Hni) as [_ (cyc & -> & _)]. bs.
    destruct (mem_access n (heap s) (caches s) (IFetch cyc pc r1 r2)) as (m & h' & c' & He & Hm'); [apply Hc|done|lia|].
    simpl in He. rewrite He. bs. eexists _, _. split; [done|]. split; [destruct Hc; by split|].
    destruct (phase_mem da s h' c' Hp) as [[]|[(tr & [] & Hne)|[]]];
      [left; by split|right; left; exists tr; split; [by split|done]|right; right; by split].
  - eexists _, s. split; [done|]. split; [|done]. destruct Hc as [(Hh & ? & ? & ?)]. split; try done. exists Hh. split; [done|]. split; [lia|done].
Qed.

(** A sample may be about to start. *)
Definition ready (da : Z) (s : Sim) : Prop :=
  (∃ tr, sampling da s tr ∧ (tr = [] → num_insts (pm s) = 0)) ∨ analyzing s.

Lemma rates_stat s x : rates s → rates (s <| sample_stat := x |>).
Proof. intros []. by split. Qed.

(** The counters do not depend on the sample. *)
Lemma counts_sample n k nb ni s b x f g t r :
  counts n k nb ni s →
  counts n k nb ni (s <| buffer := b |> <| pm := (pm s) <| sample_stat := x |> |> <| is_sampled := f |>
    <| num_sampled_inst := g |> <| num_thread := t |> <| running := r |>).
Proof. intros []. split; try done. by apply rates_stat. Qed.

Lemma first_sample_ok n k nb ni da s :
  counts n k nb ni s → phase da s → nb < 2 ^ 31 →
  ∃ s', first_sample perfmodel s = Some s' ∧ counts n k nb ni s' ∧ ready da s'.
Proof.
  intros Hc [Hp|Hp] Hnb; unfold first_sample.
  - pose proof (mispred_id _ _ _ _ _ Hc Hnb) as Hmp. destruct Hp as [Hi Hs Hnum Hth Hrun Hbl Hop Htot]. rewrite Hi. simpl. unfold with_buffer. rewrite Hrun.
    destruct (init_loaded shl_32 ctz_0 perfmodel (ta (buffer s)) (fp (buffer s)) (on_the_fly_inst (buffer s)) Hbl (wk_sensible _ Hwk))
      as (a & V & T & -> & Hld & HT & Hlat). bs.
    eexists. split; [done|].
    split; [exact (counts_sample n k nb ni s _ _ true (num_sampled_inst s) (num_thread s) (running s) Hc)|].
    left. exists []. split; [|done]. pose proof (wk_length _ Hwk).
    split; simpl; try done; rewrite ?Hi, ?Hnum, ?Htot, ?Hmp; try done; try lia.
    + exists V, T. by split.
    + intros []; done.
    + exists 0. lia.
    + split; [apply Hc|done].
  - assert (Hpos : 0 < num_insts (pm s)).
    { destruct Hp as [(tr & [] & Hne)|[]]; [|done]. destruct sa_period0 as (j & Hj & ->). pose proof (wk_length _ Hwk).
      rewrite sa_num0. destruct tr; [done|]. simpl. nia. }
    rewrite (proj2 (Z.eqb_neq _ _)) by lia. exists s. split; [done|]. split; [done|].
    destruct Hp as [(tr & Hp & Hne)|Hp]; [left; exists tr; by split|by right].
Qed.

(** What the sample's statistics say at its end. *)
Lemma sample_end_ok n k nb ni da s tr :
  counts n k nb ni s → sampling da s tr → nb < 2 ^ 31 → 0 ≤ ni < 2 ^ 31 →
  ∃ x, perfmodel_sample_end (pm s) (caches s) (predictor s) = Some ((pm s) <| sample_stat := x |>) ∧
    st_insts x = Z.of_nat (length tr) ∧ 0 ≤ st_mispred x ∧
    num_total_branch (pm s) + st_mispred x ≤ num_miss (predictor s).
Proof.
  intros Hc Hs Hnb Hni. unfold perfmodel_sample_end. pose proof (mispred_id _ _ _ _ _ Hc Hnb) as Hmp.
  pose proof (ra_branch _ (co_rates _ _ _ _ _ Hc)). pose proof (co_branch _ _ _ _ _ Hc).
  assert (num_miss (predictor s) ≤ nb) by (destruct (is_branch s); lia).
  destruct Hs as [_ _ _ _ _ Hnum _ _ (j & Hj & Hper) Hst Hmis]. rewrite Hmp, int_op_ok by lia. bs. eexists. split; [done|]. simpl.
  rewrite Hst. replace (num_insts (pm s) - (num_insts (pm s) - num_sampled_inst s)) with (num_sampled_inst s) by lia.
  pose proof (co_insts _ _ _ _ _ Hc). pose proof (wk_length _ Hwk). pose proof (Z.mul_nonneg_nonneg P j ltac:(lia) Hj). rewrite u64_id, s32_id by lia. lia.
Qed.

Lemma finish_sample_ok n k nb ni da s :
  counts n k nb ni s → ready da s → nb < 2 ^ 31 → 0 ≤ ni < 2 ^ 31 →
  ∃ s', finish_sample perfmodel s = Some s' ∧ counts n k nb ni s' ∧ ready da s' ∧ num_sampled_inst s' < L.
Proof.
  intros Hc Hr Hnb Hni. pose proof (wk_length _ Hwk). unfold finish_sample.
  destruct (Z.eqb_spec (num_sampled_inst s) L) as [E|E].
  2:{ exists s. split; [done|]. split; [done|]. split; [done|].
      destruct Hr as [(tr & [] & _)|[]]; lia. }
  destruct Hr as [(tr & Hs & _)|[]]; [|lia]. cbv zeta.
  destruct (sample_end_ok n k nb ni da s tr Hc Hs Hnb Hni) as (x & He & Hx1 & Hx2 & Hx3).
  change (perfmodel_sample_end (pm (s <| is_sampled := false |>)) (caches (s <| is_sampled := false |>)) (predictor (s <| is_sampled := false |>)))
    with (perfmodel_sample_end (pm s) (caches s) (predictor s)). rewrite He. bs.
  unfold trace_analyzer_thread_start. destruct Hs as [Hsa Hrun Hth (V & T & Hrec) Hlat Hnum Hlen Hd (j & Hj & Hper) Hst Hmis].
  change (num_thread (s <| is_sampled := false |> <| pm := _ |>)) with (num_thread s).
  change (running (s <| is_sampled := false |> <| pm := _ |>)) with (running s). rewrite Hth, int_op_ok, Hrun by lia. bs.
  eexists. split; [done|].
  split; [exact (counts_sample n k nb ni s (buffer s) x false 0 1 true Hc)|].
  split; [|simpl; lia]. right. split; simpl; try done.
  - exists V, T, tr. split; [done|lia].
  - rewrite Hper. pose proof (Z.mul_nonneg_nonneg P j ltac:(lia) Hj). lia.
  - lia.
Qed.

(** The analysis of what has been recorded. *)
Lemma analysis_ok b V T tr :
  recording b V T tr → Z.of_nat (length tr) ≤ L → latency_l1_miss (ta b) = cc_latency (ul2 perfmodel) →
  ∃ cycle penalty a V' T', trace_analysis junk shl_32 ctz_0 fuel (ta b) 0 = Some (cycle, penalty, a) ∧
    recording (b <| ta := a |>) V' T' [] ∧ 1 ≤ cycle ≤ 2 ^ 30 ∧ 0 ≤ penalty ≤ 40 ∧
    latency_l1_miss a = cc_latency (ul2 perfmodel).
Proof.
  intros Hrec Hlen Hlat. pose proof (wk_cycles _ Hwk). pose proof (se_lat _ (wk_sensible _ Hwk)).
  assert (inst_bound (cc_latency (ul2 perfmodel)) * Z.of_nat (length tr) ≤ inst_bound (cc_latency (ul2 perfmodel)) * L).
  { apply Z.mul_le_mono_nonneg_l; [unfold inst_bound; lia|done]. }
  destruct (trace_analysis_run junk shl_32 ctz_0 Hjs Hjd Hja fuel (ta b) V T tr (re_loaded _ _ _ _ _ _ Hrec))
    as (last & penalty & a & V' & T' & He & Hld & HT & _ & _ & Hlast & Hcy & Hp & Hlat'); [rewrite Hlat; lia..|].
  exists last, penalty, a, V', T'. rewrite Hlat in Hcy. split; [exact He|]. split; [split; [done|done|apply Hrec]|].
  split; [lia|]. split; [done|]. congruence.
Qed.

Lemma sample_update_ok n k nb ni s cycle penalty :
  counts n k nb ni s → 1 ≤ st_insts (sample_stat (pm s)) ≤ 2 ^ 20 → 1 ≤ cycle ≤ 2 ^ 30 → 0 ≤ penalty ≤ 40 →
  0 ≤ st_mispred (sample_stat (pm s)) →
  num_total_branch (pm s) + st_mispred (sample_stat (pm s)) ≤ num_miss (predictor s) →
  nb ≤ 53000000 → k < 2 ^ 30 →
  ∃ q, perfmodel_update (pm s) cycle penalty = Some q ∧ counts n (k + 1) nb ni (s <| pm := q |>) ∧
    num_total_branch q ≤ num_miss (predictor s).
Proof.
  intros [Hm Hbp Hms Hbr Hra [Hs1 Hs2] Hi] Hst Hc Hp H0 Hsum Hnb Hk.
  destruct (perfmodel_update_ok (pm s) cycle penalty Hra Hst Hc Hp H0) as (q & He & Hra' & Hi' & _ & Hn1 & Hn2 & Hb & _);
    [destruct (is_branch s); lia|lia|lia|].
  exists q. split; [done|]. split; [|lia]. split; simpl; try done; [lia|congruence].
Qed.

(** A thread is awaited and its results are used. *)
Lemma await_ok n k nb ni s V T tr :
  counts n k nb ni s → running s = true → num_thread s = 1 → recording (buffer s) V T tr →
  st_insts (sample_stat (pm s)) = Z.of_nat (length tr) → 1 ≤ Z.of_nat (length tr) ≤ L →
  latency_l1_miss (ta (buffer s)) = cc_latency (ul2 perfmodel) → 0 ≤ st_mispred (sample_stat (pm s)) →
  num_total_branch (pm s) + st_mispred (sample_stat (pm s)) ≤ num_miss (predictor s) → nb ≤ 53000000 → k < 2 ^ 30 →
  ∃ cycle penalty s1 q V' T', trace_analyzer_thread_end junk shl_32 ctz_0 fuel s 0 0 = Some (cycle, penalty, s1) ∧
    perfmodel_update (pm s1) cycle penalty = Some q ∧ counts n (k + 1) nb ni (s1 <| pm := q |>) ∧
    recording (buffer s1) V' T' [] ∧ latency_l1_miss (ta (buffer s1)) = cc_latency (ul2 perfmodel) ∧
    num_total_branch q ≤ num_miss (predictor s1) ∧ running s1 = false ∧ num_thread s1 = 0 ∧
    num_sampled_inst s1 = num_sampled_inst s ∧ num_insts q = num_insts (pm s).
Proof.
  intros Hc Hrun Hth Hrec Hst Hlen Hlat Hm0 Hms Hnb Hk. unfold trace_analyzer_thread_end. rewrite Hth, Hrun. simpl.
  destruct (analysis_ok (buffer s) V T tr Hrec ltac:(lia) Hlat) as (cycle & penalty & a & V' & T' & Ha & Hrec' & Hcy & Hp & Hlat').
  unfold trace_analysis_wrapper. rewrite Ha. bs. set (s1 := s <| buffer := _ |> <| arg_cycle := cycle |> <| arg_bpred_penalty := penalty |>).
  change (num_thread s1) with (num_thread s). rewrite Hth, int_op_ok by lia. bs.
  change (arg_cycle s1) with cycle. change (arg_bpred_penalty s1) with penalty. set (s2 := s1 <| num_thread := (1 - 1) |> <| running := false |>).
  assert (Hc2 : counts n k nb ni s2) by (destruct Hc; by split). pose proof (wk_room _ Hwk).
  assert (Hst2 : 1 ≤ st_insts (sample_stat (pm s2)) ≤ 2 ^ 20) by (change (pm s2) with (pm s); rewrite Hst; lia).
  destruct (sample_update_ok n k nb ni s2 cycle penalty Hc2 Hst2 Hcy Hp Hm0 Hms Hnb Hk) as (q & Hq & Hc' & Hb).
  exists cycle, penalty, s2, q, V', T'. pose proof (co_insts _ _ _ _ _ Hc') as Hi. pose proof (co_insts _ _ _ _ _ Hc) as Hi0. simpl in Hi.
  split; [done|]. split; [done|]. split; [done|]. split; [done|]. split; [done|]. split; [done|]. split; [done|]. split; [done|]. split; [done|]. congruence.
Qed.

Lemma next_sample_ok n k nb ni da s :
  counts n k nb ni s → ready da s → num_sampled_inst s < L → nb ≤ 53000000 → 0 ≤ ni < 2 ^ 31 → k < 2 ^ 30 →
  ∃ s', next_sample perfmodel junk shl_32 ctz_0 fuel s = Some s' ∧ counts n (k + 1) nb ni s' ∧
    ((∃ tr, sampling da s' tr) ∨ analyzing s') ∧ num_sampled_inst s' < L.
Proof.
  intros Hc Hr Hlt Hnb Hni Hk. pose proof (wk_length _ Hwk). pose proof (wk_period _ Hwk).
  assert (Hsame : ∃ s', Some s = Some s' ∧ counts n (k + 1) nb ni s' ∧ ((∃ tr, sampling da s' tr) ∨ analyzing s') ∧ num_sampled_inst s' < L).
  { exists s. split; [done|]. split; [destruct Hc as [? ? ? ? ? [? ?] ?]; split; try done; lia|]. split; [|done].
    destruct Hr as [(tr & Hs & _)|Hr]; [left; by exists tr|by right]. }
  unfold next_sample. destruct (Z.eqb_spec (num_insts (pm s)) 0) as [|Hne]; [done|]. cbv zeta. simpl.
  rewrite u64_id by lia. rewrite (proj2 (Z.eqb_neq P 0)) by lia.
  destruct (Z.eqb_spec (num_insts (pm s) mod P) 0) as [Hz|]; [|done].
  destruct Hr as [(tr & Hs & Hnil)|Hr].
  { exfalso. destruct Hs as [_ _ _ _ _ Hnum _ _ (j & Hj & Hper) _ _]. rewrite Hper, Z.add_comm, Z.mul_comm, Z.mod_add, Z.mod_small in Hz by lia.
    apply Hne, Hnil. destruct tr; [done|]. simpl in Hnum. lia. }
  clear Hsame. destruct Hr as [Hsa Hnum Hth Hrun (V & T & tr & Hrec & Hlen) Hlat Hi Hst [Hm0 Hms]].
  destruct (await_ok n k nb ni s V T tr Hc Hrun Hth Hrec ltac:(lia) ltac:(lia) Hlat Hm0 Hms Hnb Hk)
    as (cycle & penalty & s1 & q & V' & T' & -> & Hu & Hc' & Hrec' & Hlat' & Hb & Hrun' & Hth' & Hnum' & Hi'). bs. rewrite Hu. bs.
  set (s2 := s1 <| pm := q |>) in *. eexists. split; [done|].
  split; [exact (counts_sample n (k + 1) nb ni s2 (buffer s2) _ true (num_sampled_inst s2) (num_thread s2) (running s2) Hc')|].
  assert (E0 : num_sampled_inst s1 = 0) by congruence.
  split; [|change (num_sampled_inst s1 < L); lia].
  left. exists []. pose proof (mispred_id _ _ _ _ _ Hc' ltac:(lia)) as Hmp. change (predictor s2) with (predictor s1) in Hmp.
  assert (Hq : num_insts q = ni) by (rewrite Hi'; apply Hc).
  split; simpl; try done; rewrite ?E0, ?Hmp, ?Hq; try done; try lia.
  - by exists V', T'.
  - intros []; done.
  - exists (ni / P). rewrite <-Hq, Hi'. split; [apply Z.div_pos; lia|]. rewrite Z.add_0_r. apply Z.div_exact; lia.
  - rewrite s32_id by lia. lia.
Qed.

(** ** Whole helper calls *)

(** The instruction word can be decoded. *)
Definition code_decodes (code : Z) : Prop := decodable shl_32 ctz_0 (new_inst junk 0 0 code L1Hit).

Lemma code_decodes_at code seq_ pc_ m : code_decodes code → decodable shl_32 ctz_0 (new_inst junk seq_ pc_ code m).
Proof. by apply decode_similar. Qed.

(** The instruction is recorded, if a sample is being taken, and counted. *)
Lemma record_inst_ok n k nb ni da s pc code m :
  counts n k nb ni s → ((∃ tr, sampling da s tr) ∨ analyzing s) → num_sampled_inst s < L → code_decodes code →
  0 ≤ ni < 2 ^ 30 →
  ∃ s', record_inst junk s pc code m = Some s' ∧
    let s' := s' <| pm := (pm s') <| num_insts := u64 (num_insts (pm s') + 1) |> |> in
    counts n k nb (ni + 1) s' ∧ busy 0 s'.
Proof.
  intros Hc Hp Hlt Hcode Hni. unfold record_inst. pose proof (wk_room _ Hwk).
  assert (Hcs : ∀ b g, counts n k nb (ni + 1) (s <| buffer := b |> <| num_sampled_inst := g |>
    <| pm := (pm s) <| num_insts := u64 (num_insts (pm s) + 1) |> |>)).
  { intros b g. destruct Hc as [? ? ? ? [] ? Hi]. split; simpl; try done. by rewrite Hi, u64_id by lia. }
  destruct Hp as [(tr & [Hs Hrun Hth (V & T & Hrec) Hlat Hnum Hlen Hd (j & Hj & Hper) Hst Hmis])|[]].
  - rewrite Hs, int_op_ok by lia. bs. unfold with_buffer. rewrite Hrun.
    destruct (code_ok junk shl_32 ctz_0 Hjs Hjd Hja (buffer s) V T tr (u32 (num_sampled_inst s)) pc code m Hrec)
      as (b' & V' & p & -> & Hrec' & _ & Hlat' & _); [by apply code_decodes_at| |].
    { right. destruct (ld_qv _ _ _ _ _ _ _ (re_loaded _ _ _ _ _ _ Hrec)) as [_ Hcap]. unfold queue. rewrite Hcap. simpl. lia. }
    bs. eexists. split; [done|]. split; [apply Hcs|]. left. exists (tr ++ [(p, new_inst junk (u32 (num_sampled_inst s)) pc code m)]). split; [|by destruct tr].
    split; simpl; try done.
    + exists V', T. exact Hrec'.
    + congruence.
    + rewrite length_app. simpl. lia.
    + lia.
    + intros l y [_ [= <-]]%app_inj_2; [|done]. done.
    + exists j. rewrite u64_id by (rewrite (co_insts _ _ _ _ _ Hc); lia). lia.
    + rewrite u64_id by (rewrite (co_insts _ _ _ _ _ Hc); lia). lia.
  - rewrite an_sampled0. bs. exists s. split; [done|]. split; [exact (Hcs (buffer s) (num_sampled_inst s))|].
    right. split; simpl; try done. rewrite u64_id; rewrite (co_insts _ _ _ _ _ Hc); lia.
Qed.

Lemma inst_increment_ok n k nb ni da s pc code r1 r2 :
  counts n k nb ni s → phase da s → n < 2 ^ 30 → k < 2 ^ 30 → nb ≤ 53000000 → 0 ≤ ni < 2 ^ 30 →
  0 ≤ pc → 0 ≤ r1 → 0 ≤ r2 → code_decodes code →
  ∃ s', helper_inst_increment perfmodel junk_miss junk shl_32 ctz_0 fuel s pc code r1 r2 = Some s' ∧
    counts (n + 1) (k + 1) nb (ni + 1) s' ∧ phase 0 s'.
Proof.
  intros Hc Hp Hn Hk Hnb Hni Hpc Hr1 Hr2 Hcode. unfold helper_inst_increment.
  destruct (resolve_branch_ok n k nb ni da s pc Hc Hp ltac:(lia)) as (s1 & -> & Hc1 & Hp1). bs. cbv zeta.
  destruct (fetch_ok n k nb ni da (s1 <| cur_PC := pc |>) pc r1 r2) as (m & s2 & -> & Hc2 & Hp2); try lia.
  { by destruct Hc1. }
  { destruct Hp1 as [[]|[(tr & [] & Hne)|[]]]; [left; by split|right; left; exists tr; split; [by split|done]|right; right; by split]. }
  bs. destruct (first_sample_ok (n + 1) k nb ni da s2 Hc2 Hp2 ltac:(lia)) as (s3 & -> & Hc3 & Hp3). bs.
  destruct (finish_sample_ok (n + 1) k nb ni da s3 Hc3 Hp3 ltac:(lia) ltac:(lia)) as (s4 & -> & Hc4 & Hp4 & Hl4). bs.
  destruct (next_sample_ok (n + 1) k nb ni da s4 Hc4 Hp4 Hl4 Hnb ltac:(lia) Hk) as (s5 & -> & Hc5 & Hp5 & Hl5). bs.
  destruct (record_inst_ok (n + 1) (k + 1) nb ni da s5 pc code m Hc5 Hp5 Hl5 Hcode Hni) as (s6 & -> & Hc6 & Hp6). bs.
  eexists. split; [done|]. split; [exact Hc6|]. by right.
Qed.

(** ** Program end *)

Lemma wrapup_ok n k nb ni da s :
  counts n k nb ni s → phase da s → k < 2 ^ 30 → nb ≤ 53000000 → 0 ≤ ni < 2 ^ 31 →
  ∃ s', perfmodel_sample_wrapup junk shl_32 ctz_0 fuel s = Some s' ∧ counts n (k + 1) nb ni s'.
Proof.
  intros Hc Hp Hk Hnb Hni. unfold perfmodel_sample_wrapup.
  assert (Hsame : counts n (k + 1) nb ni s) by (destruct Hc as [? ? ? ? ? [? ?] ?]; split; try done; lia).
  destruct Hp as [Hp|[(tr & Hs & Hne)|Hp]]; [rewrite (cd_sampled _ Hp); by exists s| |rewrite (an_sampled _ Hp); by exists s].
  rewrite (sa_sampled _ _ _ Hs). destruct (sample_end_ok n k nb ni da s tr Hc Hs ltac:(lia) Hni) as (x & -> & Hx1 & Hx2 & Hx3). bs.
  destruct Hs as [Hsa Hrun Hth (V & T & Hrec) Hlat Hnum Hlen _ _ _ _].
  unfold trace_analyzer_thread_start. change (num_thread (s <| pm := _ |>)) with (num_thread s).
  change (running (s <| pm := _ |>)) with (running s). rewrite Hth, int_op_ok, Hrun by lia. bs.
  set (s1 := s <| pm := _ |> <| num_thread := _ |> <| running := true |>).
  assert (Hc1 : counts n k nb ni s1) by exact (counts_sample n k nb ni s (buffer s) x (is_sampled s) (num_sampled_inst s) 1 true Hc).
  assert (1 ≤ Z.of_nat (length tr)) by (destruct tr; simpl; [done|lia]).
  destruct (await_ok n k nb ni s1 V T tr Hc1 eq_refl eq_refl Hrec Hx1 ltac:(lia) Hlat Hx2 Hx3 Hnb Hk)
    as (cycle & penalty & s2 & q & V' & T' & -> & Hu & Hc' & _). bs. rewrite Hu. bs. by eexists.
Qed.

Lemma gdb_exit_ok n k nb ni da s :
  heap_ok base → counts n k nb ni s → phase da s → n ≤ 2 ^ 30 → k < 2 ^ 30 → nb ≤ 53000000 → 0 ≤ ni < 2 ^ 31 →
  ∃ cycle h' s', gdb_exit junk shl_32 ctz_0 fuel s = Some (ni, cycle, h', s') ∧ 0 ≤ cycle ≤ 2 ^ 63 ∧
    blks h' = blks base ∧ bufs h' = bufs base.
Proof.
  intros Hb Hc Hp Hn Hk Hnb Hni. unfold gdb_exit.
  destruct (wrapup_ok n k nb ni da s Hc Hp Hk Hnb Hni) as (s' & -> & Hc'). bs.
  destruct (counts_cycles _ _ _ _ _ Hc' Hn Hni) as [(v & -> & Hv) _]. bs.
  destruct (co_mem _ _ _ _ _ Hc') as (H & Hh & _). destruct (hier_end _ _ _ _ _ _ _ Hb Hh) as (h' & He & Hh').
  unfold perfmodel_end. rewrite He. bs. rewrite (co_insts _ _ _ _ _ Hc'). by exists v, h', s'.
Qed.
End Glue.
