(* ===== verification/SamplingTheorems.v ===== *)
(** A whole simulation: from loading the configuration to the estimate printed at exit. *)

From Stdlib Require Import ZArith Lia String.
From Stdlib Require Import Floats.SpecFloat.
From stdpp Require Import base tactics functions numbers option list gmap.
From S2P Require Import Prelude DList Double DoubleRange DoublePos Config ConfigTheorems Cache CacheSpec CacheLife CacheTheorems CacheSim CacheSimTheorems Bpred BpredTheorems Darm Inst InstTheorems Rob TraceAnalyzer PipelineInv PipelineExpand PipelineRun BufferManager Record Perfmodel PerfmodelInv Sampling SamplingInv PipelineTheorems.

(** ** Helper calls *)

(** What the translated program calls, with the numbers [rand()] returns in between. *)
Inductive call :=
  | CInst (pc code r1 r2 : Z)
  | CRead (addr r1 r2 : Z)
  | CWrite (addr r1 r2 : Z)
  | CBranch (cond : Z).

Definition is_inst (c : call) : bool := if c is CInst _ _ _ _ then true else false.
Definition is_jump (c : call) : bool := if c is CBranch _ then true else false.
Definition count (f : call → bool) (l : list call) : Z := Z.of_nat (length (filter (λ c, f c = true) l)).

(** At most 16 data accesses between two instructions, after [da] of them. *)
Fixpoint few_accesses (da : Z) (l : list call) : bool :=
  match l with
  | [] => true
  | CInst _ _ _ _ :: l => few_accesses 0 l
  | CRead _ _ _ :: l | CWrite _ _ _ :: l => (da <? 16) && few_accesses (da + 1) l
  | CBranch _ :: l => few_accesses da l
  end.

(** The arguments a helper is called with. *)
Definition call_ok (c : call) : Prop :=
  match c with
  | CInst pc code r1 r2 => 0 ≤ pc ∧ 0 ≤ r1 ∧ 0 ≤ r2 ∧ word_fits code = true
  | CRead addr r1 r2 | CWrite addr r1 r2 => 0 ≤ addr ∧ 0 ≤ r1 ∧ 0 ≤ r2
  | CBranch _ => True
  end.

Section Simulation.
Variable perfmodel : perfmodel_config.
Variables (junk_miss : CacheMissType) (junk : Inst) (shl_32 : Z → Z) (ctz_0 : Z) (fuel : nat).

Definition do_call (c : call) (s : Sim) : option Sim :=
  match c with
  | CInst pc code r1 r2 => helper_inst_increment perfmodel junk_miss junk shl_32 ctz_0 fuel s pc code r1 r2
  | CRead addr r1 r2 => helper_dcache_read_access perfmodel junk_miss s addr r1 r2
  | CWrite addr r1 r2 => helper_dcache_write_access perfmodel junk_miss s addr r1 r2
  | CBranch cond => Some (helper_set_branch_inst s cond)
  end.

Fixpoint do_calls (l : list call) (s : Sim) : option Sim :=
  match l with
  | [] => Some s
  | c :: l => s ← do_call c s; do_calls l s
  end.

Lemma fits_decodes code : 16 < ctz_0 → word_fits code = true → code_decodes junk shl_32 ctz_0 code.
Proof.
  intros Hc Hf. unfold code_decodes, decodable.
  replace (new_inst junk 0 0 code L1Hit) with (init_inst (junk <| inst_cache_miss := L1Hit |>) 0 0 code) by reflexivity.
  apply decode_iff; [exact Hc|exact Hf].
Qed.

Section Run.
Context (base : Heap) (Hwk : workable perfmodel) (Hctz : 16 < ctz_0).
Context (Hjs : length (src_reg junk) = 16%nat) (Hjd : length (dst_reg junk) = 16%nat)
  (Hja : length (eff_addr junk) = 16%nat).
Context (Hfuel : inst_bound (cc_latency (ul2 perfmodel)) * sample_length (sample perfmodel) < Z.of_nat fuel).
Local Abbreviation counts := (counts perfmodel base).
Local Abbreviation phase := (phase perfmodel shl_32 ctz_0).

Lemma counts_more n k nb ni n' k' nb' s :
  counts n k nb ni s → n ≤ n' → k ≤ k' → nb ≤ nb' → counts n' k' nb' ni s.
Proof.
  intros [(H & ? & ? & ?) ? ? ? ? [? ?] ?] ???. split; try done; try lia. exists H. split_and!; try done; lia.
Qed.

Lemma do_calls_ok l n nb ni da s :
  counts n n nb ni s → phase da s → Forall call_ok l → few_accesses da l = true →
  n + Z.of_nat (length l) < 2 ^ 30 → nb + count is_jump l ≤ 53000000 → 0 ≤ ni ≤ n →
  ∃ s' da', do_calls l s = Some s' ∧ phase da' s' ∧
    counts (n + Z.of_nat (length l)) (n + Z.of_nat (length l)) (nb + count is_jump l) (ni + count is_inst l) s'.
Proof.
  revert n nb ni da s. induction l as [|c l IH]; intros n nb ni da s Hc Hp Hok Hfew Hn Hb Hi.
  { exists s, da. unfold count. simpl. rewrite !Z.add_0_r. done. }
  apply Forall_cons in Hok as [Hok Hoks]. unfold count in *. rewrite filter_cons in Hb |- *. rewrite filter_cons.
  assert (0 ≤ Z.of_nat (length (filter (λ c, is_jump c = true) l))) by lia.
  destruct c as [pc code r1 r2|addr r1 r2|addr r1 r2|cond]; simpl in *.
  - destruct Hok as (? & ? & ? & Hcode%fits_decodes); [|done].
    destruct (inst_increment_ok perfmodel Hwk junk_miss junk shl_32 ctz_0 fuel base Hjs Hjd Hja Hfuel n n nb ni da s pc code r1 r2 Hc Hp)
      as (s1 & -> & Hc1 & Hp1); [lia..|done|]. bs.
    destruct (IH (n + 1) nb (ni + 1) 0 s1 Hc1 Hp1 Hoks Hfew) as (s' & da' & -> & Hp' & Hc'); [lia..|].
    exists s', da'. split; [done|]. split; [done|]. simpl.
    replace (ni + Z.of_nat (S (length (filter (λ c, is_inst c = true) l)))) with (ni + 1 + Z.of_nat (length (filter (λ c, is_inst c = true) l))) by lia.
    eapply counts_more; [exact Hc'|lia..].
  - destruct Hok as (? & ? & ?). apply andb_true_iff in Hfew as [Hda%Z.ltb_lt Hfew].
    destruct (dcache_access_ok perfmodel junk_miss junk shl_32 ctz_0 fuel base Hjs Hjd Hja n n nb ni da s addr false r1 r2 Hc Hp)
      as (hit & s1 & E & Hc1 & Hp1); [lia..|]. unfold helper_dcache_read_access. rewrite E. bs.
    apply (counts_more _ _ _ _ (n + 1) (n + 1) nb) in Hc1; [|lia..].
    destruct (IH (n + 1) nb ni (da + 1) s1 Hc1 Hp1 Hoks Hfew) as (s' & da' & -> & Hp' & Hc'); [lia..|].
    exists s', da'. split; [done|]. split; [done|]. eapply counts_more; [exact Hc'|lia..].
  - destruct Hok as (? & ? & ?). apply andb_true_iff in Hfew as [Hda%Z.ltb_lt Hfew].
    destruct (dcache_access_ok perfmodel junk_miss junk shl_32 ctz_0 fuel base Hjs Hjd Hja n n nb ni da s addr true r1 r2 Hc Hp)
      as (hit & s1 & E & Hc1 & Hp1); [lia..|]. unfold helper_dcache_write_access. rewrite E. bs.
    apply (counts_more _ _ _ _ (n + 1) (n + 1) nb) in Hc1; [|lia..].
    destruct (IH (n + 1) nb ni (da + 1) s1 Hc1 Hp1 Hoks Hfew) as (s' & da' & -> & Hp' & Hc'); [lia..|].
    exists s', da'. split; [done|]. split; [done|]. eapply counts_more; [exact Hc'|lia..].
  - destruct (IH n (nb + 1) ni da (helper_set_branch_inst s cond)) as (s' & da' & -> & Hp' & Hc'); try done; try lia.
    + destruct Hc as [? ? ? Hbr]. split; try done. simpl. destruct (is_branch s); lia.
    + destruct Hp as [[]|[(tr & [] & Hne)|[]]]; [left; by split|right; left; exists tr; split; [by split|done]|right; right; by split].
    + exists s', da'. split; [done|]. split; [done|]. eapply counts_more; [exact Hc'|lia..].
Qed.
End Run.
End Simulation.

(** ** The command line *)

Definition spaced (args : list string) : string := foldr (λ a s, (a ++ " " ++ s)%string) ""%string args.
Definition space_for (args : list string) : nat := foldr (λ a n, (String.length a + 1 + n)%nat) 0%nat args.

Lemma append_args_ok size args c :
  (String.length c + space_for args < size)%nat → append_args size c args = Some (c ++ spaced args)%string.
Proof.
  revert c. induction args as [|a args IH]; intros c Hs; simpl in *; [by rewrite append_nil_r|].
  unfold append_arg. rewrite !append_length. simpl.
  rewrite (proj2 (Nat.ltb_lt _ _)) by lia. rewrite (proj2 (Nat.ltb_lt _ _)) by lia. bs. rewrite IH.
  - by rewrite !append_assoc.
  - rewrite !append_length. simpl. lia.
Qed.

Lemma build_command_ok argv : build_command argv = Some (spaced (tail argv)).
Proof.
  unfold build_command. fold (space_for argv). destruct argv as [|a argv]; [done|]. simpl tail.
  rewrite append_args_ok; [done|]. simpl. lia.
Qed.

(** The buffers for the command line are large enough for every [argv]: nothing is
    written behind their end, and the text is the arguments, each followed by a blank. *)
Theorem command_fits argv :
  build_command argv = Some (spaced (tail argv)) ∧ (String.length (spaced (tail argv)) ≤ space_for argv)%nat.
Proof.
  split; [apply build_command_ok|]. destruct argv as [|a argv]; [done|]. simpl.
  enough (String.length (spaced argv) = space_for argv) by lia.
  induction argv as [|x argv IH]; [done|]. simpl. rewrite !append_length. simpl. lia.
Qed.

(** ** Measured rates *)

(** The statistics of one sample and the analyzer's results. *)
Record measure := Measure { m_insts : Z; m_mispred : Z; m_cycle : Z; m_penalty : Z }.

Fixpoint measured (l : list measure) (s : PM) : option PM :=
  match l with
  | [] => Some s
  | m :: l =>
      s ← perfmodel_update (s <| sample_stat := MkStat (m_insts m) 0 0 0 (m_mispred m) |>) (m_cycle m) (m_penalty m);
      measured l s
  end.

Definition measure_ok (m : measure) : Prop :=
  1 ≤ m_insts m ≤ 2 ^ 20 ∧ 0 ≤ m_mispred m ∧ 1 ≤ m_cycle m ≤ 2 ^ 30 ∧ 0 ≤ m_penalty m ≤ 40.

Definition mispredicts (l : list measure) : Z := foldr (λ m z, m_mispred m + z) 0 l.

Lemma measured_ok l s :
  rates s → Forall measure_ok l → num_sampling s + Z.of_nat (length l) < 2 ^ 31 →
  num_ipc s + Z.of_nat (length l) < 2 ^ 31 → 40 * (num_total_branch s + mispredicts l) < 2 ^ 31 →
  ∃ s', measured l s = Some s' ∧ rates s' ∧ num_sampling s' = num_sampling s + Z.of_nat (length l) ∧
    num_insts s' = num_insts s ∧ (bpred_penalty s' = bpred_penalty s ∨ 0 ≤ bpred_penalty s' ≤ 40).
Proof.
  revert s. induction l as [|m l IH]; intros s Hr Hok Hn Hi Hb.
  { exists s. split_and!; try done; [simpl; lia|by left]. }
  simpl in Hn, Hi, Hb. cbn [measured].
  apply Forall_cons in Hok as [(H1 & H2 & H3 & H4) Hok].
  assert (0 ≤ mispredicts l).
  { clear -Hok. induction l as [|x l IH]; [done|]. apply Forall_cons in Hok as [(_ & ? & _) Hok]. specialize (IH Hok). simpl. lia. }
  set (s1 := s <| sample_stat := MkStat (m_insts m) 0 0 0 (m_mispred m) |>).
  destruct (perfmodel_update_ok s1 (m_cycle m) (m_penalty m)) as (s2 & -> & Hr2 & Hi2 & _ & Hn2 & Hip & Hb2 & Hp2);
    [by apply rates_stat|simpl; lia..|]. bs.
  simpl in Hn2, Hip, Hb2. destruct (IH s2 Hr2 Hok ltac:(lia) ltac:(lia) ltac:(lia)) as (s' & -> & Hr' & Hn' & Hi' & Hp').
  exists s'. split; [done|]. split; [done|]. split; [simpl; lia|]. split; [exact (eq_trans Hi' Hi2)|].
  destruct Hp' as [->|]; [exact Hp2|by right].
Qed.


(** ** The whole simulation *)

Section Simulate.
Variables (junk_blk : Cache_blk_t) (junk_set : Cache_set_t) (junk_cache : Cache_t) (wide_shift : Z → Z).
Variables (junk_miss : CacheMissType) (junk : Inst) (shl_32 : Z → Z) (ctz_0 : Z) (fuel : nat).

Definition simulate (doc : option xmlNode) (perfmodel : perfmodel_config) (argv : list string)
  (h : Heap) (b : BM) (l : list call) : option (Z * Z * Heap * Sim) :=
  '(perfmodel, q, h, c, p, _) ← perfmodel_initialize junk_blk junk_set junk_cache wide_shift doc perfmodel argv h;
  s ← do_calls perfmodel junk_miss junk shl_32 ctz_0 fuel l (sim0 h c p q b);
  gdb_exit junk shl_32 ctz_0 fuel s.

End Simulate.

(** ** An example *)

(** A document for a small processor: samples of 2 instructions in periods of 3. *)
Definition example_cache_attrs (lat : string) : attrs :=
  w_attrs [("perfect", "0"); ("num_set", "4"); ("size_blk", "32"); ("assoc", "2"); ("replacement_policy", "lru");
           ("latency", lat)]%string.

Definition example_doc : xmlNode :=
  w_root
    [XmlNode true "sample" (w_attrs [("length", "2"); ("default_period", "3"); ("initial_effective_dispatch_width", "2.5")]%string) [];
     XmlNode true "core" (w_attrs [("frontend_width", "3"); ("backend_width", "8"); ("rob_size", "40"); ("iq_size", "32")]%string) [];
     XmlNode true "numfu" (w_attrs [("intalu", "2"); ("intmultdiv", "1"); ("mem_rwport", "1")]%string) [];
     XmlNode true "il1_cache" (example_cache_attrs "2") []; XmlNode true "dl1_cache" (example_cache_attrs "2") [];
     XmlNode true "ul2_cache" (example_cache_attrs "20") [];
     XmlNode true "memory" (w_attrs [("latency", "100")]%string) [];
     XmlNode true "bpred" (w_attrs [("bimod_table_size", "2048"); ("mispredict_penalty", "15")]%string) []].

Definition loaded_config : perfmodel_config :=
  Eval vm_compute in default perfmodel0 (snd <$> load_configfile (Some example_doc) perfmodel0).

Lemma loaded_config_ok : load_configfile (Some example_doc) perfmodel0 = Some (0, loaded_config).
Proof. vm_compute. reflexivity. Qed.

Lemma loaded_config_workable : workable loaded_config.
Proof.
  split; try (simpl; lia); try done.
Qed.

(** A loop of [add r0, r1, r2; ldr r3, [r0]; b]. *)
Definition example_calls : list call :=
  let body := [CInst 32768 3766550530 0 0; CInst 32772 3851431936 0 0; CRead 65536 0 0; CInst 32776 3925868544 0 0; CBranch 1] in
  body ++ body ++ body.

Lemma example_calls_ok : Forall call_ok example_calls.
Proof. repeat constructor; try done; simpl; lia. Qed.


(** Three samples of 1000 instructions. *)
Definition example_measures : list measure := [Measure 1000 12 731 15; Measure 1000 0 1402 0; Measure 1000 3 650 11].

Definition example_pm : PM := pm0 <| num_insts := 100000 |> <| effective_dispatch_width := of_int 2 |> <| bpred_penalty := 15 |>.

Lemma example_pm_rates : rates example_pm.
Proof. split; try (simpl; lia); [|by left]. vm_compute. by repeat split. Qed.

