(* ===== verification/Memmap.v ===== *)
(** The memory map (hsim-stub/hsim_mmap.c): regions in a doubly linked list that moves the
    region found last to its front. *)

From Stdlib Require Import ZArith Lia.
From stdpp Require Import base tactics option list gmap.
From S2P Require Import Prelude DList.

Inductive MemoryType :=
  | MEM_VIRTUAL | MEM_INTERNAL | MEM_LOCAL | MEM_SCRATCHPAD | MEM_SHARED_C | MEM_SHARED_NC
  | MEM_UNKNOWN | MEM_UNDEFINED.

#[export] Instance MemoryType_eq_dec : EqDecision MemoryType.
Proof. solve_decision. Defined.

(** The address range, latency and type of a region. *)
Record region := Region { r_base : Z; r_size : Z; r_latency : Z; r_type : MemoryType }.

Record mem_region := MkRegion { r_data : region; r_next : option ptr; r_prev : option ptr }.

Definition set_rnext v r := MkRegion (r_data r) v (r_prev r).
Definition set_rprev v r := MkRegion (r_data r) (r_next r) v.

#[export] Instance region_dnode : DNode mem_region region := {|
  nprev := r_prev; nnext := r_next; ndata := r_data; set_nprev := set_rprev; set_nnext := set_rnext;
  nprev_set_nprev _ _ := eq_refl; nnext_set_nprev _ _ := eq_refl; ndata_set_nprev _ _ := eq_refl;
  nprev_set_nnext _ _ := eq_refl; nnext_set_nnext _ _ := eq_refl; ndata_set_nnext _ _ := eq_refl;
|}.

(** The allocated regions, the next free address, and [mem_region_head]. *)
Record Memmap := MkMap { regions : gmap ptr mem_region; region_brk : ptr; mem_region_head : option ptr }.

(** [malloc (sizeof (mem_region))], filled by the caller; the links are set later. *)
Definition malloc_region (m : Memmap) (r : region) (junk : option ptr) : Memmap * ptr :=
  (MkMap (<[region_brk m := MkRegion r junk junk]> (regions m)) (Pos.succ (region_brk m)) (mem_region_head m), region_brk m).

Definition SYS_REG_BASE : Z := 0xE0000000.
Definition NUM_SYS_REG : Z := 8.
Definition MEM_LOCAL_BASE : Z := 0.
Definition MEM_LOCAL_SIZE : Z := 0x30000000.

Definition memmap_initialize (m : Memmap) : Memmap := MkMap (regions m) (region_brk m) None.

(** [while (pRegion != 0) free (...)]; the head keeps its dangling value. *)
Fixpoint destroy_regions (fuel : nat) (h : gmap ptr mem_region) (p : option ptr) : option (gmap ptr mem_region) :=
  match p with
  | None => Some h
  | Some p =>
      match fuel with
      | O => None
      | S fuel => r ← h !! p; destroy_regions fuel (delete p h) (r_next r)
      end
  end.

Definition memmap_destroy (m : Memmap) : option Memmap :=
  h ← destroy_regions (size (regions m)) (regions m) (mem_region_head m);
  Some (MkMap h (region_brk m) (mem_region_head m)).

(** [while (prevRegion->next != 0) prevRegion = prevRegion->next]. *)
Fixpoint last_region (fuel : nat) (h : gmap ptr mem_region) (p : ptr) : option ptr :=
  r ← h !! p;
  match r_next r with
  | None => Some p
  | Some q => match fuel with O => None | S fuel => last_region fuel h q end
  end.

Definition memmap_add_region (m : Memmap) (pRegion : ptr) : option Memmap :=
  h ← upd (regions m) pRegion (set_rprev None);
  h ← upd h pRegion (set_rnext None);
  match mem_region_head m with
  | None => Some (MkMap h (region_brk m) (Some pRegion))
  | Some p =>
      prevRegion ← last_region (size h) h p;
      h ← upd h prevRegion (set_rnext (Some pRegion));
      h ← upd h pRegion (set_rprev (Some prevRegion));
      Some (MkMap h (region_brk m) (Some p))
  end.

Definition memmap_is_local (addr : Z) : bool := addr <? MEM_LOCAL_BASE + MEM_LOCAL_SIZE.

(** The end of a region is computed in 32 bits. *)
Definition contains (r : region) (addr : Z) : bool :=
  (r_base r <=? addr) && (addr <? u32 (r_base r + r_size r)).

Fixpoint search_region (fuel : nat) (h : gmap ptr mem_region) (p : option ptr) (addr : Z) : option (option ptr) :=
  match p with
  | None => Some None
  | Some p =>
      match fuel with
      | O => None
      | S fuel =>
          r ← h !! p;
          if contains (r_data r) addr then Some (Some p) else search_region fuel h (r_next r) addr
      end
  end.

(** The region found is pulled up; the [prev] link of the new head is left as it is. *)
Definition pull_up (m : Memmap) (p : ptr) : option Memmap :=
  r ← regions m !! p;
  q ← r_prev r;
  h ← upd (regions m) q (set_rnext (r_next r));
  r ← h !! p;
  h ← upd_opt h (r_next r) (set_rprev (r_prev r));
  h ← upd h p (set_rnext (mem_region_head m));
  hd ← mem_region_head m;
  h ← upd h hd (set_rprev (Some p));
  Some (MkMap h (region_brk m) (Some p)).

Definition memmap_find_mem_region (m : Memmap) (addr : Z) : option (option ptr * Memmap) :=
  o ← search_region (size (regions m)) (regions m) (mem_region_head m) addr;
  match o with
  | Some p =>
      if decide (mem_region_head m = Some p) then Some (o, m) else m ← pull_up m p; Some (o, m)
  | None => Some (o, m)
  end.

Definition is_sys_reg (addr : Z) : bool := (SYS_REG_BASE <=? addr) && (addr <? SYS_REG_BASE + NUM_SYS_REG * 4).

Definition memmap_is_shared (m : Memmap) (addr : Z) : option (bool * Memmap) :=
  '(o, m) ← memmap_find_mem_region m addr;
  if is_sys_reg addr then Some (true, m)
  else
    match o with
    | Some p =>
        r ← regions m !! p;
        Some (bool_decide (r_type (r_data r) ∈ [MEM_SCRATCHPAD; MEM_SHARED_C; MEM_SHARED_NC]), m)
    | None => Some (false, m)
    end.

Definition memmap_get_type (m : Memmap) (addr : Z) : option (MemoryType * Memmap) :=
  if is_sys_reg addr then Some (MEM_INTERNAL, m)
  else
    '(o, m) ← memmap_find_mem_region m addr;
    match o with
    | Some p => r ← regions m !! p; Some (r_type (r_data r), m)
    | None => Some (MEM_UNKNOWN, m)
    end.

(** ** The list of regions *)

(** The list starts at the head; the first [prev] link may be anything. *)
Record map_rep (m : Memmap) (xs : list (ptr * region)) : Prop := {
  mr_head : mem_region_head m = first_ptr xs None;
  mr_seg : ∃ pp, dseg (regions m) pp xs None;
  mr_nodup : NoDup xs.*1;
  mr_dom : ∀ p, p ∈ dom (regions m) ↔ p ∈ xs.*1;
  mr_brk : ∀ p, p ∈ xs.*1 → (p < region_brk m)%positive;
}.

(** The first region that contains [addr], with what comes before and after it. *)
Fixpoint split_at (addr : Z) (xs : list (ptr * region)) : option (list (ptr * region) * (ptr * region) * list (ptr * region)) :=
  match xs with
  | [] => None
  | x :: xs =>
      if contains x.2 addr then Some ([], x, xs)
      else '(l, y, r) ← split_at addr xs; Some (x :: l, y, r)
  end.

Definition found (addr : Z) (xs : list (ptr * region)) : option (ptr * region) :=
  '(_, x, _) ← split_at addr xs; Some x.

(** The found region is moved to the front. *)
Definition pulled (addr : Z) (xs : list (ptr * region)) : list (ptr * region) :=
  match split_at addr xs with
  | Some (l, x, r) => x :: l ++ r
  | None => xs
  end.

Lemma split_at_eq addr xs l x r : split_at addr xs = Some (l, x, r) → xs = l ++ x :: r ∧ contains x.2 addr = true.
Proof.
  revert l x r. induction xs as [|y xs IH]; intros l x r; simpl; [done|].
  destruct (contains y.2 addr) eqn:E; [by intros [= <- <- <-]|].
  destruct (split_at addr xs) as [[[l0 x0] r0]|]; [|done]. simpl. intros [= <- <- <-].
  by destruct (IH _ _ _ eq_refl) as [-> ?].
Qed.

Lemma dseg_size h pp xs nn : dseg h pp xs nn → NoDup xs.*1 → (length xs ≤ size h)%nat.
Proof.
  intros Hs Hnd. rewrite <-(length_fmap fst), <-size_dom, <-(size_list_to_set (C := gset ptr)) by done.
  apply subseteq_size. intros p Hp. apply elem_of_list_to_set, list_elem_of_fmap in Hp as (x & -> & Hx).
  destruct (dseg_elem _ _ _ _ _ Hs Hx) as (n & Hn & _). by apply elem_of_dom_2 in Hn.
Qed.

Lemma search_ok addr fuel h pp xs :
  dseg h pp xs None → (length xs ≤ fuel)%nat →
  search_region fuel h (first_ptr xs None) addr = Some (fst <$> found addr xs).
Proof.
  revert pp xs. induction fuel as [|fuel IH]; intros pp [|x xs] Hs Hf; simpl in *; try done; try lia.
  destruct Hs as [(n & Hn & _ & Hnx & Hd) Hs]. rewrite Hn. simpl. unfold found. simpl. simpl in Hd. rewrite Hd.
  destruct (contains x.2 addr); [done|]. change (r_next n = first_ptr xs None) in Hnx. rewrite Hnx.
  rewrite (IH (Some x.1) xs Hs) by lia. unfold found. by destruct (split_at addr xs) as [[[? ?] ?]|].
Qed.

Lemma pull_up_ok m l x r :
  map_rep m (l ++ x :: r) → l ≠ [] → ∃ m', pull_up m x.1 = Some m' ∧ map_rep m' (x :: l ++ r).
Proof.
  intros [Hh [pp Hs] Hnd Hdom Hbrk] Hl. destruct l as [|w l _] using rev_ind; [done|]. clear Hl.
  pose proof (proj1 (NoDup_fst_middle _ _ _) Hnd) as [Hnd' Hx]. rewrite fmap_app, NoDup_app in Hnd'. destruct Hnd' as (Hndl & Hlr & Hndr).
  apply dseg_app in Hs as [Hs1 Hs2]. simpl in Hs1. destruct Hs2 as [(nx & Hnx & Hpx & Hnnx & Hdx) Hs2]. rewrite last_ptr_snoc in Hpx.
  destruct (dseg_elem _ _ _ _ w Hs1) as (nw & Hnw & _); [set_solver|].
  assert (Hwx : w.1 ≠ x.1) by (rewrite !fmap_app in Hx; set_solver).
  assert (Hwr : w.1 ∉ r.*1) by (apply Hlr; rewrite fmap_app; set_solver).
  assert (Hxl : x.1 ∉ (l ++ [w]).*1 ∧ x.1 ∉ r.*1) by (rewrite fmap_app, elem_of_app in Hx; naive_solver).
  unfold pull_up. rewrite Hnx. simpl in Hpx, Hnnx |- *. rewrite Hpx, Hnnx. simpl. rewrite (upd_Some _ _ _ _ Hnw). simpl.
  set (h1 := <[w.1 := _]> (regions m)).
  assert (S1 : dseg h1 pp (l ++ [w]) (first_ptr r None)).
  { unfold h1. change (set_rnext (first_ptr r None) nw) with (set_nnext (first_ptr r None) nw).
    apply (dseg_set_last (regions m) pp l w (Some x.1) (first_ptr r None) nw); try done. rewrite fmap_app, NoDup_app in Hndl. set_solver. }
  assert (S2 : dseg h1 (Some x.1) r None) by (by apply dseg_insert_notin).
  assert (N1 : h1 !! x.1 = Some nx) by (unfold h1; by rewrite lookup_insert_ne).
  rewrite N1. simpl. rewrite Hnnx, Hpx.
  destruct (link_prev h1 (Some x.1) r None (Some w.1) Hndr S2) as (h2 & E2 & S3 & D2 & F2).
  change (set_nprev (Some w.1)) with (set_rprev (Some w.1)) in E2. rewrite E2. simpl.
  assert (Fl : ∀ q, q ∉ r.*1 → h2 !! q = h1 !! q).
  { intros q Hq. apply F2. intros Hf. apply first_ptr_elem in Hf as [|]; done. }
  assert (S4 : dseg h2 pp ((l ++ [w]) ++ r) None).
  { apply dseg_app. split; [|by rewrite last_ptr_snoc]. eapply dseg_frame; [|exact S1]. intros q Hq. apply Fl. by apply Hlr. }
  assert (N2 : h2 !! x.1 = Some nx) by (rewrite Fl; [done|apply Hxl]).
  rewrite (upd_Some _ _ _ _ N2). simpl. set (h3 := <[x.1 := _]> h2).
  assert (S5 : dseg h3 pp ((l ++ [w]) ++ r) None) by (by apply dseg_insert_notin).
  destruct (link_prev h3 pp ((l ++ [w]) ++ r) None (Some x.1)) as (h4 & E4 & S6 & D4 & F4); [rewrite fmap_app, NoDup_app; done|done|].
  rewrite Hh. assert (Ef : first_ptr ((l ++ [w]) ++ x :: r) None = first_ptr ((l ++ [w]) ++ r) None) by (by destruct l).
  rewrite Ef. destruct (first_ptr ((l ++ [w]) ++ r) None) as [hd|] eqn:Ehd; [|by destruct l]. simpl.
  simpl in E4. change (set_nprev (Some x.1)) with (set_rprev (Some x.1)) in E4. rewrite E4. simpl. eexists. split; [done|].
  assert (N4 : h4 !! x.1 = Some (set_rnext (Some hd) nx)).
  { rewrite F4; [unfold h3; rewrite Hh, Ef; apply lookup_insert_eq|]. intros [= ->]. apply first_ptr_elem in Ehd as [|]; done. }
  split; simpl; try done.
  - exists (Some w.1). split; [|done]. eexists. split; [exact N4|]. simpl. by rewrite Ehd, Hpx.
  - apply NoDup_cons. split; [exact Hx|]. change (NoDup ((l ++ [w]) ++ r).*1). rewrite fmap_app, NoDup_app. done.
  - intros q. rewrite D4. unfold h3. rewrite dom_insert_L, D2. unfold h1. rewrite dom_insert_L.
    apply elem_of_dom_2 in Hnx, Hnw. specialize (Hdom q). rewrite !fmap_app in *. set_solver.
  - intros q Hq. apply Hbrk. rewrite !fmap_app in *. set_solver.
Qed.

Lemma find_ok m xs addr :
  map_rep m xs → ∃ m', memmap_find_mem_region m addr = Some (fst <$> found addr xs, m') ∧ map_rep m' (pulled addr xs).
Proof.
  intros Hm. pose proof Hm as [Hh [pp Hs] Hnd _ _]. unfold memmap_find_mem_region.
  rewrite Hh, (search_ok addr _ _ pp xs Hs) by (by eapply dseg_size). simpl.
  unfold found, pulled. destruct (split_at addr xs) as [[[l x] r]|] eqn:E; simpl; [|by exists m].
  apply split_at_eq in E as [-> _]. destruct l as [|y l]; simpl.
  { rewrite decide_True by done. by exists m. }
  rewrite decide_False.
  - destruct (pull_up_ok m (y :: l) x r Hm ltac:(done)) as (m' & -> & Hr). by exists m'.
  - apply NoDup_fst_middle in Hnd as [_ Hx]. intros [= E]. apply Hx. simpl. rewrite E. by left.
Qed.

(** ** Disjoint regions *)

(** No address lies in two regions. *)
Definition disjoint_regions (xs : list (ptr * region)) : Prop :=
  ∀ x y addr, x ∈ xs → y ∈ xs → contains x.2 addr = true → contains y.2 addr = true → x = y.

Lemma found_elem addr xs x : found addr xs = Some x → x ∈ xs ∧ contains x.2 addr = true.
Proof.
  unfold found. destruct (split_at addr xs) as [[[l y] r]|] eqn:E; [|done]. simpl. intros [= <-].
  apply split_at_eq in E as [-> ?]. split; [set_solver|done].
Qed.

Lemma found_none addr xs : found addr xs = None → ∀ x, x ∈ xs → contains x.2 addr = false.
Proof.
  unfold found. induction xs as [|y xs IH]; simpl; [set_solver|]. intros H x [->|Hx]%elem_of_cons.
  - by destruct (contains y.2 addr).
  - destruct (contains y.2 addr); [done|]. destruct (split_at addr xs) as [[[? ?] ?]|]; [done|]. by apply IH.
Qed.

(** With disjoint regions the answer does not depend on the order of the list. *)
Lemma found_perm addr xs ys : xs ≡ₚ ys → disjoint_regions xs → found addr ys = found addr xs.
Proof.
  intros Hp Hd. destruct (found addr xs) as [x|] eqn:E1, (found addr ys) as [y|] eqn:E2; try done.
  - apply found_elem in E1 as [? ?], E2 as [? ?]. f_equal. eapply Hd; eauto; by rewrite Hp.
  - apply found_elem in E1 as [Hx Hc]. rewrite Hp in Hx. by rewrite (found_none _ _ E2 _ Hx) in Hc.
  - apply found_elem in E2 as [Hy Hc]. rewrite <-Hp in Hy. by rewrite (found_none _ _ E1 _ Hy) in Hc.
Qed.

Lemma pulled_perm addr xs : pulled addr xs ≡ₚ xs.
Proof.
  unfold pulled. destruct (split_at addr xs) as [[[l x] r]|] eqn:E; [|done]. apply split_at_eq in E as [-> _].
  by rewrite Permutation_middle.
Qed.

(** ** Adding and releasing regions *)

Lemma last_region_ok fuel h pp x xs :
  dseg h pp (x :: xs) None → (length xs ≤ fuel)%nat → last_region fuel h x.1 = last_ptr None (x :: xs).
Proof.
  revert fuel pp x. induction xs as [|y xs IH]; intros fuel pp x Hs Hf; simpl in Hs; destruct Hs as [(n & Hn & _ & Hnx & _) Hs].
  - change (r_next n = None) in Hnx. destruct fuel; simpl; rewrite Hn; simpl; by rewrite Hnx.
  - change (r_next n = Some y.1) in Hnx. destruct fuel as [|fuel]; simpl in Hf; [lia|]. simpl. rewrite Hn. simpl. rewrite Hnx.
    rewrite (IH fuel (Some x.1) y Hs) by lia. by rewrite !last_ptr_cons.
Qed.

Lemma add_ok m xs r junk :
  map_rep m xs → ∃ m', memmap_add_region (malloc_region m r junk).1 (malloc_region m r junk).2 = Some m' ∧
    map_rep m' (xs ++ [(region_brk m, r)]).
Proof.
  intros [Hh [pp Hs] Hnd Hdom Hbrk]. unfold malloc_region, memmap_add_region. simpl. set (p := region_brk m) in *.
  assert (Hp : p ∉ xs.*1) by (intros H%Hbrk; lia).
  rewrite (upd_Some _ _ (MkRegion r junk junk)) by apply lookup_insert_eq. simpl. rewrite insert_insert_eq.
  rewrite (upd_Some _ _ (MkRegion r junk None)) by apply lookup_insert_eq. simpl. rewrite insert_insert_eq. unfold set_rnext, set_rprev. simpl.
  set (h := <[p := MkRegion r None None]> (regions m)). rewrite Hh.
  assert (Hdom' : ∀ q, q ∈ ({[p]} ∪ dom (regions m) : gset ptr) ↔ q ∈ (xs ++ [(p, r)]).*1).
  { intros q. rewrite fmap_app, elem_of_app, elem_of_union, Hdom. simpl. set_solver. }
  assert (Hbrk' : ∀ q, q ∈ (xs ++ [(p, r)]).*1 → (q < Pos.succ p)%positive).
  { intros q. rewrite fmap_app, elem_of_app. intros [?%Hbrk| ->%list_elem_of_singleton]; unfold p in *; simpl; lia. }
  assert (Hnd' : NoDup (xs ++ [(p, r)]).*1).
  { rewrite fmap_app. apply NoDup_app. split; [done|]. split; [set_solver|apply NoDup_singleton]. }
  destruct xs as [|x xs]; cbn [first_ptr].
  { eexists. split; [done|]. split; simpl; try done.
    - exists None. split; [|done]. eexists. split; [apply lookup_insert_eq|done].
    - intros q. unfold h. rewrite dom_insert_L. apply Hdom'. }
  assert (Hsh : dseg h pp (x :: xs) None) by (by apply dseg_insert_notin).
  rewrite (last_region_ok (size h) h pp x xs Hsh).
  2:{ pose proof (dseg_size _ _ _ _ Hsh Hnd) as Hsz. simpl in Hsz. lia. }
  destruct (x :: xs) as [|w l _] eqn:El using rev_ind; [done|]. rewrite last_ptr_snoc. cbn [mbind option_bind].
  destruct (dseg_elem _ _ _ _ w Hsh) as (nw & Hnw & _); [set_solver|].
  assert (Hwp : w.1 ≠ p) by (rewrite fmap_app in Hp; set_solver).
  rewrite (upd_Some _ _ _ _ Hnw). cbn [mbind option_bind]. set (h1 := <[w.1 := _]> h).
  assert (N1 : h1 !! p = Some (MkRegion r None None)) by (unfold h1, h; rewrite lookup_insert_ne by done; apply lookup_insert_eq).
  rewrite (upd_Some _ _ _ _ N1). cbn [mbind option_bind]. eexists. split; [done|].
  split; cbn [regions region_brk mem_region_head]; try done.
  - destruct l as [|y l]; by injection El as -> _.
  - exists pp. apply dseg_app. split.
    + apply dseg_insert_notin; [done|]. unfold h1. change (MkRegion (r_data nw) (Some p) (r_prev nw)) with (set_nnext (Some p) nw).
      apply (dseg_set_last h pp l w None (Some p) nw); try done. rewrite fmap_app, NoDup_app in Hnd. set_solver.
    + rewrite last_ptr_snoc. split; [|done]. eexists. split; [apply lookup_insert_eq|done].
  - intros q. unfold h1, h. rewrite !dom_insert_L, <-Hdom'. apply elem_of_dom_2 in Hnw. unfold h in Hnw. rewrite dom_insert_L in Hnw. set_solver.
Qed.

Lemma destroy_ok fuel h pp xs :
  dseg h pp xs None → NoDup xs.*1 → (length xs ≤ fuel)%nat →
  ∃ h', destroy_regions fuel h (first_ptr xs None) = Some h' ∧ ∀ p, p ∈ dom h' ↔ p ∈ dom h ∧ p ∉ xs.*1.
Proof.
  revert h pp fuel. induction xs as [|x xs IH]; intros h pp fuel Hs Hnd Hf; simpl.
  { exists h. split; [by destruct fuel|]. set_solver. }
  destruct fuel as [|fuel]; simpl in Hf; [lia|]. simpl in Hs. destruct Hs as [(n & Hn & _ & Hnx & _) Hs].
  apply NoDup_cons in Hnd as [Hx Hnd]. simpl. rewrite Hn. simpl. change (r_next n = first_ptr xs None) in Hnx. rewrite Hnx.
  destruct (IH (delete x.1 h) (Some x.1) fuel) as (h' & -> & Hd); [by apply dseg_delete_notin|done|lia|].
  exists h'. split; [done|]. intros p. rewrite Hd, dom_delete_L. simpl. set_solver.
Qed.

(** ** What a client sees *)

(** The type of the region around an address, and whether it is shared. *)
Definition type_in (rs : list region) (addr : Z) : option MemoryType :=
  r_type <$> head (filter (λ r, contains r addr = true) rs).

Definition spec_type (rs : list region) (addr : Z) : MemoryType :=
  if is_sys_reg addr then MEM_INTERNAL else default MEM_UNKNOWN (type_in rs addr).

Definition shared_type (t : MemoryType) : bool := bool_decide (t ∈ [MEM_SCRATCHPAD; MEM_SHARED_C; MEM_SHARED_NC]).

Definition spec_shared (rs : list region) (addr : Z) : bool :=
  is_sys_reg addr || from_option shared_type false (type_in rs addr).

Inductive query := QType (addr : Z) | QShared (addr : Z).
Inductive answer := AType (t : MemoryType) | AShared (b : bool).

Definition ask (m : Memmap) (q : query) : option (answer * Memmap) :=
  match q with
  | QType a => '(t, m) ← memmap_get_type m a; Some (AType t, m)
  | QShared a => '(b, m) ← memmap_is_shared m a; Some (AShared b, m)
  end.

Definition spec_ask (rs : list region) (q : query) : answer :=
  match q with
  | QType a => AType (spec_type rs a)
  | QShared a => AShared (spec_shared rs a)
  end.

Fixpoint asks (m : Memmap) (qs : list query) : option (list answer * Memmap) :=
  match qs with
  | [] => Some ([], m)
  | q :: qs => '(a, m) ← ask m q; '(l, m) ← asks m qs; Some (a :: l, m)
  end.

(** Regions are allocated and added one by one, as [comm_read_env] does. *)
Fixpoint add_regions (m : Memmap) (rs : list region) (junk : option ptr) : option Memmap :=
  match rs with
  | [] => Some m
  | r :: rs =>
      let '(m, p) := malloc_region m r junk in
      m ← memmap_add_region m p; add_regions m rs junk
  end.

Lemma found_type addr xs : r_type ∘ snd <$> found addr xs = type_in xs.*2 addr.
Proof.
  unfold found, type_in. induction xs as [|x xs IH]; [done|]. rewrite fmap_cons, filter_cons. cbn [split_at].
  destruct (contains x.2 addr); [done|]. rewrite decide_False by done. rewrite <-IH.
  by destruct (split_at addr xs) as [[[? ?] ?]|].
Qed.

Lemma rep_lookup m xs p r : map_rep m xs → (p, r) ∈ xs → ∃ n, regions m !! p = Some n ∧ r_data n = r.
Proof. intros [_ [pp Hs] _ _ _] Hx. exact (dseg_elem _ _ _ _ _ Hs Hx). Qed.

Lemma ask_ok m xs ys q :
  map_rep m ys → xs ≡ₚ ys → disjoint_regions xs →
  ∃ m' ys', ask m q = Some (spec_ask xs.*2 q, m') ∧ map_rep m' ys' ∧ xs ≡ₚ ys'.
Proof.
  intros Hm Hp Hd.
  assert (Hf : ∀ a, ∃ m' ys', memmap_find_mem_region m a = Some (fst <$> found a xs, m') ∧ map_rep m' ys' ∧ xs ≡ₚ ys').
  { intros a. destruct (find_ok m ys a Hm) as (m' & E & Hr). rewrite (found_perm a xs ys Hp Hd) in E.
    exists m', (pulled a ys). split; [done|]. split; [done|]. by rewrite pulled_perm. }
  assert (Hl : ∀ a m' ys' x, found a xs = Some x → map_rep m' ys' → xs ≡ₚ ys' →
    ∃ n, regions m' !! x.1 = Some n ∧ r_data n = x.2).
  { intros a m' ys' [p r] Hx Hr' Hp'. apply (rep_lookup m' ys'); [done|]. rewrite <-Hp'. by apply found_elem in Hx as [? _]. }
  destruct q as [a|a]; simpl; unfold memmap_get_type, memmap_is_shared, spec_type, spec_shared;
    rewrite <-(found_type a xs); destruct (Hf a) as (m' & ys' & E & Hr & Hp'); destruct (is_sys_reg a); simpl.
  - by exists m, ys.
  - rewrite E. simpl. destruct (found a xs) as [x|] eqn:Ex; simpl; [|by exists m', ys'].
    destruct (Hl a m' ys' x Ex Hr Hp') as (n & Hn1 & Hn2). rewrite Hn1. simpl. rewrite Hn2. by exists m', ys'.
  - rewrite E. simpl. by exists m', ys'.
  - rewrite E. simpl. destruct (found a xs) as [x|] eqn:Ex; simpl; [|by exists m', ys'].
    destruct (Hl a m' ys' x Ex Hr Hp') as (n & Hn1 & Hn2). rewrite Hn1. simpl. rewrite Hn2. by exists m', ys'.
Qed.

Lemma asks_ok m xs ys qs :
  map_rep m ys → xs ≡ₚ ys → disjoint_regions xs →
  ∃ m' ys', asks m qs = Some (spec_ask xs.*2 <$> qs, m') ∧ map_rep m' ys' ∧ xs ≡ₚ ys'.
Proof.
  intros Hm Hp Hd. revert m ys Hm Hp. induction qs as [|q qs IH]; intros m ys Hm Hp; simpl; [by exists m, ys|].
  destruct (ask_ok m xs ys q Hm Hp Hd) as (m1 & ys1 & -> & Hm1 & Hp1). simpl.
  destruct (IH m1 ys1 Hm1 Hp1) as (m2 & ys2 & -> & Hm2 & Hp2). by exists m2, ys2.
Qed.

Lemma add_regions_ok rs m xs junk :
  map_rep m xs → ∃ m' xs', add_regions m rs junk = Some m' ∧ map_rep m' (xs ++ xs') ∧ xs'.*2 = rs.
Proof.
  revert m xs. induction rs as [|r rs IH]; intros m xs Hm; [exists m, []; by rewrite app_nil_r|].
  destruct (add_ok m xs r junk Hm) as (m1 & E & Hm1). cbn [add_regions].
  destruct (malloc_region m r junk) as [m0 p]. simpl in E. rewrite E. simpl.
  destruct (IH m1 _ Hm1) as (m2 & xs' & -> & Hm2 & E2). exists m2, ((region_brk m, r) :: xs').
  rewrite <-app_assoc in Hm2. split; [done|]. split; [done|]. rewrite fmap_cons. by rewrite E2.
Qed.

(** The map before any region has been allocated. *)
Definition no_regions : Memmap := MkMap ∅ 1 None.

Lemma no_regions_rep : map_rep no_regions [].
Proof. split; try done; [by exists None|constructor|set_solver|set_solver]. Qed.

(** No address lies in two of the regions. *)
Definition disjoint_data (rs : list region) : Prop :=
  ∀ i j a b addr, rs !! i = Some a → rs !! j = Some b → contains a addr = true → contains b addr = true → i = j.

Lemma disjoint_lift xs : disjoint_data xs.*2 → disjoint_regions xs.
Proof.
  intros Hd x y addr Hx Hy Hcx Hcy. apply list_elem_of_lookup in Hx as [i Hi], Hy as [j Hj].
  assert (i = j) as ->; [|congruence].
  eapply (Hd i j x.2 y.2 addr); try done; rewrite list_lookup_fmap; [by rewrite Hi|by rewrite Hj].
Qed.

(** C8: the memory map answers as a fixed table would, although every lookup reorders the
    list: regions added in any number, none overlapping another, make every sequence of
    [memmap_get_type] and [memmap_is_shared] return the type of the one region around the
    address; all links that are followed are valid, and [memmap_destroy] frees every region. *)
Theorem memmap_is_a_table rs junk qs :
  disjoint_data rs →
  ∃ m m' m'', add_regions (memmap_initialize no_regions) rs junk = Some m ∧
    asks m qs = Some (spec_ask rs <$> qs, m') ∧ memmap_destroy m' = Some m'' ∧ regions m'' = ∅.
Proof.
  intros Hd. destruct (add_regions_ok rs no_regions [] junk no_regions_rep) as (m & xs & E & Hm & <-).
  apply disjoint_lift in Hd. simpl in Hm.
  destruct (asks_ok m xs xs qs Hm ltac:(done) Hd) as (m' & ys & E' & [Hh [pp Hs] Hnd Hdom _] & Hp).
  destruct (destroy_ok (size (regions m')) (regions m') pp ys Hs Hnd) as (h & Ed & Hdd); [by eapply dseg_size|].
  exists m, m', (MkMap h (region_brk m') (mem_region_head m')). unfold memmap_destroy. rewrite Hh, Ed.
  split; [done|]. split; [done|]. split; [done|]. simpl. apply dom_empty_inv_L. apply set_eq. intros p. rewrite Hdd, Hdom. set_solver.
Qed.

Lemma memmap_is_a_table_witness : ∃ m m' m'',
  add_regions (memmap_initialize no_regions)
    [Region 0x40000000 4096 0 MEM_SHARED_C; Region 0x50000000 65536 0 MEM_SCRATCHPAD; Region 0 0x30000000 0 MEM_LOCAL] None = Some m ∧
  asks m [QType 0x50000004; QShared 64; QType 0x40000010; QType 0x50000008; QShared 0xE0000000] =
    Some ([AType MEM_SCRATCHPAD; AShared false; AType MEM_SHARED_C; AType MEM_SCRATCHPAD; AShared true], m') ∧
  memmap_destroy m' = Some m''.
Proof.
  destruct (memmap_is_a_table [Region 0x40000000 4096 0 MEM_SHARED_C; Region 0x50000000 65536 0 MEM_SCRATCHPAD; Region 0 0x30000000 0 MEM_LOCAL] None
    [QType 0x50000004; QShared 64; QType 0x40000010; QType 0x50000008; QShared 0xE0000000]) as (m & m' & m'' & H1 & H2 & H3 & _).
  - intros i j a b addr Hi Hj [Ha1%Z.leb_le Ha2%Z.ltb_lt]%andb_true_iff [Hb1%Z.leb_le Hb2%Z.ltb_lt]%andb_true_iff.
    unfold u32, wrap in *.
    destruct i as [|[|[|i]]], j as [|[|[|j]]]; try done; injection Hi as <-; injection Hj as <-; cbn [r_base r_size] in *;
      rewrite Z.mod_small in Ha2, Hb2 by lia; lia.
  - exists m, m', m''. exact (conj H1 (conj H2 H3)).
Defined.
