(* ===== verification/Ring.v ===== *)
(** The ring buffers between the simulator and the rest of the system (hsim-stub/packet_buffer.c
    and ringbuffer.h), and the single-slot buffer of hsim-stub/spm_buffer.c: a bounded first-in
    first-out queue, used by one writer and one reader at the same time. *)

From Stdlib Require Import ZArith Lia.
From stdpp Require Import base tactics numbers option list relations.
From S2P Require Import Prelude.

(** ** The operations *)

(** Both buffers are this code, with [N] = 4096 packets and [N] = 100 packets. *)
Record ring (A : Type) := MkRing {
  start : Z;
  end_ : Z;
  elems : list A;
}.
Arguments MkRing {A} _ _ _.
Arguments start {A} _.
Arguments end_ {A} _.
Arguments elems {A} _.

Section Ring.
Context {A : Type} (N : Z).

Definition pb_init (pb : ring A) : ring A := MkRing 0 0 (elems pb).

Definition pb_is_full (pb : ring A) : bool := Z.rem (end_ pb + 1) N =? start pb.
Definition pb_is_empty (pb : ring A) : bool := end_ pb =? start pb.

Definition pb_write (pb : ring A) (elem : A) : option (ring A) :=
  a ← arr_set (elems pb) (end_ pb) elem;
  Some (MkRing (start pb) (Z.rem (end_ pb + 1) N) a).

Definition pb_read (pb : ring A) : option (A * ring A) :=
  elem ← arr_get (elems pb) (start pb);
  Some (elem, MkRing (Z.rem (start pb + 1) N) (end_ pb) (elems pb)).
End Ring.

Definition PKT_BUFFER_SIZE : Z := 0x1000.
Definition BUFFER_SIZE : Z := 100.

(** ringbuffer.h has the same operations on a smaller buffer. *)
Definition cbInit {A} : ring A → ring A := pb_init.
Definition cbIsFull {A} : ring A → bool := pb_is_full BUFFER_SIZE.
Definition cbIsEmpty {A} : ring A → bool := pb_is_empty.
Definition cbWrite {A} : ring A → A → option (ring A) := pb_write BUFFER_SIZE.
Definition cbRead {A} : ring A → option (A * ring A) := pb_read BUFFER_SIZE.

(** *** One slot *)

Definition SP_BUFFER_SIZE : Z := 0x1000.

Record SPMBuffer := MkSPM { sp_size : Z; payload : list Z }.

Definition sp_init (sb : SPMBuffer) : SPMBuffer := MkSPM 0 (payload sb).
Definition sp_is_full (sb : SPMBuffer) : bool := 0 <? sp_size sb.
Definition sp_is_empty (sb : SPMBuffer) : bool := sp_size sb =? 0.

(** [memcpy] of [size] bytes out of [data] or into it: both objects must be that long. *)
Definition sp_write (sb : SPMBuffer) (data : list Z) (size : Z) : option SPMBuffer :=
  if (size <=? Z.of_nat (length data)) && (size <=? Z.of_nat (length (payload sb))) then
    Some (MkSPM size (take (Z.to_nat size) data ++ drop (Z.to_nat size) (payload sb)))
  else None.

Definition sp_read (sb : SPMBuffer) (size : Z) : option (list Z * SPMBuffer) :=
  if size <=? Z.of_nat (length (payload sb)) then
    Some (take (Z.to_nat size) (payload sb), MkSPM 0 (payload sb))
  else None.

(** ** The queue a ring stands for *)

Section Queue.
Context {A : Type} (N : Z) (HN : 2 ≤ N < 2 ^ 31).

(** [a + i] around the ring. *)
Definition around (a i : Z) : Z := (a + i) mod N.

(** The ring holds [l], oldest first. *)
Record holds (pb : ring A) (l : list A) : Prop := {
  ho_start : 0 ≤ start pb < N;
  ho_end : end_ pb = around (start pb) (Z.of_nat (length l));
  ho_len : Z.of_nat (length l) < N;
  ho_slots : Z.of_nat (length (elems pb)) = N + 1;
  ho_at : ∀ i x, l !! i = Some x → elems pb !! Z.to_nat (around (start pb) (Z.of_nat i)) = Some x;
}.

Lemma around_range a i : 0 ≤ around a i < N.
Proof. apply Z.mod_pos_bound. lia. Qed.

Lemma around_inj a i j : 0 ≤ i < N → 0 ≤ j < N → around a i = around a j → i = j.
Proof.
  unfold around. intros Hi Hj H. pose proof (Z.div_mod (a + i) N ltac:(lia)) as H1.
  pose proof (Z.div_mod (a + j) N ltac:(lia)) as H2. rewrite H in H1. clear H. revert H1 H2.
  generalize ((a + i) / N), ((a + j) / N), ((a + j) mod N). intros x y z H1 H2.
  assert (i - j = N * (x - y)) by lia. assert (x = y) by nia. lia.
Qed.

Lemma around_0 a : 0 ≤ a < N → around a 0 = a.
Proof. intros. unfold around. rewrite Z.add_0_r. by apply Z.mod_small. Qed.

(** C's [%] on an index. *)
Lemma rem_succ i : 0 ≤ i → Z.rem (i + 1) N = around i 1.
Proof. intros. unfold around. by rewrite Z.rem_mod_nonneg by lia. Qed.

Lemma around_around a i j : around (around a i) j = around a (i + j).
Proof. unfold around. rewrite Zplus_mod_idemp_l. f_equal. lia. Qed.

Lemma end_range pb l : holds pb l → 0 ≤ end_ pb < N.
Proof. intros H. rewrite (ho_end _ _ H). apply around_range. Qed.

Lemma is_empty_ok pb l : holds pb l → pb_is_empty pb = bool_decide (l = []).
Proof.
  intros H. pose proof H as [Hs He Hl _ _]. unfold pb_is_empty. rewrite He. destruct l as [|x l].
  - simpl. rewrite around_0 by done. by rewrite Z.eqb_refl.
  - apply Z.eqb_neq. intros E. rewrite <-(around_0 (start pb) Hs) in E at 2. apply around_inj in E; simpl in *; lia.
Qed.

Lemma is_full_ok pb l : holds pb l → pb_is_full N pb = bool_decide (Z.of_nat (length l) = N - 1).
Proof.
  intros H. pose proof (end_range _ _ H) as Hr. pose proof H as [Hs He Hl _ _]. unfold pb_is_full.
  rewrite rem_succ, He, around_around by lia. destruct (decide (Z.of_nat (length l) = N - 1)) as [E|E].
  - rewrite bool_decide_true, E by done. replace (N - 1 + 1) with (0 + 1 * N) by lia. unfold around.
    rewrite Z.add_assoc, Z.mod_add, Z.add_0_r, Z.mod_small by lia. apply Z.eqb_refl.
  - rewrite bool_decide_false by done. apply Z.eqb_neq. intros E'. rewrite <-(around_0 (start pb) Hs) in E' at 2.
    apply around_inj in E'; lia.
Qed.

(** Filling the free slot does not disturb what is held. *)
Lemma fill_ok pb l x :
  holds pb l → ∃ a, arr_set (elems pb) (end_ pb) x = Some a ∧ holds (MkRing (start pb) (end_ pb) a) l ∧
    a = <[Z.to_nat (end_ pb) := x]> (elems pb) ∧ a !! Z.to_nat (end_ pb) = Some x.
Proof.
  intros H. pose proof (end_range _ _ H) as Hr. pose proof H as [Hs He Hl Hn Ha].
  exists (<[Z.to_nat (end_ pb) := x]> (elems pb)). split; [|split; [|split; [done|]]].
  - unfold arr_set. by rewrite (proj2 (Z.ltb_ge _ _)), (proj2 (Z.leb_gt _ _)) by lia.
  - split; simpl; try done; [by rewrite length_insert|]. intros i y Hi. pose proof (lookup_lt_Some _ _ _ Hi).
    rewrite list_lookup_insert_ne; [by apply Ha|]. intros E. rewrite He in E.
    pose proof (around_range (start pb) (Z.of_nat i)). pose proof (around_range (start pb) (Z.of_nat (length l))).
    apply Z2Nat.inj in E; [|lia..]. apply around_inj in E; lia.
  - apply list_lookup_insert_eq. lia.
Qed.

(** The filled slot is published. *)
Lemma publish_ok pb l x :
  holds pb l → elems pb !! Z.to_nat (end_ pb) = Some x → Z.of_nat (length l) < N - 1 →
  holds (MkRing (start pb) (Z.rem (end_ pb + 1) N) (elems pb)) (l ++ [x]).
Proof.
  intros H Hx Hf. pose proof (end_range _ _ H) as Hr. pose proof H as [Hs He Hl Hn Ha].
  split; simpl; try done; rewrite ?length_app; simpl; try lia.
  - rewrite rem_succ, He, around_around by lia. f_equal. lia.
  - intros i y. rewrite lookup_app. destruct (l !! i) eqn:E; [intros [= <-]; by apply Ha|].
    apply lookup_ge_None in E. destruct (i - length l)%nat eqn:Ei; [|done]. intros [= <-].
    replace i with (length l) by lia. by rewrite <-He.
Qed.

Lemma read_at pb x l : holds pb (x :: l) → arr_get (elems pb) (start pb) = Some x.
Proof.
  intros [Hs He Hl Hn Ha]. specialize (Ha 0%nat x eq_refl). simpl in Ha. rewrite around_0 in Ha by done.
  unfold arr_get. by rewrite (proj2 (Z.ltb_ge _ _)) by lia.
Qed.

(** The oldest slot is given back. *)
Lemma advance_ok pb x l : holds pb (x :: l) → holds (MkRing (Z.rem (start pb + 1) N) (end_ pb) (elems pb)) l.
Proof.
  intros [Hs He Hl Hn Ha]. simpl in *. assert (E : Z.rem (start pb + 1) N = around (start pb) 1) by (apply rem_succ; lia).
  split; simpl; rewrite ?E; try done; try lia.
  - apply around_range.
  - rewrite He, around_around. f_equal. lia.
  - intros i y Hi. rewrite around_around. replace (1 + Z.of_nat i) with (Z.of_nat (S i)) by lia. by apply Ha.
Qed.

Lemma write_ok pb l x :
  holds pb l → Z.of_nat (length l) < N - 1 → ∃ pb', pb_write N pb x = Some pb' ∧ holds pb' (l ++ [x]).
Proof.
  intros H Hf. destruct (fill_ok pb l x H) as (a & E & Ha & _ & Hx). unfold pb_write. rewrite E. simpl.
  eexists. split; [done|]. by apply (publish_ok (MkRing (start pb) (end_ pb) a)).
Qed.

Lemma read_ok pb x l : holds pb (x :: l) → ∃ pb', pb_read N pb = Some (x, pb') ∧ holds pb' l.
Proof.
  intros H. unfold pb_read. rewrite (read_at _ _ _ H). simpl. eexists. split; [done|]. by eapply advance_ok.
Qed.

(** Writing to a full buffer loses everything it holds. *)
Lemma overrun pb l x :
  holds pb l → Z.of_nat (length l) = N - 1 → ∃ pb', pb_write N pb x = Some pb' ∧ holds pb' [].
Proof.
  intros H Hf. destruct (fill_ok pb l x H) as (a & E & [Hs He Hl Hn Ha] & _ & _). unfold pb_write. rewrite E. simpl.
  eexists. split; [done|]. simpl in *. split; simpl; try done; try lia.
  pose proof (end_range _ _ H). rewrite rem_succ, He, around_around, Hf, around_0 by lia.
  unfold around. replace (start pb + (N - 1 + 1)) with (start pb + 1 * N) by lia. rewrite Z.mod_add by lia. by apply Z.mod_small.
Qed.
End Queue.
