(* ===== verification/Channel.v ===== *)
(** Two processes and a ring buffer in shared memory: the simulator sends with [comm_send] and
    the process at the other end receives with the same functions (or the other way round), one
    memory access at a time, in any interleaving. *)

From Stdlib Require Import ZArith Lia.
From stdpp Require Import base tactics numbers option list relations.
From S2P Require Import Prelude Ring.

(** A packet is a block of bytes, copied one by one.  Where the sender stands: waiting for room,
    or having copied [k] bytes into the free slot. *)
Inductive sender := WPoll | WCopy (k : nat).

(** Where the receiver stands: waiting for a packet, or having copied [k] bytes of the oldest
    slot into its own packet. *)
Inductive receiver := RPoll | RCopy (k : nat) (pkt : list Z).

Record chan := MkChan {
  shared : ring (list Z);
  todo : list (list Z);
  snd_at : sender;
  rcv_at : receiver;
  got : list (list Z);
}.

Section Channel.
Context (N : Z) (B : nat).

(** One step of either process. *)
Inductive step : chan → chan → Prop :=
  | snd_poll pb p t r g :
      pb_is_full N pb = false →
      step (MkChan pb (p :: t) WPoll r g) (MkChan pb (p :: t) (WCopy 0) r g)
  | snd_byte pb p t k r g c e a :
      (k < B)%nat → p !! k = Some c → arr_get (elems pb) (end_ pb) = Some e →
      arr_set (elems pb) (end_ pb) (<[k := c]> e) = Some a →
      step (MkChan pb (p :: t) (WCopy k) r g) (MkChan (MkRing (start pb) (end_ pb) a) (p :: t) (WCopy (S k)) r g)
  | snd_publish pb p t r g :
      step (MkChan pb (p :: t) (WCopy B) r g)
        (MkChan (MkRing (start pb) (Z.rem (end_ pb + 1) N) (elems pb)) t WPoll r g)
  | rcv_poll pb t w g junk :
      pb_is_empty pb = false → length junk = B →
      step (MkChan pb t w RPoll g) (MkChan pb t w (RCopy 0 junk) g)
  | rcv_byte pb t w g k pkt e c :
      (k < B)%nat → arr_get (elems pb) (start pb) = Some e → e !! k = Some c →
      step (MkChan pb t w (RCopy k pkt) g) (MkChan pb t w (RCopy (S k) (<[k := c]> pkt)) g)
  | rcv_publish pb t w g pkt :
      step (MkChan pb t w (RCopy B pkt) g)
        (MkChan (MkRing (Z.rem (start pb + 1) N) (end_ pb) (elems pb)) t w RPoll (g ++ [pkt])).

(** Uninterrupted, the steps of the sender are [pb_write]. *)
Lemma copy_bytes pb p t r g e k :
  arr_get (elems pb) (end_ pb) = Some e → length p = B → length e = B → (k ≤ B)%nat →
  ∃ e', rtc step (MkChan pb (p :: t) (WCopy k) r g)
      (MkChan (MkRing (start pb) (end_ pb) (<[Z.to_nat (end_ pb) := e']> (elems pb))) (p :: t) (WCopy B) r g) ∧
    length e' = B ∧ drop k e' = drop k p ∧ take k e' = take k e.
Proof.
  intros He Hp Hle Hk. remember (B - k)%nat as n eqn:En. revert pb e k En He Hle Hk.
  induction n as [|n IH]; intros pb e k En He Hle Hk.
  - exists e. assert (k = B) as -> by lia. apply arr_get_Some in He as [? Hel]. rewrite list_insert_id by done. destruct pb. simpl.
    split; [apply rtc_refl|]. split; [done|]. by rewrite !drop_ge by lia.
  - destruct (lookup_lt_is_Some_2 p k) as [c Hc]; [lia|]. apply arr_get_Some in He as [? Hel]. pose proof (lookup_lt_Some _ _ _ Hel) as Hlt.
    set (a := <[Z.to_nat (end_ pb) := <[k := c]> e]> (elems pb)).
    assert (Hset : arr_set (elems pb) (end_ pb) (<[k := c]> e) = Some a).
    { unfold arr_set. by rewrite (proj2 (Z.ltb_ge _ _)), (proj2 (Z.leb_gt _ _)) by lia. }
    destruct (IH (MkRing (start pb) (end_ pb) a) (<[k := c]> e) (S k)) as (e' & Hr & Hl' & Hd & Ht); [lia| |by rewrite length_insert|lia|].
    { simpl. unfold arr_get. rewrite (proj2 (Z.ltb_ge _ _)) by lia. apply list_lookup_insert_eq. done. }
    simpl in Hr. unfold a in Hr. rewrite list_insert_insert_eq in Hr. exists e'. split; [|split; [done|]].
    + eapply rtc_l; [eapply snd_byte; [lia|exact Hc| |exact Hset]|exact Hr]. unfold arr_get. by rewrite (proj2 (Z.ltb_ge _ _)) by lia.
    + assert (Hck : e' !! k = Some c).
      { rewrite <-(lookup_take_lt e' (S k)), Ht, lookup_take_lt, list_lookup_insert_eq by lia. done. }
      split.
      * rewrite (drop_S e' c k Hck), (drop_S p c k Hc). by rewrite Hd.
      * transitivity (take k (take (S k) e')); [by rewrite take_take, Nat.min_l by lia|].
        rewrite Ht, take_take, Nat.min_l by lia. apply take_insert_ge. done.
Qed.

Lemma write_alone pb p t r g e pb' :
  arr_get (elems pb) (end_ pb) = Some e → length p = B → length e = B → pb_is_full N pb = false →
  pb_write N pb p = Some pb' → rtc step (MkChan pb (p :: t) WPoll r g) (MkChan pb' t WPoll r g).
Proof.
  intros He Hp Hle Hf Hw. destruct (copy_bytes pb p t r g e 0 He Hp Hle ltac:(lia)) as (e' & Hr & Hl' & Hd & _).
  rewrite !drop_0 in Hd. subst e'. eapply rtc_l; [by apply snd_poll|]. etrans; [exact Hr|].
  unfold pb_write, arr_set in Hw. case_match; [done|]. injection Hw as <-. eapply rtc_l; [apply snd_publish|]. apply rtc_refl.
Qed.

(** ** The invariant *)

Context (HN : 2 ≤ N < 2 ^ 31) (msgs : list (list Z)) (Hmsgs : Forall (λ p, length p = B) msgs).

Definition snd_ok (w : sender) (pb : ring (list Z)) (l t : list (list Z)) : Prop :=
  match w with
  | WPoll => True
  | WCopy k => ∃ p t' e, t = p :: t' ∧ Z.of_nat (length l) < N - 1 ∧
      elems pb !! Z.to_nat (end_ pb) = Some e ∧ (k ≤ B)%nat ∧ take k e = take k p
  end.

Definition rcv_ok (r : receiver) (l : list (list Z)) : Prop :=
  match r with
  | RPoll => True
  | RCopy k pkt => ∃ x l', l = x :: l' ∧ length pkt = B ∧ (k ≤ B)%nat ∧ take k pkt = take k x
  end.

(** [l] is in transit. *)
Record inv (s : chan) (l : list (list Z)) : Prop := {
  iv_holds : holds N (shared s) l;
  iv_size : Forall (λ e, length e = B) (elems (shared s));
  iv_all : got s ++ l ++ todo s = msgs;
  iv_snd : snd_ok (snd_at s) (shared s) l (todo s);
  iv_rcv : rcv_ok (rcv_at s) l;
}.

(** What is left to do. *)
Definition work (s : chan) (l : list (list Z)) : nat :=
  length (todo s) * (2 * B + 10) + length l * (B + 3) +
  match snd_at s with WPoll => B + 2 | WCopy k => B + 1 - k end +
  match rcv_at s with RPoll => B + 2 | RCopy k _ => B + 1 - k end.

Lemma take_insert_S {A} (l : list A) k c : (k < length l)%nat → take (S k) (<[k := c]> l) = take k l ++ [c].
Proof. intros. rewrite (take_S_r _ k c) by (by apply list_lookup_insert_eq). by rewrite take_insert_ge. Qed.

Lemma slot_len (pb : ring (list Z)) i e : Forall (λ e, length e = B) (elems pb) → elems pb !! i = Some e → length e = B.
Proof. intros HF Hi. rewrite Forall_lookup in HF. by apply (HF i). Qed.

Lemma msg_len p t l g : g ++ l ++ p :: t = msgs → length p = B.
Proof. intros E. rewrite <-E, !Forall_app in Hmsgs. destruct Hmsgs as (_ & _ & HF). by inversion HF. Qed.

Lemma step_inv s s' l : inv s l → step s s' → ∃ l', inv s' l' ∧ (work s' l' < work s l)%nat.
Proof.
  intros [Hh Hsz Hall Hs Hr] Hst. destruct Hst as [pb p t r g Hf|pb p t k r g c e a Hk Hc He Ha|pb p t r g|pb t w g junk He Hj|pb t w g k pkt e c Hk He Hc|pb t w g pkt]; simpl in *.
  - exists l. split; [|unfold work; simpl; lia]. split; simpl; try done. rewrite (is_full_ok N HN _ _ Hh) in Hf. apply bool_decide_eq_false in Hf.
    destruct (lookup_lt_is_Some_2 (elems pb) (Z.to_nat (end_ pb))) as [e He].
    { pose proof (end_range N HN _ _ Hh). pose proof (ho_slots _ _ _ Hh). lia. }
    exists p, t, e. split; [done|]. pose proof (ho_len _ _ _ Hh). split; [lia|]. split; [done|]. split; [lia|done].
  - destruct Hs as (p' & t' & e' & [= <- <-] & Hroom & He' & _ & Ht). exists l. split; [|unfold work; simpl; lia].
    apply arr_get_Some in He as [_ He]. rewrite He in He'. injection He' as <-.
    destruct (fill_ok N HN pb l (<[k := c]> e) Hh) as (a' & E & Hh' & -> & Hat). rewrite Ha in E. injection E as ->.
    pose proof (slot_len _ _ _ Hsz He) as Hle. split; simpl; try done.
    + apply Forall_insert; [done|]. by rewrite length_insert.
    + exists p, t, (<[k := c]> e). split; [done|]. split; [done|]. split; [done|]. split; [lia|].
      rewrite take_insert_S, Ht by lia. symmetry. by apply take_S_r.
  - destruct Hs as (p' & t' & e & [= <- <-] & Hroom & He & _ & Ht). exists (l ++ [p]). rewrite !take_ge in Ht; [|rewrite (msg_len _ _ _ _ Hall); lia|rewrite (slot_len _ _ _ Hsz He); lia].
    subst e. split; [|unfold work; simpl; rewrite length_app; simpl; lia]. split; simpl; try done.
    + by apply publish_ok.
    + by rewrite <-app_assoc.
    + destruct r as [|k pkt]; [done|]. destruct Hr as (x & l' & -> & ? & ? & ?). by exists x, (l' ++ [p]).
  - exists l. split; [|unfold work; simpl; lia]. split; simpl; try done. rewrite (is_empty_ok N HN _ _ Hh) in He. apply bool_decide_eq_false in He.
    destruct l as [|x l']; [done|]. exists x, l'. split; [done|]. split; [done|]. split; [lia|done].
  - destruct Hr as (x & l' & -> & Hlp & _ & Ht). exists (x :: l'). split; [|unfold work; simpl; lia]. split; simpl; try done.
    rewrite (read_at N _ _ _ Hh) in He. injection He as <-.
    exists x, l'. split; [done|]. split; [by rewrite length_insert|]. split; [lia|]. rewrite take_insert_S, Ht by lia. symmetry. by apply take_S_r.
  - destruct Hr as (x & l' & -> & Hlp & _ & Ht). exists l'.
    assert (Hx : length x = B) by (rewrite <-Hall, !Forall_app in Hmsgs; destruct Hmsgs as (_ & HF & _); by inversion HF).
    rewrite !take_ge in Ht by lia. subst pkt. split; [|unfold work; simpl; lia]. split; simpl; try done.
    + by eapply advance_ok.
    + by rewrite <-app_assoc.
    + destruct w as [|k]; [done|]. destruct Hs as (p & t' & e & ? & Hroom & ?). exists p, t', e. split; [done|]. simpl in Hroom. split; [lia|done].
Qed.

Lemma steps_inv s s' l : inv s l → rtc step s s' → ∃ l', inv s' l'.
Proof. intros Hi Hs. revert l Hi. induction Hs as [|s s1 s2 H1 _ IH]; intros l Hi; [by exists l|]. destruct (step_inv _ _ _ Hi H1) as (l' & Hi' & _). by apply (IH l'). Qed.

(** Someone can always move until everything has arrived. *)
Lemma can_step s l : inv s l → got s = msgs ∨ ∃ s', step s s'.
Proof.
  intros [Hh Hsz Hall Hs Hr]. destruct s as [pb t w r g]; simpl in *.
  assert (Hw : t ≠ [] → (w ≠ WPoll ∨ Z.of_nat (length l) < N - 1) → ∃ s', step (MkChan pb t w r g) s').
  { intros Ht Hw. destruct w as [|k].
    - destruct t as [|p t]; [done|]. destruct Hw as [|Hw]; [done|]. eexists. apply snd_poll. rewrite (is_full_ok N HN _ _ Hh). apply bool_decide_eq_false. lia.
    - destruct Hs as (p & t' & e & -> & _ & He & Hk & _). destruct (decide (k = B)) as [->|]; [eexists; apply snd_publish|].
      destruct (lookup_lt_is_Some_2 p k) as [c Hc]; [rewrite (msg_len _ _ _ _ Hall); lia|].
      destruct (fill_ok N HN pb l (<[k := c]> e) Hh) as (a & Ha & _). pose proof (end_range N HN _ _ Hh).
      eexists. eapply snd_byte; [lia|exact Hc| |exact Ha]. unfold arr_get. by rewrite (proj2 (Z.ltb_ge _ _)) by lia. }
  destruct r as [|k pkt].
  - destruct l as [|x l].
    + destruct t as [|p t]; [left; by rewrite !app_nil_r in Hall|]. right. apply Hw; [done|]. right. simpl. lia.
    + right. eexists. apply (rcv_poll pb t w g (replicate B 0)); [|apply length_replicate]. rewrite (is_empty_ok N HN _ _ Hh). by apply bool_decide_eq_false.
  - right. destruct Hr as (x & l' & -> & Hlp & Hk & _). destruct (decide (k = B)) as [->|]; [eexists; apply rcv_publish|].
    assert (Hx : length x = B) by (rewrite <-Hall, !Forall_app in Hmsgs; destruct Hmsgs as (_ & HF & _); by inversion HF).
    destruct (lookup_lt_is_Some_2 x k) as [c Hc]; [lia|]. eexists. eapply rcv_byte; [lia|by eapply read_at|exact Hc].
Qed.

Lemma inv_sn s l : inv s l → sn step s.
Proof.
  remember (work s l) as n eqn:En. revert s l En. induction n as [n IH] using lt_wf_ind. intros s l -> Hi. constructor. intros s' Hst.
  destruct (step_inv _ _ _ Hi Hst) as (l' & Hi' & Hlt). by eapply IH.
Qed.

(** Both processes at the start, the ring empty. *)
Definition idle (pb : ring (list Z)) : chan := MkChan (pb_init pb) msgs WPoll RPoll [].

Lemma idle_inv pb :
  Z.of_nat (length (elems pb)) = N + 1 → Forall (λ e, length e = B) (elems pb) → inv (idle pb) [].
Proof. intros Hl HF. split; simpl; try done. split; simpl; try done; lia. Qed.
End Channel.

(** ** Sequential use *)

Inductive rop (A : Type) := Put (x : A) | Take.
Arguments Put {A} _.
Arguments Take {A}.

Section Sequential.
Context {A : Type} (N : Z).

(** A full buffer refuses, an empty one gives nothing. *)
Definition ring_op (pb : ring A) (o : rop A) : option (option A * ring A) :=
  match o with
  | Put x => if pb_is_full N pb then Some (None, pb) else pb ← pb_write N pb x; Some (Some x, pb)
  | Take => if pb_is_empty pb then Some (None, pb) else '(x, pb) ← pb_read N pb; Some (Some x, pb)
  end.

Definition list_op (l : list A) (o : rop A) : option A * list A :=
  match o, l with
  | Put x, _ => if Z.of_nat (length l) =? N - 1 then (None, l) else (Some x, l ++ [x])
  | Take, [] => (None, [])
  | Take, x :: l => (Some x, l)
  end.

Fixpoint ring_ops (pb : ring A) (os : list (rop A)) : option (list (option A) * ring A) :=
  match os with
  | [] => Some ([], pb)
  | o :: os => '(r, pb) ← ring_op pb o; '(rs, pb) ← ring_ops pb os; Some (r :: rs, pb)
  end.

Fixpoint list_ops (l : list A) (os : list (rop A)) : list (option A) :=
  match os with
  | [] => []
  | o :: os => (list_op l o).1 :: list_ops (list_op l o).2 os
  end.

Context (HN : 2 ≤ N < 2 ^ 31).

Lemma ring_op_ok pb l o :
  holds N pb l → ∃ pb', ring_op pb o = Some ((list_op l o).1, pb') ∧ holds N pb' (list_op l o).2.
Proof.
  intros Hh. destruct o as [x|]; simpl.
  - rewrite (is_full_ok N HN _ _ Hh). destruct (Z.eqb_spec (Z.of_nat (length l)) (N - 1)) as [E|E].
    + rewrite bool_decide_true by done. by exists pb.
    + rewrite bool_decide_false by done. destruct (write_ok N HN pb l x Hh) as (pb' & -> & Hh'); [pose proof (ho_len _ _ _ Hh); lia|]. by exists pb'.
  - rewrite (is_empty_ok N HN _ _ Hh). destruct l as [|x l]; [by exists pb|].
    rewrite bool_decide_false by done. destruct (read_ok N HN pb x l Hh) as (pb' & -> & Hh'). by exists pb'.
Qed.

Lemma ring_ops_ok os pb l : holds N pb l → ∃ pb', ring_ops pb os = Some (list_ops l os, pb').
Proof.
  revert pb l. induction os as [|o os IH]; intros pb l Hh; simpl; [by exists pb|].
  destruct (ring_op_ok pb l o Hh) as (pb1 & -> & Hh1). simpl. destruct (IH pb1 _ Hh1) as (pb2 & ->). by exists pb2.
Qed.

Lemma init_holds (pb : ring A) : Z.of_nat (length (elems pb)) = N + 1 → holds N (pb_init pb) [].
Proof. intros. split; simpl; try done; lia. Qed.
End Sequential.

(** C32: used from one side at a time, both ring buffers are first-in first-out queues of
    [N - 1] elements: every sequence of guarded writes and reads gives what the same sequence
    gives on a list, and no slot outside the array is touched. *)
Theorem ring_is_a_queue {A} N (pb : ring A) os :
  N = PKT_BUFFER_SIZE ∨ N = BUFFER_SIZE → Z.of_nat (length (elems pb)) = N + 1 →
  ∃ pb', ring_ops N (pb_init pb) os = Some (list_ops N [] os, pb').
Proof.
  intros HN Hl. assert (2 ≤ N < 2 ^ 31) by (destruct HN as [-> | ->]; done).
  apply ring_ops_ok; [done|]. by apply init_holds.
Qed.

Lemma ring_is_a_queue_witness : ∃ pb',
  ring_ops BUFFER_SIZE (pb_init (MkRing 7 9 (replicate 101 0))) [Put 5; Put 6; Take; Take; Take; Put 8] =
    Some ([Some 5; Some 6; Some 5; Some 6; None; Some 8], pb').
Proof.
  destruct (ring_is_a_queue BUFFER_SIZE (MkRing 7 9 (replicate 101 0)) [Put 5; Put 6; Take; Take; Take; Put 8]) as (pb' & H); [by right|done|].
  exists pb'. exact H.
Defined.

(** An unguarded [cbWrite] to a full buffer does not overwrite the oldest element, as its
    comment says: it makes the buffer empty, and all of its elements are lost. *)
Theorem cbWrite_overrun {A} (pb : ring A) l x :
  holds BUFFER_SIZE pb l → cbIsFull pb = true →
  length l = 99%nat ∧ ∃ pb', cbWrite pb x = Some pb' ∧ cbIsEmpty pb' = true ∧ holds BUFFER_SIZE pb' [].
Proof.
  intros Hh Hf. assert (HN : 2 ≤ BUFFER_SIZE < 2 ^ 31) by done. unfold cbIsFull in Hf. rewrite (is_full_ok _ HN _ _ Hh) in Hf.
  apply bool_decide_eq_true in Hf. destruct (overrun _ HN pb l x Hh Hf) as (pb' & E & Hh'). unfold BUFFER_SIZE in Hf.
  split; [lia|]. exists pb'. split; [done|]. split; [|done]. unfold cbIsEmpty. by rewrite (is_empty_ok _ HN _ _ Hh').
Qed.

(** A full buffer of 99 elements. *)
Definition full_ring : ring Z := MkRing 0 99 (replicate 101 0).

Lemma full_ring_holds : holds BUFFER_SIZE full_ring (replicate 99 0).
Proof.
  split; try done. intros i x Hi. apply lookup_replicate in Hi as [-> Hi].
  change (replicate 101 0 !! Z.to_nat (around BUFFER_SIZE 0 (Z.of_nat i)) = Some 0). apply lookup_replicate. split; [done|].
  unfold around, BUFFER_SIZE. rewrite Z.mod_small; lia.
Qed.

Lemma cbWrite_overrun_witness : ∃ pb', cbWrite full_ring 1 = Some pb' ∧ cbIsEmpty pb' = true.
Proof.
  destruct (cbWrite_overrun full_ring (replicate 99 0) 1 full_ring_holds eq_refl) as (_ & pb' & H1 & H2 & _).
  exists pb'. exact (conj H1 H2).
Defined.

(** ** Both sides at once *)

(** C10: while one process sends and the other receives, whatever the interleaving of their
    memory accesses: what has arrived is always the beginning of what was sent, every packet
    whole, in order and once, and the two processes never access the same slot. *)
Theorem channel_in_order N B msgs pb s :
  N = PKT_BUFFER_SIZE ∨ N = BUFFER_SIZE → Forall (λ p, length p = B) msgs →
  Z.of_nat (length (elems pb)) = N + 1 → Forall (λ e, length e = B) (elems pb) →
  rtc (step N B) (idle msgs pb) s →
  got s `prefix_of` msgs ∧
  (∀ k k' pkt, snd_at s = WCopy k → rcv_at s = RCopy k' pkt → end_ (shared s) ≠ start (shared s)).
Proof.
  intros HN Hm Hl HF Hs. assert (HN' : 2 ≤ N < 2 ^ 31) by (destruct HN as [-> | ->]; done).
  destruct (steps_inv N B HN' msgs Hm _ _ _ (idle_inv N B HN' msgs pb Hl HF) Hs) as (l & [Hh _ Hall _ Hr]).
  split; [by exists (l ++ todo s)|]. intros k k' pkt _ E Heq. rewrite E in Hr. destruct Hr as (x & l' & -> & _).
  pose proof (is_empty_ok N HN' _ _ Hh) as He. unfold pb_is_empty in He. rewrite Heq, Z.eqb_refl in He. done.
Qed.

(** C17: no interleaving goes on forever or gets stuck: every execution takes finitely many
    steps (a waiting process takes none), and when none is left everything has arrived. *)
Theorem channel_delivers N B msgs pb :
  N = PKT_BUFFER_SIZE ∨ N = BUFFER_SIZE → Forall (λ p, length p = B) msgs →
  Z.of_nat (length (elems pb)) = N + 1 → Forall (λ e, length e = B) (elems pb) →
  sn (step N B) (idle msgs pb) ∧
  ∀ s, rtc (step N B) (idle msgs pb) s → nf (step N B) s → got s = msgs.
Proof.
  intros HN Hm Hl HF. assert (HN' : 2 ≤ N < 2 ^ 31) by (destruct HN as [-> | ->]; done).
  pose proof (idle_inv N B HN' msgs pb Hl HF) as Hi. split; [exact (inv_sn N B HN' msgs Hm _ _ Hi)|]. intros s Hs Hn.
  destruct (steps_inv N B HN' msgs Hm _ _ _ Hi Hs) as (l & Hi'). destruct (can_step N B HN' msgs Hm s l Hi') as [|Hst]; [done|].
  by destruct Hn.
Qed.

Definition example_msgs : list (list Z) := [[1; 2]; [3; 4]; [5; 6]].
Definition example_ring : ring (list Z) := MkRing 3 4 (replicate 101 [0; 0]).

Lemma example_ring_ok : Z.of_nat (length (elems example_ring)) = BUFFER_SIZE + 1 ∧ Forall (λ e, length e = 2%nat) (elems example_ring).
Proof. split; [done|]. by apply Forall_replicate. Qed.

Lemma example_msgs_ok : Forall (λ p, length p = 2%nat) example_msgs.
Proof. by repeat constructor. Qed.

Lemma channel_delivers_witness :
  sn (step BUFFER_SIZE 2) (idle example_msgs example_ring).
Proof.
  exact (proj1 (channel_delivers BUFFER_SIZE 2 example_msgs example_ring (or_intror eq_refl) example_msgs_ok
    (proj1 example_ring_ok) (proj2 example_ring_ok))).
Defined.

Lemma channel_in_order_witness : ∃ pb',
  pb_write BUFFER_SIZE (pb_init example_ring) [1; 2] = Some pb' ∧
  got (MkChan pb' [[3; 4]; [5; 6]] WPoll RPoll []) `prefix_of` example_msgs.
Proof.
  eexists. split; [reflexivity|].
  refine (proj1 (channel_in_order BUFFER_SIZE 2 example_msgs example_ring _ (or_intror eq_refl) example_msgs_ok
    (proj1 example_ring_ok) (proj2 example_ring_ok) _)).
  apply (write_alone BUFFER_SIZE 2 (pb_init example_ring) [1; 2] [[3; 4]; [5; 6]] RPoll [] [0; 0]); done.
Defined.
