(* ===== verification/HsimComm.v ===== *)
(** Packets to and from the rest of the system (hsim-stub/hsim_packet.h, hsim_comm.c): their
    layout in memory, and sending them through a pipe or a socket, which may transfer any part
    of what is asked for. *)

From Stdlib Require Import ZArith Lia.
From stdpp Require Import base tactics numbers option list.
From S2P Require Import Prelude.

(** ** Bytes, least significant first *)

Fixpoint le_bytes (n : nat) (v : Z) : list Z :=
  match n with
  | O => []
  | S n => v mod 256 :: le_bytes n (v / 256)
  end.

Fixpoint le_val (l : list Z) : Z :=
  match l with
  | [] => 0
  | b :: l => b + 256 * le_val l
  end.

(** ** Packets *)

Inductive PacketType := packet_read | packet_write | packet_iread | packet_iwrite | packet_elapsed | packet_syscall.

Definition packet_num (t : PacketType) : Z :=
  match t with
  | packet_read => 0 | packet_write => 1 | packet_iread => 2 | packet_iwrite => 3 | packet_elapsed => 4
  | packet_syscall => 5
  end.

Definition packet_type (n : Z) : option PacketType :=
  match n with
  | 0 => Some packet_read | 1 => Some packet_write | 2 => Some packet_iread | 3 => Some packet_iwrite
  | 4 => Some packet_elapsed | 5 => Some packet_syscall | _ => None
  end.

Record Packet := MkPacket {
  p_type : PacketType;
  p_size : Z;
  p_cycle : Z;
  p_address : Z;
  p_data : list Z;
  p_flags : Z;
}.

#[export] Instance Packet_settable : Settable Packet := λ p,
  MkPacket (p_type p) (p_size p) (p_cycle p) (p_address p) (p_data p) (p_flags p).

(** [sizeof (Packet)]; no padding is needed. *)
Definition PACKET_SIZE : nat := 32.

Definition packet_bytes (p : Packet) : list Z :=
  le_bytes 4 (packet_num (p_type p)) ++ le_bytes 4 (p_size p) ++ le_bytes 8 (p_cycle p) ++
  le_bytes 4 (p_address p) ++ p_data p ++ le_bytes 4 (p_flags p).

Definition bytes_packet (l : list Z) : option Packet :=
  t ← packet_type (le_val (take 4 l));
  Some (MkPacket t (le_val (take 4 (drop 4 l))) (le_val (take 8 (drop 8 l))) (le_val (take 4 (drop 16 l)))
    (take 8 (drop 20 l)) (le_val (take 4 (drop 28 l)))).

(** Every field has a value of its type. *)
Record packet_ok (p : Packet) : Prop := {
  pk_size : 0 ≤ p_size p < 2 ^ 32;
  pk_cycle : 0 ≤ p_cycle p < 2 ^ 64;
  pk_address : 0 ≤ p_address p < 2 ^ 32;
  pk_data : length (p_data p) = 8%nat;
  pk_flags : 0 ≤ p_flags p < 2 ^ 32;
}.

(** ** Pipes and sockets *)

(** The loop of [comm_send]: [rs] are the results of the calls of [write], [pos] is [pPos -
    pPacket].  The bytes that were transferred; [None] when memory outside the packet is read,
    or while the packet is not complete. *)
Fixpoint send_loop (bytes : list Z) (pos nLength : Z) (rs : list Z) (out : list Z) : option (list Z) :=
  if nLength <=? 0 then Some out
  else
    match rs with
    | [] => None
    | nSend :: rs =>
        if (0 <=? pos) && (pos + nLength <=? Z.of_nat (length bytes)) then
          send_loop bytes (pos + nSend) (nLength - nSend) rs
            (out ++ take (Z.to_nat nSend) (drop (Z.to_nat pos) bytes))
        else None
    end.

Definition comm_send_stream (p : Packet) (rs : list Z) : option (list Z) :=
  send_loop (packet_bytes p) 0 (Z.of_nat PACKET_SIZE) rs [].

(** The loop of [comm_recv]: [chunks] is what the calls of [read] put at [pBuf]; a call that
    fails or finds nothing gives []. *)
Fixpoint recv_loop (nLength : Z) (chunks : list (list Z)) (buf : list Z) : option (list Z) :=
  if nLength <=? 0 then Some buf
  else
    match chunks with
    | [] => None
    | c :: chunks =>
        if Z.of_nat (length c) <=? nLength then recv_loop (nLength - Z.of_nat (length c)) chunks (buf ++ c)
        else None
    end.

Definition comm_recv_stream (chunks : list (list Z)) : option Packet :=
  bytes ← recv_loop (Z.of_nat PACKET_SIZE) chunks [];
  bytes_packet bytes.

(** ** Lemmas *)

Lemma length_le_bytes n v : length (le_bytes n v) = n.
Proof. revert v. induction n; intros; simpl; [done|]. by rewrite IHn. Qed.

Lemma le_val_bytes n v : 0 ≤ v < 2 ^ (8 * Z.of_nat n) → le_val (le_bytes n v) = v.
Proof.
  revert v. induction n as [|n IH]; intros v Hv; simpl le_bytes; simpl le_val.
  - simpl in Hv. lia.
  - replace (8 * Z.of_nat (S n)) with (8 + 8 * Z.of_nat n) in Hv by lia. rewrite Z.pow_add_r in Hv by lia. change (2 ^ 8) with 256 in Hv.
    rewrite IH. { pose proof (Z.div_mod v 256). lia. }
    split; [apply Z.div_pos; lia|]. apply Z.div_lt_upper_bound; lia.
Qed.

Lemma le_val_mod n v : le_val (le_bytes n v) = v mod 2 ^ (8 * Z.of_nat n).
Proof.
  revert v. induction n as [|n IH]; intros v; cbn [le_bytes le_val]; [by rewrite Z.mod_1_r|].
  replace (8 * Z.of_nat (S n)) with (8 + 8 * Z.of_nat n) by lia. rewrite Z.pow_add_r by lia. change (2 ^ 8) with 256.
  rewrite IH, Z.rem_mul_r; [done|lia|]. apply Z.pow_pos_nonneg; lia.
Qed.

Lemma le_val_range l : Forall (λ b, 0 ≤ b < 256) l → 0 ≤ le_val l < 2 ^ (8 * Z.of_nat (length l)).
Proof.
  induction 1 as [|b l Hb _ IH]; [done|]. cbn [le_val length]. replace (8 * Z.of_nat (S (length l))) with (8 + 8 * Z.of_nat (length l)) by lia.
  rewrite Z.pow_add_r by lia. change (2 ^ 8) with 256. lia.
Qed.

Lemma packet_bytes_length p : packet_ok p → length (packet_bytes p) = PACKET_SIZE.
Proof. intros []. unfold packet_bytes. rewrite !length_app, !length_le_bytes, pk_data0. done. Qed.

Lemma bytes_packet_bytes p : packet_ok p → bytes_packet (packet_bytes p) = Some p.
Proof.
  intros [Hs Hc Ha Hd Hf]. unfold bytes_packet, packet_bytes.
  set (a := le_bytes 4 (packet_num (p_type p))). set (b := le_bytes 4 (p_size p)). set (c := le_bytes 8 (p_cycle p)).
  set (d := le_bytes 4 (p_address p)). set (e := le_bytes 4 (p_flags p)).
  assert (La : length a = 4%nat) by apply length_le_bytes. assert (Lb : length b = 4%nat) by apply length_le_bytes.
  assert (Lc : length c = 8%nat) by apply length_le_bytes. assert (Ld : length d = 4%nat) by apply length_le_bytes.
  assert (Le : length e = 4%nat) by apply length_le_bytes.
  assert (D : ∀ x y : list Z, ∀ n, length x = n → ∀ m, drop (n + m) (x ++ y) = drop m y).
  { intros x y n <- m. rewrite drop_app_ge by lia. f_equal. lia. }
  rewrite (D a _ 4%nat La 0%nat), (D a _ 4%nat La 4%nat), (D a _ 4%nat La 12%nat), (D a _ 4%nat La 16%nat), (D a _ 4%nat La 24%nat).
  rewrite (D b _ 4%nat Lb 0%nat), (D b _ 4%nat Lb 8%nat), (D b _ 4%nat Lb 12%nat), (D b _ 4%nat Lb 20%nat).
  rewrite (D c _ 8%nat Lc 0%nat), (D c _ 8%nat Lc 4%nat), (D c _ 8%nat Lc 12%nat).
  rewrite (D d _ 4%nat Ld 0%nat), (D d _ 4%nat Ld 8%nat), (D (p_data p) _ 8%nat Hd 0%nat), !drop_0.
  rewrite !take_app_length' by done. rewrite (take_ge e) by lia.
  unfold a, b, c, d, e. rewrite !le_val_bytes by (simpl; lia || (destruct (p_type p); simpl; lia)).
  destruct p as [[] ? ? ? ? ?]; done.
Qed.

(** Each [write] transfers at least nothing and at most what is asked for. *)
Fixpoint writes_ok (nLength : Z) (rs : list Z) : Prop :=
  match rs with
  | [] => nLength = 0
  | n :: rs => 0 ≤ n ≤ nLength ∧ writes_ok (nLength - n) rs
  end.

Lemma send_loop_ok bytes pos n rs out :
  0 ≤ pos → pos + n = Z.of_nat (length bytes) → writes_ok n rs →
  send_loop bytes pos n rs out = Some (out ++ drop (Z.to_nat pos) bytes).
Proof.
  revert pos n out. induction rs as [|k rs IH]; intros pos n out Hp Hn Hw; simpl in *.
  - subst n. simpl. by rewrite drop_ge, app_nil_r by lia.
  - destruct Hw as [Hk Hw]. destruct (Z.leb_spec n 0).
    + by rewrite drop_ge, app_nil_r by lia.
    + rewrite (proj2 (Z.leb_le 0 pos)), (proj2 (Z.leb_le (pos + n) _)) by lia. simpl. rewrite IH by (done || lia).
      f_equal. rewrite <-app_assoc. f_equal. replace (Z.to_nat (pos + k)) with (Z.to_nat pos + Z.to_nat k)%nat by lia.
      rewrite <-drop_drop. apply take_drop.
Qed.

(** The [read]s together give [bytes]. *)
Lemma recv_loop_ok n chunks buf :
  Z.of_nat (length (concat chunks)) = n → recv_loop n chunks buf = Some (buf ++ concat chunks).
Proof.
  revert n buf. induction chunks as [|c chunks IH]; intros n buf Hn; simpl in *.
  - subst n. simpl. by rewrite app_nil_r.
  - rewrite length_app in Hn. destruct (Z.leb_spec n 0).
    + assert (c ++ concat chunks = []) as -> by (apply length_zero_iff_nil; rewrite length_app; lia). by rewrite app_nil_r.
    + rewrite (proj2 (Z.leb_le _ n)) by lia. rewrite IH by lia. by rewrite app_assoc.
Qed.

(** C28: a packet sent through a pipe or a socket arrives as it is, whatever part of it each
    [write] and each [read] transfers (including none): all 32 bytes are sent in order, from
    inside the packet, and the receiver puts the same packet together. *)
Theorem packet_round_trip p rs chunks :
  packet_ok p → writes_ok 32 rs → concat chunks = packet_bytes p →
  comm_send_stream p rs = Some (concat chunks) ∧ comm_recv_stream chunks = Some p.
Proof.
  intros Hp Hw Hc. pose proof (packet_bytes_length p Hp) as Hl. unfold comm_send_stream, comm_recv_stream. split.
  - rewrite send_loop_ok by (rewrite ?Hl; done). by rewrite Hc.
  - rewrite recv_loop_ok by (by rewrite Hc, Hl). simpl. rewrite Hc. by apply bytes_packet_bytes.
Qed.

Definition example_packet : Packet := MkPacket packet_write 4 1234 0x40000010 [1; 2; 3; 4; 0; 0; 0; 0] 1.

Lemma packet_round_trip_witness :
  comm_recv_stream [take 10 (packet_bytes example_packet); []; drop 10 (packet_bytes example_packet)] = Some example_packet.
Proof.
  refine (proj2 (packet_round_trip example_packet [5; 0; 27] [take 10 (packet_bytes example_packet); []; drop 10 (packet_bytes example_packet)] _ _ _)).
  - split; simpl; try done; lia.
  - simpl. lia.
  - reflexivity.
Defined.

(** When [write] fails, [comm_send] does not notice: the position is moved back by the
    result -1 and the next call is given memory in front of the packet. *)
Theorem send_error_reads_outside p rs : comm_send_stream p (-1 :: rs) = None.
Proof.
  unfold comm_send_stream. generalize (packet_bytes p). intros bytes. change (Z.of_nat PACKET_SIZE) with 32.
  cbn [send_loop]. change (32 <=? 0) with false. change (0 <=? 0) with true. cbv iota.
  destruct (_ && _); [|done]. by destruct rs.
Qed.
