(* ===== verification/HsimStub.v ===== *)
(** The stub that connects the simulated core to the rest of the system
    (hsim-stub/hsim_stub.c, hsim_comm.c in shared-memory mode, and the helpers of
    target-arm/op_helper.c in the build with HSIM). *)

From Stdlib Require Import ZArith Lia String Ascii.
From stdpp Require Import base tactics numbers option list list_numbers gmap.
From S2P Require Import Prelude Config DList Memmap Ring HsimComm Cache CacheSim Bpred InstQueue Inst Rob TraceAnalyzer BufferManager Perfmodel Sampling.

(** ** Memory *)

(** [memcpy] into or out of the object [l], at an offset. *)
Definition put_bytes (l : list Z) (off : Z) (d : list Z) : option (list Z) :=
  if (0 <=? off) && (off + Z.of_nat (length d) <=? Z.of_nat (length l)) then
    Some (take (Z.to_nat off) l ++ d ++ drop (Z.to_nat off + length d) l)
  else None.

Definition get_bytes (l : list Z) (off n : Z) : option (list Z) :=
  if (0 <=? off) && (0 <=? n) && (off + n <=? Z.of_nat (length l)) then
    Some (take (Z.to_nat n) (drop (Z.to_nat off) l))
  else None.

Definition guest_load (g : gmap Z Z) (addr : Z) (n : nat) : option (list Z) :=
  mapM (λ i, g !! (addr + i)) (seqZ 0 (Z.of_nat n)).

Fixpoint guest_store (g : gmap Z Z) (addr : Z) (d : list Z) : gmap Z Z :=
  match d with
  | [] => g
  | b :: d => guest_store (<[addr := b]> g) (addr + 1) d
  end.

(** ** System calls *)

Inductive hsim_syscall :=
  | syscall_nop | syscall_begin | syscall_exit | syscall_set_notice_period | syscall_get_id | syscall_sleep
  | syscall_wakeup | syscall_vcache_sync | syscall_cache_flush | syscall_cache_writeback | syscall_cache_invalidate
  | syscall_cache_flush_all | syscall_cache_writeback_all | syscall_cache_invalidate_all | syscall_get_cycle
  | syscall_get_num_insts | syscall_get_il1_access | syscall_get_dl1_access | syscall_get_ul2_access
  | syscall_get_il1_miss | syscall_get_dl1_miss | syscall_get_ul2_miss | syscall_get_ul2_access_tile
  | syscall_get_ul2_miss_tile | syscall_host_to_guest_addr | syscall_guest_to_host_addr | syscall_lm_read
  | syscall_lm_write | syscall_fetch_mem | syscall_connect | syscall_disconnect | syscall_is_connected
  | syscall_load_template | syscall_test_and_set | syscall_set_dvfs_level | syscall_get_dvfs_level
  | syscall_barrier_init | syscall_barrier | syscall_debug | syscall_hw_lock | syscall_hw_unlock.

#[export] Instance hsim_syscall_eq_dec : EqDecision hsim_syscall.
Proof. solve_decision. Defined.

(** In the order of the enumeration. *)
Definition syscalls : list hsim_syscall :=
  [syscall_nop; syscall_begin; syscall_exit; syscall_set_notice_period; syscall_get_id; syscall_sleep;
   syscall_wakeup; syscall_vcache_sync; syscall_cache_flush; syscall_cache_writeback; syscall_cache_invalidate;
   syscall_cache_flush_all; syscall_cache_writeback_all; syscall_cache_invalidate_all; syscall_get_cycle;
   syscall_get_num_insts; syscall_get_il1_access; syscall_get_dl1_access; syscall_get_ul2_access;
   syscall_get_il1_miss; syscall_get_dl1_miss; syscall_get_ul2_miss; syscall_get_ul2_access_tile;
   syscall_get_ul2_miss_tile; syscall_host_to_guest_addr; syscall_guest_to_host_addr; syscall_lm_read;
   syscall_lm_write; syscall_fetch_mem; syscall_connect; syscall_disconnect; syscall_is_connected;
   syscall_load_template; syscall_test_and_set; syscall_set_dvfs_level; syscall_get_dvfs_level;
   syscall_barrier_init; syscall_barrier; syscall_debug; syscall_hw_lock; syscall_hw_unlock].

Definition NUM_BEGIN : Z := 1.
Definition NUM_EXIT : Z := 2.
Definition NUM_WAKEUP : Z := 6.

(** The calls that are passed on and answered. *)
Definition passed_on (c : hsim_syscall) : bool :=
  bool_decide (c ∈ [syscall_host_to_guest_addr; syscall_guest_to_host_addr; syscall_get_ul2_access;
    syscall_get_dl1_access; syscall_get_dl1_miss; syscall_get_ul2_miss; syscall_get_ul2_access_tile;
    syscall_get_ul2_miss_tile; syscall_get_cycle; syscall_lm_read; syscall_lm_write; syscall_cache_flush_all;
    syscall_cache_writeback_all; syscall_cache_invalidate_all; syscall_cache_flush; syscall_cache_writeback;
    syscall_cache_invalidate; syscall_connect; syscall_disconnect; syscall_load_template; syscall_test_and_set;
    syscall_barrier_init; syscall_barrier; syscall_is_connected; syscall_debug; syscall_hw_lock; syscall_hw_unlock]).

(** ** State *)

Inductive AccessType := NonBlockingAccess | BlockingAccess | InstAccess.

Definition access_num (a : AccessType) : Z :=
  match a with NonBlockingAccess => 0 | BlockingAccess => 1 | InstAccess => 2 end.

(** What the other side does until one of its packets is received: the packet, and what the
    shared registers hold then. *)
Record reply := MkReply { re_packet : Packet; re_regs : list Z }.

(** The static variables, the shared memory, the packets sent so far, and what the other side
    will send.  [connected]: the shared memory segments have been mapped. *)
Record Stub := MkStub {
  connected : bool;
  core_id : Z;
  tqsim_cpu_cycle : Z;
  tqsim_last_sync_cycles : Z;
  comm_notice_period : Z;
  hsim_register : list Z;
  memory_map : Memmap;
  guest : gmap Z Z;
  outbox : list Packet;
  inbox : list reply;
  data_in : list SPMBuffer;
}.

#[export] Instance Stub_settable : Settable Stub := λ s,
  MkStub (connected s) (core_id s) (tqsim_cpu_cycle s) (tqsim_last_sync_cycles s) (comm_notice_period s)
    (hsim_register s) (memory_map s) (guest s) (outbox s) (inbox s) (data_in s).

(** ** Communication *)

Definition comm_send (s : Stub) (p : Packet) : option Stub :=
  if connected s then Some (s <| outbox := outbox s ++ [p] |>) else None.

(** [None] when nothing ever arrives. *)
Definition comm_recv (s : Stub) : option (Packet * Stub) :=
  if connected s then
    match inbox s with
    | r :: rs => Some (re_packet r, s <| hsim_register := re_regs r |> <| inbox := rs |>)
    | [] => None
    end
  else None.

Definition comm_recv_data (s : Stub) (size : Z) : option (list Z * Stub) :=
  if connected s then
    match data_in s with
    | sb :: l =>
        if sp_is_empty sb then None
        else '(d, _) ← sp_read sb size; Some (d, s <| data_in := l |>)
    | [] => None
    end
  else None.

(** A helper returns, or ends the program. *)
Inductive outcome (A : Type) := Returned (a : A) | Exited.
Arguments Returned {A} _.
Arguments Exited {A}.

Section Stub.
(** Uninitialised packets. *)
Variable junk : Packet.

Definition comm_sync (s : Stub) (cycle : Z) : option Stub :=
  comm_send s (junk <| p_type := packet_elapsed |> <| p_address := 0 |> <| p_cycle := cycle |>).

Definition reg (s : Stub) (i : Z) : option Z := d ← get_bytes (hsim_register s) (4 * i) 4; Some (le_val d).

Definition set_reg (s : Stub) (i v : Z) : option Stub :=
  r ← put_bytes (hsim_register s) (4 * i) (le_bytes 4 v); Some (s <| hsim_register := r |>).

(** [*(uint64_t * ) hsim_register = v]. *)
Definition set_reg64 (s : Stub) (v : Z) : option Stub :=
  r ← put_bytes (hsim_register s) 0 (le_bytes 8 v); Some (s <| hsim_register := r |>).

Definition comm_close (s : Stub) (cycle num_insts : Z) : option Stub :=
  s ← set_reg64 s num_insts;
  s ← set_reg s (NUM_SYS_REG - 1) NUM_EXIT;
  s ← comm_send s (junk <| p_type := packet_syscall |> <| p_cycle := cycle |>);
  '(_, s) ← comm_recv s;
  Some (s <| connected := false |>).

Definition comm_destroy (s : Stub) (cycle num_insts : Z) : option Stub := comm_close s cycle num_insts.

(** [segments]: the contents of the shared registers, when [.args.shmem.dat] names them. *)
Definition hsim_shmem_initialize (s : Stub) (segments : option (list Z)) : option Stub :=
  match segments with
  | Some r =>
      let s := s <| connected := true |> <| hsim_register := r |> in
      s ← set_reg s (NUM_SYS_REG - 1) NUM_BEGIN;
      comm_send s (junk <| p_type := packet_syscall |> <| p_size := 28 |>)
  | None => Some s
  end.

(** ** Accesses *)

(** The statistics a system call may ask for. *)
Record stats := MkStats { il1_misses : Z; il1_accesses : Z; insts_executed : Z }.

Definition mem_access (s : Stub) (cycle address : Z) (rw : bool) (data : list Z) (size : Z) (atype : AccessType)
  : option (list Z * Stub) :=
  let size_in_byte := Z.quot size 8 in
  let size_in_byte := if 8 <? size_in_byte then 8 else size_in_byte in
  let pkt := junk <| p_cycle := cycle |> <| p_address := address |> <| p_size := size_in_byte |>
               <| p_type := if rw then packet_write else packet_read |> <| p_flags := access_num atype |> in
  pkt ← (if rw then
           d ← get_bytes data 0 size_in_byte; d ← put_bytes (p_data pkt) 0 d; Some (pkt <| p_data := d |>)
         else Some pkt);
  s ← comm_send s pkt;
  if negb (Z.land (p_flags pkt) 1 =? 0) && negb rw then
    '(pkt, s) ← comm_recv s;
    d ← get_bytes (p_data pkt) 0 size_in_byte;
    data ← put_bytes data 0 d;
    Some (data, s)
  else Some (data, s).

(** [while (1) comm_recv] of a sleeping core. *)
Fixpoint sleep (fuel : nat) (pkt : Packet) (s : Stub) : option (Packet * Stub) :=
  match fuel with
  | O => None
  | S fuel =>
      '(pkt, s) ← comm_recv s;
      c ← reg s (NUM_SYS_REG - 1);
      if c =? NUM_WAKEUP then Some (pkt, s) else sleep fuel pkt s
  end.

Definition do_syscall (s : Stub) (pkt : Packet) (st : stats) (c : hsim_syscall) : option (Packet * Stub) :=
  match c with
  | syscall_set_notice_period => v ← reg s 0; Some (pkt, s <| comm_notice_period := s32 v |>)
  | syscall_sleep =>
      let pkt := pkt <| p_type := packet_syscall |> in
      s ← comm_send s pkt; sleep (length (inbox s)) pkt s
  | syscall_get_il1_miss => s ← set_reg64 s (il1_misses st); Some (pkt, s)
  | syscall_get_il1_access => s ← set_reg64 s (il1_accesses st); Some (pkt, s)
  | syscall_get_num_insts => s ← set_reg64 s (insts_executed st); Some (pkt, s)
  | syscall_get_id => s ← set_reg s 0 (u32 (core_id s)); Some (pkt, s)
  | syscall_fetch_mem =>
      let pkt := pkt <| p_type := packet_syscall |> in
      dst ← reg s 0;
      n ← reg s 2;
      s ← comm_send s pkt;
      '(pkt, s) ← comm_recv s;
      if s32 n <? 0 then None
      else
        '(d, s) ← comm_recv_data s (s32 n);
        Some (pkt, s <| guest := guest_store (guest s) dst d |>)
  | c =>
      if passed_on c then
        let pkt := pkt <| p_type := packet_syscall |> <| p_flags := access_num BlockingAccess |> in
        s ← comm_send s pkt; comm_recv s
      else Some (pkt, s)
  end.

Definition hsim_internal_access (s : Stub) (cycle address : Z) (rw : bool) (data : list Z) (size : Z) (st : stats)
  : option (list Z * Stub) :=
  if connected s then
    let size_in_byte := Z.quot size 8 in
    let pkt := junk <| p_cycle := cycle |> <| p_size := size_in_byte |> <| p_flags := access_num BlockingAccess |> in
    let idx := u32 (address - SYS_REG_BASE) / 4 in
    s ← (if rw then
           d ← get_bytes data 0 size_in_byte; r ← put_bytes (hsim_register s) (4 * idx) d;
           Some (s <| hsim_register := r |>)
         else Some s);
    '(pkt, s) ← (if idx =? NUM_SYS_REG - 1 then
                   n ← reg s (NUM_SYS_REG - 1);
                   match arr_get syscalls n with
                   | Some c => do_syscall s pkt st c
                   | None => Some (pkt, s)
                   end
                 else Some (pkt, s));
    if negb rw then
      d ← get_bytes (hsim_register s) (4 * idx) (p_size pkt); data ← put_bytes data 0 d; Some (data, s)
    else Some (data, s)
  else None.

(** The elapsed cycles that are reported. *)
Definition delta (s : Stub) (cur_cycle : Z) : Z :=
  if tqsim_last_sync_cycles s <? cur_cycle then cur_cycle - tqsim_last_sync_cycles s else 1.

Definition hsim_access (s : Stub) (cur_cycle address : Z) (rw : bool) (data : list Z) (size : Z) (atype : AccessType)
  (st : stats) : option (list Z * Stub) :=
  let s := s <| tqsim_cpu_cycle := cur_cycle |> in
  let delta_cycle := delta s cur_cycle in
  '(memory_type, m) ← memmap_get_type (memory_map s) address;
  let s := s <| memory_map := m |> in
  '(data, s) ←
    (if bool_decide (memory_type ∈ [MEM_SHARED_C; MEM_SHARED_NC; MEM_VIRTUAL; MEM_SCRATCHPAD]) then
       mem_access s delta_cycle address rw data size atype
     else if bool_decide (memory_type = MEM_INTERNAL) then
       hsim_internal_access s delta_cycle address rw data size st
     else Some (data, s));
  Some (data, s <| tqsim_last_sync_cycles := tqsim_cpu_cycle s |>).

(** The period is converted to the unsigned type of the difference. *)
Definition hsim_notice (s : Stub) (cur_cycle : Z) : option Stub :=
  let s := s <| tqsim_cpu_cycle := cur_cycle |> in
  let delta_cycle := u64 (tqsim_cpu_cycle s - tqsim_last_sync_cycles s) in
  if (tqsim_last_sync_cycles s <? tqsim_cpu_cycle s) && (u64 (comm_notice_period s) <? delta_cycle) then
    s ← comm_sync s delta_cycle;
    Some (s <| tqsim_last_sync_cycles := tqsim_cpu_cycle s |>)
  else Some s.

(** ** The environment file *)

(** The number of an enumerator; other numbers behave like no region type. *)
Definition memory_type (n : Z) : MemoryType :=
  default MEM_UNDEFINED (arr_get [MEM_VIRTUAL; MEM_INTERNAL; MEM_LOCAL; MEM_SCRATCHPAD; MEM_SHARED_C; MEM_SHARED_NC; MEM_UNKNOWN; MEM_UNDEFINED] n).

(** The scan for ["="]: the text up to the first one, and the text after the last one. *)
Fixpoint scan_line (s : string) : string * option string :=
  match s with
  | EmptyString => (EmptyString, None)
  | String c s' =>
      if (c =? "010")%char then (EmptyString, None)
      else
        let '(k, v) := scan_line s' in
        if (c =? "=")%char then (EmptyString, Some (default k v)) else (String c k, v)
  end.

(** The parts between colons. *)
Fixpoint split_colons (s : string) : list string :=
  match s with
  | EmptyString => [EmptyString]
  | String c s' =>
      if (c =? ":")%char then EmptyString :: split_colons s'
      else match split_colons s' with
           | p :: ps => String c p :: ps
           | [] => [String c EmptyString]
           end
  end.

(** A line that is not a comment.  [lpszData] has room for three parts, and all are used. *)
Definition env_line (s : Stub) (line : string) : option Stub :=
  let '(key, value) := scan_line line in
  match value with
  | None => Some s
  | Some value =>
      if (key =? "NoticePeriod")%string then Some (s <| comm_notice_period := atoi value |>)
      else if (key =? "Memorymap")%string then
        match split_colons value with
        | [a; b; c] =>
            let '(m, p) := malloc_region (memory_map s)
              (Region (u32 (atoi a)) (u32 (atoi b)) 0 (memory_type (u32 (atoi c)))) None in
            m ← memmap_add_region m p;
            Some (s <| memory_map := m |>)
        | _ => None
        end
      else if (key =? "ProcessorId")%string then Some (s <| core_id := atoi value |>)
      else Some s
  end.

Definition is_comment (buf : string) : bool := if buf is String "#" _ then true else false.

(** [while (1)]: [lines] is what the remaining calls of [fgets] put into [buf], which keeps its
    contents at the end of the file. *)
Fixpoint env_loop (fuel : nat) (s : Stub) (buf : string) (lines : list string) : option Stub :=
  match fuel with
  | O => None
  | S fuel =>
      match lines with
      | l :: lines => if is_comment l then env_loop fuel s l lines else s ← env_line s l; env_loop fuel s l lines
      | [] => if is_comment buf then env_loop fuel s buf [] else Some s
      end
  end.

(** The file, if it can be opened; the number of processors must not be 0. *)
Definition comm_read_env (fuel : nat) (s : Stub) (junk_buf : string) (file : option (list string)) (num_total_proc : Z)
  : option Stub :=
  s ← match file with Some lines => env_loop fuel s junk_buf lines | None => Some s end;
  n ← int_op (core_id s + 1);
  if num_total_proc =? 0 then None else Some s.

Definition hsim_start (fuel : nat) (s : Stub) (segments : option (list Z)) (junk_buf : string)
  (file : option (list string)) (num_total_proc : Z) : option Stub :=
  let s := s <| tqsim_cpu_cycle := 0 |> in
  s ← hsim_shmem_initialize s segments;
  let s := s <| memory_map := memmap_initialize (memory_map s) |> in
  comm_read_env fuel s junk_buf file num_total_proc.

Definition hsim_end (s : Stub) (cycle num_insts : Z) : option Stub :=
  let s := s <| tqsim_cpu_cycle := cycle |> in
  s ← comm_destroy s (u64 (tqsim_cpu_cycle s - tqsim_last_sync_cycles s)) num_insts;
  m ← memmap_destroy (memory_map s);
  Some (s <| memory_map := m |> <| tqsim_last_sync_cycles := tqsim_cpu_cycle s |>).

(** ** The helpers of the translated code *)

Section HsimHelpers.
Variables (perfmodel : perfmodel_config) (junk_miss : CacheMissType).

Definition stats_of (s : Sim) : stats :=
  MkStats (cachesim_il1_num_miss (caches s)) (cachesim_il1_num_access (caches s)) (num_insts (pm s)).

(** [hsim_access (perfmodel_getSimpleCycle (), ...)]. *)
Definition access_now (s : Sim) (t : Stub) (addr : Z) (rw : bool) (data : list Z) (size : Z) (atype : AccessType)
  : option (list Z * Stub) :=
  cycle ← perfmodel_getSimpleCycle (pm s) (caches s) (predictor s);
  hsim_access t cycle addr rw data size atype (stats_of s).

(** A local access: the data cache is looked up, and a miss is reported. *)
Definition local_access (s : Sim) (t : Stub) (addr : Z) (rw : bool) (bits r1 r2 : Z) : option (Sim * Stub) :=
  '(hit, s) ← dcache_access perfmodel junk_miss s addr rw r1 r2;
  if hit : bool then Some (s, t)
  else '(_, t) ← access_now s t addr rw (replicate (Z.to_nat (Z.quot bits 8)) 0) bits NonBlockingAccess; Some (s, t).

(** The value of [bits] bits as the [uint32_t] the helper returns. *)
Definition extend (bits : Z) (signed : bool) (v : Z) : Z := u32 (if signed then swrap bits v else v).

Definition helper_hsim_ld (bits : Z) (signed : bool) (s : Sim) (t : Stub) (addr r1 r2 : Z)
  : option (outcome (Z * Sim * Stub)) :=
  '(sh, m) ← memmap_is_shared (memory_map t) addr;
  let t := t <| memory_map := m |> in
  if sh : bool then
    '(d, t) ← access_now s t addr false (le_bytes 4 0) bits BlockingAccess;
    Some (Returned (le_val d, s, t))
  else if memmap_is_local addr then
    d ← guest_load (guest t) addr (Z.to_nat (Z.quot bits 8));
    '(s, t) ← local_access s t addr false bits r1 r2;
    Some (Returned (extend bits signed (le_val d), s, t))
  else Some Exited.

Definition helper_hsim_st (bits : Z) (s : Sim) (t : Stub) (val addr r1 r2 : Z) : option (outcome (Sim * Stub)) :=
  '(sh, m) ← memmap_is_shared (memory_map t) addr;
  let t := t <| memory_map := m |> in
  if sh : bool then
    '(_, t) ← access_now s t addr true (le_bytes 4 val) bits BlockingAccess;
    Some (Returned (s, t))
  else if memmap_is_local addr then
    let t := t <| guest := guest_store (guest t) addr (le_bytes (Z.to_nat (Z.quot bits 8)) val) |> in
    '(s, t) ← local_access s t addr true bits r1 r2;
    Some (Returned (s, t))
  else Some Exited.

Definition helper_hsim_ld64 (s : Sim) (t : Stub) (addr r1 r2 : Z) : option (outcome (Z * Sim * Stub)) :=
  '(sh, m) ← memmap_is_shared (memory_map t) addr;
  let t := t <| memory_map := m |> in
  if sh : bool then
    '(d, t) ← access_now s t addr false (le_bytes 8 0) 64 BlockingAccess;
    Some (Returned (le_val d, s, t))
  else if memmap_is_local addr then
    d ← guest_load (guest t) addr 8;
    '(s, t) ← local_access s t addr false 64 r1 r2;
    Some (Returned (le_val d, s, t))
  else Some Exited.

Definition helper_hsim_st64 (s : Sim) (t : Stub) (val addr r1 r2 : Z) : option (outcome (Sim * Stub)) :=
  '(sh, m) ← memmap_is_shared (memory_map t) addr;
  let t := t <| memory_map := m |> in
  if sh : bool then
    '(_, t) ← access_now s t addr true (le_bytes 8 val) 64 BlockingAccess;
    Some (Returned (s, t))
  else if memmap_is_local addr then
    let t := t <| guest := guest_store (guest t) addr (le_bytes 8 val) |> in
    '(s, t) ← local_access s t addr true 64 r1 r2;
    Some (Returned (s, t))
  else Some Exited.

Definition helper_hsim_isshared (t : Stub) (addr : Z) : option (Z * Stub) :=
  '(sh, m) ← memmap_is_shared (memory_map t) addr;
  Some (if sh : bool then 1 else 0, t <| memory_map := m |>).
(** *** Instructions *)

Variables (junk_inst : Inst) (shl_32 : Z → Z) (ctz_0 : Z) (fuel : nat).

(** A miss of the instruction cache is reported as well. *)
Definition fetch_hsim (s : Sim) (t : Stub) (pc r1 r2 : Z) : option (CacheMissType * Sim * Stub) :=
  if negb (previous_pc s =? fetchbufferalignpc pc) then
    '(miss_type, s) ← icache_access perfmodel junk_miss s pc r1 r2;
    t ← (if decide (miss_type = L1Hit) then Some t
         else '(_, t) ← access_now s t pc false (le_bytes 8 0) (8 * 64) InstAccess; Some t);
    Some (miss_type, s <| previous_pc := fetchbufferalignpc pc |>, t)
  else Some (L1Hit, s, t).

Definition helper_inst_increment_hsim (s : Sim) (t : Stub) (pc code r1 r2 : Z) : option (Sim * Stub) :=
  s ← resolve_branch s pc;
  let s := s <| cur_PC := pc |> in
  '(miss_type, s, t) ← fetch_hsim s t pc r1 r2;
  s ← first_sample perfmodel s;
  s ← finish_sample perfmodel s;
  s ← next_sample perfmodel junk_inst shl_32 ctz_0 fuel s;
  s ← record_inst junk_inst s pc code miss_type;
  let s := s <| pm := (pm s) <| num_insts := u64 (num_insts (pm s) + 1) |> |> in
  cycle ← perfmodel_getSimpleCycle (pm s) (caches s) (predictor s);
  t ← hsim_notice t cycle;
  Some (s, t).
End HsimHelpers.
End Stub.
