(* ===== verification/HsimTheorems.v ===== *)
(** What the stub tells the rest of the system, and what it reads from its files. *)

From Stdlib Require Import ZArith Lia String Ascii.
From stdpp Require Import base tactics numbers option list list_numbers gmap.
From S2P Require Import Prelude Config DList Memmap Ring HsimComm Cache CacheLife CacheTheorems CacheSim Bpred BpredTheorems InstQueue InstQueueRep InstQueueInit Inst InstTheorems Rob TraceAnalyzer PipelineRun BufferManager Record Perfmodel PerfmodelInv Sampling SamplingInv PipelineTheorems SamplingTheorems HsimStub.

(** ** Memory *)

Lemma put_bytes_ok l d : (length d ≤ length l)%nat → put_bytes l 0 d = Some (d ++ drop (length d) l).
Proof. intros. unfold put_bytes. simpl. by rewrite (proj2 (Z.leb_le _ _)) by lia. Qed.

Lemma get_bytes_ok l n : 0 ≤ n ≤ Z.of_nat (length l) → get_bytes l 0 n = Some (take (Z.to_nat n) l).
Proof. intros. unfold get_bytes. simpl. by rewrite (proj2 (Z.leb_le 0 n)), (proj2 (Z.leb_le n _)) by lia. Qed.

Lemma guest_store_other g addr d a : ¬ addr ≤ a < addr + Z.of_nat (length d) → guest_store g addr d !! a = g !! a.
Proof.
  revert g addr. induction d as [|b d IH]; intros g addr Ha; simpl in *; [done|].
  rewrite IH by lia. apply lookup_insert_ne. lia.
Qed.

Lemma guest_store_at g addr d i b : d !! i = Some b → guest_store g addr d !! (addr + Z.of_nat i) = Some b.
Proof.
  revert g addr i. induction d as [|c d IH]; intros g addr i Hi; simpl in *; [done|]. destruct i as [|i].
  - injection Hi as ->. rewrite guest_store_other by lia. replace (addr + Z.of_nat 0) with addr by lia. apply lookup_insert_eq.
  - simpl in Hi. replace (addr + Z.of_nat (S i)) with (addr + 1 + Z.of_nat i) by lia. by apply IH.
Qed.

Lemma guest_load_store g addr d : guest_load (guest_store g addr d) addr (length d) = Some d.
Proof.
  unfold guest_load. apply mapM_Some. apply Forall2_same_length_lookup_2; [by rewrite length_seqZ, Nat2Z.id|].
  intros i x y Hx Hy. apply lookup_seqZ in Hx as [-> _]. rewrite Z.add_0_l. by apply guest_store_at.
Qed.

(** ** Elapsed cycles *)

Definition reported (t : Stub) : Z := foldr (λ p z, p_cycle p + z) 0 (outbox t).

Inductive hevent :=
  | HAccess (cur_cycle address : Z) (rw : bool) (data : list Z) (size : Z) (atype : AccessType) (st : stats)
  | HNotice (cur_cycle : Z).

Definition h_cycle (e : hevent) : Z := match e with HAccess c _ _ _ _ _ _ | HNotice c => c end.

Section Stub.
Variable junk : Packet.

Definition do_hevent (t : Stub) (e : hevent) : option Stub :=
  match e with
  | HAccess c a rw d n ty st => '(_, t) ← hsim_access junk t c a rw d n ty st; Some t
  | HNotice c => hsim_notice junk t c
  end.

Fixpoint do_hevents (t : Stub) (es : list hevent) : option Stub :=
  match es with
  | [] => Some t
  | e :: es => t ← do_hevent t e; do_hevents t es
  end.

(** When the last packet was due, and how many accesses happened without any time elapsed
    since then. *)
Fixpoint sync (last period : Z) (es : list hevent) : Z * Z :=
  match es with
  | [] => (last, 0)
  | HAccess c _ _ _ _ _ _ :: es => let '(l, n) := sync c period es in (l, n + if c =? last then 1 else 0)
  | HNotice c :: es => sync (if period <? c - last then c else last) period es
  end.

(** Cycles do not decrease. *)
Fixpoint in_time (last : Z) (es : list hevent) : Prop :=
  match es with
  | [] => True
  | e :: es => last ≤ h_cycle e < 2 ^ 64 ∧ in_time (h_cycle e) es
  end.

(** An access to a region of the other side. *)
Definition event_out (rs : list region) (e : hevent) : Prop :=
  match e with
  | HAccess _ a _ d n _ _ =>
      spec_type rs a ∈ [MEM_SHARED_C; MEM_SHARED_NC; MEM_VIRTUAL; MEM_SCRATCHPAD] ∧ 0 ≤ n ∧ Z.min 8 (Z.quot n 8) ≤ Z.of_nat (length d)
  | HNotice _ => True
  end.

(** The stub is connected, its map stands for [rs], and at least [n] replies will come. *)
Record online (t : Stub) (rs : list region) (n : nat) : Prop := {
  on_connected : connected t = true;
  on_map : ∃ xs ys, map_rep (memory_map t) ys ∧ xs ≡ₚ ys ∧ disjoint_regions xs ∧ xs.*2 = rs;
  on_replies : (n ≤ length (inbox t))%nat;
  on_data : Forall (λ r, length (p_data (re_packet r)) = 8%nat) (inbox t);
}.

Lemma get_type_ok t rs n a :
  online t rs n → ∃ m, memmap_get_type (memory_map t) a = Some (spec_type rs a, m) ∧ online (t <| memory_map := m |>) rs n.
Proof.
  intros [Hc (xs & ys & Hm & Hp & Hd & Hrs) Hr Hda]. destruct (ask_ok _ xs ys (QType a) Hm Hp Hd) as (m & ys' & E & Hm' & Hp').
  simpl in E. destruct (memmap_get_type (memory_map t) a) as [[ty m1]|]; [|done]. simpl in E. injection E as -> ->.
  exists m. rewrite Hrs. split; [done|]. split; try done. by exists xs, ys'.
Qed.

Lemma is_shared_ok t rs n a :
  online t rs n → ∃ m, memmap_is_shared (memory_map t) a = Some (spec_shared rs a, m) ∧ online (t <| memory_map := m |>) rs n.
Proof.
  intros [Hc (xs & ys & Hm & Hp & Hd & Hrs) Hr Hda]. destruct (ask_ok _ xs ys (QShared a) Hm Hp Hd) as (m & ys' & E & Hm' & Hp').
  simpl in E. destruct (memmap_is_shared (memory_map t) a) as [[ty m1]|]; [|done]. simpl in E. injection E as -> ->.
  exists m. rewrite Hrs. split; [done|]. split; try done. by exists xs, ys'.
Qed.

Context (Hjunk : length (p_data junk) = 8%nat).

Lemma foldr_cycles l p : foldr (λ p z, p_cycle p + z) 0 (l ++ [p]) = foldr (λ p z, p_cycle p + z) 0 l + p_cycle p.
Proof. induction l; simpl; lia. Qed.

Lemma mem_access_ok t rs n cycle a rw d size ty :
  online t rs (S n) → 0 ≤ size → Z.min 8 (Z.quot size 8) ≤ Z.of_nat (length d) →
  ∃ d' t', mem_access junk t cycle a rw d size ty = Some (d', t') ∧ online t' rs n ∧
    reported t' = reported t + cycle ∧ tqsim_cpu_cycle t' = tqsim_cpu_cycle t ∧
    comm_notice_period t' = comm_notice_period t ∧
    (rw = false → ty = BlockingAccess → ∃ r l, inbox t = r :: l ∧
       d' = take (Z.to_nat (Z.min 8 (Z.quot size 8))) (p_data (re_packet r)) ++ drop (Z.to_nat (Z.min 8 (Z.quot size 8))) d).
Proof.
  intros [Hc Hm Hr Hd] Hs Hl. unfold mem_access. cbv zeta.
  set (k := if 8 <? Z.quot size 8 then 8 else Z.quot size 8).
  assert (Hk : 0 ≤ k ≤ 8 ∧ k ≤ Z.of_nat (length d)).
  { pose proof (Z.quot_pos size 8). unfold k. destruct (Z.ltb_spec 8 (Z.quot size 8)); lia. }
  set (pkt := junk <| p_cycle := cycle |> <| p_address := a |> <| p_size := k |> <| p_type := _ |> <| p_flags := _ |>).
  assert (Hpk : ∃ q, (if rw then d0 ← get_bytes d 0 k; d0 ← put_bytes (p_data pkt) 0 d0; Some (pkt <| p_data := d0 |>) else Some pkt) = Some q ∧
    p_cycle q = cycle ∧ p_flags q = access_num ty).
  { destruct rw; [|by exists pkt]. rewrite get_bytes_ok by lia. simpl. rewrite put_bytes_ok.
    - simpl. by eexists.
    - change (p_data pkt) with (p_data junk). rewrite length_take, Hjunk. lia. }
  destruct Hpk as (q & -> & Hq & Hfl). cbn [mbind option_bind]. unfold comm_send. rewrite Hc. cbn [mbind option_bind].
  set (t1 := t <| outbox := outbox t ++ [q] |>).
  assert (R1 : reported t1 = reported t + cycle) by (unfold reported, t1; simpl; by rewrite foldr_cycles, Hq).
  assert (Ek : k = Z.min 8 (Z.quot size 8)) by (unfold k; destruct (Z.ltb_spec 8 (Z.quot size 8)); lia).
  destruct (_ && _) eqn:Eb.
  - unfold comm_recv. change (connected t1) with (connected t). change (inbox t1) with (inbox t). rewrite Hc.
    destruct (inbox t) as [|r rs'] eqn:Ein; [simpl in Hr; lia|]. cbn [mbind option_bind].
    apply Forall_cons in Hd as [Hd Hds]. rewrite get_bytes_ok by lia. simpl. rewrite put_bytes_ok by (rewrite length_take; lia). simpl.
    eexists _, _. split; [done|]. split; [split; simpl; try done; simpl in Hr; lia|]. split; [done|]. split; [done|]. split; [done|].
    intros _ _. exists r, rs'. split; [done|]. rewrite <-Ek, length_take. f_equal. f_equal. lia.
  - eexists _, t1. split; [done|]. split; [split; simpl; try done; lia|]. split; [done|]. split; [done|]. split; [done|].
    intros -> ->. by rewrite Hfl in Eb.
Qed.

Lemma do_hevent_ok t rs n e :
  online t rs (S n) → event_out rs e → tqsim_last_sync_cycles t ≤ h_cycle e < 2 ^ 64 → 0 ≤ tqsim_last_sync_cycles t →
  0 ≤ comm_notice_period t < 2 ^ 31 →
  ∃ t', do_hevent t e = Some t' ∧ online t' rs n ∧ comm_notice_period t' = comm_notice_period t ∧
    (tqsim_last_sync_cycles t', reported t' - reported t) =
    match e with
    | HAccess c _ _ _ _ _ _ => (c, c - tqsim_last_sync_cycles t + if c =? tqsim_last_sync_cycles t then 1 else 0)
    | HNotice c => if comm_notice_period t <? c - tqsim_last_sync_cycles t then (c, c - tqsim_last_sync_cycles t)
                   else (tqsim_last_sync_cycles t, 0)
    end.
Proof.
  intros Hon He Hc H0 Hp. destruct e as [c a rw d size ty st|c]; simpl in *.
  - destruct He as (Hty & Hs & Hl). unfold hsim_access. cbv zeta.
    set (t0 := t <| tqsim_cpu_cycle := c |>). assert (Hon0 : online t0 rs (S n)) by (destruct Hon; by split).
    destruct (get_type_ok t0 rs (S n) a Hon0) as (m & -> & Hon1). cbn [mbind option_bind].
    rewrite bool_decide_true by done. set (t1 := t0 <| memory_map := m |>) in *.
    destruct (mem_access_ok t1 rs n (delta t0 c) a rw d size ty Hon1 Hs Hl) as (d' & t' & -> & Hon' & Hr & Hcy & Hpe & _).
    cbn [mbind option_bind]. eexists. split; [done|]. split; [destruct Hon'; by split|]. split; [done|]. simpl.
    rewrite Hcy. f_equal. change (reported t1) with (reported t) in Hr. unfold reported in *. simpl. rewrite Hr. unfold delta. simpl.
    destruct (Z.ltb_spec (tqsim_last_sync_cycles t) c), (Z.eqb_spec c (tqsim_last_sync_cycles t)); lia.
  - unfold hsim_notice. cbv zeta. simpl.
    assert (E : u64 (c - tqsim_last_sync_cycles t) = c - tqsim_last_sync_cycles t) by (apply Z.mod_small; lia).
    assert (E' : u64 (comm_notice_period t) = comm_notice_period t) by (apply Z.mod_small; lia). rewrite E, E'.
    destruct (Z.ltb_spec (comm_notice_period t) (c - tqsim_last_sync_cycles t)).
    + rewrite (proj2 (Z.ltb_lt _ c)) by lia. simpl. unfold comm_sync, comm_send. simpl. rewrite (on_connected _ _ _ Hon). simpl.
      eexists. split; [done|]. split; [destruct Hon; split; simpl; try done; lia|]. split; [done|].
      unfold reported. simpl. rewrite foldr_cycles. simpl. f_equal. lia.
    + rewrite andb_false_r. eexists. split; [done|]. split; [destruct Hon; split; simpl; try done; lia|]. split; [done|]. f_equal. unfold reported. simpl. lia.
Qed.

Lemma do_hevents_ok es t rs n :
  online t rs (length es + n) → Forall (event_out rs) es → in_time (tqsim_last_sync_cycles t) es → 0 ≤ tqsim_last_sync_cycles t →
  0 ≤ comm_notice_period t < 2 ^ 31 →
  ∃ t', do_hevents t es = Some t' ∧ online t' rs n ∧
    tqsim_last_sync_cycles t' = (sync (tqsim_last_sync_cycles t) (comm_notice_period t) es).1 ∧
    reported t' = reported t + (tqsim_last_sync_cycles t' - tqsim_last_sync_cycles t) +
      (sync (tqsim_last_sync_cycles t) (comm_notice_period t) es).2.
Proof.
  revert t. induction es as [|e es IH]; intros t Hon Ho Hin H0 Hp; [exists t; simpl; split_and!; try done; lia|].
  apply Forall_cons in Ho as [He Ho]. simpl in Hin. destruct Hin as [Hc Hin].
  destruct (do_hevent_ok t rs (length es + n) e Hon He Hc H0 Hp) as (t1 & E & Hon1 & Hp1 & Heq). pose proof (f_equal fst Heq) as Hl1. pose proof (f_equal snd Heq) as Hr1. cbn [fst snd] in Hl1, Hr1. clear Heq.
  assert (Hin1 : in_time (tqsim_last_sync_cycles t1) es ∧ 0 ≤ tqsim_last_sync_cycles t1).
  { assert (Hle : 0 ≤ tqsim_last_sync_cycles t1 ≤ h_cycle e) by (destruct e; simpl in *; [|case_match]; simpl in *; lia).
    split; [|lia]. destruct es as [|e' es]; [done|]. simpl in *. destruct Hin. split; [lia|done]. }
  rewrite <-Hp1 in Hp. destruct (IH t1 Hon1 Ho (proj1 Hin1) (proj2 Hin1) Hp) as (t' & E' & Hon' & Hl' & Hr').
  exists t'. simpl. rewrite E. cbn [mbind option_bind]. split; [done|]. split; [done|]. rewrite Hp1 in Hl', Hr'.
  destruct e as [c a rw d sz ty st|c]; simpl in *.
  - rewrite Hl1 in *. destruct (sync c (comm_notice_period t) es) as [l k]. simpl in *. split; [done|]. lia.
  - destruct (comm_notice_period t <? c - tqsim_last_sync_cycles t); simpl in *; rewrite ?Hl1 in *; split; try done; lia.
Qed.

(** C20: the rest of the system is told about every simulated cycle exactly once: for any
    sequence of accesses to shared regions and periodic notices, the cycles in the packets that
    were sent add up to the time of the last one, plus one for every access before which no
    time had elapsed; every access is answered. *)
Theorem cycles_reported es t rs :
  online t rs (length es) → Forall (event_out rs) es → in_time (tqsim_last_sync_cycles t) es → 0 ≤ tqsim_last_sync_cycles t →
  0 ≤ comm_notice_period t < 2 ^ 31 →
  ∃ t', do_hevents t es = Some t' ∧
    tqsim_last_sync_cycles t' = (sync (tqsim_last_sync_cycles t) (comm_notice_period t) es).1 ∧
    reported t' = reported t + (tqsim_last_sync_cycles t' - tqsim_last_sync_cycles t) +
      (sync (tqsim_last_sync_cycles t) (comm_notice_period t) es).2.
Proof.
  intros Hon Ho Hin H0 Hp. destruct (do_hevents_ok es t rs 0) as (t' & E & _ & H1 & H2); [by rewrite Nat.add_0_r|done..|]. by exists t'.
Qed.

(** An access to one of the system registers moves the time of the last synchronisation
    without sending anything, so the cycles before it are never reported. *)
Theorem register_read_loses_cycles t c i d st :
  connected t = true → length (hsim_register t) = 32%nat → 0 ≤ i < 7 → length d = 4%nat → tqsim_last_sync_cycles t < c →
  ∃ d' t', hsim_access junk t c (SYS_REG_BASE + 4 * i) false d 32 BlockingAccess st = Some (d', t') ∧
    reported t' = reported t ∧ outbox t' = outbox t ∧ tqsim_last_sync_cycles t' = c.
Proof.
  intros Hc Hl Hi Hd Ht. unfold hsim_access, memmap_get_type. cbv zeta.
  assert (Hsr : is_sys_reg (SYS_REG_BASE + 4 * i) = true).
  { unfold is_sys_reg, NUM_SYS_REG. apply andb_true_iff. rewrite Z.leb_le, Z.ltb_lt. lia. }
  rewrite Hsr. cbn [mbind option_bind]. rewrite (bool_decide_false (MEM_INTERNAL ∈ _)) by set_solver. rewrite bool_decide_true by done.
  unfold hsim_internal_access. cbv zeta. simpl connected. rewrite Hc.
  assert (Hidx : u32 (SYS_REG_BASE + 4 * i - SYS_REG_BASE) / 4 = i).
  { replace (SYS_REG_BASE + 4 * i - SYS_REG_BASE) with (i * 4) by lia. unfold u32, wrap. rewrite Z.mod_small by lia. apply Z.div_mul. lia. }
  rewrite Hidx. rewrite (proj2 (Z.eqb_neq i (NUM_SYS_REG - 1))) by (unfold NUM_SYS_REG; lia). cbn [mbind option_bind negb].
  change (p_size _) with 4. simpl hsim_register. unfold get_bytes.
  rewrite (proj2 (Z.leb_le 0 (4 * i))), (proj2 (Z.leb_le (4 * i + 4) _)) by lia. simpl.
  rewrite put_bytes_ok by (rewrite length_take, length_drop; lia). simpl. eexists _, _. split; [done|]. done.
Qed.

(** ** Loads *)

Section Loads.
Variables (perfmodel : perfmodel_config) (junk_miss : CacheMissType).

(** A signed byte load from a shared region does not sign-extend: the helper returns the
    byte that was read, while the same load from local memory returns the sign-extended value. *)
Theorem shared_signed_load s t rs addr c b d l r1 r2 :
  online t rs 1 → spec_type rs addr ∈ [MEM_SHARED_C; MEM_SHARED_NC; MEM_SCRATCHPAD] →
  perfmodel_getSimpleCycle (pm s) (caches s) (predictor s) = Some c →
  inbox t = l → p_data ∘ re_packet <$> head l = Some (b :: d) → 128 ≤ b < 256 →
  ∃ t', helper_hsim_ld junk perfmodel junk_miss 8 true s t addr r1 r2 = Some (Returned (b, s, t')) ∧
    extend 8 true b = b + (2 ^ 32 - 2 ^ 8).
Proof.
  intros Hon Hty Hcy Hin Hh Hb. unfold helper_hsim_ld.
  assert (Hsh : spec_shared rs addr = true).
  { unfold spec_shared, spec_type in *. destruct (is_sys_reg addr); [done|]. simpl. destruct (type_in rs addr) as [ty|]; simpl in *.
    - unfold shared_type. apply bool_decide_true. set_solver.
    - exfalso. set_solver. }
  destruct (is_shared_ok t rs 1 addr Hon) as (m & -> & Hon1). cbn [mbind option_bind]. rewrite Hsh.
  set (t1 := t <| memory_map := m |>) in *. unfold access_now. rewrite Hcy. cbn [mbind option_bind]. unfold hsim_access. cbv zeta.
  set (t2 := t1 <| tqsim_cpu_cycle := c |>). assert (Hon2 : online t2 rs 1) by (destruct Hon1; by split).
  destruct (get_type_ok t2 rs 1 addr Hon2) as (m' & -> & Hon3). cbn [mbind option_bind]. rewrite bool_decide_true by set_solver.
  set (t3 := t2 <| memory_map := m' |>) in *.
  destruct (mem_access_ok t3 rs 0 (delta t2 c) addr false (le_bytes 4 0) 8 BlockingAccess Hon3 ltac:(lia) ltac:(vm_compute; discriminate))
    as (d' & t4 & -> & _ & _ & _ & _ & Hd). cbn [mbind option_bind]. destruct (Hd eq_refl eq_refl) as (r & l' & El & ->).
  change (inbox t3) with (inbox t) in El. rewrite Hin in El. subst l. rewrite El in Hh. simpl in Hh. injection Hh as Hh. rewrite Hh.
  change (Z.to_nat (Z.min 8 (Z.quot 8 8))) with 1%nat. eexists. split.
  - replace (le_val (take 1 (b :: d) ++ drop 1 (le_bytes 4 0))) with b.
    2:{ change (drop 1 (le_bytes 4 0)) with [0; 0; 0]. change (take 1 (b :: d)) with [b]. cbn [app le_val]. lia. }
    reflexivity.
  - unfold extend, swrap, u32, wrap. change (2 ^ (8 - 1)) with 128. change (2 ^ 8) with 256.
    rewrite <-(Z.mod_add (b + 128) (-1) 256), (Z.mod_small (b + 128 + -1 * 256)) by lia.
    rewrite <-(Z.mod_add _ 1), Z.mod_small; lia.
Qed.
End Loads.
End Stub.

(** ** The environment file *)

(** The region a line describes. *)
Definition region_line (line : string) : option region :=
  if is_comment line then None
  else
    let '(key, value) := scan_line line in
    value ← value;
    if (key =? "Memorymap")%string then
      match split_colons value with
      | [a; b; c] => Some (Region (u32 (atoi a)) (u32 (atoi b)) 0 (memory_type (u32 (atoi c))))
      | _ => None
      end
    else None.

(** A memory map entry has three parts. *)
Definition line_fine (line : string) : bool :=
  let '(key, value) := scan_line line in
  match value with
  | Some v => if (key =? "Memorymap")%string then (length (split_colons v) =? 3)%nat else true
  | None => true
  end.

Lemma env_line_ok s line xs :
  map_rep (memory_map s) xs → is_comment line = false → line_fine line = true →
  ∃ s' xs', env_line s line = Some s' ∧ map_rep (memory_map s') (xs ++ xs') ∧ xs'.*2 = option_list (region_line line).
Proof.
  intros Hm Hc Hf. unfold env_line, region_line, line_fine in *. rewrite Hc. destruct (scan_line line) as [key value].
  destruct value as [v|]; simpl; [|exists s, []; by rewrite app_nil_r].
  destruct (key =? "NoticePeriod")%string eqn:E1.
  { apply String.eqb_eq in E1 as ->. simpl. eexists _, []. rewrite app_nil_r. done. }
  destruct (key =? "Memorymap")%string eqn:E2.
  - destruct (split_colons v) as [|a [|b [|c [|? ?]]]]; try done.
    set (r := Region _ _ _ _). destruct (add_ok (memory_map s) xs r None Hm) as (m & E & Hm').
    unfold malloc_region in E. cbn [fst snd] in E. rewrite E. simpl.
    eexists _, [(region_brk (memory_map s), r)]. done.
  - destruct (key =? "ProcessorId")%string; eexists _, []; by rewrite app_nil_r.
Qed.

Lemma env_loop_hangs fuel s buf lines :
  Forall (λ l, line_fine l = true) lines → is_comment (default buf (last lines)) = true → env_loop fuel s buf lines = None.
Proof.
  revert s buf lines. induction fuel as [|fuel IH]; intros s buf lines HF Hl; [done|]. simpl.
  destruct lines as [|l lines].
  { simpl in Hl. rewrite Hl. by apply IH. }
  apply Forall_cons in HF as [_ HF].
  assert (Hl' : is_comment (default l (last lines)) = true) by (rewrite last_cons in Hl; by destruct (last lines)).
  destruct (is_comment l); [by apply IH|]. destruct (env_line s l); [|done]. by apply IH.
Qed.

Lemma env_loop_ok lines s buf xs :
  map_rep (memory_map s) xs → Forall (λ l, line_fine l = true) lines → is_comment (default buf (last lines)) = false →
  ∃ s' xs', env_loop (S (length lines)) s buf lines = Some s' ∧ map_rep (memory_map s') (xs ++ xs') ∧ xs'.*2 = omap region_line lines.
Proof.
  revert s buf xs. induction lines as [|l lines IH]; intros s buf xs Hm HF Hl.
  { simpl in *. rewrite Hl. exists s, []. by rewrite app_nil_r. }
  apply Forall_cons in HF as [Hf HF].
  assert (Hl' : is_comment (default l (last lines)) = false) by (rewrite last_cons in Hl; by destruct (last lines)).
  change (env_loop (S (length (l :: lines))) s buf (l :: lines)) with
    (if is_comment l then env_loop (S (length lines)) s l lines else s ← env_line s l; env_loop (S (length lines)) s l lines).
  destruct (is_comment l) eqn:Ec.
  - destruct (IH s l xs Hm HF Hl') as (s' & xs' & E & Hm' & Ex). exists s', xs'. split; [done|]. split; [done|].
    simpl. unfold region_line at 1. by rewrite Ec.
  - destruct (env_line_ok s l xs Hm Ec Hf) as (s1 & xs1 & -> & Hm1 & Ex1). cbn [mbind option_bind].
    destruct (IH s1 l _ Hm1 HF Hl') as (s' & xs' & E & Hm' & Ex). exists s', (xs1 ++ xs'). rewrite app_assoc.
    split; [done|]. split; [done|]. rewrite fmap_app, Ex1, Ex. simpl. by destruct (region_line l).
Qed.

(** Reading the environment file ends exactly when its last line is not a comment: then
    all regions it lists are in the memory map, in order; a file that ends in a comment line is
    read forever, because [fgets] leaves the comment in the buffer at the end of the file. *)
Theorem env_file_read lines s buf xs :
  map_rep (memory_map s) xs → Forall (λ l, line_fine l = true) lines → lines ≠ [] →
  if is_comment (default buf (last lines)) then ∀ fuel, env_loop fuel s buf lines = None
  else ∃ s' xs', env_loop (S (length lines)) s buf lines = Some s' ∧ map_rep (memory_map s') (xs ++ xs') ∧
         xs'.*2 = omap region_line lines.
Proof.
  intros Hm HF _. destruct (is_comment _) eqn:E; [intros fuel; by apply env_loop_hangs|by apply env_loop_ok].
Qed.

(** ** Local memory *)

Section Local.
Context (junk : Packet) (perfmodel : perfmodel_config) (Hwk : workable perfmodel).
Context (junk_miss : CacheMissType) (junk_inst : Inst) (shl_32 : Z → Z) (ctz_0 : Z) (fuel : nat) (base : Heap).
Context (Hjs : length (src_reg junk_inst) = 16%nat) (Hjd : length (dst_reg junk_inst) = 16%nat)
  (Hja : length (eff_addr junk_inst) = 16%nat).

(** An address of local memory that no region of the other side covers. *)
Definition private (rs : list region) (addr : Z) : Prop :=
  0 ≤ addr < MEM_LOCAL_SIZE ∧ type_in rs addr ∉ [Some MEM_SHARED_C; Some MEM_SHARED_NC; Some MEM_VIRTUAL; Some MEM_SCRATCHPAD; Some MEM_INTERNAL].

Lemma private_facts rs addr :
  private rs addr → spec_shared rs addr = false ∧ memmap_is_local addr = true ∧
    spec_type rs addr ∉ [MEM_SHARED_C; MEM_SHARED_NC; MEM_VIRTUAL; MEM_SCRATCHPAD] ∧ spec_type rs addr ≠ MEM_INTERNAL.
Proof.
  intros [Ha Ht]. assert (Hs : is_sys_reg addr = false).
  { unfold is_sys_reg, MEM_LOCAL_SIZE, SYS_REG_BASE in *. rewrite (proj2 (Z.leb_gt _ addr)) by lia. done. }
  unfold spec_shared, spec_type. rewrite Hs. simpl. split; [|split; [|split]].
  - destruct (type_in rs addr) as [t|]; [|done]. simpl. apply bool_decide_false. destruct t; set_solver.
  - apply Z.ltb_lt. unfold MEM_LOCAL_BASE. lia.
  - destruct (type_in rs addr) as [t|]; simpl; [destruct t; set_solver|set_solver].
  - destruct (type_in rs addr) as [t|]; simpl; [destruct t; set_solver|done].
Qed.

Lemma local_access_ok n k nb ni da s t rs addr rw bits r1 r2 :
  counts perfmodel base n k nb ni s → phase perfmodel shl_32 ctz_0 da s → n < 2 ^ 30 → 0 ≤ ni < 2 ^ 31 → private rs addr →
  0 ≤ r1 → 0 ≤ r2 → da < 16 → online t rs 0 →
  ∃ s' t', local_access junk perfmodel junk_miss s t addr rw bits r1 r2 = Some (s', t') ∧
    counts perfmodel base (n + 1) k nb ni s' ∧ phase perfmodel shl_32 ctz_0 (da + 1) s' ∧ online t' rs 0 ∧ guest t' = guest t.
Proof.
  intros Hc Hp Hn Hni Hpr Hr1 Hr2 Hda Hon. destruct (private_facts rs addr Hpr) as (_ & _ & Hty & Hint). destruct Hpr as [Ha _].
  unfold local_access.
  destruct (dcache_access_ok perfmodel junk_miss junk_inst shl_32 ctz_0 fuel base Hjs Hjd Hja n k nb ni da s addr rw r1 r2 Hc Hp Hn Hni ltac:(lia) Hr1 Hr2 Hda)
    as (hit & s' & -> & Hc' & Hp'). cbn [mbind option_bind]. destruct hit; [by exists s', t|].
  unfold access_now. destruct (counts_cycles perfmodel junk_inst fuel base Hjs Hjd Hja _ _ _ _ _ Hc' ltac:(lia) Hni) as [_ (c & -> & _)]. cbn [mbind option_bind]. unfold hsim_access. cbv zeta.
  set (t1 := t <| tqsim_cpu_cycle := c |>). assert (Hon1 : online t1 rs 0) by (destruct Hon; by split).
  destruct (get_type_ok t1 rs 0 addr Hon1) as (m & -> & Hon2). cbn [mbind option_bind].
  rewrite !bool_decide_false by done. cbn [mbind option_bind]. eexists s', _. split; [done|]. split; [done|]. split; [done|].
  split; [destruct Hon2; by split|done].
Qed.

End Local.

(** ** Examples *)

Definition example_region : region := Region 0x40000000 4096 0 MEM_SHARED_C.
Definition example_map : Memmap := MkMap {[1%positive := MkRegion example_region None None]} 2 (Some 1%positive).
Definition example_reply : reply := MkReply (MkPacket packet_read 4 0 0 [200; 1; 0; 0; 0; 0; 0; 0] 1) (replicate 32 0).
Definition example_stub : Stub :=
  MkStub true 0 0 0 500 (replicate 32 0) example_map ∅ [] [example_reply; example_reply; example_reply] [].

Lemma example_online n : (n ≤ 3)%nat → online example_stub [example_region] n.
Proof.
  intros Hn. split; [done| |done|by repeat constructor]. exists [(1%positive, example_region)], [(1%positive, example_region)].
  split; [|split; [done|split; [|done]]].
  - split; [done| |apply NoDup_singleton| |].
    + exists None. split; [|done]. eexists. split; [reflexivity|done].
    + intros p. unfold example_stub, example_map. cbn [memory_map regions]. rewrite dom_singleton_L. set_solver.
    + intros p ->%list_elem_of_singleton. done.
  - intros x y addr ->%list_elem_of_singleton ->%list_elem_of_singleton. done.
Qed.

Lemma cycles_reported_witness : ∃ t',
  do_hevents example_packet example_stub
    [HNotice 200; HAccess 900 0x40000010 false [0; 0; 0; 0] 32 BlockingAccess (MkStats 0 0 0); HNotice 2000] = Some t' ∧
  reported t' = 2000.
Proof.
  destruct (cycles_reported example_packet eq_refl
    [HNotice 200; HAccess 900 0x40000010 false [0; 0; 0; 0] 32 BlockingAccess (MkStats 0 0 0); HNotice 2000] example_stub [example_region]
    (example_online 3 ltac:(done))) as (t' & H1 & H2 & H3).
  - repeat constructor; vm_compute; try done; by left.
  - simpl. lia.
  - done.
  - simpl. lia.
  - exists t'. split; [exact H1|]. rewrite H3, H2. vm_compute. reflexivity.
Defined.

Lemma register_read_loses_cycles_witness : ∃ d' t',
  hsim_access example_packet example_stub 1234 (SYS_REG_BASE + 4 * 2) false [0; 0; 0; 0] 32 BlockingAccess (MkStats 0 0 0) = Some (d', t') ∧
  outbox t' = [] ∧ tqsim_last_sync_cycles t' = 1234.
Proof.
  destruct (register_read_loses_cycles example_packet eq_refl example_stub 1234 2 [0; 0; 0; 0] (MkStats 0 0 0) eq_refl eq_refl ltac:(lia) eq_refl ltac:(simpl; lia))
    as (d' & t' & H1 & _ & H2 & H3).
  exists d', t'. exact (conj H1 (conj H2 H3)).
Defined.

Definition example_sim : Sim :=
  sim0 w_heap {| il1_cache := None; dl1_cache := None; ul2_cache := None |} (bpredsim_initialize (λ _, 0)) example_pm (MkBM zero_ta None None).

Definition example_now : Z :=
  Eval vm_compute in default 0 (perfmodel_getSimpleCycle (pm example_sim) (caches example_sim) (predictor example_sim)).

Lemma example_now_ok : perfmodel_getSimpleCycle (pm example_sim) (caches example_sim) (predictor example_sim) = Some example_now.
Proof. vm_compute. reflexivity. Qed.

Lemma shared_signed_load_witness : ∃ t',
  helper_hsim_ld example_packet loaded_config L1Hit 8 true example_sim example_stub 0x40000010 0 0 = Some (Returned (200, example_sim, t')) ∧
  extend 8 true 200 = 0xFFFFFFC8.
Proof.
  refine (shared_signed_load example_packet eq_refl loaded_config L1Hit example_sim example_stub [example_region] 0x40000010 example_now 200
    [1; 0; 0; 0; 0; 0; 0] _ 0 0 (example_online 1 ltac:(lia)) _ example_now_ok eq_refl eq_refl ltac:(lia)).
  vm_compute. by left.
Defined.

Definition example_env : list string :=
  ["# regions
"; "NoticePeriod=1000
"; "Memorymap=1342177280:65536:3
"; "ProcessorId=2
"]%string.

Lemma env_file_read_witness : ∃ s' xs',
  env_loop 5 example_stub "" example_env = Some s' ∧ map_rep (memory_map s') ([(1%positive, example_region)] ++ xs') ∧
  xs'.*2 = [Region 0x50000000 65536 0 MEM_SCRATCHPAD].
Proof.
  refine (env_file_read example_env example_stub "" [(1%positive, example_region)] _ _ _).
  - destruct (on_map _ _ _ (example_online 0 ltac:(lia))) as (xs & ys & Hm & _). split; [done| |apply NoDup_singleton| |].
    + exists None. split; [|done]. eexists. split; [reflexivity|done].
    + intros p. unfold example_stub, example_map. cbn [memory_map regions]. rewrite dom_singleton_L. set_solver.
    + intros p ->%list_elem_of_singleton. done.
  - by repeat constructor.
  - done.
Defined.

